(* ===== verification/_CoqProject ===== *)
-Q . S2P
Prelude.v
Net.v
Types.v
Keys.v
Wire.v
Transport.v
Kad.v
KadMetric.v
KadFacts.v
KadTreeFacts.v
KadTable.v
KadMap.v
Buffer.v
PeerList.v
Global.v
Session.v
Server.v
Connect.v
SessionFacts.v
TaskInvariant.v
SessionProps.v
RelayProps.v
ServerProps.v
StableProps.v
RelayNet.v
Locks.v
ConnectProps.v
NodeProps.v
Gossip.v
Timers.v
Apps.v
QuicConfig.v
Udp.v
