(* ===== verification/Prelude.v ===== *)
(** * Chamomile: a verification development

    Chamomile is a peer-to-peer library: a node has an identity (an Ed25519 key
    and the hash of its public half), listens on TCP or QUIC, keeps the peers it
    meets in a Kademlia table, opens stable connections that the application asks
    for, relays messages for other peers, and hands sealed application data from
    one peer to another.  Paths below are relative to the repository.

    ** Parts and files

    - [Prelude] (this file): results with error and panic, machine integers
      ([uint w], a [Z] with its width), arrays and slices with their panics,
      little- and big-endian bytes, shared lemmas and tactics.
    - [Net]: what the sources use of [std::net] and [std::str] (addresses, their
      parser and printer, number parsing, splitting, slicing of UTF-8 text).
    - [Types]: types/src/types.rs, types/src/peer.rs, the [delivery_split!] macro.
    - [Keys]: src/keys.rs.  The cryptographic crates are the class [CryptoLib] with
      the laws [CryptoLaws], of which the one on signatures speaks of generated key
      pairs only ([keypair_genuine]); what the random generator draws is an argument.
    - [Wire]: [EndpointMessage] and [RemotePublic] (src/transports.rs), [DHT],
      [Hole] and [nat] (src/hole_punching.rs), [CoreData] (src/session.rs).
    - [Transport]: the handshake and the two halves of [process_stream] in
      src/transports/tcp.rs and src/transports/quic.rs; a TCP stream is the pieces
      its reads give, how much of a length prefix a [write] takes is an argument
      ([SocketWrite]), quinn's [read_to_end] is a parameter.
    - [Kad]: src/kad.rs, over the class [BitVecLib] of the [bit_vec] crate with the
      laws [BitVecLaws]; [KadMetric], [KadFacts], [KadTreeFacts], [KadTable] and
      [KadMap] hold its proofs: the XOR metric, one node, the tree, the table, and
      the finite map the table refines.
    - [Buffer]: src/buffer.rs.  [PeerList]: src/peer_list.rs.
    - [Global]: src/global.rs, the message types of types/src/message.rs and the
      monad [M] in which the tasks are written.
    - [Session]: src/session.rs, every handler, the loop, closing, upgrading and
      the two ways of opening a stable connection; proofs in [SessionFacts] (a
      program logic: [safe] and [keeps]), [SessionProps] and [RelayProps].
    - [StableProps]: a connection that becomes stable, through both nodes.
    - [RelayNet]: a network of nodes and the journey of a relayed message through it.
    - [Locks]: the request loop of the server and the loop of a session as two tasks
      that stop at every wait for the lock of the peer list and for the channel.
    - [Server]: src/server.rs and src/config.rs, start-up and the two loops; proofs
      in [ServerProps].
    - [TaskInvariant]: the class [WorldInvariant] of properties of the shared state
      that every task keeps; [NodeProps]: the node as a transition system over all
      tasks, and three such invariants.
    - [Connect]: [start], the listeners, the dialling tasks and [process_stream] of
      src/transports/tcp.rs and src/transports/quic.rs; proofs in [ConnectProps],
      against the class [Transporting] with the laws [TransportLaws] that both
      transports satisfy.
    - [QuicConfig]: the configuration half of src/transports/quic.rs, over the class
      [QuicLib] of quinn, rustls and rcgen with the laws [QuicLaws].
    - [Udp]: src/transports/udp.rs, which is not compiled.
    - [Gossip]: what a node tells others of its peers ([help_dht], broadcasts).
    - [Timers]: the [select!] of the two loops with time.
    - [Apps]: [prelude::start] (src/lib.rs) and the programs of examples/.

    A definition has the name of the function it translates, with the type in
    front where two types share a method name ([Peer_from_bytes], [KadTree_add]).
    A [HashMap] is a [gmap] whose iteration order is that of [map_to_list]; where
    an order shows in a result, the theorems speak of its elements only.

    ** State and effects

    [World] is what the locks of [Global] protect (peer list, buffer, started
    transports) with a log of everything a task does outside: messages sent, files
    written, tasks spawned.  A handler is a function [World -> outcome A * World]
    (a session's on [Session * World]); the outcome is a value, an [Err], a panic
    ([Crash]) or a loop that never ends ([Hang]).  Channels are numbers; whether
    the receiver of a channel is gone, how a start of QUIC ends (opened, an error or
    the panic of its configuration) and what the random generator draws are in [Env].  The loops are functions of the
    sequence of events their [select!] gives, so a theorem about all sequences is
    one about all orders of arrival.

    ** What the theorems show

    - Encodings: peers, keys, every endpoint message and every session payload
      decode to what was encoded; no bytes make a decoder panic where [usize] has 64
      bits, and on 32 bits some do; the TCP and QUIC readers give back the written
      messages when every prefix was written whole, and what TCP does with a prefix
      written in part, a frame that is cut short or a prefix in two pieces.
    - Handshake: two sides with generated keys agree on cipher and nonce and read
      each other's messages; a key is completed exactly by bytes of the right form
      signed under the remote's key, and every other bytes are refused.
    - Kademlia: insertion terminates; every reachable tree satisfies the bucket
      invariant and holds at most 1024 cells; [add], [remove] and [search] do what
      they say to the set of cells; a search that misses returns a closest key of
      the whole tree; an [add] is refused only when the bucket of the key is full of
      closer ones; the table and its values never disagree and are a finite map, up to
      a number drawn twice, which overwrites the entry of another peer; the order of
      cells is lawful for peer ids and not for addresses.
    - Buffer and peer list: queues keep order and are taken once; an entry
      survives one clear and not two; routing prefers stable connections; moves
      between the stable connections and the table keep the list well formed.
    - Sessions: data sent by one side is delivered by the other and acknowledged,
      directly and hop by hop through a relay that sees it only sealed by the
      session's cipher; between its waits the loop neither panics nor spins; the
      heartbeat ends it at the fifth beat without an answer; what closing leaves in the
      shared state.
    - Runs: in every state a run of the node reaches the table is consistent, and
      what the configuration blocks is refused; opening a stable connection does not
      panic as long as no transport is started that the code cannot start.
    - Server: blocked, forged and own connections are refused without a trace; an
      event makes it panic only through a transport that it starts; one attempt per
      stable request; where data goes, in terms of the known peers; a restart keeps
      the identity.
    - Stable connections: a request, the consent of the other application and the
      acknowledgements take both nodes from an entry of the table to a stable
      connection, which is no longer in the table, and nothing else changes in the two
      peer lists.
    - Relaying: a relayed message is never changed and, where nodes know each other
      mutually, takes at most [2 n + 2] hops in a network of [n] nodes, since every
      hop is closer to the target than the last but one.
    - Waiting: up to 129 pending requests for a peer are all served, in order; with
      130 the request loop and the session can block each other for ever.
    - Connections: a dial on either transport ends with a session on both sides, each
      naming the other and with agreeing keys; what a stable dial tells the session
      that asked for it, in every outcome; starting QUIC panics exactly when its
      certificate cannot be made and fails exactly when its socket cannot be opened.
    - Gossip: [help_dht] gives exactly the entries of the known peers except the
      asker; a broadcast reaches exactly the known peers.
    - Time: a session that hears nothing sends four pings, two seconds apart, and ends
      ten seconds after; a session kept busy by messages, and a server by incoming
      connections, never reaches its timers.
    - Examples: no program panics on what a run of the node hands it while the node
      takes what it sends; two of them panic when the node is gone; and the exchange of
      the permissionless program with its own node ends.
    - UDP: a message is cut into parts that fit, and parts that arrive in any order,
      repeated or before the head, are put together again, to be dropped by the endpoint
      that the code starts, which has no streams.
    - Some theorems describe behaviour that is not intended and state what the
      code does: a direct stable connection and an incoming one that do not compare
      identities, a session that a remote can make panic, what a closed or refused
      stable connection leaves behind, a saved list that is not read back, a search
      that gives up, a peer whose claimed transport makes the sessions of others
      panic, and the parsers and stream readers on malformed input.

    ** Bounds and fuel

    [Node_insert] recurses with fuel, since a split inserts the cells of the
    bucket again; [insert_fuel] is what [KadTree_add] gives it and a theorem of
    [KadTable] proves it enough for every node.  The TCP readers count reads, and
    running out means the loop is still reading; one read more than there are bytes
    is enough for a whole stream.  [split_loop] of [Udp] counts its rounds, and the
    length of the message is enough; so does [mod_reduce] of [Apps].  All other
    recursion is structural.

    ** Assumptions and what is left out

    Between two waits for a message a handler runs alone, and a send to a full
    channel is a send accepted later, so that the theorems on panics and hanging speak of
    the handlers between their waits; only [Locks] splits two handlers at their waits
    for a lock and for room in a channel, where they can block each other for good.
    [usize] has 64 bits, except in the theorem on the decoders, which takes both widths.  Saved text is valid UTF-8.  The table
    theorems ask that the random value key drawn is unused; over a run, that the
    generator has not repeated a number ([distinct_draws]).  What sockets give
    (accepted connections, results of dials, bytes and datagrams) is an argument of
    the tasks that read them.  The two halves of a connection share nothing and are
    run one after the other.  Not modelled: printing, logging, the parsing of the
    examples' arguments, serde and structopt derives, and the files of the source
    that hold only comments (src/lan.rs, src/transports/rtp.rs and udt.rs).

    ** Plan

    Next: the other waits (the channels to the application and to the transports,
    the lock of the buffer), absence of panics over all runs, relaying through stable
    connections that are relayed themselves, and the address index of the table after
    evictions. *)

From Corelib Require Export Init.Byte.
From Stdlib Require Export ZArith Lia.
From Stdlib Require Strings.Byte.
From stdpp Require Export base tactics list strings gmap countable.

(** ** Results

    A Rust computation either returns a value, returns an [Err] (an
    [std::io::Error] built by [new_io_error], kept as its message) or panics
    (index out of range, [copy_from_slice] with different lengths, [unwrap] of
    [None]). *)
Inductive res (A : Type) : Type :=
| Ok (a : A)
| Err (e : string)
| Panic.
Arguments Ok {A} a.
Arguments Err {A} e.
Arguments Panic {A}.

#[global] Instance res_ret : MRet res := fun A a => Ok a.

#[global] Instance res_bind : MBind res := fun A B f m =>
  match m with
  | Ok a => f a
  | Err e => Err e
  | Panic => Panic
  end.

Arguments res_bind {_ _} _ !_ / : assert.

Definition no_panic {A : Type} (r : res A) : Prop :=
  match r with Panic => False | _ => True end.

Definition is_ok {A : Type} (r : res A) : bool :=
  match r with Ok _ => true | _ => false end.

(** [r.map_err(|_| new_io_error(e))] *)
Definition map_err {A : Type} (e : string) (r : res A) : res A :=
  match r with
  | Ok a => Ok a
  | Err _ => Err e
  | Panic => Panic
  end.

(** [o.ok_or(new_io_error(e))] *)
Definition ok_or {A : Type} (e : string) (o : option A) : res A :=
  match o with
  | Some a => Ok a
  | None => Err e
  end.

(** [o.unwrap()] *)
Definition unwrap {A : Type} (o : option A) : res A :=
  match o with
  | Some a => Ok a
  | None => Panic
  end.

(** ** Bytes and machine integers *)

#[global] Instance byte_eq_dec : EqDecision byte := Strings.Byte.byte_eq_dec.

#[global] Program Instance byte_countable : Countable byte :=
  inj_countable Strings.Byte.to_N Strings.Byte.of_N _.
Next Obligation. intros b. apply Strings.Byte.of_to_N. Qed.

#[global] Instance byte_inhabited : Inhabited byte := populate x00.

Definition byte_to_Z (b : byte) : Z := Z.of_N (Strings.Byte.to_N b).

(** [z as u8] *)
Definition byte_of_Z (z : Z) : byte :=
  default x00 (Strings.Byte.of_N (Z.to_N (z mod 256))).

(** An unsigned integer of [w] bits: [u16], [u32], [u64]. *)
Definition in_width (w : N) (z : Z) : bool :=
  ((0 <=? z) && (z <? 2 ^ Z.of_N w))%Z.

Record uint (w : N) : Set := UInt {
  uval : Z;
  uval_ok : Is_true (in_width w uval)
}.
Arguments UInt {w} uval uval_ok.
Arguments uval {w} u.
Arguments uval_ok {w} u.

Abbreviation u16 := (uint 16).
Abbreviation u32 := (uint 32).
Abbreviation u64 := (uint 64).

Lemma in_width_mod (w : N) (z : Z) : Is_true (in_width w (z mod 2 ^ Z.of_N w)).
Proof.
  unfold in_width.
  pose proof (Z.mod_pos_bound z (2 ^ Z.of_N w)) as H.
  assert (0 < 2 ^ Z.of_N w)%Z as Hp by (apply Z.pow_pos_nonneg; lia).
  apply Is_true_true. apply andb_true_iff. rewrite Z.leb_le, Z.ltb_lt. lia.
Qed.

(** The wrapping cast [z as uW]. *)
Definition to_uint (w : N) (z : Z) : uint w :=
  UInt (z mod 2 ^ Z.of_N w) (in_width_mod w z).

(** A fixed-size array [[u8; n]]. *)
Record arr (n : nat) : Set := Arr {
  arr_list : list byte;
  arr_len : Is_true (Nat.eqb (length arr_list) n)
}.
Arguments Arr {n} arr_list arr_len.
Arguments arr_list {n} a.
Arguments arr_len {n} a.

Lemma Is_true_pi (b : bool) (p q : Is_true b) : p = q.
Proof. destruct b; [by destruct p, q | destruct p]. Qed.

Lemma uint_eq {w : N} (a b : uint w) : uval a = uval b -> a = b.
Proof. destruct a, b; simpl; intros ->. f_equal. apply Is_true_pi. Qed.

Lemma arr_eq {n : nat} (a b : arr n) : arr_list a = arr_list b -> a = b.
Proof. destruct a, b; simpl; intros ->. f_equal. apply Is_true_pi. Qed.

#[global] Instance uint_eq_dec (w : N) : EqDecision (uint w).
Proof.
  refine (fun a b => cast_if (decide (uval a = uval b))); abstract (auto using uint_eq || congruence).
Defined.

#[global] Instance arr_eq_dec (n : nat) : EqDecision (arr n).
Proof.
  refine (fun a b => cast_if (decide (arr_list a = arr_list b))); abstract (auto using arr_eq || congruence).
Defined.

Definition uint_of_Z (w : N) (z : Z) : option (uint w) :=
  match decide (Is_true (in_width w z)) with
  | left H => Some (UInt z H)
  | right _ => None
  end.

Definition arr_of_list (n : nat) (l : list byte) : option (arr n) :=
  match decide (Is_true (Nat.eqb (length l) n)) with
  | left H => Some (Arr l H)
  | right _ => None
  end.

Lemma uint_of_Z_uval {w : N} (u : uint w) : uint_of_Z w (uval u) = Some u.
Proof.
  unfold uint_of_Z. destruct (decide _) as [H|H].
  - f_equal. by apply uint_eq.
  - destruct H. apply uval_ok.
Qed.

Lemma arr_of_list_arr {n : nat} (a : arr n) : arr_of_list n (arr_list a) = Some a.
Proof.
  unfold arr_of_list. destruct (decide _) as [H|H].
  - f_equal. by apply arr_eq.
  - destruct H. apply arr_len.
Qed.

#[global] Program Instance uint_countable (w : N) : Countable (uint w) :=
  inj_countable uval (uint_of_Z w) _.
Next Obligation. intros w u. apply uint_of_Z_uval. Qed.

#[global] Program Instance arr_countable (n : nat) : Countable (arr n) :=
  inj_countable arr_list (arr_of_list n) _.
Next Obligation. intros n a. apply arr_of_list_arr. Qed.

(** [let mut a = [0u8; n]; a.copy_from_slice(l);] *)
Definition copy_from_slice (n : nat) (l : list byte) : res (arr n) :=
  unwrap (arr_of_list n l).

(** [[0u8; n]] *)
Lemma replicate_len_ok (n : nat) (b : byte) : Is_true (Nat.eqb (length (replicate n b)) n).
Proof. rewrite length_replicate. apply Is_true_true, Nat.eqb_refl. Qed.

Definition arr_fill (n : nat) (b : byte) : arr n := Arr (replicate n b) (replicate_len_ok n b).

(** ** Byte order *)

Fixpoint le_of_Z (n : nat) (z : Z) : list byte :=
  match n with
  | O => []
  | S n => byte_of_Z z :: le_of_Z n (Z.shiftr z 8)
  end.

Fixpoint le_to_Z (l : list byte) : Z :=
  match l with
  | [] => 0
  | b :: l => byte_to_Z b + Z.shiftl (le_to_Z l) 8
  end.

Definition width_bytes (w : N) : nat := N.to_nat (w / 8).

(** [u.to_le_bytes()] and [u.to_be_bytes()] *)
Definition to_le_bytes {w : N} (u : uint w) : list byte := le_of_Z (width_bytes w) (uval u).
Definition to_be_bytes {w : N} (u : uint w) : list byte := rev (to_le_bytes u).

(** [uW::from_le_bytes(a)] and [uW::from_be_bytes(a)] *)
Definition from_le_bytes (w : N) (a : arr (width_bytes w)) : uint w :=
  to_uint w (le_to_Z (arr_list a)).
Definition from_be_bytes (w : N) (a : arr (width_bytes w)) : uint w :=
  to_uint w (le_to_Z (rev (arr_list a))).

(** ** Slices and drains *)

(** [&l[a..b]] *)
Definition slice {A : Type} (a b : nat) (l : list A) : res (list A) :=
  if (a <=? b) && (b <=? length l) then Ok (take (b - a) (drop a l)) else Panic.

(** [l[i]] *)
Definition index {A : Type} (l : list A) (i : nat) : res A := unwrap (l !! i).

(** [l.drain(0..n)]: what is taken out and what is left. *)
Definition drain {A : Type} (n : nat) (l : list A) : res (list A * list A) :=
  if n <=? length l then Ok (take n l, drop n l) else Panic.

(** [v.remove(i)] *)
Definition vec_remove {A : Type} (i : nat) (l : list A) : res (A * list A) :=
  match l !! i with
  | Some x => Ok (x, delete i l)
  | None => Panic
  end.

(** The idiom [let mut b = [0u8; n]; b.copy_from_slice(l); uW::from_xx_bytes(b)]. *)
Definition read_le (w : N) (l : list byte) : res (uint w) :=
  a ← copy_from_slice (width_bytes w) l; mret (from_le_bytes w a).
Definition read_be (w : N) (l : list byte) : res (uint w) :=
  a ← copy_from_slice (width_bytes w) l; mret (from_be_bytes w a).

(** [Iterator::position] *)
Fixpoint position {A : Type} (f : A -> bool) (l : list A) : option nat :=
  match l with
  | [] => None
  | x :: l => if f x then Some 0 else S <$> position f l
  end.

(** ** Lemmas: bytes *)

Create HintDb wire.

Lemma byte_to_Z_range (b : byte) : (0 <= byte_to_Z b < 256)%Z.
Proof.
  unfold byte_to_Z. pose proof (Strings.Byte.to_N_bounded b). lia.
Qed.

Lemma byte_of_to_Z (b : byte) : byte_of_Z (byte_to_Z b) = b.
Proof.
  unfold byte_of_Z. rewrite Z.mod_small by apply byte_to_Z_range.
  unfold byte_to_Z. rewrite N2Z.id, Strings.Byte.of_to_N. done.
Qed.

Lemma byte_to_of_Z (z : Z) : byte_to_Z (byte_of_Z z) = (z mod 256)%Z.
Proof.
  unfold byte_of_Z, byte_to_Z.
  pose proof (Z.mod_pos_bound z 256 eq_refl) as [H1 H2].
  destruct (Strings.Byte.of_N (Z.to_N (z mod 256))) as [b|] eqn:E; simpl.
  - apply Strings.Byte.to_of_N in E. rewrite E. lia.
  - apply Strings.Byte.of_N_None_iff in E. lia.
Qed.

Lemma byte_to_Z_inj (a b : byte) : byte_to_Z a = byte_to_Z b -> a = b.
Proof. intros H. by rewrite <- (byte_of_to_Z a), H, byte_of_to_Z. Qed.

Lemma length_le_of_Z (n : nat) (z : Z) : length (le_of_Z n z) = n.
Proof. revert z; induction n; intros z; simpl; auto. Qed.

Lemma le_to_of_Z (n : nat) (z : Z) : le_to_Z (le_of_Z n z) = (z mod 2 ^ (8 * Z.of_nat n))%Z.
Proof.
  revert z; induction n as [|n IH]; intros z; cbn [le_of_Z le_to_Z].
  - change (8 * Z.of_nat 0)%Z with 0%Z. by rewrite Z.mod_1_r.
  - rewrite IH, byte_to_of_Z, Z.shiftl_mul_pow2, Z.shiftr_div_pow2 by lia.
    change (2 ^ 8)%Z with 256%Z.
    replace (8 * Z.of_nat (S n))%Z with (8 + 8 * Z.of_nat n)%Z by lia.
    rewrite Z.pow_add_r by lia. change (2 ^ 8)%Z with 256%Z.
    rewrite Z.rem_mul_r; [lia | lia | apply Z.pow_pos_nonneg; lia].
Qed.

Lemma le_to_Z_range (l : list byte) : (0 <= le_to_Z l < 2 ^ (8 * Z.of_nat (length l)))%Z.
Proof.
  induction l as [|b l IH]; cbn [le_to_Z length].
  - simpl. lia.
  - pose proof (byte_to_Z_range b) as Hb. rewrite Z.shiftl_mul_pow2 by lia.
    replace (8 * Z.of_nat (S (length l)))%Z with (8 + 8 * Z.of_nat (length l))%Z by lia.
    rewrite Z.pow_add_r by lia. change (2 ^ 8)%Z with 256%Z in *. nia.
Qed.

Lemma le_of_to_Z (l : list byte) : le_of_Z (length l) (le_to_Z l) = l.
Proof.
  induction l as [|b l IH]; cbn [le_of_Z le_to_Z length]; [done|].
  pose proof (byte_to_Z_range b) as Hb. rewrite Z.shiftl_mul_pow2 by lia.
  change (2 ^ 8)%Z with 256%Z. f_equal.
  - apply byte_to_Z_inj. rewrite byte_to_of_Z, Z.mod_add by lia. by apply Z.mod_small.
  - rewrite Z.shiftr_div_pow2 by lia. change (2 ^ 8)%Z with 256%Z.
    rewrite Z.div_add, Z.div_small by lia. apply IH.
Qed.

(** ** Lemmas: fixed-size arrays and integers *)

Lemma arr_length {n : nat} (a : arr n) : length (arr_list a) = n.
Proof. apply Nat.eqb_eq. apply Is_true_true. apply arr_len. Qed.

Lemma uval_range {w : N} (u : uint w) : (0 <= uval u < 2 ^ Z.of_N w)%Z.
Proof.
  pose proof (uval_ok u) as H. apply Is_true_true in H. unfold in_width in H.
  apply andb_true_iff in H. rewrite Z.leb_le, Z.ltb_lt in H. lia.
Qed.

Lemma to_uint_small (w : N) (z : Z) :
  (0 <= z < 2 ^ Z.of_N w)%Z -> uval (to_uint w z) = z.
Proof. intros H. by apply Z.mod_small. Qed.

Lemma to_uint_uval {w : N} (u : uint w) : to_uint w (uval u) = u.
Proof. apply uint_eq, to_uint_small, uval_range. Qed.

Lemma arr_of_list_Some (n : nat) (l : list byte) :
  length l = n -> exists a, arr_of_list n l = Some a /\ arr_list a = l.
Proof.
  intros H. unfold arr_of_list. destruct (decide _) as [H'|H'].
  - by exists (Arr l H').
  - destruct H'. apply Is_true_true. by apply Nat.eqb_eq.
Qed.

Lemma copy_from_slice_arr {n : nat} (a : arr n) : copy_from_slice n (arr_list a) = Ok a.
Proof. unfold copy_from_slice. by rewrite arr_of_list_arr. Qed.

Lemma copy_from_slice_ok (n : nat) (l : list byte) :
  length l = n -> exists a, copy_from_slice n l = Ok a /\ arr_list a = l.
Proof.
  intros H. destruct (arr_of_list_Some n l H) as (a & E & <-).
  exists a. unfold copy_from_slice. by rewrite E.
Qed.

Definition whole_bytes (w : N) : Prop := (Z.of_N w = 8 * Z.of_nat (width_bytes w))%Z.

Lemma length_to_le_bytes {w : N} (u : uint w) : length (to_le_bytes u) = width_bytes w.
Proof. apply length_le_of_Z. Qed.

Lemma length_to_be_bytes {w : N} (u : uint w) : length (to_be_bytes u) = width_bytes w.
Proof. unfold to_be_bytes. by rewrite length_rev, length_to_le_bytes. Qed.

Lemma le_to_Z_to_le_bytes {w : N} (u : uint w) :
  whole_bytes w -> le_to_Z (to_le_bytes u) = uval u.
Proof.
  intros Hw. unfold to_le_bytes. rewrite le_to_of_Z, <- Hw.
  apply Z.mod_small, uval_range.
Qed.

Lemma read_le_to_le {w : N} (u : uint w) : whole_bytes w -> read_le w (to_le_bytes u) = Ok u.
Proof.
  intros Hw. unfold read_le.
  destruct (copy_from_slice_ok (width_bytes w) (to_le_bytes u)) as (a & -> & Ha).
  - apply length_to_le_bytes.
  - simpl. unfold from_le_bytes. rewrite Ha, le_to_Z_to_le_bytes by done.
    by rewrite to_uint_uval.
Qed.

Lemma read_be_to_be {w : N} (u : uint w) : whole_bytes w -> read_be w (to_be_bytes u) = Ok u.
Proof.
  intros Hw. unfold read_be.
  destruct (copy_from_slice_ok (width_bytes w) (to_be_bytes u)) as (a & -> & Ha).
  - apply length_to_be_bytes.
  - simpl. unfold from_be_bytes. unfold to_be_bytes in Ha.
    rewrite Ha, rev_involutive, le_to_Z_to_le_bytes by done. by rewrite to_uint_uval.
Qed.

Lemma read_le_ok (w : N) (l : list byte) :
  whole_bytes w -> length l = width_bytes w ->
  exists u, read_le w l = Ok u /\ to_le_bytes u = l.
Proof.
  intros Hw Hl. unfold read_le.
  destruct (copy_from_slice_ok _ l Hl) as (a & -> & <-). simpl.
  eexists. split; [done|]. unfold from_le_bytes, to_le_bytes.
  pose proof (arr_length a) as Hr. revert Hr. generalize (arr_list a) as l. clear a Hl.
  intros l Hr. rewrite to_uint_small; [by rewrite <- Hr, le_of_to_Z|].
  rewrite Hw, <- Hr. apply le_to_Z_range.
Qed.

Lemma read_be_ok (w : N) (l : list byte) :
  whole_bytes w -> length l = width_bytes w ->
  exists u, read_be w l = Ok u /\ to_be_bytes u = l.
Proof.
  intros Hw Hl. unfold read_be.
  destruct (copy_from_slice_ok _ l Hl) as (a & -> & <-). simpl.
  eexists. split; [done|]. unfold from_be_bytes, to_be_bytes, to_le_bytes.
  assert (length (rev (arr_list a)) = width_bytes w) as Hr by (by rewrite length_rev, arr_length).
  revert Hr. generalize (arr_list a) as l. clear a Hl. intros l Hr.
  rewrite to_uint_small; [by rewrite <- Hr, le_of_to_Z, rev_involutive|].
  rewrite Hw, <- Hr. apply le_to_Z_range.
Qed.

(** ** Lemmas: slices *)

Lemma drain_app {A : Type} (n : nat) (l1 l2 : list A) :
  length l1 = n -> drain n (l1 ++ l2) = Ok (l1, l2).
Proof.
  intros <-. unfold drain. rewrite length_app.
  rewrite (proj2 (Nat.leb_le _ _)) by lia. by rewrite take_app_length, drop_app_length.
Qed.

Lemma drain_all {A : Type} (n : nat) (l : list A) : length l = n -> drain n l = Ok (l, []).
Proof. intros H. rewrite <- (app_nil_r l) at 1. by apply drain_app. Qed.

Lemma drain_ok {A : Type} (n : nat) (l : list A) :
  n <= length l -> drain n l = Ok (take n l, drop n l).
Proof. intros H. unfold drain. by rewrite (proj2 (Nat.leb_le _ _) H). Qed.

Lemma slice_ok {A : Type} (a b : nat) (l : list A) :
  a <= b -> b <= length l -> slice a b l = Ok (take (b - a) (drop a l)).
Proof.
  intros H1 H2. unfold slice.
  by rewrite (proj2 (Nat.leb_le _ _) H1), (proj2 (Nat.leb_le _ _) H2).
Qed.

Lemma slice_app {A : Type} (a b : nat) (l1 l2 l3 : list A) :
  a = length l1 -> b = a + length l2 -> slice a b (l1 ++ l2 ++ l3) = Ok l2.
Proof.
  intros -> ->. rewrite slice_ok by (rewrite ?length_app; lia).
  rewrite drop_app_length. f_equal.
  replace (length l1 + length l2 - length l1) with (length l2) by lia.
  by rewrite take_app_length.
Qed.

Lemma slice_prefix {A : Type} (b : nat) (l1 l2 : list A) :
  b = length l1 -> slice 0 b (l1 ++ l2) = Ok l1.
Proof. intros ->. by apply (slice_app 0 _ [] l1 l2). Qed.

Lemma slice_suffix {A : Type} (a b : nat) (l1 l2 : list A) :
  a = length l1 -> b = a + length l2 -> slice a b (l1 ++ l2) = Ok l2.
Proof. intros Ha Hb. rewrite <- (app_nil_r l2) at 1. by apply slice_app. Qed.

Lemma index_ok {A : Type} (l : list A) (i : nat) :
  i < length l -> exists x, index l i = Ok x /\ l !! i = Some x.
Proof.
  intros [x Hx]%lookup_lt_is_Some. exists x. unfold index. by rewrite Hx.
Qed.

(** ** Lemmas: absence of panics *)

Create HintDb no_panic.

Lemma no_panic_bind {A B : Type} (m : res A) (f : A -> res B) :
  no_panic m -> (forall a, m = Ok a -> no_panic (f a)) -> no_panic (m ≫= f).
Proof. intros Hm Hf. destruct m; simpl; auto. Qed.

Lemma no_panic_map_err {A : Type} (e : string) (r : res A) : no_panic r -> no_panic (map_err e r).
Proof. by destruct r. Qed.

Lemma no_panic_ok_or {A : Type} (e : string) (o : option A) : no_panic (ok_or e o).
Proof. by destruct o. Qed.

Lemma no_panic_read_le (w : N) (l : list byte) :
  length l = width_bytes w -> no_panic (read_le w l).
Proof.
  intros Hl. unfold read_le. destruct (copy_from_slice_ok _ l Hl) as (a & -> & _). done.
Qed.

Lemma no_panic_read_be (w : N) (l : list byte) :
  length l = width_bytes w -> no_panic (read_be w l).
Proof.
  intros Hl. unfold read_be. destruct (copy_from_slice_ok _ l Hl) as (a & -> & _). done.
Qed.

#[export] Hint Resolve no_panic_map_err no_panic_ok_or : no_panic.
#[export] Hint Extern 0 (no_panic (Ok _)) => exact I : no_panic.
#[export] Hint Extern 0 (no_panic (Err _)) => exact I : no_panic.

(** ** Automation *)

(** Steps through the success path of a decoder on concrete list shapes. *)
Ltac simp_len := rewrite ?length_app, ?length_to_le_bytes, ?length_to_be_bytes, ?arr_length.

Ltac case_if_bool :=
  match goal with
  | |- context [if ?b then _ else _] => destruct b eqn:?
  | H : context [if ?b then _ else _] |- _ => destruct b eqn:?
  end.

(** Turns boolean comparisons in the context into arithmetic facts. *)
Ltac bool_facts :=
  repeat match goal with
  | H : Nat.ltb _ _ = true |- _ => apply Nat.ltb_lt in H
  | H : Nat.ltb _ _ = false |- _ => apply Nat.ltb_ge in H
  | H : Nat.leb _ _ = true |- _ => apply Nat.leb_le in H
  | H : Nat.leb _ _ = false |- _ => apply Nat.leb_gt in H
  | H : Nat.eqb _ _ = true |- _ => apply Nat.eqb_eq in H
  | H : Nat.eqb _ _ = false |- _ => apply Nat.eqb_neq in H
  | H : Z.eqb _ _ = true |- _ => apply Z.eqb_eq in H
  | H : Z.eqb _ _ = false |- _ => apply Z.eqb_neq in H
  | H : Z.ltb _ _ = true |- _ => apply Z.ltb_lt in H
  | H : Z.ltb _ _ = false |- _ => apply Z.ltb_ge in H
  | H : negb _ = true |- _ => apply negb_true_iff in H
  | H : negb _ = false |- _ => apply negb_false_iff in H
  | H : (_ && _)%bool = true |- _ => apply andb_true_iff in H; destruct H
  | H : (_ || _)%bool = false |- _ => apply orb_false_iff in H; destruct H
  | H : bool_decide _ = true |- _ => apply bool_decide_eq_true in H
  | H : bool_decide _ = false |- _ => apply bool_decide_eq_false in H
  end.
