(* ===== verification/Net.v ===== *)
(** * The part of [std::net] and [std::str] the sources use

    [IpAddr], [SocketAddr], the parser behind [str::parse::<IpAddr>()] and the
    [Display] instances, [u8]/[u16]/[bool] parsing, [str::split] and string
    slicing with its character-boundary panic.  A Rust string is its UTF-8
    bytes, one [ascii] per byte. *)

From Stdlib Require Import Ascii.
From stdpp Require Import pretty.
From S2P Require Import Prelude.

Local Open Scope Z_scope.

(** ** Addresses *)

Inductive IpAddr : Set :=
| IpV4 (a : arr 4)
| IpV6 (a : arr 16).

(** [SocketAddrV6] also carries a flow label and a scope id, and its equality
    compares them. *)
Inductive SocketAddr : Set :=
| SockV4 (ip : arr 4) (port : u16)
| SockV6 (ip : arr 16) (port : u16) (flowinfo scope_id : u32).

#[global] Instance IpAddr_eq_dec : EqDecision IpAddr.
Proof. solve_decision. Defined.

#[global] Instance SocketAddr_eq_dec : EqDecision SocketAddr.
Proof. solve_decision. Defined.

#[global] Program Instance SocketAddr_countable : Countable SocketAddr :=
  inj_countable'
    (fun s => match s with
              | SockV4 i p => inl (i, p)
              | SockV6 i p f sc => inr (i, p, f, sc)
              end)
    (fun x => match x with
              | inl (i, p) => SockV4 i p
              | inr (i, p, f, sc) => SockV6 i p f sc
              end) _.
Next Obligation. by intros []. Qed.

Definition zero_u16 : u16 := to_uint 16 0.
Definition zero_u32 : u32 := to_uint 32 0.

(** [Ipv4Addr::new(0, 0, 0, 0)] *)
Definition ipv4_unspecified : arr 4 := arr_fill 4 x00.

(** [SocketAddr::new(ip, port)] *)
Definition SocketAddr_new (ip : IpAddr) (port : u16) : SocketAddr :=
  match ip with
  | IpV4 a => SockV4 a port
  | IpV6 a => SockV6 a port zero_u32 zero_u32
  end.

Definition socket_port (s : SocketAddr) : u16 :=
  match s with
  | SockV4 _ p => p
  | SockV6 _ p _ _ => p
  end.

Definition socket_set_port (s : SocketAddr) (p : u16) : SocketAddr :=
  match s with
  | SockV4 i _ => SockV4 i p
  | SockV6 i _ f sc => SockV6 i p f sc
  end.

Definition socket_ip (s : SocketAddr) : IpAddr :=
  match s with
  | SockV4 i _ => IpV4 i
  | SockV6 i _ _ _ => IpV6 i
  end.

Definition socket_is_ipv4 (s : SocketAddr) : bool :=
  match s with
  | SockV4 _ _ => true
  | SockV6 _ _ _ _ => false
  end.

Definition mapped_prefix : list byte := replicate 10 x00 ++ [xff; xff].

Lemma mapped_len_ok (a : arr 4) :
  Is_true (Nat.eqb (length (mapped_prefix ++ arr_list a)) 16).
Proof. rewrite length_app, arr_length. exact I. Qed.

(** [Ipv4Addr::to_ipv6_mapped], [::ffff:a.b.c.d] *)
Definition to_ipv6_mapped (a : arr 4) : arr 16 :=
  Arr (mapped_prefix ++ arr_list a) (mapped_len_ok a).

(** [Ipv6Addr::to_ipv4]: IPv4-mapped [::ffff:a.b.c.d] and IPv4-compatible
    [::a.b.c.d] addresses. *)
Definition to_ipv4 (a : arr 16) : option (arr 4) :=
  if bool_decide (take 10 (arr_list a) = replicate 10 x00) &&
     (bool_decide (take 2 (drop 10 (arr_list a)) = [x00; x00]) ||
      bool_decide (take 2 (drop 10 (arr_list a)) = [xff; xff]))
  then arr_of_list 4 (drop 12 (arr_list a))
  else None.

(** ** Numbers in strings *)

(** [char::to_digit] *)
Definition to_digit (radix : Z) (c : ascii) : option Z :=
  let n := Z.of_N (N_of_ascii c) in
  let d := if (48 <=? n) && (n <=? 57) then Some (n - 48)
           else if (97 <=? n) && (n <=? 122) then Some (n - 87)
           else if (65 <=? n) && (n <=? 90) then Some (n - 55)
           else None in
  match d with
  | Some d => if d <? radix then Some d else None
  | None => None
  end.

Fixpoint parse_digits (radix max acc : Z) (s : string) : option Z :=
  match s with
  | EmptyString => Some acc
  | String c s =>
      match to_digit radix c with
      | Some d => let r := acc * radix + d in
                  if max <? r then None else parse_digits radix max r s
      | None => None
      end
  end.

(** [uW::from_str_radix]: a leading plus sign is accepted, the empty string and
    a sign alone are not. *)
Definition from_str_radix (radix max : Z) (s : string) : option Z :=
  match s with
  | EmptyString => None
  | String c EmptyString =>
      if bool_decide (c = "+"%char) || bool_decide (c = "-"%char) then None
      else parse_digits radix max 0 s
  | String c rest =>
      if bool_decide (c = "+"%char) then parse_digits radix max 0 rest
      else parse_digits radix max 0 s
  end.

Definition parse_u16 (s : string) : option u16 :=
  z ← from_str_radix 10 65535 s; uint_of_Z 16 z.

Definition parse_bool (s : string) : option bool :=
  if bool_decide (s = "true") then Some true
  else if bool_decide (s = "false") then Some false
  else None.

Definition hex_digit (z : Z) : ascii :=
  if z <? 10 then ascii_of_N (Z.to_N (48 + z)) else ascii_of_N (Z.to_N (87 + z)).

(** [format!("{:02x?}", b)] *)
Definition byte_hex (b : byte) : string :=
  String (hex_digit (byte_to_Z b / 16)) (String (hex_digit (byte_to_Z b mod 16)) EmptyString).

(** [format!("{}", n)] *)
Definition show_dec (z : Z) : string := pretty (Z.to_N z).

Definition show_bool (b : bool) : string := if b then "true" else "false".

(** ** Strings *)

(** [s.split(c)]: the pieces between the separators, at least one. *)
Fixpoint str_split (c : ascii) (s : string) : list string :=
  match s with
  | EmptyString => [EmptyString]
  | String d s =>
      if bool_decide (d = c) then EmptyString :: str_split c s
      else match str_split c s with
           | [] => [String d EmptyString]
           | p :: ps => String d p :: ps
           end
  end.

(** The next piece of the iterator and what remains of it. *)
Definition iter_next {A : Type} (l : list A) : option A * list A :=
  match l with
  | [] => (None, [])
  | x :: l => (Some x, l)
  end.

Definition is_continuation (c : ascii) : bool :=
  let n := Z.of_N (N_of_ascii c) in (128 <=? n) && (n <? 192).

(** [s.is_char_boundary(i)] *)
Definition is_char_boundary (s : string) (i : nat) : bool :=
  match String.get i s with
  | Some c => (i =? 0)%nat || negb (is_continuation c)
  | None => (i =? String.length s)%nat
  end.

(** [&s[a..b]] *)
Definition str_slice (a b : nat) (s : string) : res string :=
  if (a <=? b)%nat && is_char_boundary s a && is_char_boundary s b
  then Ok (String.substring a (b - a) s) else Panic.

(** ** The address parser *)

(** [Parser::read_number]: digits up to [max_digits], with overflow of the target
    type, no digit at all and (unless allowed) a leading zero refused. *)
Fixpoint read_digits (radix max : Z) (max_digits : nat) (acc : Z) (count : nat) (s : string)
  : option (Z * nat * string) :=
  match s with
  | EmptyString => Some (acc, count, EmptyString)
  | String c s' =>
      match to_digit radix c with
      | None => Some (acc, count, s)
      | Some d =>
          let r := acc * radix + d in
          if max <? r then None
          else if (max_digits <? S count)%nat then None
          else read_digits radix max max_digits r (S count) s'
      end
  end.

Definition starts_with (c : ascii) (s : string) : bool :=
  match s with
  | String d _ => bool_decide (c = d)
  | EmptyString => false
  end.

Definition read_number (radix max : Z) (max_digits : nat) (allow_zero_prefix : bool) (s : string)
  : option (Z * string) :=
  '(r, count, rest) ← read_digits radix max max_digits 0 0 s;
  if (count =? 0)%nat then None
  else if negb allow_zero_prefix && starts_with "0" s && (1 <? count)%nat then None
  else Some (r, rest).

(** [Parser::read_given_char] *)
Definition read_given_char (c : ascii) (s : string) : option string :=
  match s with
  | String d s => if bool_decide (d = c) then Some s else None
  | EmptyString => None
  end.

(** [Parser::read_separator] *)
Definition read_separator {A : Type} (sep : ascii) (i : nat)
    (inner : string -> option (A * string)) (s : string) : option (A * string) :=
  match i with
  | O => inner s
  | S _ => s' ← read_given_char sep s; inner s'
  end.

Fixpoint read_v4_groups (n i : nat) (s : string) : option (list byte * string) :=
  match n with
  | O => Some ([], s)
  | S n =>
      '(g, s1) ← read_separator "." i (read_number 10 255 3 false) s;
      '(gs, s2) ← read_v4_groups n (S i) s1;
      Some (byte_of_Z g :: gs, s2)
  end.

(** [Parser::read_ipv4_addr] *)
Definition read_ipv4 (s : string) : option (arr 4 * string) :=
  '(gs, rest) ← read_v4_groups 4 0 s;
  a ← arr_of_list 4 gs;
  Some (a, rest).

Definition group_bytes (g : Z) : list byte := [byte_of_Z (g / 256); byte_of_Z g].

(** [read_groups] inside [Parser::read_ipv6_addr]: [rem] groups are left; the
    bytes read, the number of groups, and whether they end in an embedded IPv4
    address. *)
Fixpoint read_groups (rem i : nat) (s : string) : list byte * nat * bool * string :=
  match rem with
  | O => ([], 0%nat, false, s)
  | S rem' =>
      match (if (0 <? rem')%nat then read_separator ":" i read_ipv4 s else None) with
      | Some (a, s1) => (arr_list a, 2%nat, true, s1)
      | None =>
          match read_separator ":" i (read_number 16 65535 4 true) s with
          | Some (g, s1) =>
              let '(gs, n, v4, s2) := read_groups rem' (S i) s1 in
              (group_bytes g ++ gs, S n, v4, s2)
          | None => ([], 0%nat, false, s)
          end
      end
  end.

(** [Parser::read_ipv6_addr] *)
Definition read_ipv6 (s : string) : option (arr 16 * string) :=
  let '(head, head_size, head_v4, s1) := read_groups 8 0 s in
  if (head_size =? 8)%nat then a ← arr_of_list 16 head; Some (a, s1)
  else if head_v4 then None
  else
    s2 ← read_given_char ":" s1;
    s3 ← read_given_char ":" s2;
    let '(tail, tail_size, _, s4) := read_groups (8 - (head_size + 1)) 0 s3 in
    a ← arr_of_list 16 (head ++ replicate (2 * (8 - head_size - tail_size)) x00 ++ tail);
    Some (a, s4).

(** [s.parse::<IpAddr>()] *)
Definition parse_ip (s : string) : option IpAddr :=
  match read_ipv4 s with
  | Some (a, rest) => if bool_decide (rest = EmptyString) then Some (IpV4 a) else None
  | None =>
      match read_ipv6 s with
      | Some (a, rest) => if bool_decide (rest = EmptyString) then Some (IpV6 a) else None
      | None => None
      end
  end.

(** ** Display of addresses *)

Definition show_ipv4 (a : arr 4) : string :=
  String.concat "." (map (fun b => show_dec (byte_to_Z b)) (arr_list a)).

Fixpoint segments (l : list byte) : list Z :=
  match l with
  | a :: b :: l => (byte_to_Z a * 256 + byte_to_Z b) :: segments l
  | _ => []
  end.

Fixpoint show_hex_go (fuel : nat) (z : Z) : string :=
  match fuel with
  | O => EmptyString
  | S f => if z <? 16 then String (hex_digit z) EmptyString
           else show_hex_go f (z / 16) +:+ String (hex_digit (z mod 16)) EmptyString
  end.

(** [format!("{:x}", n)] of a 16-bit number: four digits at most. *)
Definition show_hex (z : Z) : string := show_hex_go 4 z.

Definition show_segments (l : list Z) : string := String.concat ":" (map show_hex l).

(** Start and length of the first longest run of zero segments. *)
Fixpoint zero_run (l : list Z) (i start len best_start best_len : nat) : nat * nat :=
  match l with
  | [] => (best_start, best_len)
  | z :: l =>
      if z =? 0 then
        let start' := if (len =? 0)%nat then i else start in
        let len' := S len in
        if (best_len <? len')%nat then zero_run l (S i) start' len' start' len'
        else zero_run l (S i) start' len' best_start best_len
      else zero_run l (S i) 0 0 best_start best_len
  end.

Definition show_ipv6 (a : arr 16) : string :=
  if bool_decide (take 12 (arr_list a) = mapped_prefix)
  then match arr_of_list 4 (drop 12 (arr_list a)) with
       | Some v4 => "::ffff:" +:+ show_ipv4 v4
       | None => EmptyString
       end
  else
    let segs := segments (arr_list a) in
    let '(start, len) := zero_run segs 0 0 0 0 0 in
    if (1 <? len)%nat
    then show_segments (take start segs) +:+ "::" +:+ show_segments (drop (start + len) segs)
    else show_segments segs.

Definition show_ip (ip : IpAddr) : string :=
  match ip with
  | IpV4 a => show_ipv4 a
  | IpV6 a => show_ipv6 a
  end.

(** ** Lemmas *)

Lemma to_ipv4_mapped (a : arr 4) : to_ipv4 (to_ipv6_mapped a) = Some a.
Proof.
  unfold to_ipv4, to_ipv6_mapped; simpl.
  apply arr_of_list_arr.
Qed.

Lemma to_ipv4_Some (a : arr 16) (v4 : arr 4) :
  to_ipv4 a = Some v4 -> arr_list v4 = drop 12 (arr_list a).
Proof.
  unfold to_ipv4. case_if_bool; [|done].
  unfold arr_of_list. destruct (decide _); intros H; by simplify_eq/=.
Qed.

Lemma str_split_app (c : ascii) (s t : string) :
  Forall (fun d => d ≠ c) (String.list_ascii_of_string s) ->
  str_split c (s +:+ String c t) = s :: str_split c t.
Proof.
  induction s as [|d s IH]; intros H.
  - change (EmptyString +:+ String c t) with (String c t). cbn [str_split].
    by rewrite bool_decide_eq_true_2.
  - change (String d s +:+ String c t) with (String d (s +:+ String c t)).
    cbn [str_split]. cbn in H. apply Forall_cons_1 in H as [Hd Hs].
    rewrite bool_decide_eq_false_2 by done. by rewrite IH.
Qed.

Example parse_ip_loopback :
  (show_ip <$> parse_ip "127.0.0.1") = Some "127.0.0.1" /\
  (show_ip <$> parse_ip "2001:db8::8:800:200c:417a") = Some "2001:db8::8:800:200c:417a" /\
  (show_ip <$> parse_ip "::1") = Some "::1" /\
  parse_ip "01.2.3.4" = None /\ parse_ip "ip4" = None /\ parse_ip "256.0.0.1" = None /\
  (show_ip <$> parse_ip "::ffff:1.2.3.4") = Some "::ffff:1.2.3.4".
Proof. by vm_compute. Qed.

(** ** Lemmas: strings of ASCII characters *)

Definition is_ascii (s : string) : Prop :=
  Forall (fun c => is_continuation c = false) (String.list_ascii_of_string s).

Lemma str_length_app (s t : string) :
  String.length (s +:+ t) = (String.length s + String.length t)%nat.
Proof.
  induction s as [|c s IH]; [done|].
  change (String c s +:+ t) with (String c (s +:+ t)). simpl. by rewrite IH.
Qed.

Lemma str_app_assoc (s t u : string) : (s +:+ t) +:+ u = s +:+ (t +:+ u).
Proof.
  induction s as [|c s IH]; [done|].
  change ((String c s +:+ t) +:+ u) with (String c ((s +:+ t) +:+ u)). by rewrite IH.
Qed.

Lemma str_app_nil (s : string) : s +:+ EmptyString = s.
Proof.
  induction s as [|c s IH]; [done|].
  change (String c s +:+ EmptyString) with (String c (s +:+ EmptyString)). by rewrite IH.
Qed.

Lemma list_ascii_app (s t : string) :
  String.list_ascii_of_string (s +:+ t) =
  String.list_ascii_of_string s ++ String.list_ascii_of_string t.
Proof.
  induction s as [|c s IH]; [done|].
  change (String c s +:+ t) with (String c (s +:+ t)). simpl. by rewrite IH.
Qed.

Lemma is_ascii_app (s t : string) : is_ascii s -> is_ascii t -> is_ascii (s +:+ t).
Proof. unfold is_ascii. rewrite list_ascii_app. apply Forall_app_2. Qed.

Lemma get_list_ascii (s : string) (i : nat) :
  String.get i s = String.list_ascii_of_string s !! i.
Proof. revert i; induction s as [|c s IH]; intros [|i]; simpl; auto. Qed.

Lemma length_list_ascii (s : string) :
  length (String.list_ascii_of_string s) = String.length s.
Proof. induction s; simpl; auto. Qed.

Lemma is_char_boundary_ascii (s : string) (i : nat) :
  is_ascii s -> (i <= String.length s)%nat -> is_char_boundary s i = true.
Proof.
  intros Ha Hi. unfold is_char_boundary. rewrite get_list_ascii.
  destruct (String.list_ascii_of_string s !! i) as [c|] eqn:E.
  - rewrite (Forall_lookup_1 _ _ _ _ Ha E). by rewrite orb_true_r.
  - apply lookup_ge_None in E. rewrite length_list_ascii in E. apply Nat.eqb_eq. lia.
Qed.

Lemma substring_all (s t : string) : String.substring 0 (String.length s) (s +:+ t) = s.
Proof.
  induction s as [|c s IH]; [by destruct t|].
  change (String c s +:+ t) with (String c (s +:+ t)). simpl. by rewrite IH.
Qed.

Lemma substring_skip (s t : string) (n : nat) :
  String.substring (String.length s) n (s +:+ t) = String.substring 0 n t.
Proof.
  induction s as [|c s IH]; [done|].
  change (String c s +:+ t) with (String c (s +:+ t)). simpl. apply IH.
Qed.

Lemma str_slice_app (a b : nat) (s t u : string) :
  is_ascii (s +:+ t +:+ u) -> a = String.length s -> b = (a + String.length t)%nat ->
  str_slice a b (s +:+ t +:+ u) = Ok t.
Proof.
  intros Ha -> ->. unfold str_slice.
  rewrite (proj2 (Nat.leb_le _ _)) by lia.
  rewrite !is_char_boundary_ascii by (rewrite ?str_length_app; (done || lia)). simpl.
  f_equal. replace (_ + _ - _)%nat with (String.length t) by lia.
  by rewrite substring_skip, substring_all.
Qed.

(** ** Lemmas: hexadecimal and decimal digits *)

Lemma byte_hex_ascii (b : byte) : is_ascii (byte_hex b).
Proof.
  assert (forallb (fun c => negb (is_continuation c))
            (String.list_ascii_of_string (byte_hex b)) = true) as H by (by destruct b).
  apply List.Forall_forall. intros c Hc. rewrite forallb_forall in H.
  apply negb_true_iff. by apply H.
Qed.

Lemma from_str_radix_byte_hex (b : byte) :
  from_str_radix 16 255 (byte_hex b) = Some (byte_to_Z b).
Proof. by destruct b. Qed.

Lemma read_octet_dot (b : byte) (s : string) :
  read_number 10 255 3 false (show_dec (byte_to_Z b) +:+ String "." s)
  = Some (byte_to_Z b, String "." s).
Proof. by destruct b. Qed.

Lemma read_octet_end (b : byte) :
  read_number 10 255 3 false (show_dec (byte_to_Z b)) = Some (byte_to_Z b, EmptyString).
Proof. by destruct b. Qed.

Lemma read_separator_dot {A : Type} (i : nat) (f : string -> option (A * string)) (s : string) :
  read_separator "." (S i) f (String "." s) = f s.
Proof. done. Qed.

Lemma read_v4_groups_show (a b c d : byte) :
  read_v4_groups 4 0 (show_dec (byte_to_Z a) +:+ String "." (show_dec (byte_to_Z b) +:+
    String "." (show_dec (byte_to_Z c) +:+ String "." (show_dec (byte_to_Z d)))))
  = Some ([a; b; c; d], EmptyString).
Proof.
  cbn [read_v4_groups].
  change (read_separator "." 0 ?f ?s) with (f s). rewrite read_octet_dot.
  cbn [mbind option_bind]. rewrite read_separator_dot, read_octet_dot.
  cbn [mbind option_bind]. rewrite read_separator_dot, read_octet_dot.
  cbn [mbind option_bind]. rewrite read_separator_dot, read_octet_end.
  cbn [mbind option_bind]. by rewrite !byte_of_to_Z.
Qed.

Lemma parse_ip_show_ipv4 (a : arr 4) : parse_ip (show_ipv4 a) = Some (IpV4 a).
Proof.
  destruct a as [l Hl]. destruct l as [|a [|b [|c [|d [|]]]]]; try by destruct Hl.
  unfold parse_ip, read_ipv4.
  assert (show_ipv4 (Arr [a; b; c; d] Hl) =
    show_dec (byte_to_Z a) +:+ String "." (show_dec (byte_to_Z b) +:+
    String "." (show_dec (byte_to_Z c) +:+ String "." (show_dec (byte_to_Z d))))) as -> by done.
  rewrite read_v4_groups_show. cbn [mbind option_bind].
  change [a; b; c; d] with (arr_list (Arr [a; b; c; d] Hl)). by rewrite arr_of_list_arr.
Qed.

Definition all_digits (s : string) : Prop :=
  Forall (fun c => is_Some (to_digit 10 c)) (String.list_ascii_of_string s).

Lemma pretty_char_digit (n : N) :
  (n < 10)%N -> to_digit 10 (pretty_N_char n) = Some (Z.of_N n).
Proof.
  intros H. assert (In n [0; 1; 2; 3; 4; 5; 6; 7; 8; 9]%N) as Hin by (simpl; lia).
  simpl in Hin. by repeat destruct Hin as [<- | Hin].
Qed.

Lemma pretty_go_parse (max : Z) (n : N) (s : string) :
  Z.of_N n <= max ->
  parse_digits 10 max 0 (pretty_N_go n s) = parse_digits 10 max (Z.of_N n) s.
Proof.
  revert s. induction (N.lt_wf_0 n) as [n _ IH]. intros s Hm.
  destruct (decide (n = 0)%N) as [->|Hn]; [by rewrite pretty_N_go_0|].
  rewrite pretty_N_go_step by lia.
  assert (n `div` 10 < n)%N as Hlt by (apply N.div_lt; lia).
  pose proof (N.mod_lt n 10 ltac:(lia)) as Hmod.
  pose proof (N.div_mod n 10 ltac:(lia)) as Hdm.
  rewrite IH by lia. cbn [parse_digits]. rewrite pretty_char_digit by done. cbn zeta.
  replace (Z.of_N (n `div` 10) * 10 + Z.of_N (n `mod` 10)) with (Z.of_N n) by lia.
  by rewrite (proj2 (Z.ltb_ge _ _)).
Qed.

Lemma pretty_go_digits (n : N) (s : string) : all_digits s -> all_digits (pretty_N_go n s).
Proof.
  revert s. induction (N.lt_wf_0 n) as [n _ IH]. intros s Hs.
  destruct (decide (n = 0)%N) as [->|Hn]; [by rewrite pretty_N_go_0|].
  rewrite pretty_N_go_step by lia. apply IH; [by apply N.div_lt; lia|].
  apply Forall_cons_2; [|done]. rewrite pretty_char_digit by (apply N.mod_lt; lia). by eexists.
Qed.

Lemma show_dec_digits (z : Z) : all_digits (show_dec z).
Proof.
  unfold show_dec, pretty, pretty_N. destruct (decide _).
  - repeat constructor. by eexists.
  - by apply pretty_go_digits, Forall_nil_2.
Qed.

Lemma parse_digits_show_dec (max z : Z) :
  0 <= z <= max -> parse_digits 10 max 0 (show_dec z) = Some z.
Proof.
  intros [H0 Hm]. unfold show_dec, pretty, pretty_N. destruct (decide _) as [E|E].
  - assert (z = 0) as -> by lia. cbn [parse_digits].
    change (to_digit 10 "0") with (Some 0). cbv beta iota zeta.
    by rewrite (proj2 (Z.ltb_ge max (0 * 10 + 0))) by lia.
  - rewrite pretty_go_parse by lia. cbn [parse_digits]. f_equal. lia.
Qed.

Lemma from_str_radix_digits (max : Z) (s : string) :
  s ≠ EmptyString -> all_digits s -> from_str_radix 10 max s = parse_digits 10 max 0 s.
Proof.
  intros Hne Hd. destruct s as [|c s]; [done|].
  apply Forall_cons_1 in Hd as [[d Hd] _].
  assert (c ≠ "+"%char) as Hp by (intros ->; done).
  assert (c ≠ "-"%char) as Hm by (intros ->; done).
  unfold from_str_radix. rewrite !bool_decide_eq_false_2 by done. by destruct s.
Qed.

Lemma show_dec_nonempty (z : Z) : show_dec z ≠ EmptyString.
Proof.
  unfold show_dec, pretty, pretty_N. destruct (decide _) as [|H]; [done|].
  rewrite pretty_N_go_step by lia. intros Hs.
  assert (forall n s, s ≠ EmptyString -> pretty_N_go n s ≠ EmptyString) as Hgo.
  { intros n. induction (N.lt_wf_0 n) as [n _ IH]. intros s Hne.
    destruct (decide (n = 0)%N) as [->|Hn]; [by rewrite pretty_N_go_0|].
    rewrite pretty_N_go_step by lia. apply IH; [by apply N.div_lt; lia|done]. }
  by eapply Hgo in Hs.
Qed.

Lemma parse_u16_show (p : u16) : parse_u16 (show_dec (uval p)) = Some p.
Proof.
  unfold parse_u16.
  rewrite from_str_radix_digits by (apply show_dec_nonempty || apply show_dec_digits).
  pose proof (uval_range p) as Hr. change (2 ^ Z.of_N 16) with 65536 in Hr.
  rewrite parse_digits_show_dec by lia. simpl. apply uint_of_Z_uval.
Qed.

Lemma digits_no_slash (s : string) :
  all_digits s -> Forall (fun d => d ≠ "/"%char) (String.list_ascii_of_string s).
Proof. apply Forall_impl. intros c [d Hd] ->. by vm_compute in Hd. Qed.

Lemma show_ipv4_no_slash (a : arr 4) :
  Forall (fun d => d ≠ "/"%char) (String.list_ascii_of_string (show_ipv4 a)).
Proof.
  destruct a as [l Hl]. destruct l as [|a [|b [|c [|d [|]]]]]; try by destruct Hl.
  unfold show_ipv4. cbn [arr_list map String.concat].
  repeat (rewrite list_ascii_app; apply Forall_app_2);
    try (apply digits_no_slash, show_dec_digits); repeat constructor; done.
Qed.

Lemma str_split_last (c : ascii) (s : string) :
  Forall (fun d => d ≠ c) (String.list_ascii_of_string s) -> str_split c s = [s].
Proof.
  induction s as [|d s IH]; intros H; [done|]. cbn [str_split].
  apply Forall_cons_1 in H as [Hd Hs]. rewrite bool_decide_eq_false_2 by done. by rewrite IH.
Qed.
