(* ===== verification/Types.v ===== *)
(** * The [chamomile_types] crate

    [PeerId], [TransportType], [Broadcast], [DeliveryType], [Peer] with its three
    encodings (52 bytes, enhanced multiaddr, multiaddr) and [delivery_split!]
    (types/src/types.rs, types/src/peer.rs, types/src/lib.rs). *)

From Stdlib Require Import Ascii.
From S2P Require Import Prelude Net.

(** ** PeerId *)

Definition PEER_ID_LENGTH : nat := 32.

Record PeerId : Set := mkPeerId { peer_id_raw : arr 32 }.

#[global] Instance PeerId_eq_dec : EqDecision PeerId.
Proof. solve_decision. Defined.

#[global] Program Instance PeerId_countable : Countable PeerId :=
  inj_countable' peer_id_raw mkPeerId _.
Next Obligation. by intros []. Qed.

(** [#[derive(Default)]]: thirty-two zero bytes. *)
Definition PeerId_default : PeerId := mkPeerId (arr_fill 32 x00).

Definition PeerId_from_bytes (bytes : list byte) : res PeerId :=
  if negb (length bytes =? 32) then Err "peer id bytes failure."
  else raw ← copy_from_slice 32 bytes; Ok (mkPeerId raw).

Definition PeerId_as_bytes (p : PeerId) : list byte := arr_list (peer_id_raw p).

Definition PeerId_to_bytes (p : PeerId) : list byte := arr_list (peer_id_raw p).

Definition concat_hex (l : list byte) : string := String.concat EmptyString (map byte_hex l).

Definition PeerId_to_hex (p : PeerId) : string := concat_hex (arr_list (peer_id_raw p)).

(** The loop of [from_hex]: the value of each pair of characters in turn. *)
Fixpoint from_hex_loop (n i : nat) (s : string) : res (list byte) :=
  match n with
  | O => Ok []
  | S n =>
      pair ← str_slice (2 * i) (2 * i + 2) s;
      r ← ok_or "peer hex failure." (from_str_radix 16 255 pair);
      rest ← from_hex_loop n (S i) s;
      Ok (byte_of_Z r :: rest)
  end.

Definition PeerId_from_hex (s : string) : res PeerId :=
  if negb (String.length s =? 64) then Err "peer bytes failure."
  else
    value ← from_hex_loop (String.length s / 2) 0 s;
    raw ← copy_from_slice 32 value;
    Ok (mkPeerId raw).

Definition PeerId_short_show (p : PeerId) : res string :=
  let hex := PeerId_to_hex p in
  first ← str_slice 0 4 hex;
  last ← str_slice (String.length hex - 5) (String.length hex) hex;
  Ok ("0x" +:+ first +:+ "..." +:+ last).

(** ** Broadcast, transports, delivery kinds *)

Inductive Broadcast : Set := Gossip | StableAll.

Inductive TransportType : Set := QUIC | TCP | RTP | UDT.

#[global] Instance TransportType_eq_dec : EqDecision TransportType.
Proof. solve_decision. Defined.

Definition TransportType_from_str (s : string) : TransportType :=
  if bool_decide (s = "quic") then QUIC
  else if bool_decide (s = "tcp") then TCP
  else if bool_decide (s = "rtp") then RTP
  else if bool_decide (s = "udt") then UDT
  else QUIC.

Definition TransportType_to_str (t : TransportType) : string :=
  match t with
  | QUIC => "quic"
  | TCP => "tcp"
  | RTP => "rtp"
  | UDT => "udt"
  end.

Definition TransportType_from_byte (b : byte) : res TransportType :=
  match b with
  | x00 => Ok QUIC
  | x01 => Ok TCP
  | x02 => Ok RTP
  | x03 => Ok UDT
  | _ => Err "transport bytes failure."
  end.

Definition TransportType_to_byte (t : TransportType) : byte :=
  match t with
  | QUIC => x00
  | TCP => x01
  | RTP => x02
  | UDT => x03
  end.

(** [DeliveryType] of types/src/message.rs; constructors prefixed because three
    message types share their names. *)
Inductive DeliveryType : Set := DT_Data | DT_StableConnect | DT_StableResult.

#[global] Instance DeliveryType_eq_dec : EqDecision DeliveryType.
Proof. solve_decision. Defined.

(** ** Socket addresses on the wire: 16 address bytes, 2 port bytes *)

Definition socket_addr_to_bytes (socket : SocketAddr) : list byte :=
  let ip_bytes := match socket with
                  | SockV4 ip _ => arr_list (to_ipv6_mapped ip)
                  | SockV6 ip _ _ _ => arr_list ip
                  end in
  let port_bytes := to_le_bytes (socket_port socket) in
  ip_bytes ++ port_bytes.

Definition socket_addr_from_bytes (bytes : list byte) : res SocketAddr :=
  if negb (length bytes =? 18) then Err "peer bytes failure."
  else
    port_bytes ← slice 16 18 bytes;
    port ← read_le 16 port_bytes;
    ip_slice ← slice 0 16 bytes;
    ipv6 ← copy_from_slice 16 ip_slice;
    match to_ipv4 ipv6 with
    | Some ipv4 => Ok (SocketAddr_new (IpV4 ipv4) port)
    | None => Ok (SocketAddr_new (IpV6 ipv6) port)
    end.

(** ** Peer *)

Record Peer : Set := mkPeer {
  peer_id : PeerId;
  peer_socket : SocketAddr;
  peer_transport : TransportType;
  peer_is_pub : bool
}.

#[global] Instance Peer_eq_dec : EqDecision Peer.
Proof. solve_decision. Defined.

Definition PEER_LENGTH : nat := 52.

Definition unspecified_socket : SocketAddr := SocketAddr_new (IpV4 ipv4_unspecified) zero_u16.

Definition Peer_new (id : PeerId) (socket : SocketAddr) (transport : TransportType)
    (is_pub : bool) : Peer := mkPeer id socket transport is_pub.

(** [Peer::socket(socket)] *)
Definition Peer_of_socket (socket : SocketAddr) : Peer :=
  mkPeer PeerId_default socket QUIC true.

(** [Peer::peer(id)] *)
Definition Peer_of_id (id : PeerId) : Peer := mkPeer id unspecified_socket QUIC true.

Definition Peer_default : Peer := mkPeer PeerId_default unspecified_socket TCP true.

Definition Peer_effective_id (p : Peer) : bool := negb (bool_decide (peer_id p = PeerId_default)).

Definition Peer_effective_socket (p : Peer) : bool :=
  negb (bool_decide (peer_socket p = unspecified_socket)).

Definition Peer_effective (p : Peer) : bool := Peer_effective_socket p || Peer_effective_id p.

Definition Peer_zero_port (p : Peer) : Peer :=
  mkPeer (peer_id p) (socket_set_port (peer_socket p) zero_u16) (peer_transport p) (peer_is_pub p).

Definition Peer_from_bytes (bytes : list byte) : res Peer :=
  if negb (length bytes =? PEER_LENGTH) then Err "peer bytes failure."
  else
    id_bytes ← slice 0 32 bytes;
    id ← PeerId_from_bytes id_bytes;
    socket_bytes ← slice 32 50 bytes;
    socket ← socket_addr_from_bytes socket_bytes;
    tbyte ← index bytes 50;
    transport ← TransportType_from_byte tbyte;
    pbyte ← index bytes 51;
    Ok (mkPeer id socket transport (bool_decide (pbyte = x01))).

Definition Peer_to_bytes (p : Peer) : list byte :=
  PeerId_to_bytes (peer_id p) ++
  socket_addr_to_bytes (peer_socket p) ++
  [TransportType_to_byte (peer_transport p)] ++
  [if peer_is_pub p then x01 else x00].

Definition ip_version (s : SocketAddr) : string := if socket_is_ipv4 s then "4" else "6".

(** ["/ip{}/{}/{}/{}/{}/{}"] *)
Definition Peer_to_string (p : Peer) : string :=
  "/ip" +:+ ip_version (peer_socket p) +:+
  "/" +:+ show_ip (socket_ip (peer_socket p)) +:+
  "/" +:+ TransportType_to_str (peer_transport p) +:+
  "/" +:+ show_dec (uval (socket_port (peer_socket p))) +:+
  "/" +:+ show_bool (peer_is_pub p) +:+
  "/" +:+ PeerId_to_hex (peer_id p).

(** ["/ip{}/{}/{}/{}"] *)
Definition Peer_to_multiaddr_string (p : Peer) : string :=
  "/ip" +:+ ip_version (peer_socket p) +:+
  "/" +:+ show_ip (socket_ip (peer_socket p)) +:+
  "/" +:+ TransportType_to_str (peer_transport p) +:+
  "/" +:+ show_dec (uval (socket_port (peer_socket p))).

Definition invalid_peer_string : string := "peer string is invalid.".

Definition Peer_from_string (s : string) : res Peer :=
  let ss := str_split "/" s in
  let '(_, ss) := iter_next ss in
  let '(o, ss) := iter_next ss in
  ip_str ← ok_or invalid_peer_string o;
  ipaddr ← ok_or invalid_peer_string (parse_ip ip_str);
  let '(o, ss) := iter_next ss in
  t_str ← unwrap o;
  let transport := TransportType_from_str t_str in
  let '(o, ss) := iter_next ss in
  port_str ← ok_or invalid_peer_string o;
  port ← ok_or invalid_peer_string (parse_u16 port_str);
  let socket := SocketAddr_new ipaddr port in
  let '(o, ss) := iter_next ss in
  pub_str ← ok_or invalid_peer_string o;
  is_pub ← ok_or invalid_peer_string (parse_bool pub_str);
  let '(o, ss) := iter_next ss in
  id_str ← ok_or invalid_peer_string o;
  id ← PeerId_from_hex id_str;
  Ok (mkPeer id socket transport is_pub).

Definition Peer_from_multiaddr_string (s : string) : res Peer :=
  let ss := str_split "/" s in
  let '(_, ss) := iter_next ss in
  let '(o, ss) := iter_next ss in
  ip_str ← ok_or invalid_peer_string o;
  ipaddr ← ok_or invalid_peer_string (parse_ip ip_str);
  let '(o, ss) := iter_next ss in
  t_str ← unwrap o;
  let transport := TransportType_from_str t_str in
  let '(o, ss) := iter_next ss in
  port_str ← ok_or invalid_peer_string o;
  port ← ok_or invalid_peer_string (parse_u16 port_str);
  let socket := SocketAddr_new ipaddr port in
  Ok (mkPeer PeerId_default socket transport true).

(** ** [delivery_split!] *)

Definition delivery_split (data : list byte) (len : nat) : list byte :=
  if len =? 0 then []
  else if length data <? len then data
  else take len data.

(** [Debug for PeerId] and [Debug for Peer] *)
Definition PeerId_debug (p : PeerId) : string := "0x" +:+ concat_hex (arr_list (peer_id_raw p)).

Definition Peer_debug (p : Peer) : string :=
  "Peer: " +:+ PeerId_debug (peer_id p) +:+ " " +:+ Peer_to_multiaddr_string p.

(** ** Specifications *)

(** What the 18-byte encoding keeps of a socket address: an IPv6 address that is
    IPv4-mapped or IPv4-compatible comes back as IPv4, flow label and scope id
    come back as zero. *)
Definition socket_canonical (s : SocketAddr) : SocketAddr :=
  match s with
  | SockV4 ip p => SockV4 ip p
  | SockV6 ip p _ _ =>
      match to_ipv4 ip with
      | Some v4 => SockV4 v4 p
      | None => SockV6 ip p zero_u32 zero_u32
      end
  end.

Definition peer_canonical (p : Peer) : Peer :=
  mkPeer (peer_id p) (socket_canonical (peer_socket p)) (peer_transport p) (peer_is_pub p).

(** ** Lemmas: binary encodings *)

Lemma length_socket_addr_to_bytes (s : SocketAddr) : length (socket_addr_to_bytes s) = 18.
Proof.
  unfold socket_addr_to_bytes. rewrite length_app, length_to_le_bytes.
  destruct s; by rewrite arr_length.
Qed.

Lemma length_PeerId_to_bytes (p : PeerId) : length (PeerId_to_bytes p) = 32.
Proof. apply arr_length. Qed.

Lemma length_Peer_to_bytes (p : Peer) : length (Peer_to_bytes p) = PEER_LENGTH.
Proof.
  unfold Peer_to_bytes.
  by rewrite !length_app, length_PeerId_to_bytes, length_socket_addr_to_bytes.
Qed.

Lemma PeerId_from_to_bytes (p : PeerId) : PeerId_from_bytes (PeerId_to_bytes p) = Ok p.
Proof.
  unfold PeerId_from_bytes. rewrite length_PeerId_to_bytes. simpl.
  unfold PeerId_to_bytes. rewrite copy_from_slice_arr. by destruct p.
Qed.

Lemma PeerId_from_bytes_ok (l : list byte) :
  length l = 32 -> exists p, PeerId_from_bytes l = Ok p /\ PeerId_to_bytes p = l.
Proof.
  intros H. unfold PeerId_from_bytes. rewrite H. simpl.
  destruct (copy_from_slice_ok 32 l H) as (a & -> & <-). simpl. by eexists.
Qed.

Lemma TransportType_from_to_byte (t : TransportType) :
  TransportType_from_byte (TransportType_to_byte t) = Ok t.
Proof. by destruct t. Qed.

Lemma TransportType_from_to_str (t : TransportType) :
  TransportType_from_str (TransportType_to_str t) = t.
Proof. by destruct t. Qed.

Lemma socket_roundtrip (s : SocketAddr) :
  socket_addr_from_bytes (socket_addr_to_bytes s) = Ok (socket_canonical s).
Proof.
  unfold socket_addr_from_bytes. rewrite length_socket_addr_to_bytes. cbn [negb Nat.eqb].
  unfold socket_addr_to_bytes.
  set (ip := match s with SockV4 ip _ => to_ipv6_mapped ip | SockV6 ip _ _ _ => ip end).
  replace (match s with SockV4 ip0 _ => arr_list (to_ipv6_mapped ip0)
           | SockV6 ip0 _ _ _ => arr_list ip0 end) with (arr_list ip) by (by destruct s).
  rewrite <- (app_nil_r (to_le_bytes _)).
  rewrite (slice_app 16 18) by (rewrite ?length_to_le_bytes, ?arr_length; done).
  cbn [mbind res_bind]. rewrite read_le_to_le by done. cbn [mbind res_bind].
  rewrite <- (app_nil_l (arr_list ip ++ _)), (slice_app 0 16) by (by rewrite ?arr_length).
  cbn [mbind res_bind]. rewrite copy_from_slice_arr. cbn [mbind res_bind].
  subst ip. destruct s; [by rewrite to_ipv4_mapped|].
  cbn [socket_canonical]. by destruct (to_ipv4 _).
Qed.

Lemma socket_addr_from_bytes_ok (l : list byte) :
  length l = 18 -> exists s, socket_addr_from_bytes l = Ok s /\ socket_canonical s = s.
Proof.
  intros H. unfold socket_addr_from_bytes. rewrite H. cbn [negb Nat.eqb].
  rewrite !slice_ok by (rewrite ?H; lia). cbn [mbind res_bind].
  destruct (read_le_ok 16 (take (18 - 16) (drop 16 l))) as (port & -> & _); [done| |].
  { rewrite length_take, length_drop, H. done. }
  cbn [mbind res_bind].
  destruct (copy_from_slice_ok 16 (take (16 - 0) (drop 0 l))) as (ip & -> & _).
  { rewrite length_take, length_drop, H. done. }
  cbn [mbind res_bind]. destruct (to_ipv4 ip) eqn:E; eexists; (split; [done|]); [done|].
  cbn [SocketAddr_new socket_canonical]. by rewrite E.
Qed.

Lemma Peer_roundtrip_canonical (p : Peer) :
  Peer_from_bytes (Peer_to_bytes p) = Ok (peer_canonical p).
Proof.
  unfold Peer_from_bytes. rewrite length_Peer_to_bytes. cbn [negb Nat.eqb PEER_LENGTH].
  pose proof (length_PeerId_to_bytes (peer_id p)) as Hid.
  pose proof (length_socket_addr_to_bytes (peer_socket p)) as Hs.
  assert (slice 0 32 (Peer_to_bytes p) = Ok (PeerId_to_bytes (peer_id p))) as ->.
  { unfold Peer_to_bytes. by apply (slice_app 0 32 []). }
  cbn [mbind res_bind]. rewrite PeerId_from_to_bytes. cbn [mbind res_bind].
  assert (slice 32 50 (Peer_to_bytes p) = Ok (socket_addr_to_bytes (peer_socket p))) as ->.
  { unfold Peer_to_bytes. apply slice_app; lia. }
  cbn [mbind res_bind]. rewrite socket_roundtrip. cbn [mbind res_bind].
  assert (forall i, index (Peer_to_bytes p) (50 + i) =
    index ([TransportType_to_byte (peer_transport p)] ++ [if peer_is_pub p then x01 else x00]) i)
    as Hi.
  { intros i. unfold index, Peer_to_bytes. rewrite app_assoc, lookup_app_r.
    - rewrite length_app, Hid, Hs. by replace (50 + i - (32 + 18)) with i by lia.
    - rewrite length_app, Hid, Hs. lia. }
  rewrite (Hi 0 : index _ 50 = _), (Hi 1 : index _ 51 = _). simpl. rewrite TransportType_from_to_byte. simpl.
  by destruct p as [? ? ? []].
Qed.

Lemma Peer_from_bytes_cases (l : list byte) :
  (exists e, Peer_from_bytes l = Err e) \/
  (length l = PEER_LENGTH /\ exists p, Peer_from_bytes l = Ok p /\ peer_canonical p = p).
Proof.
  unfold Peer_from_bytes.
  destruct (length l =? PEER_LENGTH) eqn:E; cbn [negb]; [|left; by eexists].
  apply Nat.eqb_eq in E. unfold PEER_LENGTH in E.
  rewrite !slice_ok by lia. cbn [mbind res_bind].
  destruct (PeerId_from_bytes_ok (take (32 - 0) (drop 0 l))) as (id & -> & _).
  { rewrite length_take, length_drop, E. done. }
  cbn [mbind res_bind].
  destruct (socket_addr_from_bytes_ok (take (50 - 32) (drop 32 l))) as (s & -> & Hs).
  { rewrite length_take, length_drop, E. done. }
  cbn [mbind res_bind].
  destruct (index_ok l 50) as (b & -> & _); [lia|].
  destruct (index_ok l 51) as (b' & -> & _); [lia|]. cbn [mbind res_bind].
  destruct (TransportType_from_byte b) eqn:Et; cbn [mbind res_bind].
  - right. split; [done|]. eexists. split; [done|]. unfold peer_canonical; simpl. by rewrite Hs.
  - left. by eexists.
  - exfalso. by destruct b.
Qed.

(** ** Lemmas: textual encodings *)

Lemma concat_hex_cons (b : byte) (l : list byte) :
  concat_hex (b :: l) = byte_hex b +:+ concat_hex l.
Proof. unfold concat_hex. destruct l; cbn [map String.concat]; by rewrite ?str_app_nil. Qed.

Lemma length_concat_hex (l : list byte) : String.length (concat_hex l) = 2 * length l.
Proof.
  induction l as [|b l IH]; [done|]. rewrite concat_hex_cons, str_length_app, IH. simpl. lia.
Qed.

Lemma concat_hex_app (l k : list byte) : concat_hex (l ++ k) = concat_hex l +:+ concat_hex k.
Proof.
  induction l as [|b l IH]; [done|]. simpl. by rewrite !concat_hex_cons, IH, str_app_assoc.
Qed.

Lemma concat_hex_ascii (l : list byte) : is_ascii (concat_hex l).
Proof.
  induction l as [|b l IH]; [by apply Forall_nil_2|].
  rewrite concat_hex_cons. apply is_ascii_app; [apply byte_hex_ascii|done].
Qed.

Lemma from_hex_loop_ok (l pre : list byte) :
  from_hex_loop (length l) (length pre) (concat_hex (pre ++ l)) = Ok l.
Proof.
  revert pre. induction l as [|b l IH]; intros pre; [done|].
  cbn [from_hex_loop length].
  assert (concat_hex (pre ++ b :: l) = concat_hex pre +:+ byte_hex b +:+ concat_hex l) as E.
  { by rewrite concat_hex_app, concat_hex_cons. }
  rewrite E, str_slice_app.
  - cbn [mbind res_bind]. rewrite from_str_radix_byte_hex. cbn [mbind res_bind ok_or].
    specialize (IH (pre ++ [b])). rewrite length_app, <- app_assoc in IH. cbn [length app] in IH.
    rewrite Nat.add_1_r in IH. rewrite <- E, IH. cbn [mbind res_bind]. by rewrite byte_of_to_Z.
  - rewrite <- E. apply concat_hex_ascii.
  - by rewrite length_concat_hex.
  - simpl. lia.
Qed.

Lemma split_multiaddr (p : Peer) (rest : string) :
  exists tail, str_split "/" ("/ip" +:+ ip_version (peer_socket p) +:+ "/" +:+ rest)
               = EmptyString :: ("ip" +:+ ip_version (peer_socket p)) :: tail.
Proof.
  exists (str_split "/" rest).
  unfold ip_version. by destruct (socket_is_ipv4 _).
Qed.

Lemma parse_ip_version (s : SocketAddr) : parse_ip ("ip" +:+ ip_version s) = None.
Proof. unfold ip_version. by destruct (socket_is_ipv4 s). Qed.

Lemma multiaddr_string_rejected (p : Peer) :
  Peer_from_multiaddr_string (Peer_to_multiaddr_string p) = Err invalid_peer_string.
Proof.
  unfold Peer_from_multiaddr_string, Peer_to_multiaddr_string.
  destruct (split_multiaddr p (show_ip (socket_ip (peer_socket p)) +:+
    "/" +:+ TransportType_to_str (peer_transport p) +:+
    "/" +:+ show_dec (uval (socket_port (peer_socket p))))) as [tail ->].
  cbn [iter_next mbind res_bind ok_or]. by rewrite parse_ip_version.
Qed.

Lemma transport_str_no_slash (t : TransportType) :
  Forall (fun d => d ≠ "/"%char) (String.list_ascii_of_string (TransportType_to_str t)).
Proof. destruct t; repeat constructor; done. Qed.

(** ** Properties *)

(** Encoding a peer to its 52 bytes and decoding it gives the peer back with
    its socket in canonical form; in particular every IPv4 peer comes back
    unchanged. *)
Theorem peer_bytes_roundtrip (p : Peer) :
  length (Peer_to_bytes p) = PEER_LENGTH /\
  Peer_from_bytes (Peer_to_bytes p) = Ok (peer_canonical p) /\
  (socket_is_ipv4 (peer_socket p) = true -> Peer_from_bytes (Peer_to_bytes p) = Ok p).
Proof.
  split; [apply length_Peer_to_bytes|]. rewrite Peer_roundtrip_canonical. split; [done|].
  intros H. f_equal. destruct p as [i [] t b]; done.
Qed.

Lemma peer_bytes_roundtrip_witness :
  Peer_from_bytes (Peer_to_bytes (Peer_of_id (mkPeerId (arr_fill 32 x07)))) =
  Ok (Peer_of_id (mkPeerId (arr_fill 32 x07))).
Proof. apply (peer_bytes_roundtrip (Peer_of_id (mkPeerId (arr_fill 32 x07)))). reflexivity. Defined.

(** [Peer::from_bytes] never panics, accepts nothing but 52 bytes, and what it
    accepts re-encodes to bytes that decode to the same peer. *)
Theorem peer_decode_total (l : list byte) :
  no_panic (Peer_from_bytes l) /\
  (forall p, Peer_from_bytes l = Ok p ->
     length l = PEER_LENGTH /\ Peer_from_bytes (Peer_to_bytes p) = Ok p).
Proof.
  destruct (Peer_from_bytes_cases l) as [[e E]|(Hl & p & E & Hp)]; rewrite E; split; try done.
  intros q [= <-]. split; [done|]. by rewrite Peer_roundtrip_canonical, Hp.
Qed.

(** The hexadecimal form of a peer id has 64 characters and parses back to
    the id. *)
Theorem peer_id_hex_roundtrip (p : PeerId) :
  String.length (PeerId_to_hex p) = 64 /\ PeerId_from_hex (PeerId_to_hex p) = Ok p.
Proof.
  unfold PeerId_from_hex, PeerId_to_hex. rewrite length_concat_hex, arr_length.
  change (2 * 32) with 64. split; [done|]. cbn [negb Nat.eqb].
  pose proof (from_hex_loop_ok (arr_list (peer_id_raw p)) []) as Hl.
  rewrite arr_length in Hl. change (64 / 2) with 32. cbn [app length] in Hl. rewrite Hl.
  cbn [mbind res_bind].
  rewrite copy_from_slice_arr. by destruct p.
Qed.

(** The hexadecimal parser is not confined to hexadecimal text: it accepts a
    plus sign in front of a digit, and on a 64-byte string with a multi-byte
    character it panics instead of returning an error. *)
Theorem peer_id_from_hex_lax :
  (exists s p, String.length s = 64 /\ String.get 0 s = Some "+"%char /\
               PeerId_from_hex s = Ok p) /\
  (exists s, String.length s = 64 /\ PeerId_from_hex s = Panic).
Proof.
  split.
  - exists ("+f" +:+ concat_hex (replicate 31 x00)).
    eexists. split; [done|]. split; [done|]. by vm_compute.
  - exists (String "0" (String "195" (String "169" (String "0" (concat_hex (replicate 30 x00)))))).
    split; [done|]. by vm_compute.
Qed.

(** No textual form is readable again: for every peer, parsing the string
    [to_multiaddr_string] or [to_string] prints is an error (the parsers take the
    ["ip4"]/["ip6"] field for the address). *)
Theorem peer_string_never_parses (p : Peer) :
  Peer_from_multiaddr_string (Peer_to_multiaddr_string p) = Err invalid_peer_string /\
  Peer_from_string (Peer_to_string p) = Err invalid_peer_string.
Proof.
  split; [apply multiaddr_string_rejected|].
  unfold Peer_from_string, Peer_to_string.
  destruct (split_multiaddr p (show_ip (socket_ip (peer_socket p)) +:+
    "/" +:+ TransportType_to_str (peer_transport p) +:+
    "/" +:+ show_dec (uval (socket_port (peer_socket p))) +:+
    "/" +:+ show_bool (peer_is_pub p) +:+
    "/" +:+ PeerId_to_hex (peer_id p))) as [tail ->].
  cbn [iter_next mbind res_bind ok_or]. by rewrite parse_ip_version.
Qed.

(** What the multiaddr parser does read is the form without the version
    field: any first component, then address, transport and port. *)
Theorem multiaddr_accepted_form (ip : arr 4) (t : TransportType) (port : u16) :
  Peer_from_multiaddr_string
    ("/" +:+ show_ipv4 ip +:+ "/" +:+ TransportType_to_str t +:+ "/" +:+ show_dec (uval port))
  = Ok (mkPeer PeerId_default (SockV4 ip port) t true).
Proof.
  unfold Peer_from_multiaddr_string.
  change ("/" +:+ show_ipv4 ip +:+ "/" +:+ TransportType_to_str t +:+ "/" +:+ show_dec (uval port))
    with (EmptyString +:+ String "/" (show_ipv4 ip +:+ String "/"
            (TransportType_to_str t +:+ String "/" (show_dec (uval port))))).
  rewrite str_split_app by (by apply Forall_nil_2).
  rewrite str_split_app by apply show_ipv4_no_slash.
  rewrite str_split_app by apply transport_str_no_slash.
  rewrite str_split_last by apply digits_no_slash, show_dec_digits.
  cbn [iter_next mbind res_bind ok_or unwrap]. rewrite parse_ip_show_ipv4.
  cbn [mbind res_bind ok_or]. rewrite parse_u16_show, TransportType_from_to_str. done.
Qed.

(** A line with an address and no transport makes the multiaddr parser panic
    ([unwrap] of a missing field) instead of returning an error. *)
Theorem multiaddr_parser_panics (ip : arr 4) :
  Peer_from_multiaddr_string ("/" +:+ show_ipv4 ip) = Panic.
Proof.
  unfold Peer_from_multiaddr_string.
  change ("/" +:+ show_ipv4 ip) with (EmptyString +:+ String "/" (show_ipv4 ip)).
  rewrite str_split_app by (by apply Forall_nil_2).
  rewrite str_split_last by apply show_ipv4_no_slash.
  cbn [iter_next mbind res_bind ok_or unwrap]. by rewrite parse_ip_show_ipv4.
Qed.
