(* ===== verification/Keys.v ===== *)
(** * Keys and session keys (src/keys.rs)

    The cryptographic crates (ed25519-dalek, x25519-dalek, aes-gcm, blake3) and
    the random generator are parameters: [CryptoLib] lists the operations the
    source calls and [CryptoLaws] the documented behaviour it relies on. *)

From S2P Require Import Prelude Types.

(** ** The cryptographic libraries *)

Class CryptoLib : Type := {
  EdPublic : Type;
  EdSignature : Type;
  EdKeypair : Type;
  (** the public key of a secret one, [ed25519_dalek::PublicKey::from(&secret)] *)
  ed_public_of : arr 32 -> arr 32;
  (** [ed25519_dalek::PublicKey::from_bytes] *)
  ed_public_from_bytes : list byte -> option EdPublic;
  (** [ed25519_dalek::Signature::try_from] *)
  ed_signature_from_bytes : list byte -> option EdSignature;
  (** [ed25519_dalek::Keypair::from_bytes], secret half then public half; whether the
      halves belong together is not checked *)
  ed_keypair_from_bytes : arr 64 -> option EdKeypair;
  (** [Keypair::sign(msg).to_bytes()] *)
  ed_sign : EdKeypair -> list byte -> arr 64;
  (** [PublicKey::verify(msg, sig).is_ok()] *)
  ed_verify : EdPublic -> list byte -> EdSignature -> bool;
  (** [x25519_dalek::PublicKey::from(&secret)] *)
  x_public : arr 32 -> arr 32;
  (** [secret.diffie_hellman(&public)] *)
  x_diffie_hellman : arr 32 -> arr 32 -> arr 32;
  (** [blake3::hash] *)
  blake3_hash : list byte -> arr 32;
  (** [Aes256Gcm::new(key).encrypt(nonce, msg).ok()] and [decrypt] *)
  aes_encrypt : arr 32 -> arr 12 -> list byte -> option (list byte);
  aes_decrypt : arr 32 -> arr 12 -> list byte -> option (list byte)
}.

Class CryptoLaws `{CryptoLib} : Prop := {
  (** a secret key with the public key made from it is accepted, and a signature made
      with that pair verifies under the public key *)
  ed_sign_verify (bytes : arr 64) (secret : arr 32) :
    arr_list bytes = arr_list secret ++ arr_list (ed_public_of secret) ->
    exists kp, ed_keypair_from_bytes bytes = Some kp /\
      forall msg, exists pk sig,
        ed_public_from_bytes (arr_list (ed_public_of secret)) = Some pk /\
        ed_signature_from_bytes (arr_list (ed_sign kp msg)) = Some sig /\
        ed_verify pk msg sig = true;
  (** both sides of a Diffie-Hellman exchange compute the same secret *)
  x_dh_agree (a b : arr 32) :
    x_diffie_hellman a (x_public b) = x_diffie_hellman b (x_public a);
  (** decryption undoes encryption under the same key and nonce *)
  aes_roundtrip (k : arr 32) (n : arr 12) (m c : list byte) :
    aes_encrypt k n m = Some c -> aes_decrypt k n c = Some m
}.

(** ** KeyType *)

Inductive KeyType : Set := Ed25519 | Lattice | KeyNone.

#[global] Instance KeyType_eq_dec : EqDecision KeyType.
Proof. solve_decision. Defined.

Definition KeyType_default : KeyType := KeyNone.

Definition KeyType_to_byte (k : KeyType) : byte :=
  match k with
  | Ed25519 => x01
  | Lattice => x02
  | KeyNone => x00
  end.

Definition KeyType_from_byte (i : byte) : res KeyType :=
  match i with
  | x00 => Ok KeyNone
  | x01 => Ok Ed25519
  | x02 => Ok Lattice
  | _ => Err "key type failure."
  end.

(** [PUBLIC_KEY_LENGTH], [SECRET_KEY_LENGTH], [SIGNATURE_LENGTH] of ed25519-dalek *)
Definition PUBLIC_KEY_LENGTH : nat := 32.
Definition SECRET_KEY_LENGTH : nat := 32.
Definition SIGNATURE_LENGTH : nat := 64.

Definition pk_len (k : KeyType) : nat :=
  match k with Ed25519 => PUBLIC_KEY_LENGTH | _ => 0 end.

Definition psk_len (k : KeyType) : nat :=
  match k with Ed25519 => SECRET_KEY_LENGTH | _ => 0 end.

Definition sign_len (k : KeyType) : nat :=
  match k with Ed25519 => SIGNATURE_LENGTH | _ => 0 end.

Definition dh_sk_len (k : KeyType) : nat :=
  match k with Ed25519 => 32 | _ => 0 end.

Definition dh_pk_len (k : KeyType) : nat :=
  match k with Ed25519 => 32 | _ => 0 end.

(** ** Keypair *)

Record Keypair : Set := mkKeypair {
  kp_key : KeyType;
  kp_sk : list byte;
  kp_pk : list byte
}.

#[global] Instance Keypair_eq_dec : EqDecision Keypair.
Proof. solve_decision. Defined.

Definition Keypair_default : Keypair := mkKeypair KeyType_default [] [].

Definition Keypair_to_bytes (k : Keypair) : list byte := KeyType_to_byte (kp_key k) :: kp_pk k.

Definition Keypair_from_bytes (bytes : list byte) : res Keypair :=
  if length bytes <? 1 then Err "keypair length failure."
  else
    b0 ← index bytes 0;
    key ← KeyType_from_byte b0;
    if negb (length bytes =? 1 + pk_len key) then Err "keypair from bytes failure."
    else
      pk ← slice 1 (length bytes) bytes;
      Ok (mkKeypair key [] pk).

Definition Keypair_to_db_bytes (k : Keypair) : list byte :=
  KeyType_to_byte (kp_key k) :: kp_sk k ++ kp_pk k.

Definition Keypair_from_db_bytes (bytes : list byte) : res Keypair :=
  if length bytes <? 1 then Err "keypair from db bytes failure."
  else
    b0 ← index bytes 0;
    key ← KeyType_from_byte b0;
    if negb (length bytes =? 1 + pk_len key + psk_len key)
    then Err "keypair from db bytes failure."
    else
      sk ← slice 1 (1 + psk_len key) bytes;
      pk ← slice (1 + psk_len key) (length bytes) bytes;
      Ok (mkKeypair key sk pk).

(** [Keypair::public]: the key without its secret half. *)
Definition Keypair_public (k : Keypair) : Keypair := mkKeypair (kp_key k) [] (kp_pk k).

Definition Keypair_from_pk (key : KeyType) (bytes : list byte) : res Keypair :=
  if length bytes =? pk_len key then Ok (mkKeypair key [] bytes)
  else Err "keypair from pk failure.".

(** ** SessionKey *)

Record SessionKey : Set := mkSessionKey {
  sk_key : KeyType;
  sk_sk : list byte;
  sk_pk : list byte;
  sk_sign : list byte;
  sk_is_ok : bool;
  (** the key the AES-256 cipher was built from *)
  sk_cipher : arr 32;
  sk_nonce : arr 12
}.

(** What the random generator draws for a session key: the X25519 secret and the
    nonce. *)
Record SessionRandom : Set := mkSessionRandom {
  rnd_secret : arr 32;
  rnd_nonce : arr 12
}.

Section Crypto.
Context `{CryptoLib}.

(** [KeyType::generate_kepair], from the secret drawn. *)
Definition generate_kepair (k : KeyType) (secret : arr 32) : Keypair :=
  match k with
  | Ed25519 => mkKeypair k (arr_list secret) (arr_list (ed_public_of secret))
  | _ => Keypair_default
  end.

Definition KeyType_sign (k : KeyType) (keypair : Keypair) (msg : list byte) : res (list byte) :=
  match k with
  | Ed25519 =>
      sk ← copy_from_slice 32 (kp_sk keypair);
      pk ← copy_from_slice 32 (kp_pk keypair);
      bytes ← copy_from_slice 64 (arr_list sk ++ arr_list pk);
      kp ← ok_or "ed25519 sign failure." (ed_keypair_from_bytes bytes);
      Ok (arr_list (ed_sign kp msg))
  | _ => Ok []
  end.

Definition KeyType_verify (k : KeyType) (pk msg sign : list byte) : res bool :=
  match k with
  | Ed25519 =>
      ed_pk ← ok_or "ed25519 public from bytes failure." (ed_public_from_bytes pk);
      sig ← ok_or "ed25519 signaure from bytes failure." (ed_signature_from_bytes sign);
      Ok (ed_verify ed_pk msg sig)
  | _ => Ok false
  end.

Definition KeyType_dh (k : KeyType) (sk pk : list byte) : res (list byte) :=
  match k with
  | Ed25519 =>
      sk_bytes ← copy_from_slice 32 sk;
      pk_bytes ← copy_from_slice 32 pk;
      Ok (arr_list (x_diffie_hellman sk_bytes pk_bytes))
  | _ => Ok (replicate 32 x00)
  end.

Definition Keypair_peer_id (k : Keypair) : PeerId := mkPeerId (blake3_hash (kp_pk k)).

Definition Keypair_sign (k : Keypair) (msg : list byte) : res (list byte) :=
  map_err "keypair sign failure." (KeyType_sign (kp_key k) k msg).

Definition Keypair_verify (k : Keypair) (msg sign : list byte) : bool :=
  match KeyType_verify (kp_key k) (kp_pk k) msg sign with
  | Ok b => b
  | _ => false
  end.

(** [KeyType::session_key] *)
Definition KeyType_session_key (k : KeyType) (self_keypair : Keypair) (r : SessionRandom)
    : res SessionKey :=
  match k with
  | Ed25519 =>
      let alice_public := arr_list (x_public (rnd_secret r)) in
      sign ← Keypair_sign self_keypair alice_public;
      Ok (mkSessionKey k (arr_list (rnd_secret r)) alice_public sign false
            (arr_fill 32 x00) (rnd_nonce r))
  | _ => Err "session key failure."
  end.

Definition generate_session_key (k : Keypair) (r : SessionRandom) : res SessionKey :=
  KeyType_session_key (kp_key k) k r.

(** [SessionKey::complete]: the new session key and the returned flag. *)
Definition SessionKey_complete (s : SessionKey) (remote_pk remote_dh : list byte)
    : res (SessionKey * bool) :=
  if negb (pk_len (sk_key s) =? length remote_pk)
     || negb ((dh_pk_len (sk_key s) + sign_len (sk_key s)) + 12 =? length remote_dh)
  then Ok (s, false)
  else
    '(tmp_pk, tmp_sign_nonce) ← drain (dh_pk_len (sk_key s)) remote_dh;
    '(tmp_sign, tmp_nonce) ← drain (sign_len (sk_key s)) tmp_sign_nonce;
    match KeyType_verify (sk_key s) remote_pk tmp_pk tmp_sign with
    | Ok true =>
        match KeyType_dh (sk_key s) (sk_sk s) tmp_pk with
        | Ok session_key =>
            nonce ← copy_from_slice 12 tmp_nonce;
            Ok (mkSessionKey (sk_key s) (sk_sk s) (sk_pk s) (sk_sign s) true
                  (blake3_hash session_key) nonce, true)
        | Err _ => Ok (s, false)
        | Panic => Panic
        end
    | Panic => Panic
    | _ => Ok (s, false)
    end.

Definition out_bytes (s : SessionKey) : list byte :=
  sk_pk s ++ sk_sign s ++ arr_list (sk_nonce s).

(** [Keypair::complete_session_key] *)
Definition complete_session_key (k : Keypair) (r : SessionRandom) (remote : Keypair)
    (dh_bytes : list byte) : res (option SessionKey) :=
  match generate_session_key k r with
  | Ok session =>
      '(session, ok) ← SessionKey_complete session (kp_pk remote) dh_bytes;
      Ok (if ok : bool then Some session else None)
  | Err _ => Ok None
  | Panic => Panic
  end.

Definition SessionKey_encrypt (s : SessionKey) (msg : list byte) : list byte :=
  default [] (aes_encrypt (sk_cipher s) (sk_nonce s) msg).

Definition SessionKey_decrypt (s : SessionKey) (msg : list byte) : res (list byte) :=
  ok_or "decrypt failure." (aes_decrypt (sk_cipher s) (sk_nonce s) msg).

End Crypto.

(** The lengths a key pair of a given type has; [from_db_bytes] accepts no other. *)
Definition keypair_wf (k : Keypair) : Prop :=
  length (kp_sk k) = psk_len (kp_key k) /\ length (kp_pk k) = pk_len (kp_key k).

(** ** Lemmas *)

Lemma KeyType_from_to_byte (k : KeyType) : KeyType_from_byte (KeyType_to_byte k) = Ok k.
Proof. by destruct k. Qed.

Lemma KeyType_from_byte_no_panic (b : byte) : no_panic (KeyType_from_byte b).
Proof. by destruct b. Qed.

Lemma KeyType_from_byte_inv (b : byte) (k : KeyType) :
  KeyType_from_byte b = Ok k -> b = KeyType_to_byte k.
Proof. destruct b; try done; by intros [= <-]. Qed.

Lemma slice_tail {A : Type} (x : A) (l : list A) : slice 1 (length (x :: l)) (x :: l) = Ok l.
Proof.
  rewrite <- (app_nil_r l) at 2. change (x :: l ++ []) with ([x] ++ l ++ []).
  by apply slice_app.
Qed.

Lemma Keypair_roundtrip (k : Keypair) :
  length (kp_pk k) = pk_len (kp_key k) ->
  Keypair_from_bytes (Keypair_to_bytes k) = Ok (Keypair_public k).
Proof.
  intros Hl. unfold Keypair_from_bytes, Keypair_to_bytes. simpl length. cbn [Nat.ltb Nat.leb].
  unfold index. cbn [lookup list_lookup unwrap mbind res_bind].
  rewrite KeyType_from_to_byte. cbn [mbind res_bind].
  rewrite Hl, Nat.eqb_refl. cbn [negb]. rewrite <- Hl.
  change (S (length (kp_pk k))) with (length (KeyType_to_byte (kp_key k) :: kp_pk k)).
  by rewrite slice_tail.
Qed.

Lemma Keypair_db_roundtrip (k : Keypair) :
  keypair_wf k -> Keypair_from_db_bytes (Keypair_to_db_bytes k) = Ok k.
Proof.
  intros [Hs Hp].
  unfold Keypair_from_db_bytes, Keypair_to_db_bytes. cbn [length Nat.ltb Nat.leb].
  unfold index. cbn [lookup list_lookup unwrap mbind res_bind].
  rewrite KeyType_from_to_byte. cbn [mbind res_bind]. rewrite length_app, Hs, Hp.
  rewrite (proj2 (Nat.eqb_eq _ _)) by lia. cbn [negb].
  change (?x :: kp_sk k ++ kp_pk k) with ([x] ++ kp_sk k ++ kp_pk k).
  rewrite (slice_app 1 (1 + psk_len (kp_key k)) [_] (kp_sk k)) by (cbn [length]; lia).
  cbn [mbind res_bind].
  rewrite app_assoc, slice_suffix.
  - by destruct k.
  - rewrite length_app. cbn [length]. lia.
  - cbn [length]. lia.
Qed.

Lemma length_Keypair_to_bytes (k : Keypair) : length (Keypair_to_bytes k) = S (length (kp_pk k)).
Proof. done. Qed.

Lemma Keypair_from_bytes_cases (l : list byte) :
  (exists e, Keypair_from_bytes l = Err e) \/
  (exists k, Keypair_from_bytes l = Ok k /\ kp_sk k = [] /\
             length (kp_pk k) = pk_len (kp_key k) /\ Keypair_to_bytes k = l).
Proof.
  unfold Keypair_from_bytes. destruct l as [|b l]; [left; by eexists|].
  cbn [length Nat.ltb Nat.leb]. unfold index. cbn [lookup list_lookup unwrap mbind res_bind].
  destruct (KeyType_from_byte b) as [k|e|] eqn:Ek; cbn [mbind res_bind].
  - case_if_bool; [left; by eexists|]. bool_facts.
    change (S (length l)) with (length (b :: l)). rewrite slice_tail. cbn [mbind res_bind].
    right. eexists. split; [done|]. split; [done|]. split; [simpl; lia|].
    unfold Keypair_to_bytes; simpl. f_equal. symmetry. by apply KeyType_from_byte_inv.
  - left. by eexists.
  - pose proof (KeyType_from_byte_no_panic b) as Hp. by rewrite Ek in Hp.
Qed.

Section CryptoLemmas.
Context `{CryptoLib}.

(** A key pair that ed25519-dalek loads: signing with it succeeds, whether or not its
    halves belong together. *)
Definition keypair_signs (k : Keypair) : Prop :=
  kp_key k = Ed25519 /\ length (kp_sk k) = 32 /\ length (kp_pk k) = 32 /\
  exists (bytes : arr 64) (kp : EdKeypair),
    arr_list bytes = kp_sk k ++ kp_pk k /\ ed_keypair_from_bytes bytes = Some kp.

Lemma Keypair_sign_ok (k : Keypair) :
  keypair_signs k ->
  exists (bytes : arr 64) (kp : EdKeypair), arr_list bytes = kp_sk k ++ kp_pk k /\
    ed_keypair_from_bytes bytes = Some kp /\ forall msg, Keypair_sign k msg = Ok (arr_list (ed_sign kp msg)).
Proof.
  intros (Hk & Hs & Hp & bytes & kp & Hb & Hkp). exists bytes, kp. split; [done|]. split; [done|]. intros msg.
  unfold Keypair_sign, KeyType_sign. rewrite Hk.
  destruct (copy_from_slice_ok 32 (kp_sk k) Hs) as (a & -> & Ha).
  destruct (copy_from_slice_ok 32 (kp_pk k) Hp) as (b & -> & Hb').
  cbn [mbind res_bind]. rewrite Ha, Hb', <- Hb, copy_from_slice_arr.
  cbn [mbind res_bind]. by rewrite Hkp.
Qed.

(** The session key made from a draw, with its signature. *)
Definition drawn_session_key (r : SessionRandom) (sig : arr 64) : SessionKey :=
  mkSessionKey Ed25519 (arr_list (rnd_secret r)) (arr_list (x_public (rnd_secret r)))
    (arr_list sig) false (arr_fill 32 x00) (rnd_nonce r).

Lemma generate_session_key_ok (k : Keypair) (r : SessionRandom) :
  keypair_signs k -> exists sig : arr 64, generate_session_key k r = Ok (drawn_session_key r sig).
Proof.
  intros Hk. destruct (Keypair_sign_ok k Hk) as (bytes & kp & _ & _ & E). eexists.
  unfold generate_session_key, KeyType_session_key. destruct Hk as [-> _]. by rewrite E.
Qed.

Lemma KeyType_verify_no_panic (k : KeyType) (pk msg sign : list byte) : no_panic (KeyType_verify k pk msg sign).
Proof.
  unfold KeyType_verify. destruct k; try done. destruct (ed_public_from_bytes pk); [|done]. simpl.
  by destruct (ed_signature_from_bytes sign).
Qed.


(** The success path of [complete]: the cipher key is the hash of the
    Diffie-Hellman secret and the nonce is the remote's. *)
Lemma SessionKey_complete_ok (s : SessionKey) (secret pk : arr 32) (sig : arr 64)
    (nonce : arr 12) (remote_pk : list byte) :
  sk_key s = Ed25519 -> sk_sk s = arr_list secret -> length remote_pk = 32 ->
  KeyType_verify Ed25519 remote_pk (arr_list pk) (arr_list sig) = Ok true ->
  SessionKey_complete s remote_pk (arr_list pk ++ arr_list sig ++ arr_list nonce) =
    Ok (mkSessionKey Ed25519 (sk_sk s) (sk_pk s) (sk_sign s) true
          (blake3_hash (arr_list (x_diffie_hellman secret pk))) nonce, true).
Proof.
  intros Hk Hs Hr V. unfold SessionKey_complete. rewrite Hk, Hr, !length_app, !arr_length.
  cbn [pk_len dh_pk_len sign_len PUBLIC_KEY_LENGTH SIGNATURE_LENGTH Nat.add Nat.eqb negb orb].
  rewrite drain_app by apply arr_length. cbn [mbind res_bind].
  rewrite drain_app by apply arr_length. cbn [mbind res_bind].
  rewrite V. unfold KeyType_dh. by rewrite Hs, !copy_from_slice_arr.
Qed.

(** Every other path of [complete] leaves the session key as it was. *)
Lemma SessionKey_complete_cases (s s' : SessionKey) (remote_pk remote_dh : list byte) (b : bool) :
  SessionKey_complete s remote_pk remote_dh = Ok (s', b) ->
  if b then
    length remote_pk = pk_len (sk_key s) /\
    length remote_dh = dh_pk_len (sk_key s) + sign_len (sk_key s) + 12 /\
    KeyType_verify (sk_key s) remote_pk (take (dh_pk_len (sk_key s)) remote_dh)
      (take (sign_len (sk_key s)) (drop (dh_pk_len (sk_key s)) remote_dh)) = Ok true /\
    sk_is_ok s' = true
  else s' = s.
Proof.
  unfold SessionKey_complete. case_if_bool; [by intros [= <- <-]|].
  apply orb_false_iff in Heqb0 as [H1 H2].
  apply negb_false_iff, Nat.eqb_eq in H1. apply negb_false_iff, Nat.eqb_eq in H2.
  rewrite (drain_ok (dh_pk_len _)) by lia. cbn [mbind res_bind].
  rewrite (drain_ok (sign_len _)) by (rewrite length_drop; lia). cbn [mbind res_bind].
  destruct (KeyType_verify _ _ _ _) as [[]| |] eqn:V; try (by intros [= <- <-]).
  destruct (KeyType_dh _ _ _); try (by intros [= <- <-]).
  destruct (copy_from_slice 12 _) as [n| |]; cbn [mbind res_bind]; try done.
  by intros [= <- <-].
Qed.

(** A key pair as [generate_kepair] makes it: the public half is that of the secret. *)
Definition keypair_genuine (k : Keypair) : Prop := exists secret, k = generate_kepair Ed25519 secret.

Lemma genuine_signs `{!CryptoLaws} (k : Keypair) :
  keypair_genuine k -> keypair_signs k.
Proof.
  intros [secret ->]. cbn [generate_kepair]. unfold keypair_signs. cbn [kp_key kp_sk kp_pk]. rewrite !arr_length.
  destruct (copy_from_slice_ok 64 (arr_list secret ++ arr_list (ed_public_of secret))) as (bytes & _ & Hb).
  { by rewrite length_app, !arr_length. }
  destruct (ed_sign_verify bytes secret Hb) as (kp & E & _). split_and!; try done. by exists bytes, kp.
Qed.

Lemma generate_session_key_genuine `{!CryptoLaws} (k : Keypair) (r : SessionRandom) :
  keypair_genuine k ->
  exists sig : arr 64, generate_session_key k r = Ok (drawn_session_key r sig) /\
    KeyType_verify Ed25519 (kp_pk k) (arr_list (x_public (rnd_secret r))) (arr_list sig) = Ok true.
Proof.
  intros Hk. destruct (Keypair_sign_ok k (genuine_signs k Hk)) as (bytes & kp & Hb & Hkp & E).
  destruct Hk as [secret ->]. destruct (ed_sign_verify bytes secret Hb) as (kp' & Hkp' & Hv).
  replace kp' with kp in * by congruence.
  destruct (Hv (arr_list (x_public (rnd_secret r)))) as (pk & sig & E1 & E2 & E3).
  exists (ed_sign kp (arr_list (x_public (rnd_secret r)))). split.
  - unfold generate_session_key, KeyType_session_key. cbn [generate_kepair kp_key] in *. by rewrite E.
  - unfold KeyType_verify. cbn [generate_kepair kp_pk]. rewrite E1, E2. cbn [mbind res_bind ok_or]. by rewrite E3.
Qed.

(** Two session keys that share cipher key and nonce undo each other. *)
Lemma decrypt_encrypt `{!CryptoLaws} (s1 s2 : SessionKey) (m c : list byte) :
  sk_cipher s1 = sk_cipher s2 -> sk_nonce s1 = sk_nonce s2 ->
  aes_encrypt (sk_cipher s1) (sk_nonce s1) m = Some c ->
  SessionKey_decrypt s2 (SessionKey_encrypt s1 m) = Ok m.
Proof.
  intros E1 E2 Hc. unfold SessionKey_decrypt, SessionKey_encrypt.
  rewrite Hc. simpl. rewrite <- E1, <- E2. by rewrite (aes_roundtrip _ _ _ _ Hc).
Qed.

End CryptoLemmas.

(** ** A concrete instance, to evaluate the model: xor for Diffie-Hellman, a
    signature that repeats the public half, a cipher that reverses its text. *)

Definition pad (n : nat) (l : list byte) : list byte := take n (l ++ replicate n x00).

Lemma pad_len_ok (n : nat) (l : list byte) : Is_true (Nat.eqb (length (pad n l)) n).
Proof.
  unfold pad. rewrite length_take, length_app, length_replicate.
  apply Is_true_true, Nat.eqb_eq. lia.
Qed.

Definition pad_arr (n : nat) (l : list byte) : arr n := Arr (pad n l) (pad_len_ok n l).

Definition byte_xor (a b : byte) : byte := byte_of_Z (Z.lxor (byte_to_Z a) (byte_to_Z b)).

Definition toy_dh (a b : arr 32) : arr 32 := pad_arr 32 (zip_with byte_xor (arr_list a) (arr_list b)).

Definition toy_crypto : CryptoLib := {|
  EdPublic := list byte;
  EdSignature := list byte;
  EdKeypair := arr 64;
  ed_public_of secret := secret;
  ed_public_from_bytes l := if length l =? 32 then Some l else None;
  ed_signature_from_bytes l := if length l =? 64 then Some l else None;
  ed_keypair_from_bytes a := Some a;
  ed_sign kp _ := pad_arr 64 (drop 32 (arr_list kp));
  ed_verify pk _ sig := bool_decide (take 32 sig = pk);
  x_public a := a;
  x_diffie_hellman := toy_dh;
  blake3_hash l := pad_arr 32 l;
  aes_encrypt _ _ m := Some (rev m);
  aes_decrypt _ _ m := Some (rev m)
|}.

Lemma toy_crypto_laws : @CryptoLaws toy_crypto.
Proof.
  constructor; simpl.
  - intros bytes secret Hb. exists bytes. split; [done|]. intros msg.
    assert (drop 32 (arr_list bytes) = arr_list secret) as Hd.
    { rewrite Hb. apply drop_app_length'. by rewrite arr_length. }
    assert (length (drop 32 (arr_list bytes)) = 32) as Hl by (rewrite length_drop, arr_length; done).
    exists (drop 32 (arr_list bytes)), (pad 64 (drop 32 (arr_list bytes))).
    rewrite <- Hd, Hl. split; [done|]. split.
    + pose proof (pad_len_ok 64 (drop 32 (arr_list bytes))) as Hp.
      by destruct (length (pad 64 _) =? 64).
    + apply bool_decide_eq_true. unfold pad. rewrite take_take.
      change (32 `min` 64) with 32. rewrite <- Hl at 1. apply take_app_length.
  - intros a b. apply arr_eq. simpl. f_equal.
    assert (length (arr_list a) = length (arr_list b)) as Hl by (by rewrite !arr_length).
    revert Hl. generalize (arr_list a) (arr_list b).
    induction l as [|x l IH]; intros [|y l'] [=]; simpl; [done|].
    f_equal; [|auto]. unfold byte_xor. by rewrite Z.lxor_comm.
  - intros k n m c [= <-]. by rewrite rev_involutive.
Qed.

Definition toy_keypair (b : byte) : Keypair := mkKeypair Ed25519 (replicate 32 b) (replicate 32 b).

Definition toy_random (b : byte) : SessionRandom := mkSessionRandom (arr_fill 32 b) (arr_fill 12 b).

Lemma toy_keypair_genuine (b : byte) : @keypair_genuine toy_crypto (toy_keypair b).
Proof. exists (arr_fill 32 b). reflexivity. Qed.

Lemma toy_keypair_signs (b : byte) : @keypair_signs toy_crypto (toy_keypair b).
Proof. exact (@genuine_signs toy_crypto toy_crypto_laws _ (toy_keypair_genuine b)). Qed.

(** ** Properties *)

(** The stored form of a well-formed key pair reads back as the same key pair,
    and the form sent to a remote reads back as its public half only. *)
Theorem keypair_bytes_roundtrip (k : Keypair) :
  keypair_wf k ->
  Keypair_from_db_bytes (Keypair_to_db_bytes k) = Ok k /\
  Keypair_from_bytes (Keypair_to_bytes k) = Ok (Keypair_public k).
Proof. intros Hwf. split; [by apply Keypair_db_roundtrip|by apply Keypair_roundtrip, Hwf]. Qed.

Lemma keypair_bytes_roundtrip_witness :
  keypair_wf (toy_keypair x05) /\
  Keypair_from_db_bytes (Keypair_to_db_bytes (toy_keypair x05)) = Ok (toy_keypair x05).
Proof.
  assert (keypair_wf (toy_keypair x05)) as W by (split; reflexivity).
  split; [exact W|]. apply (keypair_bytes_roundtrip (toy_keypair x05) W).
Defined.

(** Reading a stored key never panics, and what is accepted has exactly the
    lengths of its key type and is stored again as the same bytes. *)
Theorem keypair_db_decode_total (l : list byte) :
  no_panic (Keypair_from_db_bytes l) /\
  (forall k, Keypair_from_db_bytes l = Ok k -> keypair_wf k /\ Keypair_to_db_bytes k = l).
Proof.
  unfold Keypair_from_db_bytes. destruct l as [|b l]; [by split|].
  cbn [length Nat.ltb Nat.leb]. unfold index. cbn [lookup list_lookup unwrap mbind res_bind].
  destruct (KeyType_from_byte b) as [k|e|] eqn:Ek; cbn [mbind res_bind]; [|by split|].
  - case_if_bool; [by split|]. bool_facts.
    rewrite !slice_ok by (cbn [length]; lia). cbn [mbind res_bind]. split; [done|].
    intros ? [= <-]. unfold keypair_wf, Keypair_to_db_bytes; cbn [kp_key kp_sk kp_pk].
    cbn [drop Nat.add Nat.sub]. rewrite Nat.sub_0_r.
    rewrite (take_ge (drop (psk_len k) l)) by (rewrite length_drop; lia).
    rewrite drop_0, length_take, length_drop, take_drop. repeat split; [lia|lia|].
    f_equal. symmetry. by apply KeyType_from_byte_inv.
  - pose proof (KeyType_from_byte_no_panic b) as Hp. by rewrite Ek in Hp.
Qed.

(** The handshake of two sides with genuine keys. *)
Lemma handshake_completes `{CryptoLaws} (alice bob : Keypair) (ra rb : SessionRandom) :
  keypair_genuine alice -> keypair_genuine bob ->
  exists sa sb sa',
    generate_session_key alice ra = Ok sa /\
    complete_session_key bob rb (Keypair_public alice) (out_bytes sa) = Ok (Some sb) /\
    SessionKey_complete sa (kp_pk (Keypair_public bob)) (out_bytes sb) = Ok (sa', true) /\
    sk_is_ok sa' = true /\ sk_is_ok sb = true /\
    sk_cipher sa' = sk_cipher sb /\ sk_nonce sa' = rnd_nonce ra /\ sk_nonce sb = rnd_nonce ra /\
    length (out_bytes sa) = 108 /\ length (out_bytes sb) = 108.
Proof.
  intros Ha Hb.
  destruct (generate_session_key_genuine alice ra Ha) as (siga & Ea & Va).
  destruct (generate_session_key_genuine bob rb Hb) as (sigb & Eb & Vb).
  destruct (genuine_signs _ Ha) as (_ & _ & La & _). destruct (genuine_signs _ Hb) as (_ & _ & Lb & _).
  eexists. eexists. eexists. split; [exact Ea|]. split.
  { unfold complete_session_key. rewrite Eb. unfold drawn_session_key, out_bytes; cbn [sk_pk sk_sign sk_nonce].
    rewrite (SessionKey_complete_ok _ (rnd_secret rb) _ siga) by done. done. }
  split.
  { unfold drawn_session_key, out_bytes; cbn [sk_pk sk_sign sk_nonce].
    rewrite (SessionKey_complete_ok _ (rnd_secret ra) _ sigb) by done. done. }
  cbn [sk_is_ok sk_cipher sk_nonce].
  rewrite (x_dh_agree (rnd_secret ra) (rnd_secret rb)).
  unfold drawn_session_key, out_bytes. cbn [sk_pk sk_sign sk_nonce]. rewrite !length_app, !arr_length. repeat split.
Qed.

(** C14: two nodes whose key pairs were generated by the program (the public half
    belongs to the secret one) agree: after the exchange initiator -> responder ->
    initiator (the responder sends its DH bytes after completing) both sides are
    complete, hold the same cipher key and the initiator's nonce, and what one
    encrypts, when the cipher takes it, the other decrypts. *)
Theorem handshake_agreement `{CryptoLaws} (alice bob : Keypair) (ra rb : SessionRandom) :
  keypair_genuine alice -> keypair_genuine bob ->
  exists sa sb sa',
    generate_session_key alice ra = Ok sa /\
    complete_session_key bob rb (Keypair_public alice) (out_bytes sa) = Ok (Some sb) /\
    SessionKey_complete sa (kp_pk (Keypair_public bob)) (out_bytes sb) = Ok (sa', true) /\
    sk_is_ok sa' = true /\ sk_is_ok sb = true /\
    sk_cipher sa' = sk_cipher sb /\ sk_nonce sa' = rnd_nonce ra /\ sk_nonce sb = rnd_nonce ra /\
    (forall m c, aes_encrypt (sk_cipher sa') (sk_nonce sa') m = Some c ->
       SessionKey_decrypt sb (SessionKey_encrypt sa' m) = Ok m /\
       SessionKey_decrypt sa' (SessionKey_encrypt sb m) = Ok m).
Proof.
  intros Ha Hb.
  destruct (handshake_completes alice bob ra rb Ha Hb) as (sa & sb & sa' & E1 & E2 & E3 & E4 & E5 & E6 & E7 & E8 & _).
  exists sa, sb, sa'. split_and!; [done..|]. intros m c Hm.
  assert (sk_nonce sa' = sk_nonce sb) as En by congruence.
  split; eapply decrypt_encrypt; [done..|exact Hm|done|done|]. by rewrite <- E6, <- En.
Qed.

Lemma handshake_agreement_witness :
  exists sa sb sa',
    @generate_session_key toy_crypto (toy_keypair x01) (toy_random x03) = Ok sa /\
    @complete_session_key toy_crypto (toy_keypair x02) (toy_random x04)
      (Keypair_public (toy_keypair x01)) (out_bytes sa) = Ok (Some sb) /\
    @SessionKey_complete toy_crypto sa (kp_pk (toy_keypair x02)) (out_bytes sb) = Ok (sa', true).
Proof.
  destruct (@handshake_agreement toy_crypto toy_crypto_laws (toy_keypair x01) (toy_keypair x02)
    (toy_random x03) (toy_random x04) (toy_keypair_genuine x01) (toy_keypair_genuine x02))
    as (sa & sb & sa' & E1 & E2 & E3 & _).
  exists sa, sb, sa'. exact (conj E1 (conj E2 E3)).
Defined.

(** C24: a session key is completed by authentic bytes only.  For a session key as
    the program makes it, and whatever bytes the remote sends, [complete] returns:
    with success exactly when the remote's public key and the DH bytes have the
    lengths of the key type and the bytes carry a signature valid under that public
    key, and then the cipher key is the hash of the Diffie-Hellman secret and the
    nonce the one received; in every other case with failure, and the session key is
    as it was. *)
Theorem complete_only_authentic `{CryptoLib} (s : SessionKey) (remote_pk remote_dh : list byte) :
  sk_key s = Ed25519 -> length (sk_sk s) = 32 ->
  exists s' b, SessionKey_complete s remote_pk remote_dh = Ok (s', b) /\
    (b = true <-> length remote_pk = 32 /\ length remote_dh = 108 /\
       KeyType_verify Ed25519 remote_pk (take 32 remote_dh) (take 64 (drop 32 remote_dh)) = Ok true) /\
    (b = false -> s' = s) /\
    (b = true -> sk_is_ok s' = true /\ arr_list (sk_nonce s') = drop 96 remote_dh /\
       exists secret public, arr_list secret = sk_sk s /\ arr_list public = take 32 remote_dh /\
         sk_cipher s' = blake3_hash (arr_list (x_diffie_hellman secret public))).
Proof.
  intros Hk Hs. unfold SessionKey_complete. rewrite Hk.
  destruct (Nat.eqb_spec (pk_len Ed25519) (length remote_pk)) as [Hpk|Hpk]; cbn in Hpk; cbn [negb orb];
    [|exists s, false; split_and!; [done| |done|done]; split; [done|intros (? & ? & _); exfalso; unfold PUBLIC_KEY_LENGTH, SIGNATURE_LENGTH in *; lia]].
  destruct (Nat.eqb_spec (dh_pk_len Ed25519 + sign_len Ed25519 + 12) (length remote_dh)) as [Hdh|Hdh];
    cbn in Hdh; cbn [negb];
    [|exists s, false; split_and!; [done| |done|done]; split; [done|intros (? & ? & _); exfalso; unfold PUBLIC_KEY_LENGTH, SIGNATURE_LENGTH in *; lia]].
  cbn [dh_pk_len sign_len PUBLIC_KEY_LENGTH SIGNATURE_LENGTH].
  rewrite (drain_ok 32) by lia. cbn [mbind res_bind].
  rewrite (drain_ok 64) by (rewrite length_drop; lia). cbn [mbind res_bind]. rewrite drop_drop.
  pose proof (KeyType_verify_no_panic Ed25519 remote_pk (take 32 remote_dh) (take 64 (drop 32 remote_dh))) as NP.
  destruct (KeyType_verify _ _ _ _) as [[]| |] eqn:V; [| | |by destruct NP];
    try (exists s, false; split; [done|]; split_and!; try done; split; [done|]; intros (_ & _ & ?); congruence).
  unfold KeyType_dh. destruct (copy_from_slice_ok 32 (sk_sk s) Hs) as (secret & -> & Ha).
  destruct (copy_from_slice_ok 32 (take 32 remote_dh)) as (public & -> & Hb); [rewrite length_take; lia|].
  destruct (copy_from_slice_ok 12 (drop 96 remote_dh)) as (nonce & En & Hn); [rewrite length_drop; lia|].
  cbn [mbind res_bind Nat.add]. rewrite En. cbn [mbind res_bind]. eexists _, true. split; [reflexivity|].
  split_and!; [done|done|]. intros _. cbn [sk_is_ok sk_nonce sk_cipher]. split_and!; [done|done|].
  by exists secret, public.
Qed.

Lemma complete_only_authentic_witness :
  let s := mkSessionKey Ed25519 (replicate 32 x01) [] [] false (arr_fill 32 x00) (arr_fill 12 x00) in
  @SessionKey_complete toy_crypto s (replicate 32 x01) (replicate 5 x00) = Ok (s, false) /\
  exists s', @SessionKey_complete toy_crypto s (replicate 32 x01) (replicate 108 x01) = Ok (s', true) /\
    arr_list (sk_nonce s') = replicate 12 x01.
Proof.
  intros s. split.
  - destruct (@complete_only_authentic toy_crypto s (replicate 32 x01) (replicate 5 x00) eq_refl eq_refl)
      as (s' & b & E & Hb & Hf & _). destruct b.
    + destruct Hb as [Hb _]. destruct (Hb eq_refl) as (_ & Hl & _). discriminate Hl.
    + rewrite E, (Hf eq_refl). reflexivity.
  - destruct (@complete_only_authentic toy_crypto s (replicate 32 x01) (replicate 108 x01) eq_refl eq_refl)
      as (s' & b & E & [_ Hb] & _ & Ht). rewrite Hb in * by (split_and!; reflexivity).
    exists s'. split; [exact E|]. destruct (Ht eq_refl) as (_ & Hn & _). rewrite Hn. reflexivity.
Defined.
