(* ===== verification/Wire.v ===== *)
(** * Messages on the wire

    [RemotePublic] and [EndpointMessage] (src/transports.rs), [Hole], [DHT] and
    [nat] (src/hole_punching.rs), [CoreData] (src/session.rs): the encoders and
    the decoders, each decoder with the checks it makes and the panics its
    slicing could have. *)

From S2P Require Import Prelude Net Types Keys.

(** ** Hole and DHT *)

Inductive Hole : Set := StunOne | StunTwo | Help.

Definition Hole_from_byte (b : byte) : res Hole :=
  match b with
  | x00 => Ok Help
  | x01 => Ok StunOne
  | x02 => Ok StunTwo
  | _ => Err "Hole bytes failure."
  end.

Definition Hole_to_byte (h : Hole) : byte :=
  match h with
  | Help => x00
  | StunOne => x01
  | StunTwo => x02
  end.

(** The loop of [DHT::from_bytes]: peer [i], [i+1], ... of [n] more. *)
Fixpoint DHT_peers (n i : nat) (raw : list byte) : res (list Peer) :=
  match n with
  | O => Ok []
  | S n =>
      bytes ← slice (i * PEER_LENGTH) ((i + 1) * PEER_LENGTH) raw;
      p ← Peer_from_bytes bytes;
      rest ← DHT_peers n (S i) raw;
      Ok (p :: rest)
  end.

(** Arithmetic on [usize] of the given width, in a build that does not check for
    overflow. *)
Definition usize (bits : N) (z : Z) : Z := (z mod 2 ^ Z.of_N bits)%Z.

(** [DHT::from_bytes] on a target with [usize] of the given width.  The products of
    the loop do not wrap before the slice is out of range. *)
Definition DHT_from_bytes_at (bits : N) (bytes : list byte) : res (list Peer) :=
  if length bytes <? 4 then Err "DHT bytes failure."
  else
    len_bytes ← slice 0 4 bytes;
    len32 ← read_le 32 len_bytes;
    raw_bytes ← slice 4 (length bytes) bytes;
    if (Z.of_nat (length raw_bytes) <? usize bits (uval len32 * Z.of_nat PEER_LENGTH))%Z
    then Err "DHT bytes failure."
    else DHT_peers (Z.to_nat (uval len32)) 0 raw_bytes.

Definition DHT_from_bytes : list byte -> res (list Peer) := DHT_from_bytes_at 64.

Definition DHT_to_bytes (peers : list Peer) : list byte :=
  to_le_bytes (to_uint 32 (Z.of_nat (length peers))) ++ concat (map Peer_to_bytes peers).

(** The address a remote is reachable at: the observed address, with the port the
    remote listens on for TCP; public when the observed port is its own. *)
Definition nat_peer (remote_addr : SocketAddr) (local : Peer) : Peer :=
  let is_pub := bool_decide (socket_port remote_addr = socket_port (peer_socket local)) in
  let remote_addr :=
    match peer_transport local with
    | TCP => socket_set_port remote_addr (socket_port (peer_socket local))
    | _ => remote_addr
    end in
  mkPeer (peer_id local) remote_addr (peer_transport local) is_pub.

(** ** RemotePublic *)

Record RemotePublic : Set := mkRemotePublic {
  rp_key : Keypair;
  rp_peer : Peer;
  rp_dh : list byte
}.

Definition RemotePublic_id (r : RemotePublic) : PeerId := peer_id (rp_peer r).

Definition RemotePublic_from_bytes (bytes : list byte) : res RemotePublic :=
  if length bytes <? PEER_LENGTH + 2 then Err "Remote bytes failure."
  else
    '(peer_bytes, bytes) ← drain PEER_LENGTH bytes;
    peer ← Peer_from_bytes peer_bytes;
    '(len_bytes, bytes) ← drain 2 bytes;
    keypair_len16 ← read_be 16 len_bytes;
    let keypair_len := Z.to_nat (uval keypair_len16) in
    if length bytes <? keypair_len then Err "Remote bytes failure."
    else
      '(kp_bytes, bytes) ← drain keypair_len bytes;
      keypair ← Keypair_from_bytes kp_bytes;
      Ok (mkRemotePublic keypair peer bytes).

Definition RemotePublic_to_bytes (r : RemotePublic) : list byte :=
  let keypair_bytes := Keypair_to_bytes (rp_key r) in
  Peer_to_bytes (rp_peer r) ++
  to_be_bytes (to_uint 16 (Z.of_nat (length keypair_bytes))) ++
  keypair_bytes ++ rp_dh r.

(** ** EndpointMessage *)

Inductive EndpointMessage : Set :=
| EM_Close
| EM_Handshake (r : RemotePublic)
| EM_DHT (peers : list Peer)
| EM_Hole (h : Hole)
| EM_HoleConnect
| EM_Data (data : list byte)
| EM_RelayHandshake (p1 : RemotePublic) (p2 : PeerId)
| EM_RelayData (p1 p2 : PeerId) (data : list byte).

Definition EndpointMessage_to_bytes (m : EndpointMessage) : list byte :=
  match m with
  | EM_Close => [x00]
  | EM_Handshake peer =>
      let peer_bytes := RemotePublic_to_bytes peer in
      [x01] ++ to_be_bytes (to_uint 32 (Z.of_nat (length peer_bytes))) ++ peer_bytes
  | EM_DHT dht => [x02] ++ DHT_to_bytes dht
  | EM_Hole hole => [x03] ++ [Hole_to_byte hole]
  | EM_HoleConnect => [x04]
  | EM_Data data => [x05] ++ data
  | EM_RelayHandshake p1_peer p2_id =>
      let peer_bytes := RemotePublic_to_bytes p1_peer in
      [x06] ++ to_be_bytes (to_uint 32 (Z.of_nat (length peer_bytes))) ++ peer_bytes ++
      PeerId_to_bytes p2_id
  | EM_RelayData p1_id p2_id data =>
      [x07] ++ PeerId_to_bytes p1_id ++ PeerId_to_bytes p2_id ++ data
  end.

Definition em_failure : string := "EndpointMessage bytes failure.".

(** [EndpointMessage::from_bytes] on a target with [usize] of the given width. *)
Definition EndpointMessage_from_bytes_at (bits : N) (bytes : list byte) : res EndpointMessage :=
  if length bytes <? 1 then Err em_failure
  else
    '(t, bytes) ← drain 1 bytes;
    t0 ← index t 0;
    match t0 with
    | x00 => Ok EM_Close
    | x01 =>
        if length bytes <? 4 then Err em_failure
        else
          '(len_bytes, bytes) ← drain 4 bytes;
          peer_len32 ← read_be 32 len_bytes;
          if (Z.of_nat (length bytes) <? uval peer_len32)%Z then Err em_failure
          else
            '(peer_bytes, bytes) ← drain (Z.to_nat (uval peer_len32)) bytes;
            peer ← map_err em_failure (RemotePublic_from_bytes peer_bytes);
            Ok (EM_Handshake peer)
    | x02 => dht ← DHT_from_bytes_at bits bytes; Ok (EM_DHT dht)
    | x03 =>
        if negb (length bytes =? 1) then Err em_failure
        else
          b ← index bytes 0;
          hole ← Hole_from_byte b;
          Ok (EM_Hole hole)
    | x04 => Ok EM_HoleConnect
    | x05 => Ok (EM_Data bytes)
    | x06 =>
        if length bytes <? 4 then Err em_failure
        else
          '(len_bytes, bytes) ← drain 4 bytes;
          peer_len32 ← read_be 32 len_bytes;
          if (Z.of_nat (length bytes) <? usize bits (uval peer_len32 + Z.of_nat PEER_ID_LENGTH))%Z
          then Err em_failure
          else
            '(peer_bytes, bytes) ← drain (Z.to_nat (uval peer_len32)) bytes;
            peer ← map_err em_failure (RemotePublic_from_bytes peer_bytes);
            '(p2_bytes, bytes) ← drain PEER_ID_LENGTH bytes;
            p2 ← PeerId_from_bytes p2_bytes;
            Ok (EM_RelayHandshake peer p2)
    | x07 =>
        if length bytes <? PEER_ID_LENGTH * 2 then Err em_failure
        else
          '(p1_bytes, bytes) ← drain PEER_ID_LENGTH bytes;
          p1 ← PeerId_from_bytes p1_bytes;
          '(p2_bytes, bytes) ← drain PEER_ID_LENGTH bytes;
          p2 ← PeerId_from_bytes p2_bytes;
          Ok (EM_RelayData p1 p2 bytes)
    | _ => Err em_failure
    end.

(** The rest of the development is about 64-bit targets. *)
Definition EndpointMessage_from_bytes : list byte -> res EndpointMessage := EndpointMessage_from_bytes_at 64.

(** ** CoreData *)

Inductive CoreData : Set :=
| CD_Ping
| CD_Pong
| CD_Data (tid : u64) (data : list byte)
| CD_Delivery (t : DeliveryType) (tid : u64) (data : list byte)
| CD_StableConnect (tid : u64) (data : list byte)
| CD_StableResult (tid : u64) (is_ok : bool) (data : list byte)
| CD_ResultConnect (tid : u64) (data : list byte)
| CD_Unstable.

Definition DeliveryType_byte (t : DeliveryType) : byte :=
  match t with
  | DT_Data => x00
  | DT_StableConnect => x01
  | DT_StableResult => x02
  end.

Definition CoreData_to_bytes (c : CoreData) : list byte :=
  match c with
  | CD_Ping => [x01]
  | CD_Pong => [x02]
  | CD_Data tid data => [x03] ++ to_le_bytes tid ++ data
  | CD_Delivery t tid data => [x04] ++ [DeliveryType_byte t] ++ to_le_bytes tid ++ data
  | CD_StableConnect tid data => [x05] ++ to_le_bytes tid ++ data
  | CD_StableResult tid is_ok data =>
      [x06] ++ to_le_bytes tid ++ [if is_ok then x01 else x00] ++ data
  | CD_ResultConnect tid data => [x07] ++ to_le_bytes tid ++ data
  | CD_Unstable => [x08]
  end.

(** The error of [CoreData::from_bytes] is the unit. *)
Definition cd_failure : string := EmptyString.

Definition CoreData_from_bytes (bytes : list byte) : res CoreData :=
  if length bytes <? 1 then Err cd_failure
  else
    '(t, bytes) ← drain 1 bytes;
    t0 ← index t 0;
    match t0 with
    | x01 => Ok CD_Ping
    | x02 => Ok CD_Pong
    | x03 =>
        if length bytes <? 8 then Err cd_failure
        else
          '(tid_bytes, bytes) ← drain 8 bytes;
          tid ← read_le 64 tid_bytes;
          Ok (CD_Data tid bytes)
    | x04 =>
        if length bytes <? 9 then Err cd_failure
        else
          '(t_bytes, bytes) ← drain 1 bytes;
          b ← index t_bytes 0;
          t ← match b with
              | x00 => Ok DT_Data
              | x01 => Ok DT_StableConnect
              | x02 => Ok DT_StableResult
              | _ => Err cd_failure
              end;
          '(tid_bytes, bytes) ← drain 8 bytes;
          tid ← read_le 64 tid_bytes;
          Ok (CD_Delivery t tid bytes)
    | x05 =>
        if length bytes <? 8 then Err cd_failure
        else
          '(tid_bytes, bytes) ← drain 8 bytes;
          tid ← read_le 64 tid_bytes;
          Ok (CD_StableConnect tid bytes)
    | x06 =>
        if length bytes <? 9 then Err cd_failure
        else
          '(tid_bytes, bytes) ← drain 8 bytes;
          tid ← read_le 64 tid_bytes;
          '(ok_bytes, bytes) ← drain 1 bytes;
          b ← index ok_bytes 0;
          Ok (CD_StableResult tid (bool_decide (b = x01)) bytes)
    | x07 =>
        if length bytes <? 8 then Err cd_failure
        else
          '(tid_bytes, bytes) ← drain 8 bytes;
          tid ← read_le 64 tid_bytes;
          Ok (CD_ResultConnect tid bytes)
    | x08 => Ok CD_Unstable
    | _ => Err cd_failure
    end.

(** ** What a round trip needs and what it gives *)

(** The announced key has the length of its type. *)
Definition remote_sendable (r : RemotePublic) : Prop :=
  length (kp_pk (rp_key r)) = pk_len (kp_key (rp_key r)).

Definition remote_canonical (r : RemotePublic) : RemotePublic :=
  mkRemotePublic (Keypair_public (rp_key r)) (peer_canonical (rp_peer r)) (rp_dh r).

(** Length fields do not overflow. *)
Definition message_sendable (m : EndpointMessage) : Prop :=
  match m with
  | EM_Handshake r | EM_RelayHandshake r _ =>
      remote_sendable r /\ (Z.of_nat (length (RemotePublic_to_bytes r)) < 2 ^ 32)%Z
  | EM_DHT peers => (Z.of_nat (length peers) < 2 ^ 32)%Z
  | _ => True
  end.

Definition message_canonical (m : EndpointMessage) : EndpointMessage :=
  match m with
  | EM_Handshake r => EM_Handshake (remote_canonical r)
  | EM_RelayHandshake r p => EM_RelayHandshake (remote_canonical r) p
  | EM_DHT peers => EM_DHT (map peer_canonical peers)
  | m => m
  end.

(** ** Lemmas: round trips *)

(** What the decoders compute from a length of 32 bits fits in 64. *)
Lemma usize_64 (z : Z) : (0 <= z < 2 ^ 64)%Z -> usize 64 z = z.
Proof. intros Hz. by apply Z.mod_small. Qed.

Lemma usize_64_mul (u : u32) : usize 64 (uval u * Z.of_nat PEER_LENGTH) = (uval u * Z.of_nat PEER_LENGTH)%Z.
Proof.
  apply usize_64. pose proof (uval_range u) as Hu. change (Z.of_N 32) with 32%Z in Hu. unfold PEER_LENGTH. lia.
Qed.

Lemma usize_64_add (u : u32) :
  usize 64 (uval u + Z.of_nat PEER_ID_LENGTH) = (uval u + Z.of_nat PEER_ID_LENGTH)%Z.
Proof.
  apply usize_64. pose proof (uval_range u) as Hu. change (Z.of_N 32) with 32%Z in Hu. unfold PEER_ID_LENGTH. lia.
Qed.

Lemma Hole_from_to_byte (h : Hole) : Hole_from_byte (Hole_to_byte h) = Ok h.
Proof. by destruct h. Qed.

Lemma length_concat_peers (peers : list Peer) :
  length (concat (map Peer_to_bytes peers)) = length peers * PEER_LENGTH.
Proof.
  induction peers as [|p ps IH]; [done|].
  cbn [map concat length]. rewrite length_app, IH, length_Peer_to_bytes. unfold PEER_LENGTH. lia.
Qed.

Lemma DHT_peers_ok (peers : list Peer) (pre rest : list byte) (i : nat) :
  length pre = i * PEER_LENGTH ->
  DHT_peers (length peers) i (pre ++ concat (map Peer_to_bytes peers) ++ rest)
  = Ok (map peer_canonical peers).
Proof.
  revert pre i. induction peers as [|p ps IH]; intros pre i Hl; [done|].
  cbn [map concat length DHT_peers]. rewrite <- app_assoc.
  rewrite slice_app; [|done|rewrite length_Peer_to_bytes; lia].
  cbn [mbind res_bind]. rewrite Peer_roundtrip_canonical. cbn [mbind res_bind].
  rewrite app_assoc, IH; [done|]. rewrite length_app, Hl, length_Peer_to_bytes. lia.
Qed.

Lemma DHT_roundtrip (peers : list Peer) :
  (Z.of_nat (length peers) < 2 ^ 32)%Z ->
  DHT_from_bytes (DHT_to_bytes peers) = Ok (map peer_canonical peers).
Proof.
  intros Hn. unfold DHT_from_bytes, DHT_from_bytes_at, DHT_to_bytes.
  set (n := to_uint 32 (Z.of_nat (length peers))).
  assert (uval n = Z.of_nat (length peers)) as En by (apply to_uint_small; lia).
  rewrite length_app, length_to_le_bytes, length_concat_peers. cbn [Nat.add Nat.ltb Nat.leb width_bytes].
  rewrite (slice_prefix 4) by (by rewrite length_to_le_bytes).
  cbn [mbind res_bind]. rewrite read_le_to_le by done. cbn [mbind res_bind].
  rewrite slice_suffix.
  - cbn [mbind res_bind]. rewrite length_concat_peers, usize_64_mul, En.
    rewrite (proj2 (Z.ltb_ge _ _)) by lia. rewrite Nat2Z.id.
    rewrite <- (app_nil_r (concat _)). by apply (DHT_peers_ok peers [] [] 0).
  - by rewrite length_to_le_bytes.
  - rewrite length_concat_peers. done.
Qed.

Lemma RemotePublic_roundtrip (r : RemotePublic) :
  remote_sendable r -> RemotePublic_from_bytes (RemotePublic_to_bytes r) = Ok (remote_canonical r).
Proof.
  intros Hs. unfold RemotePublic_from_bytes, RemotePublic_to_bytes.
  set (n := to_uint 16 _).
  assert (pk_len (kp_key (rp_key r)) <= 32) as Hk by (destruct (kp_key (rp_key r)); vm_compute; lia).
  assert (Z.to_nat (uval n) = length (Keypair_to_bytes (rp_key r))) as En.
  { subst n. rewrite to_uint_small; rewrite length_Keypair_to_bytes, Hs; lia. }
  rewrite !length_app, length_Peer_to_bytes, length_to_be_bytes.
  rewrite (proj2 (Nat.ltb_ge _ _)) by (change (width_bytes 16) with 2; lia).
  rewrite drain_app by apply length_Peer_to_bytes. cbn [mbind res_bind].
  rewrite Peer_roundtrip_canonical. cbn [mbind res_bind].
  rewrite drain_app by (by rewrite length_to_be_bytes). cbn [mbind res_bind].
  rewrite read_be_to_be by done. cbn [mbind res_bind]. rewrite En, length_app.
  rewrite (proj2 (Nat.ltb_ge _ _)) by lia.
  rewrite drain_app by done. cbn [mbind res_bind]. by rewrite Keypair_roundtrip.
Qed.

Lemma drain_tag (b : byte) (l : list byte) : drain 1 (b :: l) = Ok ([b], l).
Proof. by apply (drain_app 1 [b]). Qed.

(** Takes the tag byte off a message and enters its branch of the decoder. *)
Ltac decode_tag :=
  rewrite drain_tag; cbn [mbind res_bind];
  repeat change (index [?b] 0) with (@Ok byte b); cbn [mbind res_bind].

Lemma EndpointMessage_roundtrip (m : EndpointMessage) :
  message_sendable m ->
  EndpointMessage_from_bytes (EndpointMessage_to_bytes m) = Ok (message_canonical m).
Proof.
  intros Hs. unfold EndpointMessage_from_bytes, EndpointMessage_from_bytes_at.
  destruct m as [|r|peers|h| |data|r p|p1 p2 data]; cbn [EndpointMessage_to_bytes app length];
    cbn [Nat.ltb Nat.leb]; decode_tag; try done.
  - destruct Hs as [Hr Hl]. rewrite length_app, length_to_be_bytes.
    cbn [width_bytes Nat.ltb Nat.leb Nat.add]. simpl (_ <? 4).
    rewrite drain_app by (by rewrite length_to_be_bytes). cbn [mbind res_bind].
    rewrite read_be_to_be by done. cbn [mbind res_bind].
    rewrite to_uint_small by lia. rewrite Z.ltb_irrefl, Nat2Z.id.
    rewrite drain_all by done.
    cbn [mbind res_bind]. by rewrite RemotePublic_roundtrip.
  - fold DHT_from_bytes. by rewrite DHT_roundtrip.
  - unfold index. simpl. by rewrite Hole_from_to_byte.
  - destruct Hs as [Hr Hl]. rewrite !length_app, length_to_be_bytes, length_PeerId_to_bytes.
    simpl (_ <? 4).
    rewrite drain_app by (by rewrite length_to_be_bytes). cbn [mbind res_bind].
    rewrite read_be_to_be by done. cbn [mbind res_bind].
    rewrite usize_64_add, to_uint_small, length_app, length_PeerId_to_bytes by lia.
    rewrite (proj2 (Z.ltb_ge _ _)) by (unfold PEER_ID_LENGTH; lia). rewrite Nat2Z.id.
    rewrite drain_app by done. cbn [mbind res_bind].
    rewrite RemotePublic_roundtrip by done. cbn [mbind res_bind map_err].
    rewrite drain_all by apply length_PeerId_to_bytes.
    cbn [mbind res_bind]. by rewrite PeerId_from_to_bytes.
  - rewrite !length_app, !length_PeerId_to_bytes. simpl (_ <? PEER_ID_LENGTH * 2).
    rewrite drain_app by apply length_PeerId_to_bytes. cbn [mbind res_bind].
    rewrite PeerId_from_to_bytes. cbn [mbind res_bind].
    rewrite drain_app by apply length_PeerId_to_bytes. cbn [mbind res_bind].
    by rewrite PeerId_from_to_bytes.
Qed.

Lemma CoreData_roundtrip (c : CoreData) : CoreData_from_bytes (CoreData_to_bytes c) = Ok c.
Proof.
  unfold CoreData_from_bytes.
  destruct c as [| |tid d|t tid d|tid d|tid ok d|tid d|]; cbn [CoreData_to_bytes app length];
    cbn [Nat.ltb Nat.leb]; decode_tag; try done;
    rewrite ?length_app; cbn [length]; rewrite ?length_app, ?length_to_le_bytes;
    try (change (width_bytes 64) with 8; cbn [Nat.add Nat.leb Nat.ltb]; simpl (_ <? 8); simpl (_ <? 9)).
  all: try (decode_tag; replace (match DeliveryType_byte t with
      | x00 => Ok DT_Data | x01 => Ok DT_StableConnect | x02 => Ok DT_StableResult
      | _ => Err cd_failure end) with (Ok t) by (by destruct t); cbn [mbind res_bind]).
  all: rewrite drain_app by (by rewrite length_to_le_bytes); cbn [mbind res_bind];
    rewrite read_le_to_le by done; cbn [mbind res_bind]; try done.
  decode_tag. by destruct ok.
Qed.

(** ** Lemmas: decoders do not panic *)

Lemma PeerId_from_bytes_no_panic (l : list byte) : no_panic (PeerId_from_bytes l).
Proof.
  unfold PeerId_from_bytes. destruct (length l =? 32) eqn:E; [|done]. cbn [negb].
  apply Nat.eqb_eq in E. by destruct (copy_from_slice_ok 32 l E) as (a & -> & _).
Qed.

Lemma Peer_from_bytes_no_panic (l : list byte) : no_panic (Peer_from_bytes l).
Proof. by destruct (Peer_from_bytes_cases l) as [[e ->]|(_ & p & -> & _)]. Qed.

Lemma Keypair_from_bytes_no_panic (l : list byte) : no_panic (Keypair_from_bytes l).
Proof. by destruct (Keypair_from_bytes_cases l) as [[e ->]|(k & -> & _)]. Qed.

Lemma Hole_from_byte_no_panic (b : byte) : no_panic (Hole_from_byte b).
Proof. by destruct b. Qed.

#[export] Hint Resolve Hole_from_byte_no_panic PeerId_from_bytes_no_panic Peer_from_bytes_no_panic
  Keypair_from_bytes_no_panic : no_panic.

Lemma DHT_peers_no_panic (n i : nat) (raw : list byte) :
  (i + n) * PEER_LENGTH <= length raw -> no_panic (DHT_peers n i raw).
Proof.
  revert i. induction n as [|n IH]; intros i Hl; [done|]. cbn [DHT_peers].
  rewrite slice_ok by lia. cbn [mbind res_bind].
  apply no_panic_bind; [auto with no_panic|]. intros p _.
  apply no_panic_bind; [apply IH; lia|done].
Qed.

Ltac eval_width :=
  match goal with
  | |- context [width_bytes ?w] =>
      let n := eval vm_compute in (width_bytes w) in change (width_bytes w) with n
  end.

(** One step of a decoder: a length check, a drain that the check allows, or a
    nested decoder. *)
Ltac no_panic_step :=
  lazymatch goal with
  | |- no_panic (if ?b then _ else _) =>
      rewrite ?usize_64_mul, ?usize_64_add;
      match goal with |- no_panic (if ?b then _ else _) => destruct b eqn:?; [exact I|bool_facts] end
  | |- no_panic (drain _ _ ≫= _) =>
      rewrite drain_ok by (rewrite ?length_drop in *; lia); cbn [mbind res_bind]
  | |- no_panic (slice _ _ _ ≫= _) => rewrite slice_ok by lia; cbn [mbind res_bind]
  | |- no_panic (read_le _ _ ≫= _) =>
      apply no_panic_bind; 
        [apply no_panic_read_le; rewrite length_take, ?length_drop; eval_width; lia
        |let u := fresh "u" in intros u _; pose proof (uval_range u)]
  | |- no_panic (read_be _ _ ≫= _) =>
      apply no_panic_bind; 
        [apply no_panic_read_be; rewrite length_take, ?length_drop; eval_width; lia
        |let u := fresh "u" in intros u _; pose proof (uval_range u)]
  | |- no_panic (index ?l ?i ≫= _) =>
      let b := fresh "b" in
      destruct (index_ok l i) as (b & -> & _);
      [rewrite ?length_take, ?length_drop; lia|cbn [mbind res_bind]]
  | |- no_panic (match ?b with _ => _ end ≫= _) => apply no_panic_bind; [by destruct b|intros ? _]
  | |- no_panic (_ ≫= _) => apply no_panic_bind; [solve [auto with no_panic]|intros ? _]
  | |- no_panic (Ok _) => exact I
  | |- no_panic (Err _) => exact I
  end.

Lemma DHT_from_bytes_no_panic (l : list byte) : no_panic (DHT_from_bytes l).
Proof.
  unfold DHT_from_bytes, DHT_from_bytes_at. do 3 no_panic_step. no_panic_step.
  no_panic_step. apply DHT_peers_no_panic. unfold PEER_LENGTH in *. lia.
Qed.

Lemma RemotePublic_from_bytes_no_panic (l : list byte) : no_panic (RemotePublic_from_bytes l).
Proof. unfold RemotePublic_from_bytes. unfold PEER_LENGTH. repeat no_panic_step. Qed.

#[export] Hint Resolve DHT_from_bytes_no_panic RemotePublic_from_bytes_no_panic : no_panic.

Lemma EndpointMessage_from_bytes_no_panic (l : list byte) :
  no_panic (EndpointMessage_from_bytes l).
Proof.
  unfold EndpointMessage_from_bytes, EndpointMessage_from_bytes_at. destruct l as [|t l]; [done|].
  change (length (t :: l) <? 1) with false. decode_tag. fold DHT_from_bytes.
  destruct t; repeat no_panic_step; unfold PEER_ID_LENGTH in *; repeat no_panic_step.
Qed.

Lemma CoreData_from_bytes_no_panic (l : list byte) : no_panic (CoreData_from_bytes l).
Proof.
  unfold CoreData_from_bytes. destruct l as [|t l]; [done|].
  change (length (t :: l) <? 1) with false. decode_tag. destruct t; repeat no_panic_step.
Qed.

(** ** Properties *)

(** Every session payload decodes to itself from its encoding. *)
Theorem core_data_roundtrip (c : CoreData) : CoreData_from_bytes (CoreData_to_bytes c) = Ok c.
Proof. apply CoreData_roundtrip. Qed.

(** C22: every endpoint message whose length fields do not overflow decodes, from
    its encoding, to itself with addresses in canonical form and keys reduced to
    their public half. *)
Theorem endpoint_message_roundtrip (m : EndpointMessage) :
  message_sendable m ->
  EndpointMessage_from_bytes (EndpointMessage_to_bytes m) = Ok (message_canonical m).
Proof. apply EndpointMessage_roundtrip. Qed.

Lemma endpoint_message_roundtrip_witness :
  let r := mkRemotePublic (toy_keypair x09) (Peer_of_id (mkPeerId (arr_fill 32 x07))) [x01; x02] in
  message_sendable (EM_RelayHandshake r PeerId_default) /\
  EndpointMessage_from_bytes (EndpointMessage_to_bytes (EM_RelayHandshake r PeerId_default)) =
    Ok (EM_RelayHandshake (mkRemotePublic (Keypair_public (toy_keypair x09))
          (Peer_of_id (mkPeerId (arr_fill 32 x07))) [x01; x02]) PeerId_default).
Proof.
  intros r.
  assert (message_sendable (EM_RelayHandshake r PeerId_default)) as S by (split; reflexivity).
  split; [exact S|]. apply (endpoint_message_roundtrip (EM_RelayHandshake r PeerId_default) S).
Defined.

(** The relayed handshake with a length field that wraps on a 32-bit target. *)
Definition wrapping_relay : list byte := [x06; xff; xff; xff; xf0] ++ replicate 16 x00.

(** The list of peers with a length field that wraps on a 32-bit target. *)
Definition wrapping_dht : list byte := [x02] ++ to_le_bytes (to_uint 32 82595525) ++ replicate 4 x00.

Lemma wrapping_relay_panics : EndpointMessage_from_bytes_at 32 wrapping_relay = Panic.
Proof.
  unfold EndpointMessage_from_bytes_at, wrapping_relay. cbn [app length Nat.ltb Nat.leb]. decode_tag.
  change (drain 4 _) with (Ok ([xff; xff; xff; xf0], replicate 16 x00)).
  cbn [length replicate Nat.ltb Nat.leb mbind res_bind].
  change (read_be 32 [xff; xff; xff; xf0]) with (Ok (to_uint 32 4294967280)). cbn [mbind res_bind].
  change (uval (to_uint 32 4294967280)) with 4294967280%Z.
  change (usize 32 (4294967280 + Z.of_nat PEER_ID_LENGTH)) with 16%Z. cbn [Z.ltb Z.compare Z.of_nat].
  unfold drain. rewrite (proj2 (Nat.leb_gt _ _)) by (cbn [length]; lia). done.
Qed.

Lemma wrapping_dht_panics : EndpointMessage_from_bytes_at 32 wrapping_dht = Panic.
Proof.
  unfold EndpointMessage_from_bytes_at, wrapping_dht. cbn [app length Nat.ltb Nat.leb]. decode_tag.
  unfold DHT_from_bytes_at.
  change (slice 0 4 _) with (Ok (to_le_bytes (to_uint 32 82595525))).
  change (length _ <? 4) with false. cbn [mbind res_bind].
  rewrite read_le_to_le by done. cbn [mbind res_bind].
  change (slice 4 _ _) with (Ok (replicate 4 x00)). cbn [mbind res_bind].
  change (uval (to_uint 32 82595525)) with 82595525%Z.
  change (usize 32 (82595525 * Z.of_nat PEER_LENGTH)) with 4%Z.
  change (Z.of_nat (length (replicate 4 x00)) <? 4)%Z with false. cbn iota.
  destruct (Z.to_nat 82595525) as [|n] eqn:En; [lia|]. cbn [DHT_peers].
  by change (slice (0 * PEER_LENGTH) ((0 + 1) * PEER_LENGTH) (replicate 4 x00)) with (@Panic (list byte)).
Qed.

(** C23: on a 64-bit target no sequence of bytes a remote sends makes the message or the
    payload decoder panic: every slice and drain they take is within bounds.  On a 32-bit
    target two messages of a few bytes do, one with a relayed handshake and one with a
    list of peers: the sum, respectively the product, of a length field and a constant
    wraps, the length check passes and the slice is out of range (a build that checks
    for overflow panics on the sum or the product itself). *)
Theorem wire_decoders_never_panic :
  (forall l, no_panic (EndpointMessage_from_bytes l) /\ no_panic (CoreData_from_bytes l)) /\
  length wrapping_relay = 21 /\ EndpointMessage_from_bytes_at 32 wrapping_relay = Panic /\
  length wrapping_dht = 9 /\ EndpointMessage_from_bytes_at 32 wrapping_dht = Panic.
Proof.
  split_and!.
  - intros l. split; [apply EndpointMessage_from_bytes_no_panic | apply CoreData_from_bytes_no_panic].
  - done.
  - apply wrapping_relay_panics.
  - done.
  - apply wrapping_dht_panics.
Qed.

(** Address translation keeps the remote's identity and transport, always
    takes the observed IP, keeps the announced port exactly for TCP, and marks the
    peer public exactly when the observed port is the announced one. *)
Theorem nat_translates_address (addr : SocketAddr) (p : Peer) :
  peer_id (nat_peer addr p) = peer_id p /\
  peer_transport (nat_peer addr p) = peer_transport p /\
  socket_ip (peer_socket (nat_peer addr p)) = socket_ip addr /\
  socket_port (peer_socket (nat_peer addr p)) =
    (if decide (peer_transport p = TCP) then socket_port (peer_socket p) else socket_port addr) /\
  (peer_is_pub (nat_peer addr p) = true <-> socket_port addr = socket_port (peer_socket p)).
Proof.
  unfold nat_peer; cbn [peer_id peer_transport peer_socket peer_is_pub].
  split; [done|]. split; [done|].
  split; [by destruct (peer_transport p), addr|].
  split; [by destruct (peer_transport p), addr|]. apply bool_decide_eq_true.
Qed.
