(* ===== verification/Transport.v ===== *)
(** * Messages on a stream (src/transports/tcp.rs, src/transports/quic.rs)

    How the transports cut a stream into messages.  A TCP stream is the list of
    pieces in which its bytes arrive, none of them empty; one [read] gives at most
    what is asked for of the first piece, and nothing at the end of the stream.
    A loop of reads has a bound on the number of reads; running out of it means
    that the loop is still reading. *)

From S2P Require Import Prelude Net Types Keys Wire.
From stdpp Require Import list_relations list.

(** ** TCP *)

Record Stream : Set := mkStream {
  pieces : list (list byte);
  broken : bool  (** the stream ends with an error, not with its end *)
}.

(** [reader.read(&mut buf[..n])]; [None] is an [Err]. *)
Definition stream_read (n : nat) (st : Stream) : option (list byte) * Stream :=
  match n, pieces st with
  | O, _ => (Some [], st)
  | _, [] => (if broken st then None else Some [], st)
  | _, c :: cs =>
      (Some (take n c),
       mkStream (if length c <=? n then cs else drop n c :: cs) (broken st))
  end.

(** The loop that fills the buffer of a message: [while let Ok(size) = read(..)]
    until [len] bytes are there; [Some (None, _)] is a read error. *)
Fixpoint read_body (reads len : nat) (received : list byte) (st : Stream)
    : option (option (list byte) * Stream) :=
  match reads with
  | O => None
  | S reads =>
      match stream_read (len - length received) st with
      | (None, st) => Some (None, st)
      | (Some bytes, st) =>
          let received := received ++ bytes in
          if length received <? len then read_body reads len received st
          else Some (Some received, st)
      end
  end.

(** [u32::from_be_bytes(read_len)] of a buffer of zeros that [bytes] were read
    into. *)
Definition frame_len (bytes : list byte) : nat :=
  match read_be 32 (bytes ++ replicate (4 - length bytes) x00) with
  | Ok u => Z.to_nat (uval u)
  | _ => 0
  end.

(** The handshake of [process_stream]: the [select!] ends it with [Err] when the
    timer fires before the reads are done. *)
Definition tcp_handshake (reads : nat) (st : Stream) : option RemotePublic * Stream :=
  match stream_read 4 st with
  | (Some bytes, st) =>
      if negb (length bytes =? 4) then (None, st)
      else
        match read_body reads (frame_len bytes) [] st with
        | Some (Some buf, st) =>
            match EndpointMessage_from_bytes buf with
            | Ok (EM_Handshake remote_pk) => (Some remote_pk, st)
            | _ => (None, st)
            end
        | Some (None, st) => (None, st)
        | None => (None, st)
        end
  | (None, st) => (None, st)
  end.

(** The reading half of [process_stream]: the messages it sends to the session, and
    whether it ended within the reads. *)
Fixpoint tcp_reader (reads : nat) (st : Stream) : list EndpointMessage * bool :=
  match reads with
  | O => ([], false)
  | S reads =>
      match stream_read 4 st with
      | (None, _) => ([EM_Close], true)
      | (Some [], _) => ([EM_Close], true)
      | (Some bytes, st) =>
          match read_body reads (frame_len bytes) [] st with
          | None => ([], false)
          | Some (None, st) => tcp_reader reads st
          | Some (Some buf, st) =>
              match EndpointMessage_from_bytes buf with
              | Ok msg => let '(l, ended) := tcp_reader reads st in (msg :: l, ended)
              | _ => tcp_reader reads st
              end
          end
      end
  end.

(** The length of a message, as the first bytes it is sent with. *)
Definition tcp_prefix (bytes : list byte) : list byte :=
  to_be_bytes (to_uint 32 (Z.of_nat (length bytes))).

(** How far the two writes of a message get: [write] of the length prefix gives an
    error, [None], or the number of bytes the socket took, which may be fewer than it
    was given and which the source does not look at; [write_all] of the body stops
    early when there is an error. *)
Record SocketWrite : Set := mkSocketWrite {
  sw_prefix : option nat;
  sw_body : nat
}.

(** What the writing half puts on the stream for one message: the body is not
    written when the write of the prefix is an error. *)
Definition tcp_write (sw : SocketWrite) (m : EndpointMessage) : list byte :=
  let bytes := EndpointMessage_to_bytes m in
  match sw_prefix sw with
  | Some n => take n (tcp_prefix bytes) ++ take (sw_body sw) bytes
  | None => []
  end.

(** The handshake of a dial: both results are dropped. *)
Definition tcp_write_handshake (sw : SocketWrite) (remote_pk : RemotePublic) : list byte :=
  let bytes := EndpointMessage_to_bytes (EM_Handshake remote_pk) in
  take (default 0 (sw_prefix sw)) (tcp_prefix bytes) ++ take (sw_body sw) bytes.

(** The writing half of [process_stream], whose message number [n] is written as far
    as [sw n] says: it stops after a [Close]. *)
Fixpoint tcp_writer (sw : nat -> SocketWrite) (l : list EndpointMessage) : list byte :=
  match l with
  | [] => []
  | EM_Close :: _ => tcp_write (sw 0) EM_Close
  | m :: l => tcp_write (sw 0) m ++ tcp_writer (fun n => sw (S n)) l
  end.

(** A message with its whole length prefix. *)
Definition tcp_frame (m : EndpointMessage) : list byte :=
  let bytes := EndpointMessage_to_bytes m in
  tcp_prefix bytes ++ bytes.

(** The socket takes the whole of the message. *)
Definition takes_whole (sw : SocketWrite) (m : EndpointMessage) : Prop :=
  4 <= default 0 (sw_prefix sw) /\ length (EndpointMessage_to_bytes m) <= sw_body sw.

(** ** QUIC: one stream per message *)

Definition SIZE_LIMIT : nat := Z.to_nat 67108864.

Section QuicReader.

(** [recv.read_to_end(size_limit)] of the quinn crate on a stream that carries the
    given bytes; [None] is an [Err]. *)
Context (read_to_end : nat -> list byte -> option (list byte)).

(** The reading half: a stream that cannot be read to its end or does not decode is
    skipped. *)
Fixpoint quic_reader (streams : list (list byte)) : list EndpointMessage :=
  match streams with
  | [] => []
  | bytes :: streams =>
      match read_to_end SIZE_LIMIT bytes with
      | Some bytes =>
          match EndpointMessage_from_bytes bytes with
          | Ok msg => msg :: quic_reader streams
          | _ => quic_reader streams
          end
      | None => quic_reader streams
      end
  end.

Definition quic_handshake (streams : list (list byte)) : option RemotePublic * list (list byte) :=
  match streams with
  | [] => (None, [])
  | bytes :: streams =>
      match read_to_end SIZE_LIMIT bytes with
      | Some bytes =>
          match EndpointMessage_from_bytes bytes with
          | Ok (EM_Handshake remote_pk) => (Some remote_pk, streams)
          | _ => (None, streams)
          end
      | None => (None, streams)
      end
  end.

End QuicReader.

(** The writing half: the streams it opens. *)
Fixpoint quic_writer (l : list EndpointMessage) : list (list byte) :=
  match l with
  | [] => []
  | EM_Close :: _ => [EndpointMessage_to_bytes EM_Close]
  | m :: l => EndpointMessage_to_bytes m :: quic_writer l
  end.

(** ** Lemmas *)

Definition whole (cs : list (list byte)) : Prop := Forall (fun c => c <> []) cs.

(** The pieces without their first [n] bytes. *)
Fixpoint drop_bytes (n : nat) (cs : list (list byte)) : list (list byte) :=
  match cs with
  | [] => []
  | c :: cs => if n <? length c then drop n c :: cs else drop_bytes (n - length c) cs
  end.

Lemma drop_bytes_0 (cs : list (list byte)) : whole cs -> drop_bytes 0 cs = cs.
Proof. destruct cs as [|[|b c] cs]; intros Hw; [done|by apply Forall_cons in Hw as [? _]|done]. Qed.

Lemma whole_drop_bytes (n : nat) (cs : list (list byte)) : whole cs -> whole (drop_bytes n cs).
Proof.
  intros Hw. revert n. induction Hw as [|c cs Hc Hw IH]; intros n; [by constructor|]. simpl.
  destruct (Nat.ltb_spec n (length c)); [|apply IH]. constructor; [|done].
  intros E. apply (f_equal length) in E. rewrite length_drop in E. simpl in E. lia.
Qed.

Lemma concat_drop_bytes (n : nat) (cs : list (list byte)) :
  concat (drop_bytes n cs) = drop n (concat cs).
Proof.
  revert n. induction cs as [|c cs IH]; intros n; simpl; [by rewrite drop_nil|].
  destruct (Nat.ltb_spec n (length c)).
  - simpl. by rewrite drop_app_le by lia.
  - rewrite IH. by rewrite drop_app_ge by lia.
Qed.

Lemma drop_bytes_add (n m : nat) (cs : list (list byte)) :
  whole cs -> drop_bytes m (drop_bytes n cs) = drop_bytes (n + m) cs.
Proof.
  intros Hw. revert n. induction Hw as [|c cs Hc Hw IH]; intros n; [done|]. cbn [drop_bytes].
  destruct (Nat.ltb_spec n (length c)) as [Hn|Hn].
  - cbn [drop_bytes]. rewrite length_drop.
    destruct (Nat.ltb_spec m (length c - n)), (Nat.ltb_spec (n + m) (length c)); try lia.
    + by rewrite drop_drop.
    + f_equal. lia.
  - rewrite IH. destruct (Nat.ltb_spec (n + m) (length c)); [lia|]. f_equal. lia.
Qed.

(** One read of a stream that has bytes. *)
Lemma stream_read_some (n : nat) (c : list byte) (cs : list (list byte)) (b : bool) :
  0 < n -> c <> [] -> whole cs ->
  stream_read n (mkStream (c :: cs) b) =
  (Some (take n c), mkStream (drop_bytes (length (take n c)) (c :: cs)) b) /\ 0 < length (take n c).
Proof.
  intros Hn Hc Hw. split.
  - destruct n as [|n]; [lia|]. cbn [stream_read pieces broken]. f_equal. f_equal. rewrite length_take.
    cbn [drop_bytes]. destruct (Nat.leb_spec (length c) (S n)), (Nat.ltb_spec (S n `min` length c) (length c));
      try lia.
    + replace (S n `min` length c - length c) with 0 by lia. by rewrite drop_bytes_0.
    + by replace (S n `min` length c) with (S n) by lia.
  - rewrite length_take. destruct c; [done|]. simpl. lia.
Qed.

Lemma take_concat_head (n : nat) (c : list byte) (cs : list (list byte)) :
  take n c = take (length (take n c)) (concat (c :: cs)).
Proof.
  cbn [concat]. destruct (Nat.le_ge_cases n (length c)).
  - rewrite length_take_le by done. by rewrite take_app_le.
  - rewrite take_ge by done. by rewrite take_app_length.
Qed.

(** The buffer loop reads the whole body when it is on the stream. *)
Lemma read_body_ok (reads len : nat) (received : list byte) (cs : list (list byte)) (b : bool) :
  whole cs -> length received <= len -> len - length received <= length (concat cs) ->
  len - length received < reads ->
  read_body reads len received (mkStream cs b) =
  Some (Some (received ++ take (len - length received) (concat cs)),
        mkStream (drop_bytes (len - length received) cs) b).
Proof.
  revert received cs. induction reads as [|reads IH]; intros received cs Hw Hl Hc Hr; [lia|].
  cbn [read_body]. destruct (decide (length received = len)) as [El|El].
  - replace (len - length received) with 0 by lia. cbn [stream_read pieces]. rewrite app_nil_r.
    rewrite (proj2 (Nat.ltb_ge _ _)) by lia. rewrite take_0, app_nil_r, drop_bytes_0 by done. done.
  - destruct cs as [|c cs]; [simpl in Hc; lia|]. apply Forall_cons in Hw as [Hc0 Hw].
    assert (whole (c :: cs)) as Hw' by by constructor.
    destruct (stream_read_some (len - length received) c cs b) as [-> Hpos]; [lia|done|done|].
    set (k := length (take (len - length received) c)) in *.
    assert (k <= len - length received) as Hk by (subst k; rewrite length_take; lia).
    rewrite (take_concat_head (len - length received) c cs). fold k.
    assert (length (take k (concat (c :: cs))) = k) as Hlk by (rewrite length_take; lia).
    rewrite length_app, Hlk. destruct (Nat.ltb_spec (length received + k) len) as [Hlt|Hge].
    + rewrite IH; [| |rewrite length_app; lia| |rewrite length_app; lia].
      * rewrite length_app, Hlk, concat_drop_bytes, drop_bytes_add by done.
        rewrite <- app_assoc, take_take_drop.
        by replace (k + (len - (length received + k))) with (len - length received) by lia.
      * by apply whole_drop_bytes.
      * rewrite length_app, Hlk, concat_drop_bytes, length_drop. lia.
    + by replace (len - length received) with k by lia.
Qed.

(** A message whose encoding has a length that fits the prefix. *)
Definition framed (m : EndpointMessage) : Prop :=
  message_sendable m /\ (Z.of_nat (length (EndpointMessage_to_bytes m)) < 2 ^ 32)%Z.

Lemma length_prefix (u : u32) : length (to_be_bytes u) = 4.
Proof. unfold to_be_bytes. rewrite length_rev, length_to_le_bytes. done. Qed.

Lemma frame_len_prefix (n : nat) :
  (Z.of_nat n < 2 ^ 32)%Z -> frame_len (to_be_bytes (to_uint 32 (Z.of_nat n))) = n.
Proof.
  intros Hn. unfold frame_len. rewrite length_prefix. cbn [Nat.sub replicate]. rewrite app_nil_r.
  rewrite read_be_to_be by (by vm_compute). rewrite to_uint_small; [lia|].
  change (Z.of_N 32) with 32%Z. lia.
Qed.

Lemma length_tcp_frame (m : EndpointMessage) :
  length (tcp_frame m) = 4 + length (EndpointMessage_to_bytes m).
Proof. unfold tcp_frame, tcp_prefix. by rewrite length_app, length_prefix. Qed.

(** Each length prefix arrives in one piece. *)
Fixpoint prefixes_whole (l : list EndpointMessage) (cs : list (list byte)) : Prop :=
  match l with
  | [] => True
  | m :: l => 4 <= length (default [] (head cs)) /\ prefixes_whole l (drop_bytes (length (tcp_frame m)) cs)
  end.

Lemma stream_read_prefix (c : list byte) (cs : list (list byte)) (b : bool) :
  4 <= length c -> whole cs ->
  stream_read 4 (mkStream (c :: cs) b) =
  (Some (take 4 (concat (c :: cs))), mkStream (drop_bytes 4 (c :: cs)) b).
Proof.
  intros Hc Hw. destruct (stream_read_some 4 c cs b) as [-> _]; [lia|by intros ->; simpl in Hc; lia|done|].
  rewrite length_take_le by done. by rewrite (take_concat_head 4 c cs), length_take_le.
Qed.

(** The reads of one frame. *)
Lemma read_frame (reads : nat) (m : EndpointMessage) (cs : list (list byte)) (b : bool) (rest : list byte) :
  framed m -> whole cs -> concat cs = tcp_frame m ++ rest -> 4 <= length (default [] (head cs)) ->
  length (tcp_frame m) <= reads ->
  exists p0 pre,
    stream_read 4 (mkStream cs b) = (Some (p0 :: pre), mkStream (drop_bytes 4 cs) b) /\ length pre = 3 /\
    read_body reads (frame_len (p0 :: pre)) [] (mkStream (drop_bytes 4 cs) b) =
      Some (Some (EndpointMessage_to_bytes m), mkStream (drop_bytes (length (tcp_frame m)) cs) b).
Proof.
  intros [Hm Hlen] Hw E Hp Hr. destruct cs as [|c cs]; [simpl in Hp; lia|]. cbn [default from_option head id] in Hp.
  apply Forall_cons in Hw as Hw'. destruct Hw' as [Hc Hcs].
  rewrite stream_read_prefix by done. rewrite E, length_tcp_frame. rewrite length_tcp_frame in Hr.
  unfold tcp_frame, tcp_prefix in *. set (bytes := EndpointMessage_to_bytes m) in *.
  assert (frame_len (to_be_bytes (to_uint 32 (Z.of_nat (length bytes)))) = length bytes) as Hfl
    by (by apply frame_len_prefix).
  pose proof (length_prefix (to_uint 32 (Z.of_nat (length bytes)))) as Hpre.
  destruct (to_be_bytes (to_uint 32 (Z.of_nat (length bytes)))) as [|p0 pre]; [done|].
  assert (concat (drop_bytes 4 (c :: cs)) = bytes ++ rest) as Ed.
  { rewrite concat_drop_bytes, E, <- app_assoc. by apply drop_app_length'. }
  exists p0, pre. rewrite <- app_assoc, take_app_length' by done. rewrite Hfl.
  split; [done|]. split; [simpl in Hpre; lia|].
  pose proof (whole_drop_bytes 4 (c :: cs) Hw) as Hwd.
  rewrite <- (drop_bytes_add 4 (length bytes)) by done.
  revert Ed Hwd. generalize (drop_bytes 4 (c :: cs)). intros ds Ed Hwd.
  rewrite read_body_ok; cbn [length app]; rewrite ?Nat.sub_0_r, ?Ed, ?length_app; try lia; [|done].
  by rewrite take_app_length.
Qed.

(** Reading one frame. *)
Lemma tcp_reader_frame (reads : nat) (m : EndpointMessage) (cs : list (list byte)) (b : bool)
    (rest : list byte) :
  framed m -> whole cs -> concat cs = tcp_frame m ++ rest -> 4 <= length (default [] (head cs)) ->
  length (tcp_frame m) <= reads ->
  tcp_reader (S reads) (mkStream cs b) =
  (let '(l, ended) := tcp_reader reads (mkStream (drop_bytes (length (tcp_frame m)) cs) b) in
   (message_canonical m :: l, ended)).
Proof.
  intros Hf Hw E Hp Hr. destruct (read_frame reads m cs b rest) as (p0 & pre & E1 & _ & E2); try done.
  cbn [tcp_reader]. rewrite E1, E2. by rewrite (EndpointMessage_roundtrip m (proj1 Hf)).
Qed.

Lemma tcp_handshake_frame (reads : nat) (m : EndpointMessage) (cs : list (list byte)) (b : bool)
    (rest : list byte) :
  framed m -> whole cs -> concat cs = tcp_frame m ++ rest -> 4 <= length (default [] (head cs)) ->
  length (tcp_frame m) <= reads ->
  tcp_handshake reads (mkStream cs b) =
    (match m with EM_Handshake r => Some (remote_canonical r) | _ => None end,
     mkStream (drop_bytes (length (tcp_frame m)) cs) b).
Proof.
  intros Hf Hw E Hp Hr. destruct (read_frame reads m cs b rest) as (p0 & pre & E1 & Hpre & E2); try done.
  unfold tcp_handshake. rewrite E1. cbn [length]. rewrite Hpre. cbn [Nat.eqb negb]. rewrite E2.
  rewrite (EndpointMessage_roundtrip m (proj1 Hf)). by destruct m.
Qed.

(** The TCP handshake.  Whatever the first message of a stream, when its
    length prefix arrives in one piece the connection goes on exactly when it is a
    handshake, with the key, the peer and the DH bytes that were sent, and the
    bytes after it are left for the messages that follow. *)
Theorem tcp_handshake_first_message (reads : nat) (m : EndpointMessage) (cs : list (list byte)) (b : bool)
    (rest : list byte) :
  framed m -> whole cs -> concat cs = tcp_frame m ++ rest -> 4 <= length (default [] (head cs)) ->
  length (tcp_frame m) <= reads ->
  exists cs', whole cs' /\ concat cs' = rest /\
    tcp_handshake reads (mkStream cs b) =
      (match m with EM_Handshake r => Some (remote_canonical r) | _ => None end, mkStream cs' b).
Proof.
  intros Hf Hw E Hp Hr. exists (drop_bytes (length (tcp_frame m)) cs). split; [by apply whole_drop_bytes|].
  split; [by rewrite concat_drop_bytes, E, drop_app_length|]. by apply tcp_handshake_frame with rest.
Qed.

Lemma tcp_handshake_first_message_witness :
  exists cs', whole cs' /\ concat cs' = [x00; x00] /\
    tcp_handshake 200 (mkStream
      [tcp_frame (EM_Handshake (mkRemotePublic (toy_keypair x11) Peer_default [x01; x02])) ++ [x00]; [x00]] true) =
    (Some (mkRemotePublic (Keypair_public (toy_keypair x11)) Peer_default [x01; x02]), mkStream cs' true).
Proof.
  apply (tcp_handshake_first_message 200 (EM_Handshake (mkRemotePublic (toy_keypair x11) Peer_default [x01; x02])));
    [|repeat constructor; vm_compute; discriminate|vm_compute; reflexivity| |].
  - repeat split.
  - apply Nat.leb_le. vm_compute. reflexivity.
  - apply Nat.leb_le. vm_compute. reflexivity.
Defined.

(** Reading all frames of a stream. *)
Lemma tcp_reader_frames (l : list EndpointMessage) (cs : list (list byte)) (b : bool) (reads : nat) :
  Forall framed l -> whole cs -> concat cs = concat (map tcp_frame l) -> prefixes_whole l cs ->
  length (concat cs) < reads ->
  tcp_reader reads (mkStream cs b) = (map message_canonical l ++ [EM_Close], true).
Proof.
  intros Hl. revert cs reads. induction Hl as [|m l Hm Hl IH]; intros cs reads Hw E Hp Hr.
  - destruct reads as [|reads]; [lia|]. destruct cs as [|c cs].
    + by destruct b.
    + apply Forall_cons in Hw as [Hc _]. by destruct c.
  - destruct reads as [|reads]; [lia|]. destruct Hp as [Hp Hps].
    cbn [map concat] in E. rewrite E, length_app in Hr.
    rewrite (tcp_reader_frame reads m cs b (concat (map tcp_frame l))) by (done || lia).
    rewrite IH; [done|by apply whole_drop_bytes| |done|].
    + rewrite concat_drop_bytes, E. by rewrite drop_app_length.
    + rewrite concat_drop_bytes, E, drop_app_length. rewrite length_tcp_frame in Hr. lia.
Qed.

(** What a writing half sends of the messages it is given: all of them, up to
    the first [Close]. *)
Fixpoint until_close (l : list EndpointMessage) : list EndpointMessage :=
  match l with
  | [] => []
  | EM_Close :: _ => [EM_Close]
  | m :: l => m :: until_close l
  end.

(** Every message that is written is taken whole. *)
Definition writes_whole (sw : nat -> SocketWrite) (l : list EndpointMessage) : Prop :=
  forall i m, until_close l !! i = Some m -> takes_whole (sw i) m.

Lemma take_whole_frame (n body : nat) (m : EndpointMessage) :
  4 <= n -> length (EndpointMessage_to_bytes m) <= body ->
  take n (tcp_prefix (EndpointMessage_to_bytes m)) ++ take body (EndpointMessage_to_bytes m) = tcp_frame m.
Proof.
  intros Hn Hb. unfold tcp_frame. rewrite !take_ge; [done|done|]. unfold tcp_prefix. by rewrite length_prefix.
Qed.

Lemma tcp_write_whole (sw : SocketWrite) (m : EndpointMessage) : takes_whole sw m -> tcp_write sw m = tcp_frame m.
Proof.
  intros [Hn Hb]. unfold tcp_write. destruct (sw_prefix sw) as [n|]; simpl in Hn; [|lia]. by apply take_whole_frame.
Qed.

Lemma tcp_write_handshake_whole (sw : SocketWrite) (rp : RemotePublic) :
  takes_whole sw (EM_Handshake rp) -> tcp_write_handshake sw rp = tcp_frame (EM_Handshake rp).
Proof. intros [Hn Hb]. by apply take_whole_frame. Qed.

Lemma tcp_writer_frames (sw : nat -> SocketWrite) (l : list EndpointMessage) :
  writes_whole sw l -> tcp_writer sw l = concat (map tcp_frame (until_close l)).
Proof.
  revert sw. induction l as [|m l IH]; intros sw Hw; [done|].
  assert (tcp_write (sw 0) m = tcp_frame m) as Em.
  { apply tcp_write_whole, (Hw 0). by destruct m. }
  destruct m; cbn [tcp_writer until_close map concat]; rewrite Em; rewrite ?app_nil_r; try done;
    f_equal; apply IH; intros i m' Hi; by apply (Hw (S i)).
Qed.

Lemma quic_writer_streams (l : list EndpointMessage) :
  quic_writer l = map EndpointMessage_to_bytes (until_close l).
Proof. induction l as [|m l IH]; [done|]. destruct m; cbn [quic_writer until_close map]; by rewrite ?IH. Qed.

Lemma until_close_Forall (P : EndpointMessage -> Prop) (l : list EndpointMessage) :
  Forall P l -> Forall P (until_close l).
Proof.
  intros Hl. induction Hl as [|m l Hm _ IH]; [constructor|].
  destruct m; cbn [until_close]; by constructor.
Qed.

(** The buffer loop repeats its empty reads for ever when the body is cut off by the
    end of the stream. *)
Lemma read_body_short (reads len : nat) (received : list byte) (cs : list (list byte)) :
  whole cs -> length received + length (concat cs) < len ->
  read_body reads len received (mkStream cs false) = None.
Proof.
  revert received cs. induction reads as [|reads IH]; intros received cs Hw Hl; [done|]. cbn [read_body].
  destruct cs as [|c cs].
  - destruct (len - length received) eqn:En; [simpl in Hl; lia|]. cbn [stream_read pieces broken].
    simpl in Hl. rewrite app_nil_r, (proj2 (Nat.ltb_lt _ _)) by lia. apply IH; [done|simpl; lia].
  - apply Forall_cons in Hw as Hw'. destruct Hw' as [Hc Hcs]. cbn [concat] in Hl. rewrite length_app in Hl.
    destruct (stream_read_some (len - length received) c cs false) as [-> _]; [lia|done|done|].
    rewrite (take_ge c) by lia. rewrite (proj2 (Nat.ltb_lt _ _)) by (rewrite length_app; lia).
    apply IH; [by apply whole_drop_bytes|]. rewrite concat_drop_bytes. cbn [concat].
    rewrite drop_app_length, length_app. lia.
Qed.


Definition toy_writes (n : nat) : SocketWrite := mkSocketWrite (Some 4) 1000.


(** A frame that is cut off by the end of the stream is never given up: the
    reader repeats its empty reads for ever and the session is not told that the
    connection ended. *)
Theorem tcp_truncated_frame_spins (m : EndpointMessage) (part : list byte) (reads : nat) :
  framed m -> length part < length (EndpointMessage_to_bytes m) ->
  tcp_reader reads
    (mkStream [to_be_bytes (to_uint 32 (Z.of_nat (length (EndpointMessage_to_bytes m)))) ++ part] false) = ([], false).
Proof.
  intros [Hm Hlen] Hpart. destruct reads as [|reads]; [done|].
  set (pre := to_be_bytes (to_uint 32 (Z.of_nat (length (EndpointMessage_to_bytes m))))).
  assert (length pre = 4) as Hpre by apply length_prefix. cbn [tcp_reader].
  rewrite stream_read_prefix; [|rewrite length_app; lia|by constructor].
  cbn [concat]. rewrite app_nil_r, take_app_length' by done.
  assert (frame_len pre = length (EndpointMessage_to_bytes m)) as Hfl by (by apply frame_len_prefix).
  clearbody pre. destruct pre as [|p0 pre'] eqn:Epre; [done|]. rewrite Hfl, <- Epre. rewrite <- Epre in Hpre.
  rewrite read_body_short; [done| |].
  - apply whole_drop_bytes. constructor; [|constructor]. intros E%(f_equal length). rewrite length_app in E. simpl in E. lia.
  - rewrite concat_drop_bytes. cbn [concat length]. rewrite app_nil_r, drop_app_length' by done. lia.
Qed.

Lemma tcp_truncated_frame_spins_witness :
  tcp_reader 100 (mkStream [to_be_bytes (to_uint 32 3) ++ [x05; x41]] false) = ([], false).
Proof.
  apply (tcp_truncated_frame_spins (EM_Data [x41; x42]) [x05; x41] 100).
  - repeat constructor.
  - vm_compute. repeat constructor.
Defined.

(** A length prefix that arrives in two pieces is misread: the same five
    bytes that are one message in one piece leave the reader waiting for a message
    of 66560 bytes when the prefix is split after its second byte. *)
Theorem tcp_split_prefix_misread :
  tcp_frame EM_HoleConnect = [x00; x00; x00; x01; x04] /\
  tcp_reader 10 (mkStream [[x00; x00; x00; x01; x04]] false) = ([EM_HoleConnect; EM_Close], true) /\
  frame_len [x00; x01; x04] = Z.to_nat 66560 /\
  tcp_reader 10 (mkStream [[x00; x00]; [x00; x01; x04]] false) = ([], false).
Proof.
  split_and!; [by vm_compute|by vm_compute| |by vm_compute].
  unfold frame_len. apply (f_equal Z.to_nat). by vm_compute.
Qed.

(** The documented behaviour of [read_to_end]: a stream within the limit is read
    whole. *)
Definition reads_whole (read_to_end : nat -> list byte -> option (list byte)) : Prop :=
  forall limit bytes, length bytes <= limit -> read_to_end limit bytes = Some bytes.

Lemma quic_reader_streams (read_to_end : nat -> list byte -> option (list byte)) (l : list EndpointMessage) :
  reads_whole read_to_end ->
  Forall (fun m => message_sendable m /\ length (EndpointMessage_to_bytes m) <= SIZE_LIMIT) l ->
  quic_reader read_to_end (map EndpointMessage_to_bytes l) = map message_canonical l.
Proof.
  intros Hread Hl. induction Hl as [|m l [Hm Hs] _ IH]; [done|]. cbn [map quic_reader].
  rewrite Hread by done. rewrite EndpointMessage_roundtrip by done. by rewrite IH.
Qed.

(** Messages over QUIC.  Every message up to the size limit is received as
    it was sent, in the order of the streams, up to a [Close], and when the first one
    is a handshake it is the one the connection starts with. *)
Theorem quic_stream_roundtrip (read_to_end : nat -> list byte -> option (list byte)) (l : list EndpointMessage) :
  reads_whole read_to_end ->
  Forall (fun m => message_sendable m /\ length (EndpointMessage_to_bytes m) <= SIZE_LIMIT) l ->
  quic_reader read_to_end (quic_writer l) = map message_canonical (until_close l) /\
  (quic_handshake read_to_end (quic_writer l)).1 =
    match l with EM_Handshake r :: _ => Some (remote_canonical r) | _ => None end.
Proof.
  intros Hread Hl. rewrite quic_writer_streams. split; [by apply quic_reader_streams, until_close_Forall|].
  destruct Hl as [|m l [Hm Hs] _]; [done|].
  assert (exists rest, until_close (m :: l) = m :: rest) as [rest ->] by (by destruct m; eexists).
  cbn [map quic_handshake]. rewrite Hread, EndpointMessage_roundtrip by done. by destruct m.
Qed.

Definition toy_read_to_end (limit : nat) (bytes : list byte) : option (list byte) :=
  if length bytes <=? limit then Some bytes else None.

Lemma quic_stream_roundtrip_witness :
  reads_whole toy_read_to_end /\
  quic_reader toy_read_to_end (quic_writer [EM_HoleConnect; EM_Data [x41]; EM_Close; EM_HoleConnect]) =
  [EM_HoleConnect; EM_Data [x41]; EM_Close].
Proof.
  assert (reads_whole toy_read_to_end) as Hread.
  { intros limit bytes Hl. unfold toy_read_to_end. by rewrite (proj2 (Nat.leb_le _ _)). }
  split; [exact Hread|].
  apply (quic_stream_roundtrip toy_read_to_end [EM_HoleConnect; EM_Data [x41]; EM_Close; EM_HoleConnect] Hread).
  assert (2 <= SIZE_LIMIT) as Hs by (unfold SIZE_LIMIT; lia).
  repeat (apply Forall_cons; split; [split; [exact I|etransitivity; [|exact Hs]; vm_compute; repeat constructor]|]).
  by apply Forall_nil.
Defined.
