(* ===== verification/Kad.v ===== *)
(** * The Kademlia table (src/kad.rs)

    [Distance], the trait [Key] with its two instances, the bucket tree
    ([Node], [KadTree]) and the table indexed both by peer id and by address
    ([DoubleKadTree]).  The [bit_vec] crate is a parameter ([BitVecLib]) with its
    documented behaviour ([BitVecLaws]); the random number [add] draws is an
    argument. *)

From S2P Require Import Prelude Net Types.

(** ** The [bit_vec] crate *)

Class BitVecLib : Type := {
  BitVec : Type;
  (** [BitVec::from_bytes] *)
  bv_from_bytes : list byte -> BitVec;
  (** [BitVec::from_elem] *)
  bv_from_elem : nat -> bool -> BitVec;
  (** indexing; [None] is the out-of-range panic *)
  bv_get : BitVec -> nat -> option bool;
  (** [set] of an index in range *)
  bv_set : BitVec -> nat -> bool -> BitVec;
  (** [a < b] of the derived order *)
  bv_lt : BitVec -> BitVec -> bool;
  (** [iter().collect()] *)
  bv_bits : BitVec -> list bool
}.

(** Most significant bit first. *)
Definition byte_bits (b : byte) : list bool :=
  map (fun i => Z.testbit (byte_to_Z b) (7 - Z.of_nat i)) (seq 0 8).

(** Lexicographic order on bits, [false] first. *)
Fixpoint bits_lt (a b : list bool) : bool :=
  match a, b with
  | [], [] => false
  | [], _ :: _ => true
  | _ :: _, [] => false
  | x :: a, y :: b => if Bool.eqb x y then bits_lt a b else y
  end.

Class BitVecLaws `{BitVecLib} : Prop := {
  bv_bits_from_bytes (l : list byte) : bv_bits (bv_from_bytes l) = concat (map byte_bits l);
  bv_bits_from_elem (n : nat) (b : bool) : bv_bits (bv_from_elem n b) = replicate n b;
  bv_get_bits (v : BitVec) (i : nat) : bv_get v i = bv_bits v !! i;
  bv_bits_set (v : BitVec) (i : nat) (b : bool) :
    i < length (bv_bits v) -> bv_bits (bv_set v i b) = <[i := b]> (bv_bits v);
  bv_lt_bits (v w : BitVec) : bv_lt v w = bits_lt (bv_bits v) (bv_bits w)
}.

(** ** Distance *)

Section Distance.
Context `{BitVecLib}.

Definition Distance : Type := BitVec.

Definition Distance_max (len : nat) : Distance := bv_from_elem len true.

Definition Distance_min (len : nat) : Distance := bv_from_elem len false.

(** [Distance::default] *)
Definition Distance_default : Distance := Distance_min 256.

(** [v[i]]; [distance_index_in_range] shows the table never reads past the end. *)
Definition bit_at (d : Distance) (i : nat) : bool := default false (bv_get d i).

Definition Distance_get (d : Distance) (i : nat) : bool :=
  if 160 <=? i then false else bit_at d i.

Definition Distance_xor (a b : Distance) (len : nat) : Distance :=
  foldl (fun acc i => if negb (Bool.eqb (bit_at a i) (bit_at b i))
                      then bv_set acc i true else bv_set acc i false)
        (bv_from_elem len false) (seq 0 len).

End Distance.

(** ** The trait [Key] *)

Class Key `{BitVecLib} (K : Type) := {
  key_eq_dec :: EqDecision K;
  KEY_LENGTH : nat;
  key_distance : K -> Distance
}.

Definition calc_distance `{Key K} (base target : K) : Distance :=
  Distance_xor (key_distance base) (key_distance target) KEY_LENGTH.

#[global] Instance Key_PeerId `{BitVecLib} : Key PeerId := {|
  KEY_LENGTH := 256;
  key_distance p := bv_from_bytes (PeerId_as_bytes p)
|}.

#[global] Instance Key_SocketAddr `{BitVecLib} : Key SocketAddr := {|
  KEY_LENGTH := 144;
  key_distance s :=
    let ip_bytes := match s with
                    | SockV4 ip _ => arr_list (to_ipv6_mapped ip)
                    | SockV6 ip _ _ _ => arr_list ip
                    end in
    let port_bytes := to_le_bytes (socket_port s) in
    bv_from_bytes (ip_bytes ++ port_bytes)
|}.

Definition MAX_LEVEL : nat := 8.
Definition K_BUCKET : nat := 4.

(** ** Bucket tree *)

Section Tree.
Context `{Key K}.

Record Cell : Type := mkCell {
  cell_key : K;
  cell_val : u32;
  cell_dist : Distance
}.

(** [Ord] of a cell compares the distance, [Eq] the key. *)
Definition Cell_cmp (a b : Cell) : comparison :=
  if bv_lt (cell_dist a) (cell_dist b) then Lt
  else if bv_lt (cell_dist b) (cell_dist a) then Gt
  else Eq.

Definition Cell_partial_cmp (a b : Cell) : option comparison := Some (Cell_cmp a b).

Definition Cell_eq (a b : Cell) : bool := bool_decide (cell_key a = cell_key b).

#[warnings="-register-all"] Inductive Node : Type :=
| mkNode (lchild rchild : option Node) (cells : list Cell).

Definition node_left (n : Node) : option Node := let '(mkNode l _ _) := n in l.
Definition node_right (n : Node) : option Node := let '(mkNode _ r _) := n in r.
Definition node_cells (n : Node) : list Cell := let '(mkNode _ _ c) := n in c.

Definition Node_default : Node := mkNode None None [].

Definition is_some {A : Type} (o : option A) : bool :=
  match o with Some _ => true | None => false end.

(** The scan of [Node::insert] for cells with the same key: the last position
    and the values of all of them. *)
Fixpoint scan_same (key : K) (l : list Cell) (i : nat) (need_deleted : option nat)
    (removed : list u32) : option nat * list u32 :=
  match l with
  | [] => (need_deleted, removed)
  | c :: l =>
      if bool_decide (cell_key c = key)
      then scan_same key l (S i) (Some i) (removed ++ [cell_val c])
      else scan_same key l (S i) need_deleted removed
  end.

(** In a full bucket at the last level the first cell that is farther than the
    new one is replaced. *)
Fixpoint evict (l : list Cell) (cell : Cell) : option (list Cell * u32) :=
  match l with
  | [] => None
  | v :: l =>
      if bv_lt (cell_dist cell) (cell_dist v) then Some (cell :: l, cell_val v)
      else '(l', r) ← evict l cell; Some (v :: l', r)
  end.

(** The loop of a split: [while !self.list.is_empty()] take the first cell out of
    the list and insert it again, dropping what that insertion returns. *)
Fixpoint reinsert (insert : Node -> Cell -> option (Node * (bool * list u32)))
    (cells : list Cell) (n : Node) : option Node :=
  match cells with
  | [] => Some n
  | c :: cells =>
      let '(mkNode l r _) := n in
      '(n, _) ← insert (mkNode l r cells) c;
      reinsert insert cells n
  end.

(** [Node::insert]: [None] is running out of fuel, which
    [insert_terminates] excludes for [insert_fuel]. *)
Fixpoint Node_insert (fuel : nat) (n : Node) (cell : Cell) (index k_bucket : nat)
    : option (Node * (bool * list u32)) :=
  match fuel with
  | O => None
  | S fuel =>
      let '(mkNode lchild rchild lst) := n in
      if is_some rchild || is_some lchild then
        if Distance_get (cell_dist cell) index then
          '(r, ret) ← Node_insert fuel (default Node_default rchild) cell (index + 1) k_bucket;
          Some (mkNode lchild (Some r) lst, ret)
        else
          '(l, ret) ← Node_insert fuel (default Node_default lchild) cell (index + 1) k_bucket;
          Some (mkNode (Some l) rchild lst, ret)
      else
        let '(need_deleted, removed) := scan_same (cell_key cell) lst 0 None [] in
        let lst := match need_deleted with
                   | Some i => delete i lst
                   | None => lst
                   end in
        if length lst <? k_bucket then
          Some (mkNode lchild rchild (lst ++ [cell]), (true, removed))
        else if MAX_LEVEL <=? index then
          match evict lst cell with
          | Some (lst, v) => Some (mkNode lchild rchild lst, (true, removed ++ [v]))
          | None => Some (mkNode lchild rchild lst, (false, removed))
          end
        else
          n ← reinsert (fun n c => Node_insert fuel n c index k_bucket) lst
                (mkNode (Some Node_default) (Some Node_default) lst);
          Node_insert fuel n cell index k_bucket
  end.

(** Height of the tree below a node. *)
Fixpoint height (n : Node) : nat :=
  let '(mkNode lchild rchild _) := n in
  Nat.max (match lchild with Some l => S (height l) | None => 0 end)
          (match rchild with Some r => S (height r) | None => 0 end).

Definition insert_fuel (n : Node) (index : nat) : nat :=
  2 * Nat.max (height n) (MAX_LEVEL - index) + 1.

(** The scan of [Node::search]: the cell with the key, or the position of the
    closest cell seen. *)
Fixpoint search_list (key : K) (distance : Distance) (l : list Cell) (i : nat)
    (closest_index : option nat) (closest_distance : Distance) : (K * u32) + option nat :=
  match l with
  | [] => inr closest_index
  | c :: l =>
      if bool_decide (cell_key c = key) then inl (cell_key c, cell_val c)
      else
        let dis := Distance_xor distance (cell_dist c) KEY_LENGTH in
        if bv_lt dis closest_distance
        then search_list key distance l (S i) (Some i) dis
        else search_list key distance l (S i) closest_index closest_distance
  end.

Fixpoint Node_search (n : Node) (key : K) (distance : Distance) (index : nat)
    : option (K * u32 * bool) :=
  let '(mkNode lchild rchild lst) := n in
  match search_list key distance lst 0 None (Distance_max KEY_LENGTH) with
  | inl (k, v) => Some (k, v, true)
  | inr closest =>
      let next :=
        if Distance_get distance index then
          match rchild with
          | Some r => Node_search r key distance (index + 1)
          | None => None
          end
        else
          match lchild with
          | Some l => Node_search l key distance (index + 1)
          | None => None
          end in
      match next with
      | Some x => Some x
      | None =>
          i ← closest;
          c ← lst !! i;
          Some (cell_key c, cell_val c, false)
      end
  end.

(** The last position of the key. *)
Fixpoint last_index (key : K) (l : list Cell) (i : nat) (acc : option nat) : option nat :=
  match l with
  | [] => acc
  | c :: l => last_index key l (S i) (if bool_decide (cell_key c = key) then Some i else acc)
  end.

Fixpoint Node_remove (n : Node) (key : K) (distance : Distance) (index : nat)
    : Node * option u32 :=
  let '(mkNode lchild rchild lst) := n in
  match last_index key lst 0 None with
  | Some i => (mkNode lchild rchild (delete i lst), cell_val <$> lst !! i)
  | None =>
      if Distance_get distance index then
        match rchild with
        | Some r => let '(r, v) := Node_remove r key distance (index + 1) in
                    (mkNode lchild (Some r) lst, v)
        | None => (n, None)
        end
      else
        match lchild with
        | Some l => let '(l, v) := Node_remove l key distance (index + 1) in
                    (mkNode (Some l) rchild lst, v)
        | None => (n, None)
        end
  end.

Fixpoint Node_keys (n : Node) : list K :=
  let '(mkNode lchild rchild lst) := n in
  map cell_key lst ++
  match lchild with Some l => Node_keys l | None => [] end ++
  match rchild with Some r => Node_keys r | None => [] end.

Fixpoint Node_is_empty (n : Node) : bool :=
  let '(mkNode lchild rchild lst) := n in
  match lst with
  | _ :: _ => false
  | [] =>
      match lchild with Some l => Node_is_empty l | None => true end &&
      match rchild with Some r => Node_is_empty r | None => true end
  end.

(** ** KadTree *)

Record KadTree : Type := mkKadTree {
  root_key : K;
  tree_left : option Node;
  tree_right : option Node
}.

Definition KadTree_new (key : K) : KadTree := mkKadTree key None None.

Definition KadTree_add (t : KadTree) (key : K) (value : u32) : KadTree * (bool * list u32) :=
  let distance := calc_distance (root_key t) key in
  if Distance_get distance 0 then
    let n := default Node_default (tree_right t) in
    match Node_insert (insert_fuel n 1) n (mkCell key value distance) 1 K_BUCKET with
    | Some (n, ret) => (mkKadTree (root_key t) (tree_left t) (Some n), ret)
    | None => (t, (false, []))
    end
  else
    let n := default Node_default (tree_left t) in
    match Node_insert (insert_fuel n 1) n (mkCell key value distance) 1 K_BUCKET with
    | Some (n, ret) => (mkKadTree (root_key t) (Some n) (tree_right t), ret)
    | None => (t, (false, []))
    end.

Definition KadTree_search (t : KadTree) (key : K) : option (K * u32 * bool) :=
  let distance := calc_distance (root_key t) key in
  if Distance_get distance 0 then
    match tree_right t with
    | None =>
        match tree_left t with
        | None => None
        | Some l => Node_search l key distance 1
        end
    | Some r => Node_search r key distance 1
    end
  else
    match tree_left t with
    | None =>
        match tree_right t with
        | None => None
        | Some r => Node_search r key distance 1
        end
    | Some l => Node_search l key distance 1
    end.

Definition KadTree_next_closest (t : KadTree) (key prev : K) : option u32 :=
  '(k, v, _) ← KadTree_search t key;
  if bool_decide (k = prev) then None else Some v.

Definition KadTree_remove (t : KadTree) (key : K) : KadTree * option u32 :=
  let distance := calc_distance (root_key t) key in
  if Distance_get distance 0 then
    match tree_right t with
    | Some r => let '(r, v) := Node_remove r key distance 1 in
                (mkKadTree (root_key t) (tree_left t) (Some r), v)
    | None => (t, None)
    end
  else
    match tree_left t with
    | Some l => let '(l, v) := Node_remove l key distance 1 in
                (mkKadTree (root_key t) (Some l) (tree_right t), v)
    | None => (t, None)
    end.

Definition KadTree_contains (t : KadTree) (key : K) : bool :=
  match KadTree_search t key with
  | Some (_, _, true) => true
  | _ => false
  end.

Definition KadTree_keys (t : KadTree) : list K :=
  match tree_left t with Some l => Node_keys l | None => [] end ++
  match tree_right t with Some r => Node_keys r | None => [] end.

Definition KadTree_is_empty (t : KadTree) : bool :=
  match tree_left t with Some l => Node_is_empty l | None => true end &&
  match tree_right t with Some r => Node_is_empty r | None => true end.

End Tree.

Arguments Cell {_} K : assert.
Arguments Node {_} K : assert.
Arguments KadTree {_} K : assert.

(** ** DoubleKadTree *)

(** The sending half of a channel, named by the channel. *)
Record SessionSender : Set := mkSessionSender { session_chan : N }.
Record EndpointSender : Set := mkEndpointSender { endpoint_chan : N }.

#[global] Instance SessionSender_eq_dec : EqDecision SessionSender.
Proof. solve_decision. Defined.

#[global] Instance EndpointSender_eq_dec : EqDecision EndpointSender.
Proof. solve_decision. Defined.

Record KadValue : Set := mkKadValue {
  kv_session : SessionSender;
  kv_stream : EndpointSender;
  kv_peer : Peer
}.

Section Double.
Context `{BitVecLib}.

Record DoubleKadTree : Type := mkDoubleKadTree {
  dk_values : gmap u32 KadValue;
  dk_peers : KadTree PeerId;
  dk_ips : KadTree SocketAddr
}.

Definition DoubleKadTree_new (root_peer : PeerId) (root_ip : SocketAddr) : DoubleKadTree :=
  mkDoubleKadTree ∅ (KadTree_new root_peer) (KadTree_new root_ip).

(** [add], with the random [value_key] it draws. *)
Definition DoubleKadTree_add (d : DoubleKadTree) (value_key : u32) (value : KadValue)
    : DoubleKadTree * bool :=
  let peer_id := peer_id (kv_peer value) in
  let ip_addr := peer_socket (kv_peer value) in
  let '(peers, (is_ok, removed)) := KadTree_add (dk_peers d) peer_id value_key in
  let values := foldl (fun m i => delete i m) (dk_values d) removed in
  if is_ok then
    let '(ips, _) := KadTree_add (dk_ips d) ip_addr value_key in
    (mkDoubleKadTree (<[value_key := value]> values) peers ips, true)
  else (mkDoubleKadTree values peers (dk_ips d), false).

Definition id_next_closest (d : DoubleKadTree) (key prev : PeerId) : option KadValue :=
  k ← KadTree_next_closest (dk_peers d) key prev; dk_values d !! k.

Definition ip_next_closest (d : DoubleKadTree) (key prev : SocketAddr) : option KadValue :=
  k ← KadTree_next_closest (dk_ips d) key prev; dk_values d !! k.

Definition DoubleKadTree_search (d : DoubleKadTree) (key : PeerId) : option (KadValue * bool) :=
  '(_, k, is_it) ← KadTree_search (dk_peers d) key;
  v ← dk_values d !! k;
  Some (v, is_it).

Definition DoubleKadTree_remove (d : DoubleKadTree) (key : PeerId)
    : DoubleKadTree * option KadValue :=
  let '(peers, o) := KadTree_remove (dk_peers d) key in
  match o with
  | Some k =>
      match dk_values d !! k with
      | Some value =>
          let '(ips, _) := KadTree_remove (dk_ips d) (peer_socket (kv_peer value)) in
          (mkDoubleKadTree (delete k (dk_values d)) peers ips, Some value)
      | None => (mkDoubleKadTree (dk_values d) peers (dk_ips d), None)
      end
  | None => (mkDoubleKadTree (dk_values d) peers (dk_ips d), None)
  end.

Definition DoubleKadTree_contains (d : DoubleKadTree) (key : PeerId) : bool :=
  KadTree_contains (dk_peers d) key.

Definition DoubleKadTree_keys (d : DoubleKadTree) : list PeerId := KadTree_keys (dk_peers d).

Definition DoubleKadTree_is_empty (d : DoubleKadTree) : bool := KadTree_is_empty (dk_peers d).

End Double.
