(* ===== verification/KadMetric.v ===== *)
(** * The XOR metric

    What [Distance::xor] and the derived order of [Distance] are on bits, the
    instances of the crate interface on lists of booleans, and the properties of
    the metric the search relies on. *)

From S2P Require Import Prelude Net Types Kad.
From stdpp Require Import list_relations list.

(** ** The order on bits *)

Lemma bits_lt_irrefl (a : list bool) : bits_lt a a = false.
Proof. induction a as [|x a IH]; [done|]. simpl. by rewrite eqb_reflx. Qed.

Lemma bits_lt_trans (a b c : list bool) :
  bits_lt a b = true -> bits_lt b c = true -> bits_lt a c = true.
Proof.
  revert b c. induction a as [|x a IH]; intros [|y b] [|z c]; simpl; try done.
  destruct x, y, z; simpl; try done; apply IH.
Qed.

Lemma bits_lt_asym (a b : list bool) : bits_lt a b = true -> bits_lt b a = false.
Proof.
  intros Hab. destruct (bits_lt b a) eqn:Hba; [|done].
  pose proof (bits_lt_trans _ _ _ Hab Hba) as Haa. by rewrite bits_lt_irrefl in Haa.
Qed.

(** Lists with a common prefix compare at the first bit that differs. *)
Lemma bits_lt_prefix (i : nat) (a b : list bool) :
  take i a = take i b -> a !! i = Some false -> b !! i = Some true -> bits_lt a b = true.
Proof.
  revert a b. induction i as [|i IH]; intros [|x a] [|y b]; simpl; try done.
  - by intros _ [= ->] [= ->].
  - intros [= -> E] Ha Hb. rewrite eqb_reflx. by apply IH.
Qed.

(** ** The crate on lists of booleans *)

Definition toy_bitvec : BitVecLib := {|
  BitVec := list bool;
  bv_from_bytes l := concat (map byte_bits l);
  bv_from_elem n b := replicate n b;
  bv_get v i := v !! i;
  bv_set v i b := <[i := b]> v;
  bv_lt := bits_lt;
  bv_bits v := v
|}.

Lemma toy_bitvec_laws : @BitVecLaws toy_bitvec.
Proof. by split. Qed.

(** ** Distances as bits *)

(** Keys have as many bits as the trait says, and more than the tree has levels. *)
Class KeyLaws `{Key K} : Prop := {
  key_bits_length (k : K) : length (bv_bits (key_distance k)) = KEY_LENGTH;
  key_levels : MAX_LEVEL <= KEY_LENGTH (K := K)
}.

Definition xor_bits (a b : list bool) : list bool := zip_with xorb a b.

Lemma length_byte_bits (b : byte) : length (byte_bits b) = 8.
Proof. done. Qed.

Lemma length_bits_of_bytes (l : list byte) : length (concat (map byte_bits l)) = 8 * length l.
Proof.
  induction l as [|b l IH]; [done|]. cbn [map concat]. rewrite length_app, IH, length_byte_bits.
  simpl length. lia.
Qed.

Section Metric.
Context `{BitVecLaws}.

#[global] Instance KeyLaws_PeerId : KeyLaws (K := PeerId).
Proof.
  split; [|cbn [KEY_LENGTH Key_PeerId]; unfold MAX_LEVEL; lia].
  intros k. cbn [key_distance Key_PeerId KEY_LENGTH].
  rewrite bv_bits_from_bytes, length_bits_of_bytes. unfold PeerId_as_bytes.
  by rewrite arr_length.
Qed.

#[global] Instance KeyLaws_SocketAddr : KeyLaws (K := SocketAddr).
Proof.
  split; [|cbn [KEY_LENGTH Key_SocketAddr]; unfold MAX_LEVEL; lia].
  intros k. cbn [key_distance Key_SocketAddr KEY_LENGTH].
  rewrite bv_bits_from_bytes, length_bits_of_bytes, length_app, length_to_le_bytes.
  by destruct k; rewrite arr_length.
Qed.

(** The fold that fills the result bit by bit. *)
Lemma xor_fold_bits (a b : BitVec) (n i : nat) (acc : BitVec) :
  i + n <= length (bv_bits acc) ->
  bv_bits (foldl (fun acc i => if negb (Bool.eqb (bit_at a i) (bit_at b i))
                               then bv_set acc i true else bv_set acc i false) acc (seq i n)) =
  take i (bv_bits acc) ++ map (fun i => xorb (bit_at a i) (bit_at b i)) (seq i n) ++
  drop (i + n) (bv_bits acc).
Proof.
  revert i acc. induction n as [|n IH]; intros i acc Hlen; cbn [seq foldl map].
  { rewrite Nat.add_0_r. simpl. by rewrite take_drop. }
  set (x := xorb (bit_at a i) (bit_at b i)).
  assert (forall acc', acc' = bv_set acc i x ->
    bv_bits acc' = take i (bv_bits acc) ++ x :: drop (S i) (bv_bits acc)) as Hset.
  { intros ? ->. rewrite bv_bits_set by lia. apply insert_take_drop. lia. }
  rewrite IH; erewrite Hset by (by subst x; destruct (bit_at a i), (bit_at b i)).
  - rewrite take_app, length_take_le by lia. rewrite take_take.
    replace (S i `min` i) with i by lia. replace (S i - i) with 1 by lia. rewrite <- app_assoc.
    f_equal. simpl. f_equal. f_equal.
    rewrite drop_app_ge by (rewrite length_take_le; lia). rewrite length_take_le by lia.
    replace (S (i + n) - i) with (S n) by lia. simpl. rewrite drop_drop. f_equal. lia.
  - rewrite length_app, length_take_le by lia. simpl. rewrite length_drop. lia.
Qed.

Lemma Distance_xor_bits (a b : BitVec) (len : nat) :
  length (bv_bits a) = len -> length (bv_bits b) = len ->
  bv_bits (Distance_xor a b len) = xor_bits (bv_bits a) (bv_bits b).
Proof.
  intros Ha Hb. unfold Distance_xor. rewrite xor_fold_bits;
    rewrite bv_bits_from_elem; [|rewrite length_replicate; lia].
  rewrite drop_ge by (rewrite length_replicate; lia). rewrite app_nil_r. simpl. unfold bit_at.
  apply list_eq. intros i. unfold xor_bits. rewrite lookup_zip_with.
  destruct (decide (i < len)) as [Hi|Hi].
  - rewrite list_lookup_fmap, lookup_seq_lt by done. simpl. rewrite !bv_get_bits.
    destruct (lookup_lt_is_Some_2 (bv_bits a) i) as [x ->]; [lia|].
    destruct (lookup_lt_is_Some_2 (bv_bits b) i) as [y ->]; [lia|]. done.
  - rewrite list_lookup_fmap, lookup_seq_ge by lia. simpl.
    by rewrite (lookup_ge_None_2 (bv_bits a)) by lia.
Qed.

Context `{!Key K, !KeyLaws (K := K)}.

Lemma calc_distance_bits (base target : K) :
  bv_bits (calc_distance base target) =
  xor_bits (bv_bits (key_distance base)) (bv_bits (key_distance target)).
Proof. apply Distance_xor_bits; apply key_bits_length. Qed.

Lemma length_xor_bits (a b : list bool) :
  length a = length b -> length (xor_bits a b) = length a.
Proof. intros E. unfold xor_bits. rewrite length_zip_with. lia. Qed.

Lemma calc_distance_length (base target : K) :
  length (bv_bits (calc_distance base target)) = KEY_LENGTH.
Proof. rewrite calc_distance_bits, length_xor_bits; by rewrite !key_bits_length. Qed.

Lemma xor_bits_cancel (r a b : list bool) :
  length r = length a -> length r = length b ->
  xor_bits (xor_bits r a) (xor_bits r b) = xor_bits a b.
Proof.
  revert a b. induction r as [|x r IH]; intros [|y a] [|z b]; simpl; try done.
  intros [= Ha] [= Hb]. unfold xor_bits in *. simpl. rewrite IH by done. f_equal.
  by destruct x, y, z.
Qed.

(** The distance between two stored distances is the distance between the keys. *)
Lemma Distance_xor_cancel (root a b : K) :
  bv_bits (Distance_xor (calc_distance root a) (calc_distance root b) KEY_LENGTH) =
  bv_bits (calc_distance a b).
Proof.
  rewrite Distance_xor_bits by apply calc_distance_length. rewrite !calc_distance_bits.
  apply xor_bits_cancel; by rewrite !key_bits_length.
Qed.

(** A read of a bit the key has does not fail. *)
Lemma distance_index_in_range (root key : K) (i : nat) :
  i < KEY_LENGTH (K := K) -> is_Some (bv_get (calc_distance root key) i).
Proof. intros Hi. rewrite bv_get_bits. apply lookup_lt_is_Some. by rewrite calc_distance_length. Qed.

Lemma Distance_get_bits (d : Distance) (i : nat) (b : bool) :
  i < 160 -> i < length (bv_bits d) -> Distance_get d i = b <-> bv_bits d !! i = Some b.
Proof.
  intros H1 H2. unfold Distance_get, bit_at. destruct (Nat.leb_spec 160 i); [lia|].
  rewrite bv_get_bits. destruct (lookup_lt_is_Some_2 _ _ H2) as [x ->]. simpl.
  split; [by intros ->|by intros [= ->]].
Qed.

End Metric.

(** ** Metric laws *)

Lemma xor_bits_comm (a b : list bool) : xor_bits a b = xor_bits b a.
Proof.
  revert b. induction a as [|x a IH]; intros [|y b]; simpl; try done.
  unfold xor_bits in *. simpl. rewrite IH. f_equal. by destruct x, y.
Qed.

Lemma xor_bits_zero (a b : list bool) :
  length a = length b -> Forall (fun x => x = false) (xor_bits a b) <-> a = b.
Proof.
  intros E. split.
  - revert b E. induction a as [|x a IH]; intros [|y b]; simpl; try done.
    intros [= E] [Hx Ht]%Forall_cons. f_equal; [by destruct x, y|by apply IH].
  - intros ->. clear. induction b as [|x b IH]; constructor; [by destruct x|done].
Qed.

Definition bits_value (l : list bool) : Z := foldl (fun z (b : bool) => 2 * z + (if b then 1 else 0))%Z 0%Z l.

Lemma bits_value_byte (b : byte) : byte_of_Z (bits_value (byte_bits b)) = b.
Proof. by destruct b. Qed.

Lemma byte_bits_inj (a b : byte) : byte_bits a = byte_bits b -> a = b.
Proof. intros E. by rewrite <- (bits_value_byte a), E, bits_value_byte. Qed.

Lemma bits_of_bytes_inj (l l' : list byte) :
  length l = length l' -> concat (map byte_bits l) = concat (map byte_bits l') -> l = l'.
Proof.
  revert l'. induction l as [|a l IH]; intros [|b l'] Hlen; try done. cbn [map concat].
  intros [E1 E2]%app_inj_1; [|done]. f_equal; [by apply byte_bits_inj|].
  apply IH; [by injection Hlen|done].
Qed.

(** The distance between peer ids is a metric on ids: it is symmetric, and it
    is zero exactly for equal ids. *)
Theorem peer_distance_metric `{BitVecLaws} (a b : PeerId) :
  bv_bits (calc_distance a b) = bv_bits (calc_distance b a) /\
  (Forall (fun x => x = false) (bv_bits (calc_distance a b)) <-> a = b).
Proof.
  rewrite !calc_distance_bits. split; [apply xor_bits_comm|].
  rewrite xor_bits_zero by by rewrite !key_bits_length.
  split; [|by intros ->]. cbn [key_distance Key_PeerId]. rewrite !bv_bits_from_bytes.
  unfold PeerId_as_bytes. intros E. apply bits_of_bytes_inj in E; [|by rewrite !arr_length].
  destruct a as [a], b as [b]. f_equal. by apply arr_eq.
Qed.

(** ** The order of cells *)

Lemma bits_lt_total (a b : list bool) :
  length a = length b -> bits_lt a b = false -> bits_lt b a = false -> a = b.
Proof.
  revert b. induction a as [|x a IH]; intros [|y b] Hl; try done. cbn [bits_lt length] in *.
  destruct x, y; cbn; try done; intros H1 H2; f_equal; apply IH; (lia || done).
Qed.

(** The comparison of bits as a total order. *)
Lemma bits_order_lawful (x y z : list bool) :
  length x = length y ->
  let cmp a b := if bits_lt a b then Lt else if bits_lt b a then Gt else Eq in
  (cmp x y = Eq <-> x = y) /\ cmp y x = CompOpp (cmp x y) /\ (cmp x y = Lt -> cmp y z = Lt -> cmp x z = Lt).
Proof.
  intros Hl cmp. unfold cmp. pose proof (bits_lt_asym x y) as H1. pose proof (bits_lt_total x y Hl) as H2.
  pose proof (bits_lt_trans x y z) as H3. split_and!.
  - split; [|intros ->; by rewrite bits_lt_irrefl].
    destruct (bits_lt x y); [done|]. destruct (bits_lt y x); [done|]. intros _. by apply H2.
  - destruct (bits_lt x y); [by rewrite (H1 eq_refl)|]. by destruct (bits_lt y x).
  - destruct (bits_lt x y); [|by destruct (bits_lt y x)]. destruct (bits_lt y z); [|by destruct (bits_lt z y)].
    by rewrite (H3 eq_refl eq_refl).
Qed.

Section CellOrder.
Context `{BitVecLaws}.
Context (root : PeerId).

(** A cell of the tree around [root]. *)
Definition cell_of (c : Cell PeerId) : Prop := cell_dist c = calc_distance root (cell_key c).

Lemma cell_dist_length (c : Cell PeerId) :
  cell_of c -> length (bv_bits (cell_dist c)) = KEY_LENGTH (K := PeerId).
Proof. intros Hc. unfold cell_of in Hc. rewrite Hc. apply calc_distance_length. Qed.

Lemma calc_distance_inj (a b : PeerId) :
  bv_bits (calc_distance root a) = bv_bits (calc_distance root b) -> a = b.
Proof.
  intros E. apply (peer_distance_metric a b). rewrite <- (Distance_xor_cancel root).
  rewrite (Distance_xor_bits _ _ _ (calc_distance_length root a) (calc_distance_length root b)), E.
  apply xor_bits_zero; reflexivity.
Qed.

Lemma cell_dist_inj (a b : Cell PeerId) :
  cell_of a -> cell_of b -> bv_bits (cell_dist a) = bv_bits (cell_dist b) -> cell_key a = cell_key b.
Proof. intros Ha Hb. unfold cell_of in Ha, Hb. rewrite Ha, Hb. apply calc_distance_inj. Qed.

(** C40: the order of the cells of the tree of peer ids is lawful: comparing them by
    their distance gives a total order, and two cells compare equal exactly when [Eq] says
    so, by their keys.  For the tree of addresses the same implementation is not: an
    address of four bytes and the same address mapped to sixteen are at the same distance
    from every other, so their cells compare equal and [Eq] says that they differ; and so
    are two addresses that differ in the flow label only. *)
Theorem cell_order_lawful (a b c : Cell PeerId) :
  (cell_of a -> cell_of b -> cell_of c ->
   (Cell_cmp a b = Eq <-> Cell_eq a b = true) /\ Cell_cmp b a = CompOpp (Cell_cmp a b) /\
   (Cell_cmp a b = Lt -> Cell_cmp b c = Lt -> Cell_cmp a c = Lt)) /\
  (forall (base : SocketAddr) (ip4 : arr 4) (ip6 : arr 16) (port : u16) (flow flow' scope v w : u32),
     let cell key value := mkCell key value (calc_distance base key) in
     let unlike x y := Cell_cmp (cell x v) (cell y w) = Eq /\ Cell_eq (cell x v) (cell y w) = false in
     unlike (SockV4 ip4 port) (SockV6 (to_ipv6_mapped ip4) port flow scope) /\
     (flow <> flow' -> unlike (SockV6 ip6 port flow scope) (SockV6 ip6 port flow' scope))).
Proof.
  split.
  - intros Ha Hb Hc.
    assert (bv_bits (cell_dist a) = bv_bits (cell_dist b) <-> cell_key a = cell_key b) as Hinj.
    { split; [apply cell_dist_inj; assumption|]. intros E. unfold cell_of in Ha, Hb. rewrite Ha, Hb, E. reflexivity. }
    pose proof (eq_trans (cell_dist_length a Ha) (eq_sym (cell_dist_length b Hb))) as Hab.
    unfold Cell_cmp, Cell_eq. rewrite !bv_lt_bits, bool_decide_eq_true, <- Hinj. clear Hinj Ha Hb Hc.
    revert Hab. generalize (bv_bits (cell_dist a)) (bv_bits (cell_dist b)) (bv_bits (cell_dist c)).
    intros x y z Hxy. apply bits_order_lawful, Hxy.
  - intros base ip4 ip6 port flow flow' scope v w cell unlike.
    assert (forall x y, key_distance x = key_distance y -> x <> y -> unlike x y) as Hunlike.
    { intros x y E Hne. unfold unlike, cell, Cell_cmp, Cell_eq, calc_distance. cbn [cell_dist cell_key]. rewrite E.
      rewrite !bv_lt_bits, bits_lt_irrefl. split; [reflexivity|]. by apply bool_decide_eq_false. }
    split; [apply Hunlike; [reflexivity|discriminate]|]. intros Hne. apply Hunlike; [reflexivity|congruence].
Qed.

End CellOrder.

#[local] Existing Instance toy_bitvec.
#[local] Existing Instance toy_bitvec_laws.

Lemma cell_order_lawful_witness :
  let cell b := mkCell (K := PeerId) PeerId_default (to_uint 32 b) (calc_distance PeerId_default PeerId_default) in
  Cell_cmp (cell 1%Z) (cell 2%Z) = Eq.
Proof.
  intros cell. apply (proj1 (cell_order_lawful PeerId_default (cell 1%Z) (cell 2%Z) (cell 2%Z))); reflexivity.
Defined.
