(* ===== verification/KadFacts.v ===== *)
(** * Facts about the bucket tree

    The well-formedness invariant of a [Node], termination of [Node_insert], and
    the contents of the tree after each operation, as permutations of the
    flattened cells. *)

From S2P Require Import Prelude Net Types Kad.
From stdpp Require Import list_relations list.

Section NodeFacts.
Context `{Key K}.

Lemma node_induction (P : Node K -> Prop) :
  (forall l r lst, (forall n, l = Some n -> P n) -> (forall n, r = Some n -> P n) ->
     P (mkNode l r lst)) ->
  forall n, P n.
Proof.
  intros step. fix IH 1. intros [l r lst]. apply step; intros n; [destruct l|destruct r];
    intros [= <-]; apply IH.
Qed.

Definition is_inner (n : Node K) : bool := is_some (node_right n) || is_some (node_left n).

(** All cells of the tree, in the order [Node_keys] lists them. *)
Fixpoint Node_all (n : Node K) : list (Cell K) :=
  let '(mkNode l r lst) := n in
  lst ++ match l with Some l => Node_all l | None => [] end
      ++ match r with Some r => Node_all r | None => [] end.

Definition leaf (lst : list (Cell K)) : Node K := mkNode None None lst.

Lemma Node_all_leaf (lst : list (Cell K)) : Node_all (leaf lst) = lst.
Proof. simpl. by rewrite !app_nil_r. Qed.

Lemma Node_keys_all (n : Node K) : Node_keys n = map cell_key (Node_all n).
Proof.
  induction n as [l r lst IHl IHr] using node_induction. simpl. rewrite !map_app. f_equal.
  destruct l as [l|], r as [r|]; simpl; rewrite ?(IHl _ eq_refl), ?(IHr _ eq_refl); done.
Qed.

Lemma Node_is_empty_all (n : Node K) : Node_is_empty n = true <-> Node_all n = [].
Proof.
  induction n as [l r lst IHl IHr] using node_induction. simpl.
  destruct lst; [|done]. rewrite andb_true_iff. simpl.
  destruct l as [l|], r as [r|]; rewrite ?(IHl _ eq_refl), ?(IHr _ eq_refl);
    rewrite ?app_nil_r; split; try tauto.
  - intros [-> ->]. done.
  - intros [? ?]%app_eq_nil. done.
Qed.

(** ** Termination of insertion *)

Definition node_level (n : Node K) (index : nat) : nat := Nat.max (height n) (MAX_LEVEL - index).

Definition fuel_needed (n : Node K) (index : nat) : nat :=
  if is_inner n then 2 * node_level n index else 2 * node_level n index + 1.

Definition inserts_within (f : Node K -> Cell K -> option (Node K * (bool * list u32)))
    (n : Node K) (cell : Cell K) (index : nat) : Prop :=
  exists n' ret, f n cell = Some (n', ret) /\ height n' <= node_level n index /\
                 (is_inner n = true -> is_inner n' = true).

Lemma height_default : height (Node_default : Node K) = 0.
Proof. done. Qed.

Lemma height_child_r (l : option (Node K)) (r : option (Node K)) lst :
  height (default Node_default r) <= height (mkNode l r lst) - 1.
Proof. destruct r as [r|]; simpl; [destruct l; lia|lia]. Qed.

Lemma height_child_l (l : option (Node K)) (r : option (Node K)) lst :
  height (default Node_default l) <= height (mkNode l r lst) - 1.
Proof. destruct l as [l|]; simpl; [destruct r; lia|lia]. Qed.

Lemma inner_height (n : Node K) : is_inner n = true -> 1 <= height n.
Proof. destruct n as [[l|] [r|] lst]; simpl; try done; lia. Qed.

Lemma reinsert_within (f : Node K -> Cell K -> option (Node K * (bool * list u32)))
    (index h : nat) (cells : list (Cell K)) (n : Node K) :
  MAX_LEVEL - index <= h ->
  (forall n c, is_inner n = true -> height n <= h -> inserts_within f n c index) ->
  is_inner n = true -> height n <= h ->
  exists n', reinsert f cells n = Some n' /\ is_inner n' = true /\ height n' <= h.
Proof.
  intros Hh Hf. revert n. induction cells as [|c cells IH]; intros n Hi Hn; [by exists n|].
  destruct n as [l r lst]. cbn [reinsert].
  destruct (Hf (mkNode l r cells) c) as (n' & ret & -> & Hn' & Hi'); [done|done|].
  cbn [mbind option_bind]. apply IH; [by apply Hi'|].
  unfold node_level in Hn'. change (height (mkNode l r cells)) with (height (mkNode l r lst)) in Hn'.
  lia.
Qed.

(** A leaf: the cell is pushed, replaces another one, or the leaf is split. *)
Lemma insert_leaf_within (fuel : nat) (lst : list (Cell K)) (cell : Cell K) (index k_bucket : nat) :
  2 * (MAX_LEVEL - index) <= fuel ->
  (forall n c, fuel_needed n index <= fuel -> 1 <= fuel ->
     inserts_within (fun n c => Node_insert fuel n c index k_bucket) n c index) ->
  inserts_within (fun n c => Node_insert (S fuel) n c index k_bucket) (mkNode None None lst) cell index.
Proof.
  intros Hf IH. unfold inserts_within. cbn [Node_insert is_some orb].
  unfold node_level. change (height (mkNode None None lst)) with 0.
  destruct (scan_same _ _ _ _ _) as [need removed]. cbv zeta.
  set (lst' := match need with Some i => delete i lst | None => lst end).
  destruct (length lst' <? k_bucket); [by do 2 eexists; split; [done|simpl; split; [lia|done]]|].
  destruct (MAX_LEVEL <=? index) eqn:El.
  { destruct (evict lst' cell) as [[lst'' v]|];
      (do 2 eexists; split; [done|simpl; split; [lia|done]]). }
  apply Nat.leb_gt in El.
  destruct (reinsert_within (fun n c => Node_insert fuel n c index k_bucket) index
    (MAX_LEVEL - index) lst' (mkNode (Some Node_default) (Some Node_default) lst'))
    as (n1 & -> & Hi1 & Hh1); [lia| |done|simpl; lia|].
  { intros m c Hm Hh. apply IH; [|lia]. unfold fuel_needed, node_level. rewrite Hm. lia. }
  cbn [mbind option_bind].
  destruct (IH n1 cell) as (n2 & ret & -> & Hn2 & Hi2); [|lia|].
  { unfold fuel_needed, node_level. rewrite Hi1. lia. }
  do 2 eexists. split; [done|]. unfold node_level in Hn2. split; [lia|done].
Qed.

Lemma insert_within (fuel : nat) (n : Node K) (cell : Cell K) (index k_bucket : nat) :
  fuel_needed n index <= fuel -> 1 <= fuel ->
  inserts_within (fun n c => Node_insert fuel n c index k_bucket) n cell index.
Proof.
  revert n cell index. induction fuel as [|fuel IH]; intros n cell index Hf Hpos; [lia|].
  destruct n as [l r lst]. unfold inserts_within. cbn [Node_insert].
  destruct (is_some r || is_some l) eqn:Ei.
  - (* inner node: the child is one level down *)
    assert (is_inner (mkNode l r lst) = true) as Hi by done.
    pose proof (inner_height _ Hi) as Hh. unfold fuel_needed in Hf. rewrite Hi in Hf.
    destruct (Distance_get (cell_dist cell) index).
    + destruct (IH (default Node_default r) cell (index + 1)) as (n' & ret & -> & Hn & _).
      * pose proof (height_child_r l r lst). unfold fuel_needed, node_level in *.
        destruct (is_inner (default Node_default r)); lia.
      * unfold node_level in Hf. lia.
      * cbn [mbind option_bind]. do 2 eexists. split; [done|]. split; [|by intros _].
        pose proof (height_child_r l r lst). unfold node_level in *. simpl in *.
        destruct l; lia.
    + destruct (IH (default Node_default l) cell (index + 1)) as (n' & ret & -> & Hn & _).
      * pose proof (height_child_l l r lst). unfold fuel_needed, node_level in *.
        destruct (is_inner (default Node_default l)); lia.
      * unfold node_level in Hf. lia.
      * cbn [mbind option_bind]. do 2 eexists. split; [done|].
        split; [|by intros _; unfold is_inner; simpl; destruct r].
        pose proof (height_child_l l r lst). unfold node_level in *. simpl in *.
        destruct r; lia.
  - (* leaf *)
    destruct l, r; try done. apply insert_leaf_within; [|intros m c; apply IH].
    unfold fuel_needed, node_level in Hf. cbn [is_inner is_some node_left node_right orb] in Hf. lia.
Qed.

Lemma insert_fuel_enough (n : Node K) (cell : Cell K) (index k_bucket : nat) :
  exists n' ret, Node_insert (insert_fuel n index) n cell index k_bucket = Some (n', ret) /\
                 height n' <= Nat.max (height n) (MAX_LEVEL - index).
Proof.
  destruct (insert_within (insert_fuel n index) n cell index k_bucket) as (n' & ret & E & Hh & _).
  - unfold fuel_needed, insert_fuel, node_level. destruct (is_inner n); lia.
  - unfold insert_fuel. lia.
  - by exists n', ret.
Qed.

(** ** The loops over a bucket *)

Abbreviation keys_of l := (cell_key <$> l).

Lemma scan_same_absent (key : K) (lst : list (Cell K)) (i : nat) (need : option nat) (rem : list u32) :
  key ∉ keys_of lst -> scan_same key lst i need rem = (need, rem).
Proof.
  revert i. induction lst as [|c lst IH]; intros i Hk; [done|]. simpl in *.
  apply not_elem_of_cons in Hk as [Hc Hk]. rewrite bool_decide_false by done. by apply IH.
Qed.

Lemma scan_same_middle (c : Cell K) (a b : list (Cell K)) :
  NoDup (keys_of (a ++ c :: b)) ->
  scan_same (cell_key c) (a ++ c :: b) 0 None [] = (Some (length a), [cell_val c]).
Proof.
  intros Hnd. change (Some (length a)) with (Some (0 + length a)). generalize 0 as i.
  rewrite fmap_app in Hnd. apply NoDup_app in Hnd as (_ & Ha & Hb). simpl in *.
  apply NoDup_cons in Hb as [Hb _]. assert (cell_key c ∉ keys_of a) as Hca.
  { intros Hin. apply (Ha _ Hin). by left. }
  clear Ha. induction a as [|x a IH]; intros i; simpl in *.
  - rewrite bool_decide_true by done. rewrite scan_same_absent by done. by rewrite Nat.add_0_r.
  - apply not_elem_of_cons in Hca as [Hx Hca]. rewrite bool_decide_false by done.
    rewrite IH by done. by rewrite Nat.add_succ_r.
Qed.

Lemma key_split (key : K) (lst : list (Cell K)) :
  key ∈ keys_of lst -> exists a c b, lst = a ++ c :: b /\ cell_key c = key.
Proof.
  intros (c & -> & Hc)%list_elem_of_fmap. apply list_elem_of_split in Hc as (a & b & ->).
  by exists a, c, b.
Qed.

Lemma evict_some (lst lst' : list (Cell K)) (cell : Cell K) (v : u32) :
  evict lst cell = Some (lst', v) ->
  exists a w b, lst = a ++ w :: b /\ lst' = a ++ cell :: b /\ v = cell_val w /\
                bv_lt (cell_dist cell) (cell_dist w) = true.
Proof.
  revert lst'. induction lst as [|w lst IH]; intros lst'; [done|]. simpl.
  destruct (bv_lt _ _) eqn:E; [intros [= <- <-]; by exists [], w, lst|].
  destruct (evict lst cell) as [[l u]|]; [|done]. intros [= <- <-].
  destruct (IH _ eq_refl) as (a & x & b & -> & -> & -> & Hx). by exists (w :: a), x, b.
Qed.

Lemma evict_none (lst : list (Cell K)) (cell : Cell K) :
  evict lst cell = None -> Forall (fun w => bv_lt (cell_dist cell) (cell_dist w) = false) lst.
Proof.
  induction lst as [|w lst IH]; [by constructor|]. simpl. destruct (bv_lt _ _) eqn:E; [done|].
  destruct (evict lst cell) as [[l u]|]; [done|]. intros _. constructor; auto.
Qed.

Lemma last_index_absent (key : K) (lst : list (Cell K)) (i : nat) (acc : option nat) :
  key ∉ keys_of lst -> last_index key lst i acc = acc.
Proof.
  revert i. induction lst as [|c lst IH]; intros i Hk; [done|]. simpl in *.
  apply not_elem_of_cons in Hk as [Hc Hk]. rewrite bool_decide_false by done. by apply IH.
Qed.

Lemma last_index_middle (c : Cell K) (a b : list (Cell K)) (acc : option nat) :
  cell_key c ∉ keys_of b ->
  last_index (cell_key c) (a ++ c :: b) 0 acc = Some (length a).
Proof.
  intros Hb. change (Some (length a)) with (Some (0 + length a)). generalize 0 as i.
  revert acc. induction a as [|x a IH]; intros acc i; simpl.
  - rewrite bool_decide_true by done. rewrite last_index_absent by done. by rewrite Nat.add_0_r.
  - rewrite IH. by rewrite Nat.add_succ_r.
Qed.

(** ** Well-formed trees *)

(** The shape below level [index]: buckets of at most [K_BUCKET] cells, inner
    nodes with an empty bucket and only above [MAX_LEVEL], and every cell on the
    side its bit at the node's level names. *)
Fixpoint node_shape (index : nat) (n : Node K) : Prop :=
  let '(mkNode l r lst) := n in
  index <= MAX_LEVEL /\ length lst <= K_BUCKET /\
  (is_some r || is_some l = true -> lst = [] /\ index < MAX_LEVEL) /\
  match l with
  | Some l => node_shape (S index) l /\
              Forall (fun c => Distance_get (cell_dist c) index = false) (Node_all l)
  | None => True
  end /\
  match r with
  | Some r => node_shape (S index) r /\
              Forall (fun c => Distance_get (cell_dist c) index = true) (Node_all r)
  | None => True
  end.

(** The stored distance is the distance to the root, and no key occurs twice. *)
Definition cells_ok (root : K) (l : list (Cell K)) : Prop :=
  Forall (fun c => cell_dist c = calc_distance root (cell_key c)) l /\ NoDup (keys_of l).

Definition node_wf (root : K) (index : nat) (n : Node K) : Prop :=
  node_shape index n /\ cells_ok root (Node_all n).

#[global] Instance cells_ok_proper (root : K) : Proper (Permutation ==> iff) (cells_ok root).
Proof. intros l l' E. unfold cells_ok. by rewrite E. Qed.

Lemma cells_ok_app_l (root : K) (l l' : list (Cell K)) : cells_ok root (l ++ l') -> cells_ok root l.
Proof.
  intros [Hf Hn]. apply Forall_app in Hf as [Hf _]. rewrite fmap_app in Hn.
  apply NoDup_app in Hn as [Hn _]. done.
Qed.

Lemma cells_ok_app_r (root : K) (l l' : list (Cell K)) : cells_ok root (l ++ l') -> cells_ok root l'.
Proof. rewrite Permutation_app_comm. apply cells_ok_app_l. Qed.

(** The two cells belong in the same bucket of the last level of the subtree at level
    [from]: their distances have the same bits from there on. *)
Definition same_path (from : nat) (cell g : Cell K) : Prop :=
  forall i, from <= i < MAX_LEVEL -> Distance_get (cell_dist g) i = Distance_get (cell_dist cell) i.

(** What an insertion at level [from] does to the contents: either the cell is stored
    and at most one cell leaves, of the same key or of the same bucket and farther from
    the root, or the contents are the same and the bucket of the cell, which is all the
    cells that belong in it, is full of cells that are all at least as close. *)
Definition stored (from : nat) (old : list (Cell K)) (cell : Cell K) (new : list (Cell K))
    (removed : list u32) : Prop :=
  exists gone kept,
    Permutation old (gone ++ kept) /\ Permutation new (cell :: kept) /\ removed = cell_val <$> gone /\
    (cell_key cell ∉ keys_of kept) /\ length gone <= 1 /\
    Forall (fun g => cell_key g = cell_key cell \/
                     bv_lt (cell_dist cell) (cell_dist g) = true /\ same_path from cell g) gone.

Definition refused (from : nat) (old : list (Cell K)) (cell : Cell K) (new : list (Cell K))
    (removed : list u32) : Prop :=
  Permutation new old /\ removed = [] /\ (cell_key cell ∉ keys_of old) /\
  exists bucket rest, Permutation old (bucket ++ rest) /\
    Forall (same_path from cell) bucket /\ Forall (fun g => ~ same_path from cell g) rest /\
    length bucket = K_BUCKET /\
    Forall (fun g => bv_lt (cell_dist cell) (cell_dist g) = false) bucket.

Definition insert_outcome (from : nat) (old : list (Cell K)) (cell : Cell K) (new : list (Cell K))
    (ret : bool * list u32) : Prop :=
  if ret.1 then stored from old cell new ret.2 else refused from old cell new ret.2.

(** One level up. *)
Lemma same_path_up (from : nat) (cell g : Cell K) :
  Distance_get (cell_dist g) from = Distance_get (cell_dist cell) from ->
  same_path (S from) cell g -> same_path from cell g.
Proof. intros E Hs i Hi. destruct (decide (i = from)) as [->|]; [done|]. apply Hs. lia. Qed.

Lemma same_path_down (from : nat) (cell g : Cell K) : same_path from cell g -> same_path (S from) cell g.
Proof. intros Hs i Hi. apply Hs. lia. Qed.

(** ** Insertion *)

Lemma insert_leaf_push (fuel : nat) (lst : list (Cell K)) (cell : Cell K) (index : nat) :
  cell_key cell ∉ keys_of lst -> length lst < K_BUCKET ->
  Node_insert (S fuel) (leaf lst) cell index K_BUCKET = Some (leaf (lst ++ [cell]), (true, [])).
Proof.
  intros Hk Hl. cbn [Node_insert leaf is_some orb]. rewrite scan_same_absent by done.
  apply Nat.ltb_lt in Hl. by rewrite Hl.
Qed.

Lemma insert_inner (fuel : nat) (l r : option (Node K)) (lst : list (Cell K)) (cell : Cell K)
    (index k_bucket : nat) :
  is_some r || is_some l = true ->
  Node_insert (S fuel) (mkNode l r lst) cell index k_bucket =
  if Distance_get (cell_dist cell) index then
    '(r, ret) ← Node_insert fuel (default Node_default r) cell (index + 1) k_bucket;
    Some (mkNode l (Some r) lst, ret)
  else
    '(l, ret) ← Node_insert fuel (default Node_default l) cell (index + 1) k_bucket;
    Some (mkNode (Some l) r lst, ret).
Proof. intros E. cbn [Node_insert]. by rewrite E. Qed.

(** The cells of a full bucket all find room in the two new children. *)
Lemma reinsert_leaves (fuel index : nat) (cells a b : list (Cell K)) :
  NoDup (keys_of (cells ++ a ++ b)) -> length a + length b + length cells <= K_BUCKET ->
  reinsert (fun n c => Node_insert (S (S fuel)) n c index K_BUCKET) cells
    (mkNode (Some (leaf a)) (Some (leaf b)) cells) =
  Some (mkNode
    (Some (leaf (a ++ filter (fun c => Distance_get (cell_dist c) index = false) cells)))
    (Some (leaf (b ++ filter (fun c => Distance_get (cell_dist c) index = true) cells))) []).
Proof.
  revert a b. induction cells as [|c cells IH]; intros a b Hnd Hlen.
  { simpl. by rewrite !app_nil_r. }
  cbn [reinsert]. rewrite insert_inner by done. rewrite !filter_cons. cbn [from_option id length app] in *.
  assert ((cell_key c ∉ keys_of a) /\ (cell_key c ∉ keys_of b)) as [Ha Hb].
  { rewrite fmap_cons, !fmap_app, NoDup_cons, !not_elem_of_app in Hnd. tauto. }
  assert (forall l l', Permutation (c :: a ++ b) (l ++ l') ->
            NoDup (keys_of (cells ++ l ++ l'))) as Hnd'.
  { intros l l' E. rewrite <- E, <- Permutation_middle. done. }
  destruct (Distance_get (cell_dist c) index) eqn:E;
    rewrite insert_leaf_push by (done || lia); cbn [mbind option_bind];
    (rewrite IH; [| |rewrite length_app; simpl; lia]);
    rewrite ?decide_True, ?decide_False, <- ?app_assoc by done; try done; apply Hnd'.
  - rewrite app_assoc. apply Permutation_cons_append.
  - apply Permutation_middle.
Qed.

Lemma Node_all_inner (l r : option (Node K)) (lst : list (Cell K)) :
  Node_all (mkNode l r lst) =
  lst ++ Node_all (default Node_default l) ++ Node_all (default Node_default r).
Proof. by destruct l, r. Qed.

Lemma cell_bit (root : K) (index : nat) (b : bool) (cell : Cell K) (l : list (Cell K)) :
  cells_ok root l -> Forall (fun c => Distance_get (cell_dist c) index = b) l ->
  cell_dist cell = calc_distance root (cell_key cell) ->
  Distance_get (cell_dist cell) index = negb b -> cell_key cell ∉ keys_of l.
Proof.
  intros [Hd _] Hb Hc E (c & Ek & Hin)%list_elem_of_fmap.
  rewrite Forall_forall in Hd, Hb. specialize (Hd _ Hin). specialize (Hb _ Hin).
  rewrite Ek in Hc. rewrite Hc, <- Hd, Hb in E. by destruct b.
Qed.

(** The outcome in one subtree is the outcome in the tree when the cells of the rest
    are on the other side of the node. *)
Lemma insert_outcome_frame (from : nat) (b : bool) (old new rest old' new' : list (Cell K)) (cell : Cell K)
    (ret : bool * list u32) :
  insert_outcome (S from) old cell new ret -> cell_key cell ∉ keys_of rest -> from < MAX_LEVEL ->
  Distance_get (cell_dist cell) from = b -> Forall (fun c => Distance_get (cell_dist c) from = b) old ->
  Forall (fun c => Distance_get (cell_dist c) from = negb b) rest ->
  Permutation old' (old ++ rest) -> Permutation new' (new ++ rest) ->
  insert_outcome from old' cell new' ret.
Proof.
  intros Ho Hr Hlt Hb Hold Hrest Eo En.
  destruct ret as [[|] removed]; unfold insert_outcome in *; simpl in *.
  - destruct Ho as (gone & kept & E1 & E2 & -> & Hk & Hl & Hg).
    rewrite E1 in Hold. apply Forall_app in Hold as [Hold _].
    exists gone, (kept ++ rest). split_and!; try done.
    + by rewrite Eo, E1, <- app_assoc.
    + by rewrite En, E2.
    + rewrite fmap_app, not_elem_of_app. done.
    + rewrite Forall_forall in *. intros c Hc. destruct (Hg c Hc) as [?|[? ?]]; [by left|right].
      split; [done|]. apply same_path_up; [|done]. by rewrite (Hold c Hc), Hb.
  - destruct Ho as (E & -> & Hk & bucket & more & E1 & Hp & Hn & Hl & Hd).
    rewrite E1 in Hold. apply Forall_app in Hold as [Hold _].
    split_and!; [by rewrite Eo, En, E|done| |].
    + rewrite Eo, fmap_app, not_elem_of_app. done.
    + exists bucket, (more ++ rest). split; [by rewrite Eo, E1, <- app_assoc|]. split_and!; try done.
      * rewrite Forall_forall in *. intros c Hc. apply same_path_up; [|by apply Hp]. by rewrite (Hold c Hc), Hb.
      * apply Forall_app. rewrite !Forall_forall in *. split; intros c Hc Hs.
        -- by apply (Hn c Hc), same_path_down.
        -- specialize (Hs from ltac:(lia)). rewrite (Hrest c Hc), Hb in Hs. by destruct b.
Qed.

(** Whatever leaves the cells in place keeps them sound. *)
Lemma insert_outcome_ok (root : K) (from : nat) (old new : list (Cell K)) (cell : Cell K) (ret : bool * list u32) :
  insert_outcome from old cell new ret -> cells_ok root old ->
  cell_dist cell = calc_distance root (cell_key cell) -> cells_ok root new.
Proof.
  intros Ho Hok Hc. destruct ret as [[|] removed]; unfold insert_outcome in *; simpl in *.
  - destruct Ho as (gone & kept & E1 & E2 & -> & Hk & Hl & Hg).
    rewrite E1 in Hok. apply cells_ok_app_r in Hok as [Hd Hn]. rewrite E2.
    split; [by constructor|]. rewrite fmap_cons. by constructor.
  - destruct Ho as (E & _). by rewrite E.
Qed.

Lemma insert_outcome_Forall (P : Cell K -> Prop) (from : nat) (old new : list (Cell K)) (cell : Cell K)
    (ret : bool * list u32) :
  insert_outcome from old cell new ret -> Forall P old -> P cell -> Forall P new.
Proof.
  intros Ho Hf Hc. destruct ret as [[|] removed]; unfold insert_outcome in *; simpl in *.
  - destruct Ho as (gone & kept & E1 & E2 & _). rewrite E1 in Hf.
    apply Forall_app in Hf as [_ Hf]. rewrite E2. by constructor.
  - destruct Ho as (E & _). by rewrite E.
Qed.

Lemma scan_same_spec (cell : Cell K) (lst : list (Cell K)) :
  NoDup (keys_of lst) ->
  exists need gone lst',
    scan_same (cell_key cell) lst 0 None [] = (need, cell_val <$> gone) /\
    match need with Some i => delete i lst | None => lst end = lst' /\
    Permutation lst (gone ++ lst') /\ (cell_key cell ∉ keys_of lst') /\ length gone <= 1 /\
    (gone = [] -> lst' = lst) /\
    Forall (fun g => cell_key g = cell_key cell) gone.
Proof.
  intros Hnd. destruct (decide (cell_key cell ∈ keys_of lst)) as [Hin|Hin].
  - apply key_split in Hin as (a & c & b & -> & Ek).
    exists (Some (length a)), [c], (a ++ b). rewrite <- Ek, scan_same_middle by done.
    rewrite delete_middle. split_and!; try done.
    + by rewrite <- Permutation_middle.
    + rewrite <- Permutation_middle, fmap_cons in Hnd. by apply NoDup_cons in Hnd as [? _].
    + by repeat constructor.
  - exists None, [], lst. rewrite scan_same_absent by done. split_and!; try done; simpl; lia.
Qed.

Lemma node_shape_default (index : nat) : index <= MAX_LEVEL -> node_shape index Node_default.
Proof. intros. cbn. split_and!; try done. unfold K_BUCKET. lia. Qed.

(** Children as the insertion reads them: an absent child is an empty leaf. *)
Lemma node_shape_children (index : nat) (l r : option (Node K)) (lst : list (Cell K)) :
  node_shape index (mkNode l r lst) -> index < MAX_LEVEL ->
  (node_shape (S index) (default Node_default l) /\
   Forall (fun c => Distance_get (cell_dist c) index = false) (Node_all (default Node_default l))) /\
  (node_shape (S index) (default Node_default r) /\
   Forall (fun c => Distance_get (cell_dist c) index = true) (Node_all (default Node_default r))).
Proof.
  intros (Hi & Hlen & Hin & Hl & Hr) Hlt. split_and!.
  - destruct l; [by apply Hl|]. by apply node_shape_default.
  - destruct l; [by apply Hl|]. by constructor.
  - destruct r; [by apply Hr|]. by apply node_shape_default.
  - destruct r; [by apply Hr|]. by constructor.
Qed.

Lemma node_shape_inner (index : nat) (l r : option (Node K)) (lst : list (Cell K)) :
  node_shape index (mkNode l r lst) -> is_some r || is_some l = true ->
  lst = [] /\ index < MAX_LEVEL.
Proof. intros (_ & _ & Hin & _) E. by apply Hin. Qed.

Lemma node_shape_split (index : nat) (lst : list (Cell K)) :
  index < MAX_LEVEL -> length lst <= K_BUCKET ->
  node_shape index (mkNode
    (Some (leaf (filter (fun c => Distance_get (cell_dist c) index = false) lst)))
    (Some (leaf (filter (fun c => Distance_get (cell_dist c) index = true) lst))) []).
Proof.
  intros Hi Hl. cbn. rewrite !app_nil_r. split_and!; try done; try lia;
    try (etrans; [apply length_filter|done]); apply Forall_forall; intros c Hc;
    by apply list_elem_of_filter in Hc as [? _].
Qed.

Lemma filter_bit_split (index : nat) (lst : list (Cell K)) :
  Permutation lst
    (filter (fun c => Distance_get (cell_dist c) index = false) lst ++
     filter (fun c => Distance_get (cell_dist c) index = true) lst).
Proof.
  induction lst as [|c lst IH]; [done|]. rewrite !filter_cons.
  destruct (Distance_get (cell_dist c) index).
  - rewrite decide_False, decide_True by done. rewrite IH at 1. apply Permutation_middle.
  - rewrite decide_True, decide_False by done. rewrite IH at 1. done.
Qed.

(** A leaf that has room, or is on the last level. *)
Lemma insert_leaf_spec (fuel index : nat) (lst : list (Cell K)) (cell : Cell K) :
  NoDup (keys_of lst) -> length lst <= K_BUCKET -> index <= MAX_LEVEL ->
  (exists n' ret, Node_insert (S fuel) (leaf lst) cell index K_BUCKET = Some (n', ret) /\
     node_shape index n' /\ insert_outcome index lst cell (Node_all n') ret) \/
  (index < MAX_LEVEL /\ length lst = K_BUCKET /\
   Node_insert (S fuel) (leaf lst) cell index K_BUCKET =
     n ← reinsert (fun n c => Node_insert fuel n c index K_BUCKET) lst
          (mkNode (Some Node_default) (Some Node_default) lst);
     Node_insert fuel n cell index K_BUCKET).
Proof.
  intros Hnd Hlen Hidx. cbn [Node_insert leaf is_some orb].
  destruct (scan_same_spec cell lst Hnd) as (need & gone & lst' & -> & -> & E & Hk & Hg & Hsame & Hf).
  assert (length lst = length gone + length lst') as El by (by rewrite E, length_app).
  destruct (length lst' <? K_BUCKET) eqn:Eb.
  { apply Nat.ltb_lt in Eb. left. do 2 eexists. split; [done|]. split.
    - cbn. rewrite length_app. simpl. split_and!; try done; lia.
    - unfold insert_outcome. rewrite Node_all_leaf. exists gone, lst'. split_and!; try done.
      + symmetry. apply Permutation_cons_append.
      + eapply Forall_impl; [done|]. by left. }
  apply Nat.ltb_ge in Eb. assert (gone = []) as -> by (destruct gone; [done|simpl in *; lia]).
  specialize (Hsame eq_refl). subst lst'. destruct (MAX_LEVEL <=? index) eqn:Em.
  - apply Nat.leb_le in Em. assert (forall c, same_path index cell c) as Hpath by (intros c i Hi; lia).
    left. destruct (evict lst cell) as [[lst' v]|] eqn:Ev; (do 2 eexists; split; [done|]).
    + apply evict_some in Ev as (a & w & b & -> & -> & -> & Hlt).
      rewrite length_app in Hlen. simpl in Hlen. split.
      * cbn. rewrite length_app. simpl. split_and!; try done.
      * unfold insert_outcome. rewrite Node_all_leaf. exists [w], (a ++ b).
        rewrite fmap_app in Hk. apply not_elem_of_app in Hk as [Ha Hb].
        apply not_elem_of_cons in Hb as [_ Hb]. split_and!; try done.
        -- by rewrite <- Permutation_middle.
        -- by rewrite <- Permutation_middle.
        -- by rewrite fmap_app, not_elem_of_app.
        -- constructor; [|done]. right. by split.
    + apply evict_none in Ev. split; [by cbn; split_and!|].
      unfold insert_outcome. rewrite Node_all_leaf. split_and!; try done.
      exists lst, []. rewrite app_nil_r. split_and!; try done; [by apply Forall_true|simpl in *; lia].
  - right. apply Nat.leb_gt in Em. simpl in *. split_and!; try done. lia.
Qed.

(** The two sides of an inner node. *)
Lemma insert_right_ok (root : K) (index : nat) (l r : option (Node K)) (r' : Node K)
    (cell : Cell K) (ret : bool * list u32) :
  node_wf root index (mkNode l r []) -> index < MAX_LEVEL ->
  cell_dist cell = calc_distance root (cell_key cell) ->
  Distance_get (cell_dist cell) index = true ->
  node_shape (S index) r' -> insert_outcome (S index) (Node_all (default Node_default r)) cell (Node_all r') ret ->
  node_shape index (mkNode l (Some r') []) /\
  insert_outcome index (Node_all (mkNode l r [])) cell (Node_all (mkNode l (Some r') [])) ret.
Proof.
  intros [Hs Hok] Hi Hc Hb Hs' Ho. rewrite !Node_all_inner in *. cbn [app from_option id] in *.
  destruct (node_shape_children _ _ _ _ Hs Hi) as ([Hl Hlb] & [Hr Hrb]). split.
  - cbn in Hs |- *. destruct Hs as (? & ? & _ & Hl' & _). split_and!; try done.
    eapply insert_outcome_Forall; [done|done|done].
  - eapply (insert_outcome_frame index true); [done| |done|done|done|done| |].
    + eapply (cell_bit root index false); [|done|done|done]. by eapply cells_ok_app_l.
    + apply Permutation_app_comm.
    + apply Permutation_app_comm.
Qed.

Lemma insert_left_ok (root : K) (index : nat) (l r : option (Node K)) (l' : Node K)
    (cell : Cell K) (ret : bool * list u32) :
  node_wf root index (mkNode l r []) -> index < MAX_LEVEL ->
  cell_dist cell = calc_distance root (cell_key cell) ->
  Distance_get (cell_dist cell) index = false ->
  node_shape (S index) l' -> insert_outcome (S index) (Node_all (default Node_default l)) cell (Node_all l') ret ->
  node_shape index (mkNode (Some l') r []) /\
  insert_outcome index (Node_all (mkNode l r [])) cell (Node_all (mkNode (Some l') r [])) ret.
Proof.
  intros [Hs Hok] Hi Hc Hb Hs' Ho. rewrite !Node_all_inner in *. cbn [app from_option id] in *.
  destruct (node_shape_children _ _ _ _ Hs Hi) as ([Hl Hlb] & [Hr Hrb]). split.
  - cbn in Hs |- *. destruct Hs as (? & ? & _ & _ & Hr'). split_and!; try done.
    eapply insert_outcome_Forall; [done|done|done].
  - eapply (insert_outcome_frame index false); [done| |done|done|done|done|done|done].
    eapply (cell_bit root index true); [|done|done|done]. by eapply cells_ok_app_r.
Qed.

Lemma insert_outcome_perm (from : nat) (old old' new : list (Cell K)) (cell : Cell K) (ret : bool * list u32) :
  Permutation old old' -> insert_outcome from old' cell new ret -> insert_outcome from old cell new ret.
Proof.
  intros E. unfold insert_outcome. destruct ret as [[|] removed]; simpl.
  - intros (gone & kept & E1 & ?). exists gone, kept. by rewrite E.
  - intros (E1 & -> & Hk & bucket & rest & E2 & ?). split_and!; try done; [by rewrite E|by rewrite E|].
    exists bucket, rest. by rewrite E.
Qed.

Lemma insert_spec (root : K) (fuel : nat) (n : Node K) (cell : Cell K) (index : nat) (n' : Node K)
    (ret : bool * list u32) :
  Node_insert fuel n cell index K_BUCKET = Some (n', ret) ->
  node_wf root index n -> cell_dist cell = calc_distance root (cell_key cell) ->
  node_shape index n' /\ insert_outcome index (Node_all n) cell (Node_all n') ret.
Proof.
  revert n index n' ret. induction fuel as [|fuel IH]; intros n index n' ret E Hwf Hc; [done|].
  destruct n as [l r lst]. destruct (is_some r || is_some l) eqn:Ei.
  - destruct (node_shape_inner _ _ _ _ (proj1 Hwf) Ei) as [-> Hi].
    destruct (node_shape_children _ _ _ _ (proj1 Hwf) Hi) as ([Hl _] & [Hr _]).
    pose proof (proj2 Hwf) as Hok. rewrite Node_all_inner in Hok. simpl in Hok.
    rewrite insert_inner in E by done. rewrite Nat.add_1_r in E.
    destruct (Distance_get (cell_dist cell) index) eqn:Eb.
    + destruct (Node_insert fuel _ cell _ _) as [[r' ret']|] eqn:E'; [|done]. injection E as <- <-.
      apply IH in E' as [Hs Ho]; [|by split; [done|eapply cells_ok_app_r]|done].
      by eapply insert_right_ok.
    + destruct (Node_insert fuel _ cell _ _) as [[l' ret']|] eqn:E'; [|done]. injection E as <- <-.
      apply IH in E' as [Hs Ho]; [|by split; [done|eapply cells_ok_app_l]|done].
      by eapply insert_left_ok.
  - destruct l, r; try done. change (mkNode None None lst) with (leaf lst) in *.
    destruct Hwf as [Hs Hok]. rewrite Node_all_leaf in *. destruct Hs as (Hi & Hlen & _).
    destruct (insert_leaf_spec fuel index lst cell) as [(n2 & ret2 & E2 & Hs & Ho)|(Hlt & Hfull & E2)];
      [by apply Hok|done|done| |].
    + rewrite E2 in E. by injection E as <- <-.
    + rewrite E2 in E. destruct fuel as [|[|fuel]].
      { by destruct lst. }
      { destruct lst; [done|]. cbn [reinsert] in E. rewrite insert_inner in E by done.
        by destruct (Distance_get _ index). }
      change (Node_default (K:=K)) with (leaf []) in E.
      rewrite reinsert_leaves in E; [|by rewrite app_nil_r; apply Hok|simpl; lia].
      cbn [mbind option_bind app] in E.
      apply IH in E as [Hs Ho]; [split; [done|]| |done].
      * eapply insert_outcome_perm, Ho. rewrite Node_all_inner. cbn [app from_option id].
        rewrite !Node_all_leaf. apply filter_bit_split.
      * split; [by apply node_shape_split; [|lia]|].
        rewrite Node_all_inner. cbn [app from_option id]. rewrite !Node_all_leaf.
        by rewrite <- filter_bit_split.
Qed.

(** ** Removal *)

(** What a removal does to the contents: the one cell of the key leaves, or the
    key is not there and nothing changes. *)
Definition remove_outcome (old : list (Cell K)) (key : K) (new : list (Cell K))
    (ret : option u32) : Prop :=
  match ret with
  | Some v => exists c, Permutation old (c :: new) /\ cell_key c = key /\ cell_val c = v
  | None => new = old /\ (key ∉ keys_of old)
  end.

Lemma remove_outcome_frame (old new rest old' new' : list (Cell K)) (key : K) (ret : option u32) :
  remove_outcome old key new ret -> key ∉ keys_of rest ->
  Permutation old' (old ++ rest) -> Permutation new' (new ++ rest) ->
  (old = new -> old' = new') -> remove_outcome old' key new' ret.
Proof.
  intros Ho Hr Eo En Eq. destruct ret as [v|]; simpl in *.
  - destruct Ho as (c & E & Hk & Hv). exists c. split; [|done]. by rewrite Eo, En, E.
  - destruct Ho as [E Hk]. split; [symmetry; by apply Eq|].
    rewrite Eo, fmap_app, not_elem_of_app. done.
Qed.

Lemma remove_outcome_Forall (P : Cell K -> Prop) (old new : list (Cell K)) (key : K) (ret : option u32) :
  remove_outcome old key new ret -> Forall P old -> Forall P new.
Proof.
  destruct ret; simpl; [|by intros [-> _]].
  intros (c & -> & _) Hf. by apply Forall_cons in Hf as [_ ?].
Qed.

Lemma remove_outcome_ok (root : K) (old new : list (Cell K)) (key : K) (ret : option u32) :
  remove_outcome old key new ret -> cells_ok root old -> cells_ok root new.
Proof.
  destruct ret; simpl; [|by intros [-> _]].
  intros (c & E & _) Hok. rewrite E in Hok. by apply (cells_ok_app_r root [c]) in Hok.
Qed.

(** A key is only on the side its own distance names. *)
Lemma key_side (root : K) (index : nat) (b : bool) (key : K) (l : list (Cell K)) :
  cells_ok root l -> Forall (fun c => Distance_get (cell_dist c) index = b) l ->
  Distance_get (calc_distance root key) index = negb b -> key ∉ keys_of l.
Proof.
  intros Hok Hb E. apply (cell_bit root index b (mkCell key (to_uint 32 0) (calc_distance root key)) l);
    done.
Qed.

Lemma last_index_spec (key : K) (lst : list (Cell K)) :
  NoDup (keys_of lst) ->
  (exists a c b, lst = a ++ c :: b /\ last_index key lst 0 None = Some (length a) /\ cell_key c = key) \/
  ((key ∉ keys_of lst) /\ last_index key lst 0 None = None).
Proof.
  intros Hnd. destruct (decide (key ∈ keys_of lst)) as [Hin|Hin].
  - left. apply key_split in Hin as (a & c & b & -> & <-). exists a, c, b.
    rewrite last_index_middle; [done|].
    rewrite fmap_app, fmap_cons in Hnd. apply NoDup_app in Hnd as (_ & _ & Hb).
    by apply NoDup_cons in Hb as [? _].
  - right. by rewrite last_index_absent.
Qed.

(** The two sides of an inner node. *)
Lemma remove_right_ok (root : K) (index : nat) (l r : option (Node K)) (r' : Node K)
    (key : K) (ret : option u32) :
  node_wf root index (mkNode l r []) -> index < MAX_LEVEL ->
  Distance_get (calc_distance root key) index = true ->
  node_shape (S index) r' -> remove_outcome (Node_all (default Node_default r)) key (Node_all r') ret ->
  node_shape index (mkNode l (Some r') []) /\
  remove_outcome (Node_all (mkNode l r [])) key (Node_all (mkNode l (Some r') [])) ret.
Proof.
  intros [Hs Hok] Hi Hb Hs' Ho. rewrite !Node_all_inner in *. cbn [app from_option id] in *.
  destruct (node_shape_children _ _ _ _ Hs Hi) as ([Hl Hlb] & [Hr Hrb]). split.
  - cbn in Hs |- *. destruct Hs as (? & ? & _ & Hl' & _). split_and!; try done.
    eapply remove_outcome_Forall; [done|done].
  - eapply remove_outcome_frame; [done| | | |].
    + eapply (key_side root index false); [|done|done]. by eapply cells_ok_app_l.
    + apply Permutation_app_comm.
    + apply Permutation_app_comm.
    + by intros ->.
Qed.

Lemma remove_left_ok (root : K) (index : nat) (l r : option (Node K)) (l' : Node K)
    (key : K) (ret : option u32) :
  node_wf root index (mkNode l r []) -> index < MAX_LEVEL ->
  Distance_get (calc_distance root key) index = false ->
  node_shape (S index) l' -> remove_outcome (Node_all (default Node_default l)) key (Node_all l') ret ->
  node_shape index (mkNode (Some l') r []) /\
  remove_outcome (Node_all (mkNode l r [])) key (Node_all (mkNode (Some l') r [])) ret.
Proof.
  intros [Hs Hok] Hi Hb Hs' Ho. rewrite !Node_all_inner in *. cbn [app from_option id] in *.
  destruct (node_shape_children _ _ _ _ Hs Hi) as ([Hl Hlb] & [Hr Hrb]). split.
  - cbn in Hs |- *. destruct Hs as (? & ? & _ & _ & Hr'). split_and!; try done.
    eapply remove_outcome_Forall; [done|done].
  - eapply remove_outcome_frame; [done| |done|done|].
    + eapply (key_side root index true); [|done|done]. by eapply cells_ok_app_r.
    + by intros ->.
Qed.

(** An absent side: the key is nowhere. *)
Lemma absent_side (root : K) (index : nat) (l r : option (Node K)) (key : K) :
  node_wf root index (mkNode l r []) -> index < MAX_LEVEL ->
  (if Distance_get (calc_distance root key) index then r else l) = None ->
  key ∉ keys_of (Node_all (mkNode l r [])).
Proof.
  intros [Hs Hok] Hi E. rewrite Node_all_inner in *. cbn [app] in *.
  destruct (node_shape_children _ _ _ _ Hs Hi) as ([_ Hlb] & [_ Hrb]).
  destruct (Distance_get _ index) eqn:Eb; subst; cbn [from_option Node_all app] in *.
  - rewrite app_nil_r in *. by eapply (key_side root index false).
  - by eapply (key_side root index true).
Qed.

Lemma remove_spec (root : K) (n : Node K) (key : K) (index : nat) :
  node_wf root index n ->
  let '(n', ret) := Node_remove n key (calc_distance root key) index in
  node_shape index n' /\ remove_outcome (Node_all n) key (Node_all n') ret.
Proof.
  revert index. induction n as [l r lst IHl IHr] using node_induction. intros index Hwf.
  pose proof Hwf as [Hs Hok]. cbn [Node_remove].
  destruct (last_index_spec key lst) as [(a & c & b & -> & -> & Hk)|[Hkl ->]];
    [by rewrite Node_all_inner in Hok; eapply cells_ok_app_l| |].
  - (* the bucket holds the key *)
    rewrite delete_middle, list_lookup_middle by done. split.
    + destruct Hs as (? & Hlen & Hin & Hlr). rewrite length_app in Hlen. simpl in Hlen.
      split_and!; try done; try apply Hlr; [rewrite length_app; lia|].
      intros Hi. destruct (Hin Hi) as [Hnil _]. by destruct a.
    + simpl. exists c. split_and!; try done. rewrite <- app_assoc. cbn [app].
      rewrite <- Permutation_middle. by rewrite app_assoc.
  - destruct (is_some r || is_some l) eqn:Ei; [|destruct l, r; try done].
    + destruct (node_shape_inner _ _ _ _ Hs Ei) as [-> Hi].
      destruct (node_shape_children _ _ _ _ Hs Hi) as ([Hl _] & [Hr _]).
      rewrite Node_all_inner in Hok. cbn [app] in Hok.
      pose proof (absent_side root index l r key Hwf Hi) as Habs.
      destruct (Distance_get _ index) eqn:Eb.
      * destruct r as [r|]; [|by split; [|split; [|apply Habs]]].
        specialize (IHr _ eq_refl (S index) (conj Hr (cells_ok_app_r _ _ _ Hok))).
        rewrite Nat.add_1_r. destruct (Node_remove r key _ (S index)) as [r' v].
        destruct IHr as [Hs' Ho]. by eapply remove_right_ok.
      * destruct l as [l|]; [|by split; [|split; [|apply Habs]]].
        specialize (IHl _ eq_refl (S index) (conj Hl (cells_ok_app_l _ _ _ Hok))).
        rewrite Nat.add_1_r. destruct (Node_remove l key _ (S index)) as [l' v].
        destruct IHl as [Hs' Ho]. by eapply remove_left_ok.
    + destruct (Distance_get _ index); (split; [done|]); split; try done;
        by change (mkNode None None lst) with (leaf lst); rewrite Node_all_leaf.
Qed.

(** ** Capacity *)

Lemma node_capacity (n : Node K) (index : nat) :
  node_shape index n -> length (Node_all n) <= K_BUCKET * 2 ^ (MAX_LEVEL - index).
Proof.
  revert index. induction n as [l r lst IHl IHr] using node_induction. intros index Hs.
  destruct (is_some r || is_some l) eqn:Ei.
  - destruct (node_shape_inner _ _ _ _ Hs Ei) as [-> Hi].
    destruct Hs as (_ & _ & _ & Hl & Hr). rewrite Node_all_inner, !length_app.
    replace (MAX_LEVEL - index) with (S (MAX_LEVEL - S index)) by lia. rewrite Nat.pow_succ_r'.
    assert (length (Node_all (default Node_default l)) <= K_BUCKET * 2 ^ (MAX_LEVEL - S index)).
    { destruct l as [l|]; [apply (IHl _ eq_refl), Hl|simpl; lia]. }
    assert (length (Node_all (default Node_default r)) <= K_BUCKET * 2 ^ (MAX_LEVEL - S index)).
    { destruct r as [r|]; [apply (IHr _ eq_refl), Hr|simpl; lia]. }
    simpl length at 1. lia.
  - destruct l, r; try done. destruct Hs as (_ & Hlen & _). rewrite Node_all_leaf.
    pose proof (Nat.pow_nonzero 2 (MAX_LEVEL - index)). nia.
Qed.

End NodeFacts.
