(* ===== verification/KadTreeFacts.v ===== *)
(** * The Kademlia tree as a finite map with bounded buckets

    The tree [KadTree] keeps the invariant [tree_wf]; [add], [remove] and [search]
    are described by what they do to the list of stored cells. *)

From S2P Require Import Prelude Net Types Kad KadMetric KadFacts.
From stdpp Require Import list_relations list.

Section TreeFacts.
Context `{Key K}.

Abbreviation keys_of l := (cell_key <$> l).

(** The tree seen as an inner node of level 0. *)
Definition tree_node (t : KadTree K) : Node K := mkNode (tree_left t) (tree_right t) [].

Definition tree_cells (t : KadTree K) : list (Cell K) := Node_all (tree_node t).

Definition tree_wf (t : KadTree K) : Prop := node_wf (root_key t) 0 (tree_node t).

Lemma KadTree_keys_cells (t : KadTree K) : KadTree_keys t = keys_of (tree_cells t).
Proof.
  unfold KadTree_keys, tree_cells, tree_node. rewrite Node_all_inner. cbn [app].
  rewrite fmap_app. by destruct (tree_left t), (tree_right t); cbn [from_option id]; rewrite ?Node_keys_all.
Qed.

Lemma KadTree_is_empty_cells (t : KadTree K) : KadTree_is_empty t = true <-> tree_cells t = [].
Proof. apply (Node_is_empty_all (tree_node t)). Qed.

Lemma KadTree_new_wf (root : K) : tree_wf (KadTree_new root).
Proof.
  split; [|split; [constructor|apply NoDup_nil_2]].
  apply (node_shape_default (K := K)). unfold MAX_LEVEL. lia.
Qed.

Lemma tree_children (t : KadTree K) :
  tree_wf t ->
  node_wf (root_key t) 1 (default Node_default (tree_left t)) /\
  node_wf (root_key t) 1 (default Node_default (tree_right t)).
Proof.
  intros [Hs Hok]. unfold tree_node in *. rewrite Node_all_inner in Hok.
  destruct (node_shape_children _ _ _ _ Hs) as ([Hl _] & [Hr _]); [unfold MAX_LEVEL; lia|].
  split; split; try done; [by eapply cells_ok_app_l|by eapply cells_ok_app_r].
Qed.

Lemma KadTree_add_spec (t : KadTree K) (key : K) (value : u32) :
  tree_wf t ->
  let '(t', ret) := KadTree_add t key value in
  root_key t' = root_key t /\ tree_wf t' /\
  insert_outcome 0 (tree_cells t) (mkCell key value (calc_distance (root_key t) key)) (tree_cells t') ret.
Proof.
  intros Hwf. destruct (tree_children t Hwf) as [Hl Hr]. unfold KadTree_add.
  set (cell := mkCell key value (calc_distance (root_key t) key)).
  assert (0 < MAX_LEVEL) as Hm by (unfold MAX_LEVEL; lia).
  assert (cell_dist cell = calc_distance (root_key t) (cell_key cell)) as Hc by done.
  destruct (Distance_get (calc_distance (root_key t) key) 0) eqn:Eb.
  - destruct (insert_fuel_enough (default Node_default (tree_right t)) cell 1 K_BUCKET)
      as (n' & ret & E & _). rewrite E.
    destruct (insert_spec (root_key t) _ _ _ _ _ _ E Hr Hc) as [Hs Ho].
    destruct (insert_right_ok (root_key t) 0 _ _ n' cell ret Hwf Hm Hc Eb Hs Ho) as [Hs' Ho'].
    split; [done|]. split; [|done]. split; [done|]. by eapply insert_outcome_ok; [done|apply Hwf|].
  - destruct (insert_fuel_enough (default Node_default (tree_left t)) cell 1 K_BUCKET)
      as (n' & ret & E & _). rewrite E.
    destruct (insert_spec (root_key t) _ _ _ _ _ _ E Hl Hc) as [Hs Ho].
    destruct (insert_left_ok (root_key t) 0 _ _ n' cell ret Hwf Hm Hc Eb Hs Ho) as [Hs' Ho'].
    split; [done|]. split; [|done]. split; [done|]. by eapply insert_outcome_ok; [done|apply Hwf|].
Qed.

Lemma KadTree_remove_spec (t : KadTree K) (key : K) :
  tree_wf t ->
  let '(t', ret) := KadTree_remove t key in
  root_key t' = root_key t /\ tree_wf t' /\ remove_outcome (tree_cells t) key (tree_cells t') ret.
Proof.
  intros Hwf. destruct (tree_children t Hwf) as [Hl Hr]. unfold KadTree_remove.
  assert (0 < MAX_LEVEL) as Hm by (unfold MAX_LEVEL; lia).
  pose proof (absent_side _ 0 _ _ key Hwf Hm) as Habs.
  destruct (Distance_get (calc_distance (root_key t) key) 0) eqn:Eb.
  - destruct t as [root l [r|]]; cbn [root_key tree_left tree_right from_option id] in *;
      [|split; [done|]; split; [done|]; split; [done|by apply Habs]].
    pose proof (remove_spec root r key 1 Hr) as Hrem. destruct (Node_remove r key _ 1) as [r' v].
    destruct Hrem as [Hs Ho]. destruct (remove_right_ok root 0 l (Some r) r' key v Hwf Hm Eb Hs Ho).
    split; [done|]. split; [|done]. split; [done|]. by eapply remove_outcome_ok; [done|apply Hwf].
  - destruct t as [root [l|] r]; cbn [root_key tree_left tree_right from_option id] in *;
      [|split; [done|]; split; [done|]; split; [done|by apply Habs]].
    pose proof (remove_spec root l key 1 Hl) as Hrem. destruct (Node_remove l key _ 1) as [l' v].
    destruct Hrem as [Hs Ho]. destruct (remove_left_ok root 0 (Some l) r l' key v Hwf Hm Eb Hs Ho).
    split; [done|]. split; [|done]. split; [done|]. by eapply remove_outcome_ok; [done|apply Hwf].
Qed.

Lemma tree_capacity (t : KadTree K) : tree_wf t -> length (KadTree_keys t) <= 1024.
Proof.
  intros [Hs _]. rewrite KadTree_keys_cells, length_fmap.
  by apply node_capacity in Hs.
Qed.

(** ** Search *)

Lemma search_list_here (c : Cell K) (a b : list (Cell K)) (d : Distance) (i : nat) (ci : option nat)
    (cd : Distance) :
  cell_key c ∉ keys_of a ->
  search_list (cell_key c) d (a ++ c :: b) i ci cd = inl (cell_key c, cell_val c).
Proof.
  revert i ci cd. induction a as [|x a IH]; intros i ci cd Hk; simpl in *.
  - by rewrite bool_decide_true.
  - apply not_elem_of_cons in Hk as [Hx Hk]. rewrite bool_decide_false by done.
    destruct (bv_lt _ _); by apply IH.
Qed.

(** The scan without a hit: the closest position is inside the list. *)
Lemma search_list_miss (key : K) (d : Distance) (lst : list (Cell K)) (i : nat) (ci : option nat)
    (cd : Distance) :
  key ∉ keys_of lst ->
  exists r, search_list key d lst i ci cd = inr r /\
    (r = ci \/ exists j, r = Some (i + j) /\ j < length lst).
Proof.
  revert i ci cd. induction lst as [|c lst IH]; intros i ci cd Hk; simpl in *; [eauto|].
  apply not_elem_of_cons in Hk as [Hc Hk]. rewrite bool_decide_false by done.
  destruct (bv_lt _ cd).
  - destruct (IH (S i) (Some i) (Distance_xor d (cell_dist c) KEY_LENGTH) Hk)
      as (r & E & [->|(j & -> & Hj)]); rewrite E; eexists; (split; [done|]); right.
    + exists 0. split; [f_equal|]; lia.
    + exists (S j). split; [f_equal|]; lia.
  - destruct (IH (S i) ci cd Hk) as (r & E & [->|(j & -> & Hj)]); rewrite E;
      eexists; (split; [done|]); [by left|right; exists (S j); split; [f_equal|]; lia].
Qed.

Lemma key_split_first (key : K) (lst : list (Cell K)) :
  key ∈ keys_of lst ->
  exists a c b, lst = a ++ c :: b /\ cell_key c = key /\ (key ∉ keys_of a).
Proof.
  induction lst as [|x lst IH]; [by intros ?%not_elem_of_nil|].
  destruct (decide (cell_key x = key)) as [<-|Hx].
  - intros _. exists [], x, lst. split_and!; try done. apply not_elem_of_nil.
  - intros Hin. rewrite fmap_cons, elem_of_cons in Hin. destruct Hin as [->|Hin]; [done|].
    destruct (IH Hin) as (a & c & b & -> & Hc & Ha). exists (x :: a), c, b.
    split_and!; try done. rewrite fmap_cons, not_elem_of_cons. done.
Qed.

Definition search_outcome (cells : list (Cell K)) (key : K) (r : option (K * u32 * bool)) : Prop :=
  match r with
  | Some (k, v, true) => k = key /\ exists c, c ∈ cells /\ cell_key c = key /\ cell_val c = v
  | Some (k, v, false) =>
      (key ∉ keys_of cells) /\ exists c, c ∈ cells /\ cell_key c = k /\ cell_val c = v
  | None => key ∉ keys_of cells
  end.

Lemma search_outcome_frame (cells rest cells' : list (Cell K)) (key : K) (r : option (K * u32 * bool)) :
  search_outcome cells key r -> key ∉ keys_of rest -> Permutation cells' (cells ++ rest) ->
  search_outcome cells' key r.
Proof.
  intros Ho Hr E. destruct r as [[[k v] [|]]|]; simpl in *.
  - destruct Ho as (-> & c & Hc & ?). split; [done|]. exists c. split; [|done].
    rewrite E. by apply elem_of_app; left.
  - destruct Ho as (Hk & c & Hc & ?). split.
    + by rewrite E, fmap_app, not_elem_of_app.
    + exists c. split; [|done]. rewrite E. by apply elem_of_app; left.
  - by rewrite E, fmap_app, not_elem_of_app.
Qed.

(** The bucket scan as a search of its own. *)
Lemma search_bucket (key : K) (d : Distance) (lst : list (Cell K)) :
  NoDup (keys_of lst) ->
  (exists c, c ∈ lst /\ cell_key c = key /\
     search_list key d lst 0 None (Distance_max KEY_LENGTH) = inl (key, cell_val c)) \/
  ((key ∉ keys_of lst) /\ exists r,
     search_list key d lst 0 None (Distance_max KEY_LENGTH) = inr r /\
     forall j, r = Some j -> j < length lst).
Proof.
  intros Hnd. destruct (decide (key ∈ keys_of lst)) as [Hin|Hin].
  - left. apply key_split_first in Hin as (a & c & b & -> & <- & Ha). exists c.
    rewrite search_list_here by done. split_and!; try done. apply elem_of_app. right. by left.
  - right. split; [done|]. destruct (search_list_miss key d lst 0 None (Distance_max KEY_LENGTH) Hin)
      as (r & -> & [->|(j & -> & Hj)]); (eexists; split; [done|]); by intros ? [= <-].
Qed.

Lemma search_spec (root : K) (n : Node K) (key : K) (index : nat) :
  node_wf root index n ->
  search_outcome (Node_all n) key (Node_search n key (calc_distance root key) index).
Proof.
  revert index. induction n as [l r lst IHl IHr] using node_induction. intros index Hwf.
  pose proof Hwf as [Hs Hok]. cbn [Node_search].
  destruct (search_bucket key (calc_distance root key) lst)
    as [(c & Hin & Hk & ->)|(Hk & o & -> & Ho)].
  { rewrite Node_all_inner in Hok. by eapply cells_ok_app_l. }
  { split; [done|]. exists c. split; [|done]. rewrite Node_all_inner. apply elem_of_app. by left. }
  destruct (is_some r || is_some l) eqn:Ei.
  - destruct (node_shape_inner _ _ _ _ Hs Ei) as [-> Hi].
    destruct (node_shape_children _ _ _ _ Hs Hi) as ([Hl Hlb] & [Hr Hrb]).
    pose proof (absent_side root index l r key Hwf Hi) as Habs.
    rewrite Node_all_inner in *. cbn [app] in *.
    assert (o = None) as -> by (destruct o as [j|]; [|done]; specialize (Ho j eq_refl); simpl in Ho; lia).
    rewrite Nat.add_1_r. destruct (Distance_get _ index) eqn:Eb.
    + destruct r as [r|]; [|by apply Habs]. cbn [from_option id] in *.
      specialize (IHr _ eq_refl (S index) (conj Hr (cells_ok_app_r _ _ _ Hok))).
      assert (key ∉ keys_of (Node_all (default Node_default l))) as Hkl.
      { by eapply (key_side root index false); [eapply cells_ok_app_l| |]. }
      destruct (Node_search r key _ (S index)) as [x|];
        (eapply search_outcome_frame; [exact IHr|done|apply Permutation_app_comm]).
    + destruct l as [l|]; [|by apply Habs]. cbn [from_option id] in *.
      specialize (IHl _ eq_refl (S index) (conj Hl (cells_ok_app_l _ _ _ Hok))).
      assert (key ∉ keys_of (Node_all (default Node_default r))) as Hkr.
      { by eapply (key_side root index true); [eapply cells_ok_app_r| |]. }
      destruct (Node_search l key _ (S index)) as [x|];
        (eapply search_outcome_frame; [exact IHl|done|done]).
  - destruct l, r; try done. change (mkNode None None lst) with (leaf lst). rewrite Node_all_leaf.
    destruct (Distance_get _ index).
    all: destruct o as [j|]; [|done]; cbn [mbind option_bind].
    all: destruct (lookup_lt_is_Some_2 lst j (Ho _ eq_refl)) as [c Ec]; rewrite Ec; cbn [option_bind].
    all: split; [done|]; exists c; split_and!; try done; by eapply list_elem_of_lookup_2.
Qed.

Lemma KadTree_search_spec (t : KadTree K) (key : K) :
  tree_wf t -> search_outcome (tree_cells t) key (KadTree_search t key).
Proof.
  intros Hwf. destruct (tree_children t Hwf) as [Hl Hr]. unfold KadTree_search.
  assert (0 < MAX_LEVEL) as Hm by (unfold MAX_LEVEL; lia).
  pose proof (absent_side _ 0 _ _ key Hwf Hm) as Habs.
  destruct (node_shape_children _ _ _ _ (proj1 Hwf) Hm) as ([_ Hlb] & [_ Hrb]).
  destruct t as [root l r]. unfold tree_cells, tree_node in *.
  cbn [root_key tree_left tree_right] in *. rewrite Node_all_inner in *. cbn [app] in *.
  destruct (Distance_get (calc_distance root key) 0) eqn:Eb.
  - destruct r as [r|]; cbn [from_option id] in *.
    + eapply search_outcome_frame; [by apply search_spec| |apply Permutation_app_comm].
      by eapply (key_side root 0 false); [apply Hl| |].
    + destruct l as [l|]; [|by apply Habs].
      eapply (search_outcome_frame _ []); [by apply search_spec|apply not_elem_of_nil|done].
  - destruct l as [l|]; cbn [from_option id] in *.
    + eapply search_outcome_frame; [by apply search_spec| |done].
      by eapply (key_side root 0 true); [apply Hr| |].
    + destruct r as [r|]; [|by apply Habs].
      eapply (search_outcome_frame _ []); [by apply search_spec|apply not_elem_of_nil|].
      by rewrite app_nil_r.
Qed.

Lemma KadTree_contains_keys (t : KadTree K) (key : K) :
  tree_wf t -> KadTree_contains t key = true <-> key ∈ KadTree_keys t.
Proof.
  intros Hwf. rewrite KadTree_keys_cells. unfold KadTree_contains.
  pose proof (KadTree_search_spec t key Hwf) as Ho.
  destruct (KadTree_search t key) as [[[k v] [|]]|]; simpl in Ho.
  - destruct Ho as (-> & c & Hc & <- & _). split; [|done]. intros _. by apply list_elem_of_fmap_2.
  - destruct Ho as [Hk _]. split; [done|]. intros ?. by destruct Hk.
  - split; [done|]. intros ?. by destruct Ho.
Qed.

End TreeFacts.

(** ** The search answers with the closest key *)

Section Closest.
Context `{BitVecLaws, !Key K, !KeyLaws (K := K)}.

Abbreviation keys_of l := (cell_key <$> l).

(** The scan keeps the smallest distance seen. *)
Lemma search_list_min (key : K) (d : Distance) (lst : list (Cell K)) (i : nat) (ci : option nat)
    (cd : Distance) (r : option nat) :
  search_list key d lst i ci cd = inr r ->
  exists dmin,
    (r = ci /\ dmin = cd \/
     exists j c, r = Some (i + j) /\ lst !! j = Some c /\ dmin = Distance_xor d (cell_dist c) KEY_LENGTH) /\
    Forall (fun c => bv_lt (Distance_xor d (cell_dist c) KEY_LENGTH) dmin = false) lst /\
    (dmin = cd \/ bv_lt dmin cd = true).
Proof.
  revert i ci cd. induction lst as [|c lst IH]; intros i ci cd; simpl.
  { intros [= <-]. exists cd. split_and!; auto. }
  destruct (bool_decide _); [done|]. destruct (bv_lt _ cd) eqn:Ecd.
  - intros Hs. destruct (IH _ _ _ Hs) as (dmin & Hr & Hf & Hd). exists dmin. split_and!.
    + right. destruct Hr as [[-> ->]|(j & c' & -> & Hj & ->)].
      * exists 0, c. rewrite Nat.add_0_r. done.
      * exists (S j), c'. rewrite Nat.add_succ_r. done.
    + constructor; [|done]. rewrite bv_lt_bits in *. destruct Hd as [->|Hd];
        [apply bits_lt_irrefl|by apply bits_lt_asym].
    + right. destruct Hd as [->|Hd]; [done|]. rewrite bv_lt_bits in *. by eapply bits_lt_trans.
  - intros Hs. destruct (IH _ _ _ Hs) as (dmin & Hr & Hf & Hd). exists dmin. split_and!.
    + destruct Hr as [?|(j & c' & -> & Hj & ->)]; [by left|]. right. exists (S j), c'.
      rewrite Nat.add_succ_r. done.
    + constructor; [|done]. destruct Hd as [->|Hd]; [done|].
      destruct (bv_lt _ dmin) eqn:E; [|done]. rewrite bv_lt_bits in *.
      by rewrite (bits_lt_trans _ _ _ E Hd) in Ecd.
    + done.
Qed.

Definition closest_in (key : K) (k : K) (v : u32) (cells : list (Cell K)) : Prop :=
  exists c, c ∈ cells /\ cell_key c = k /\ cell_val c = v /\
    Forall (fun c' => bits_lt (bv_bits (calc_distance key (cell_key c')))
                              (bv_bits (calc_distance key (cell_key c))) = false) cells.

(** The side of the key is closer than the other side. *)
Lemma closer_side (root key : K) (index : nat) (b : bool) (p : list bool) (c c' : Cell K) :
  index < MAX_LEVEL ->
  cell_dist c = calc_distance root (cell_key c) -> cell_dist c' = calc_distance root (cell_key c') ->
  take index (bv_bits (cell_dist c)) = p -> take index (bv_bits (cell_dist c')) = p ->
  Distance_get (calc_distance root key) index = b ->
  Distance_get (cell_dist c) index = b -> Distance_get (cell_dist c') index = negb b ->
  bits_lt (bv_bits (calc_distance key (cell_key c'))) (bv_bits (calc_distance key (cell_key c))) = false.
Proof.
  intros Hi Ec Ec' Hp Hp' Hk Hb Hb'. apply bits_lt_asym.
  pose proof (key_levels (K := K)) as Hlev. unfold MAX_LEVEL in *.
  rewrite Ec in *. rewrite Ec' in *. rewrite <- !(Distance_xor_cancel root).
  rewrite !Distance_xor_bits by apply calc_distance_length.
  apply Distance_get_bits in Hk; [|lia|rewrite calc_distance_length; lia].
  apply Distance_get_bits in Hb; [|lia|rewrite calc_distance_length; lia].
  apply Distance_get_bits in Hb'; [|lia|rewrite calc_distance_length; lia].
  apply (bits_lt_prefix index); unfold xor_bits.
  - by rewrite !zip_with_take, Hp, Hp'.
  - rewrite lookup_zip_with, Hk, Hb. simpl. by destruct b.
  - rewrite lookup_zip_with, Hk, Hb'. simpl. by destruct b.
Qed.

(** Below a node all cells share the bits above it. *)
Definition shared_prefix (index : nat) (p : list bool) (cells : list (Cell K)) : Prop :=
  Forall (fun c => take index (bv_bits (cell_dist c)) = p) cells.

Lemma shared_prefix_child (root : K) (index : nat) (b : bool) (p : list bool) (cells : list (Cell K)) :
  index < MAX_LEVEL -> cells_ok root cells ->
  Forall (fun c => Distance_get (cell_dist c) index = b) cells ->
  shared_prefix index p cells -> shared_prefix (S index) (p ++ [b]) cells.
Proof.
  intros Hi [Hd _] Hb Hp. unfold shared_prefix in *. rewrite Forall_forall in *.
  intros c Hc. specialize (Hb c Hc). specialize (Hp c Hc). specialize (Hd c Hc).
  pose proof (key_levels (K := K)) as Hlev. unfold MAX_LEVEL in *.
  apply Distance_get_bits in Hb; [|lia|rewrite Hd, calc_distance_length; lia].
  by rewrite (take_S_r _ _ b), Hp.
Qed.

Lemma closest_frame (root key : K) (index : nat) (b : bool) (p : list bool) (k : K) (v : u32)
    (mine other cells : list (Cell K)) :
  index < MAX_LEVEL -> Distance_get (calc_distance root key) index = b ->
  cells_ok root mine -> cells_ok root other ->
  Forall (fun c => Distance_get (cell_dist c) index = b) mine ->
  Forall (fun c => Distance_get (cell_dist c) index = negb b) other ->
  shared_prefix index p mine -> shared_prefix index p other ->
  Permutation cells (mine ++ other) ->
  closest_in key k v mine -> closest_in key k v cells.
Proof.
  intros Hi Hk [Hd _] [Hd' _] Hb Hb' Hp Hp' E (c & Hc & Ek & Ev & Hf).
  unfold shared_prefix in *. rewrite Forall_forall in *. exists c. split_and!; try done.
  - rewrite E. by apply elem_of_app; left.
  - apply Forall_forall. intros c' Hin. rewrite E in Hin. apply elem_of_app in Hin as [Hin|Hin].
    + by apply Hf.
    + by eapply (closer_side root key index b p); auto.
Qed.

Lemma search_leaf_closest (root key : K) (lst : list (Cell K)) (i : nat) (c : Cell K) :
  cells_ok root lst ->
  search_list key (calc_distance root key) lst 0 None (Distance_max KEY_LENGTH) = inr (Some i) ->
  lst !! i = Some c -> closest_in key (cell_key c) (cell_val c) lst.
Proof.
  intros [Hd _] Hs Hc. apply search_list_min in Hs as (dmin & [[? _]|(j & c' & Ej & Hj & ->)] & Hf & _);
    [done|]. injection Ej as ->. simpl in Hj. rewrite Hc in Hj. injection Hj as <-. exists c. split_and!; try done.
  - by eapply list_elem_of_lookup_2.
  - rewrite Forall_forall in *. intros c' Hin. specialize (Hf c' Hin).
    rewrite bv_lt_bits, (Hd c' Hin), (Hd c) in Hf by (by eapply list_elem_of_lookup_2).
    by rewrite !Distance_xor_cancel in Hf.
Qed.

Lemma node_search_closest (root key : K) (n : Node K) (index : nat) (p : list bool) (k : K) (v : u32) :
  node_wf root index n -> shared_prefix index p (Node_all n) ->
  Node_search n key (calc_distance root key) index = Some (k, v, false) ->
  closest_in key k v (Node_all n).
Proof.
  revert index p. induction n as [l r lst IHl IHr] using node_induction. intros index p Hwf Hp.
  pose proof Hwf as [Hs Hok]. cbn [Node_search].
  destruct (search_list key _ lst 0 None _) as [[k' v']|o] eqn:Esl; [done|].
  destruct (is_some r || is_some l) eqn:Ei.
  - destruct (node_shape_inner _ _ _ _ Hs Ei) as [-> Hi]. injection Esl as <-.
    destruct (node_shape_children _ _ _ _ Hs Hi) as ([Hl Hlb] & [Hr Hrb]).
    rewrite Node_all_inner in *. cbn [app] in *. rewrite Nat.add_1_r.
    pose proof (cells_ok_app_l _ _ _ Hok) as Hokl. pose proof (cells_ok_app_r _ _ _ Hok) as Hokr.
    apply Forall_app in Hp as [Hpl Hpr]. destruct (Distance_get _ index) eqn:Eb.
    + destruct r as [r|]; [|done]. cbn [from_option id] in *.
      destruct (Node_search r _ _ _) as [x|] eqn:Es; [|done]. intros [= ->].
      eapply (closest_frame root key index true p); [done|done|exact Hokr|exact Hokl|done|done|done|done| |].
      * apply Permutation_app_comm.
      * eapply IHr; [done|by split|by eapply shared_prefix_child|done].
    + destruct l as [l|]; [|done]. cbn [from_option id] in *.
      destruct (Node_search l _ _ _) as [x|] eqn:Es; [|done]. intros [= ->].
      eapply (closest_frame root key index false p); [done|done|exact Hokl|exact Hokr|done|done|done|done|done|].
      eapply IHl; [done|by split|by eapply shared_prefix_child|done].
  - destruct l, r; try done. change (mkNode None None lst) with (leaf lst) in *.
    rewrite Node_all_leaf in *.
    destruct (Distance_get _ index).
    all: destruct o as [j|]; [|done]; cbn [mbind option_bind].
    all: destruct (lst !! j) as [c|] eqn:Ec; [|done]; intros [= <- <-].
    all: by eapply search_leaf_closest.
Qed.

Lemma search_tree_node (t : KadTree K) (key : K) :
  (if Distance_get (calc_distance (root_key t) key) 0 then tree_right t else tree_left t) <> None ->
  KadTree_search t key = Node_search (tree_node t) key (calc_distance (root_key t) key) 0.
Proof.
  unfold KadTree_search, tree_node. destruct t as [root l r].
  cbn [root_key tree_left tree_right Node_search search_list Nat.add].
  destruct (Distance_get (calc_distance root key) 0); [destruct r as [r|]|destruct l as [l|]]; try done; intros _;
    by destruct (Node_search _ _ _ 1).
Qed.

Lemma KadTree_search_closest (t : KadTree K) (key k : K) (v : u32) :
  tree_wf t -> KadTree_search t key = Some (k, v, false) -> closest_in key k v (tree_cells t).
Proof.
  intros Hwf. destruct (tree_children t Hwf) as [Hl Hr].
  assert (0 < MAX_LEVEL) as Hm by (unfold MAX_LEVEL; lia).
  destruct (node_shape_children _ _ _ _ (proj1 Hwf) Hm) as ([_ Hlb] & [_ Hrb]).
  destruct (if Distance_get (calc_distance (root_key t) key) 0 then tree_right t else tree_left t)
    as [m|] eqn:Em.
  - rewrite search_tree_node by (by rewrite Em).
    apply (node_search_closest _ _ _ 0 []); [done|]. by apply Forall_true.
  - destruct t as [root l r]. unfold KadTree_search, tree_cells, tree_node in *.
    cbn [root_key tree_left tree_right] in *. rewrite Node_all_inner. cbn [app].
    destruct (Distance_get (calc_distance root key) 0); subst; cbn [from_option id Node_all app] in *.
    + destruct l as [l|]; [|done]. rewrite app_nil_r. cbn [from_option id] in *.
      apply (node_search_closest root key l 1 [false]); [done|].
      apply (shared_prefix_child root 0 false []); [done|apply Hl|done|by apply Forall_true].
    + destruct r as [r|]; [|done]. cbn [from_option id] in *.
      apply (node_search_closest root key r 1 [true]); [done|].
      apply (shared_prefix_child root 0 true []); [done|apply Hr|done|by apply Forall_true].
Qed.

End Closest.
