(* ===== verification/KadTable.v ===== *)
(** * The table [DoubleKadTree] and the properties of the Kademlia module

    The table keeps the values beside the tree of peer ids: [table_wf] says that
    the two never disagree.  The theorems of this file are the contract the
    server and the sessions rely on when they route by peer id. *)

From S2P Require Import Prelude Net Types Kad KadMetric KadFacts KadTreeFacts.
From stdpp Require Import list_relations list.

(** ** The bucket tree *)

Section TreeProperties.
Context `{Key K}.

(** Every tree the operations build. *)
Inductive kad_reachable (root : K) : KadTree K -> Prop :=
| kad_reach_new : kad_reachable root (KadTree_new root)
| kad_reach_add t key value :
    kad_reachable root t -> kad_reachable root (KadTree_add t key value).1
| kad_reach_remove t key :
    kad_reachable root t -> kad_reachable root (KadTree_remove t key).1.

Lemma kad_reachable_invariant (root : K) (t : KadTree K) :
  kad_reachable root t -> tree_wf t /\ root_key t = root.
Proof.
  induction 1 as [|t key value _ [IH Er]|t key _ [IH Er]].
  - split; [apply KadTree_new_wf|done].
  - pose proof (KadTree_add_spec t key value IH) as Hs.
    destruct (KadTree_add t key value) as [t' ret]. destruct Hs as (E & Hwf & _).
    split; [done|]. simpl. congruence.
  - pose proof (KadTree_remove_spec t key IH) as Hs.
    destruct (KadTree_remove t key) as [t' ret]. destruct Hs as (E & Hwf & _).
    split; [done|]. simpl. congruence.
Qed.

Lemma KadTree_add_search (t : KadTree K) (key : K) (value : u32) (t' : KadTree K) (removed : list u32) :
  tree_wf t -> KadTree_add t key value = (t', (true, removed)) ->
  KadTree_search t' key = Some (key, value, true).
Proof.
  intros Hwf E. pose proof (KadTree_add_spec t key value Hwf) as Hs. rewrite E in Hs.
  destruct Hs as (_ & Hwf' & gone & kept & _ & Ec & _ & Hk & _).
  pose proof (KadTree_search_spec t' key Hwf') as Ho.
  assert (key ∈ cell_key <$> tree_cells t') as Hin by (rewrite Ec; by left).
  destruct (KadTree_search t' key) as [[[k v] [|]]|]; simpl in Ho; [|by destruct Ho|done].
  destruct Ho as (-> & c & Hc & Ekey & <-). rewrite Ec in Hc. apply elem_of_cons in Hc as [->|Hc]; [done|].
  destruct Hk. simpl. rewrite <- Ekey. by apply list_elem_of_fmap_2.
Qed.

Lemma KadTree_remove_search (t : KadTree K) (key : K) :
  tree_wf t -> KadTree_contains (KadTree_remove t key).1 key = false.
Proof.
  intros Hwf. pose proof (KadTree_remove_spec t key Hwf) as Hs.
  destruct (KadTree_remove t key) as [t' ret]. destruct Hs as (_ & Hwf' & Ho). simpl.
  apply not_true_is_false. rewrite KadTree_contains_keys, KadTree_keys_cells by done.
  destruct ret as [v|]; simpl in Ho; [|by destruct Ho as [-> ?]].
  destruct Ho as (c & Ec & <- & _). destruct Hwf as [_ [_ Hnd]]. change (Node_all _) with (tree_cells t) in Hnd.
  rewrite Ec, fmap_cons in Hnd. by apply NoDup_cons in Hnd as [? _].
Qed.

End TreeProperties.

(** ** The table *)

Section Table.
Context `{BitVecLib}.

Abbreviation vals_of l := (cell_val <$> l).

Definition table_wf (d : DoubleKadTree) : Prop :=
  tree_wf (dk_peers d) /\ tree_wf (dk_ips d) /\
  NoDup (vals_of (tree_cells (dk_peers d))) /\
  (forall c, c ∈ tree_cells (dk_peers d) ->
     exists kv, dk_values d !! cell_val c = Some kv /\ peer_id (kv_peer kv) = cell_key c) /\
  (forall i, is_Some (dk_values d !! i) -> i ∈ vals_of (tree_cells (dk_peers d))).

Lemma foldl_delete_lookup {V : Type} (l : list u32) (m : gmap u32 V) (k : u32) :
  foldl (fun m i => delete i m) m l !! k = if decide (k ∈ l) then None else m !! k.
Proof.
  revert m. induction l as [|i l IH]; intros m; cbn [foldl].
  - rewrite decide_False; [done|apply not_elem_of_nil].
  - rewrite IH. destruct (decide (k ∈ l)) as [Hk|Hk].
    + rewrite decide_True; [done|]. by right.
    + destruct (decide (k = i)) as [->|Hne].
      * rewrite decide_True by by left. by rewrite lookup_delete_eq.
      * rewrite decide_False by (rewrite elem_of_cons; tauto). by rewrite lookup_delete_ne.
Qed.

Lemma table_new_wf (root_peer : PeerId) (root_ip : SocketAddr) :
  table_wf (DoubleKadTree_new root_peer root_ip).
Proof.
  split_and!; try apply KadTree_new_wf.
  - apply NoDup_nil_2.
  - intros c Hc. by apply not_elem_of_nil in Hc.
  - intros i [kv Hi]. simpl in Hi. by rewrite lookup_empty in Hi.
Qed.

(** Storing a fresh value in place of the removed ones. *)
Lemma table_values_add (values : gmap u32 KadValue) (cells cells' gone kept : list (Cell PeerId))
    (cell : Cell PeerId) (value : KadValue) :
  Permutation cells (gone ++ kept) -> Permutation cells' (cell :: kept) ->
  values !! cell_val cell = None -> peer_id (kv_peer value) = cell_key cell ->
  NoDup (vals_of cells) ->
  (forall c, c ∈ cells -> exists kv, values !! cell_val c = Some kv /\ peer_id (kv_peer kv) = cell_key c) ->
  (forall i, is_Some (values !! i) -> i ∈ vals_of cells) ->
  let values' := <[cell_val cell := value]> (foldl (fun m i => delete i m) values (vals_of gone)) in
  NoDup (vals_of cells') /\
  (forall c, c ∈ cells' -> exists kv, values' !! cell_val c = Some kv /\ peer_id (kv_peer kv) = cell_key c) /\
  (forall i, is_Some (values' !! i) -> i ∈ vals_of cells').
Proof.
  intros E1 E2 Hfresh Hid Hnd Hc Hv values'.
  assert (forall c, c ∈ kept -> cell_val c <> cell_val cell) as Hkept.
  { intros c Hin Ev. destruct (Hc c) as (kv & Hkv & _); [rewrite E1; apply elem_of_app; by right|].
    by rewrite Ev, Hfresh in Hkv. }
  rewrite E1, fmap_app in Hnd. apply NoDup_app in Hnd as (Hg & Hd & Hk). split_and!.
  - rewrite E2, fmap_cons. constructor; [|done]. intros (c & Ev & Hin)%list_elem_of_fmap.
    by apply (Hkept c).
  - intros c Hin. rewrite E2 in Hin. apply elem_of_cons in Hin as [->|Hin].
    { exists value. subst values'. by rewrite lookup_insert_eq. }
    destruct (Hc c) as (kv & Hkv & Hpid); [rewrite E1; apply elem_of_app; by right|].
    exists kv. split; [|done]. subst values'. rewrite lookup_insert_ne by (by apply not_eq_sym, Hkept).
    rewrite foldl_delete_lookup, decide_False; [done|]. intros Hg'.
    apply (Hd _ Hg'). by apply list_elem_of_fmap_2.
  - intros i Hi. subst values'. rewrite E2, fmap_cons, elem_of_cons.
    destruct (decide (i = cell_val cell)) as [->|Hne]; [by left|right].
    rewrite lookup_insert_ne, foldl_delete_lookup in Hi by done.
    destruct (decide (i ∈ vals_of gone)) as [|Hng]; [by destruct Hi|].
    apply Hv in Hi. rewrite E1, fmap_app, elem_of_app in Hi. by destruct Hi.
Qed.

Lemma table_add_spec (d : DoubleKadTree) (value_key : u32) (value : KadValue) :
  table_wf d -> dk_values d !! value_key = None ->
  let '(d', ok) := DoubleKadTree_add d value_key value in
  table_wf d' /\
  insert_outcome 0 (tree_cells (dk_peers d))
    (mkCell (peer_id (kv_peer value)) value_key
       (calc_distance (root_key (dk_peers d)) (peer_id (kv_peer value))))
    (tree_cells (dk_peers d')) (ok, (KadTree_add (dk_peers d) (peer_id (kv_peer value)) value_key).2.2) /\
  (ok = true -> dk_values d' !! value_key = Some value) /\
  (ok = false -> dk_values d' = dk_values d).
Proof.
  intros (Hp & Hi & Hnd & Hc & Hv) Hfresh. unfold DoubleKadTree_add.
  pose proof (KadTree_add_spec (dk_peers d) (peer_id (kv_peer value)) value_key Hp) as Hs.
  destruct (KadTree_add (dk_peers d) _ value_key) as [peers' [ok removed]].
  destruct Hs as (Er & Hp' & Ho). unfold insert_outcome in *. cbn [fst snd] in *. destruct ok.
  - pose proof (KadTree_add_spec (dk_ips d) (peer_socket (kv_peer value)) value_key Hi) as Hs.
    destruct (KadTree_add (dk_ips d) _ value_key) as [ips' ret]. destruct Hs as (_ & Hi' & _).
    pose proof Ho as (gone & kept & E1 & E2 & -> & _).
    destruct (table_values_add _ _ _ gone kept _ value E1 E2 Hfresh eq_refl Hnd Hc Hv) as (?&?&?).
    split_and!; try done. intros _. simpl. by rewrite lookup_insert_eq.
  - pose proof Ho as (E & -> & _). cbn [foldl dk_peers dk_values]. split; [|done].
    unfold table_wf. cbn [dk_peers dk_values dk_ips]. split_and!; try done.
    + by rewrite E.
    + intros c Hin. rewrite E in Hin. by apply Hc.
    + intros i Hin. rewrite E. by apply Hv.
Qed.

Lemma table_remove_spec (d : DoubleKadTree) (key : PeerId) :
  table_wf d ->
  let '(d', ret) := DoubleKadTree_remove d key in
  table_wf d' /\
  match ret with
  | Some kv =>
      exists c, Permutation (tree_cells (dk_peers d)) (c :: tree_cells (dk_peers d')) /\
        cell_key c = key /\ dk_values d !! cell_val c = Some kv /\
        dk_values d' = delete (cell_val c) (dk_values d) /\ peer_id (kv_peer kv) = key
  | None => tree_cells (dk_peers d') = tree_cells (dk_peers d) /\ dk_values d' = dk_values d /\
            (key ∉ DoubleKadTree_keys d)
  end.
Proof.
  intros (Hp & Hi & Hnd & Hc & Hv). unfold DoubleKadTree_remove.
  pose proof (KadTree_remove_spec (dk_peers d) key Hp) as Hs.
  destruct (KadTree_remove (dk_peers d) key) as [peers' [v|]]; destruct Hs as (_ & Hp' & Ho); simpl in Ho.
  - destruct Ho as (c & E & Ek & <-).
    destruct (Hc c) as (kv & Hkv & Hpid); [rewrite E; by left|]. rewrite Hkv.
    pose proof (KadTree_remove_spec (dk_ips d) (peer_socket (kv_peer kv)) Hi) as Hs.
    destruct (KadTree_remove (dk_ips d) _) as [ips' w]. destruct Hs as (_ & Hi' & _). simpl.
    rewrite E, fmap_cons in Hnd. apply NoDup_cons in Hnd as [Hnot Hnd].
    split; [|exists c; split_and!; try done; congruence].
    split_and!; try done; simpl.
    + intros c' Hin. destruct (Hc c') as (kv' & Hkv' & ?); [rewrite E; by right|].
      exists kv'. split; [|done]. rewrite lookup_delete_ne; [done|]. intros Ev. destruct Hnot.
      rewrite Ev. by apply list_elem_of_fmap_2.
    + intros i Hsome. destruct (decide (i = cell_val c)) as [->|Hne].
      { rewrite lookup_delete_eq in Hsome. by destruct Hsome. }
      rewrite lookup_delete_ne in Hsome by done. apply Hv in Hsome.
      rewrite E, fmap_cons, elem_of_cons in Hsome. by destruct Hsome.
  - destruct Ho as [E Hk]. simpl. split.
    + split_and!; simpl; try done; by rewrite E.
    + split_and!; try done. unfold DoubleKadTree_keys. by rewrite KadTree_keys_cells.
Qed.

Lemma table_search_spec (d : DoubleKadTree) (key : PeerId) :
  table_wf d ->
  match DoubleKadTree_search d key with
  | Some (kv, true) => peer_id (kv_peer kv) = key /\ key ∈ DoubleKadTree_keys d
  | Some (kv, false) => (key ∉ DoubleKadTree_keys d) /\ peer_id (kv_peer kv) ∈ DoubleKadTree_keys d
  | None => key ∉ DoubleKadTree_keys d
  end.
Proof.
  intros (Hp & _ & _ & Hc & _). unfold DoubleKadTree_search, DoubleKadTree_keys.
  rewrite KadTree_keys_cells. pose proof (KadTree_search_spec (dk_peers d) key Hp) as Ho.
  destruct (KadTree_search (dk_peers d) key) as [[[k v] [|]]|]; cbn [mbind option_bind]; simpl in Ho; [| |done].
  - destruct Ho as (-> & c & Hin & Ek & <-). destruct (Hc c Hin) as (kv & -> & Hpid). simpl.
    split; [congruence|]. rewrite <- Ek. by apply list_elem_of_fmap_2.
  - destruct Ho as (Hk & c & Hin & Ek & <-). destruct (Hc c Hin) as (kv & -> & Hpid). simpl.
    split; [done|]. rewrite Hpid. by apply list_elem_of_fmap_2.
Qed.

Lemma table_add_search (d : DoubleKadTree) (value_key : u32) (value : KadValue) :
  table_wf d -> (DoubleKadTree_add d value_key value).2 = true ->
  DoubleKadTree_search (DoubleKadTree_add d value_key value).1 (peer_id (kv_peer value)) = Some (value, true).
Proof.
  intros Hwf. unfold DoubleKadTree_add, DoubleKadTree_search.
  destruct (KadTree_add (dk_peers d) _ value_key) as [peers' [[|] removed]] eqn:E; [|done].
  destruct (KadTree_add (dk_ips d) _ value_key) as [ips' ret]. intros _. cbn [fst dk_peers dk_values].
  rewrite (KadTree_add_search _ _ _ _ _ (proj1 Hwf) E). cbn [mbind option_bind].
  by rewrite lookup_insert_eq.
Qed.

Lemma table_remove_gone (d : DoubleKadTree) (key : PeerId) :
  table_wf d -> DoubleKadTree_contains (DoubleKadTree_remove d key).1 key = false.
Proof.
  intros Hwf. pose proof (KadTree_remove_search (dk_peers d) key (proj1 Hwf)) as Hs.
  unfold DoubleKadTree_remove, DoubleKadTree_contains.
  destruct (KadTree_remove (dk_peers d) key) as [peers' [v|]]; [|done].
  destruct (dk_values d !! v); [|done]. by destruct (KadTree_remove (dk_ips d) _).
Qed.

Lemma table_size (d : DoubleKadTree) :
  table_wf d -> size (dk_values d) = length (DoubleKadTree_keys d).
Proof.
  intros (_ & _ & Hnd & Hc & Hv). unfold DoubleKadTree_keys. rewrite KadTree_keys_cells, length_fmap.
  rewrite <- (length_fmap cell_val), <- size_dom.
  assert (dom (dk_values d) = list_to_set (vals_of (tree_cells (dk_peers d)))) as ->.
  { apply set_eq. intros i. rewrite elem_of_dom, elem_of_list_to_set. split; [apply Hv|].
    intros (c & -> & Hin)%list_elem_of_fmap. destruct (Hc c Hin) as (kv & -> & _). by eexists. }
  by apply size_list_to_set.
Qed.

(** Every table the operations build, when each drawn key is one that is not in
    use. *)
Inductive table_reachable (root_peer : PeerId) (root_ip : SocketAddr) : DoubleKadTree -> Prop :=
| table_reach_new : table_reachable root_peer root_ip (DoubleKadTree_new root_peer root_ip)
| table_reach_add d value_key value :
    table_reachable root_peer root_ip d -> dk_values d !! value_key = None ->
    table_reachable root_peer root_ip (DoubleKadTree_add d value_key value).1
| table_reach_remove d key :
    table_reachable root_peer root_ip d ->
    table_reachable root_peer root_ip (DoubleKadTree_remove d key).1.

Lemma table_reachable_wf (root_peer : PeerId) (root_ip : SocketAddr) (d : DoubleKadTree) :
  table_reachable root_peer root_ip d -> table_wf d.
Proof.
  induction 1 as [|d value_key value _ IH Hf|d key _ IH].
  - apply table_new_wf.
  - pose proof (table_add_spec d value_key value IH Hf) as Hs.
    by destruct (DoubleKadTree_add d value_key value), Hs.
  - pose proof (table_remove_spec d key IH) as Hs.
    by destruct (DoubleKadTree_remove d key), Hs.
Qed.

End Table.

(** ** Concrete inputs *)

Definition toy_id (b : byte) : PeerId := mkPeerId (arr_fill 32 b).
Definition toy_sock (b : byte) : SocketAddr := SockV4 (arr_fill 4 b) (to_uint 16 7364).
Definition toy_peer (b : byte) : Peer := Peer_new (toy_id b) (toy_sock b) QUIC true.
Definition toy_value (b : byte) : KadValue :=
  mkKadValue (mkSessionSender (Strings.Byte.to_N b)) (mkEndpointSender (Strings.Byte.to_N b)) (toy_peer b).

#[local] Existing Instance toy_bitvec.
#[local] Existing Instance toy_bitvec_laws.

Definition toy_tree : KadTree PeerId :=
  (KadTree_add (KadTree_new (toy_id x00)) (toy_id xff) (to_uint 32 7)).1.

Definition toy_table : DoubleKadTree :=
  (DoubleKadTree_add (DoubleKadTree_new (toy_id x00) (toy_sock x00)) (to_uint 32 7) (toy_value xff)).1.

Lemma toy_tree_reachable : kad_reachable (toy_id x00) toy_tree.
Proof. apply kad_reach_add, kad_reach_new. Qed.

Lemma toy_table_reachable : table_reachable (toy_id x00) (toy_sock x00) toy_table.
Proof. apply table_reach_add; [apply table_reach_new|done]. Qed.

(** ** Properties *)

(** C25: [Node::insert] returns for every node and level: the splits it makes
    stop at [MAX_LEVEL], and it never makes the tree higher than [MAX_LEVEL]
    below the level it starts from. *)
Theorem kad_insert_terminates `{Key K} (n : Node K) (cell : Cell K) (index k_bucket fuel : nat) :
  insert_fuel n index <= fuel ->
  exists n' ret, Node_insert fuel n cell index k_bucket = Some (n', ret) /\
                 height n' <= Nat.max (height n) (MAX_LEVEL - index).
Proof.
  intros Hf. destruct (insert_within fuel n cell index k_bucket) as (n' & ret & E & Hh & _).
  - unfold fuel_needed, insert_fuel, node_level in *. destruct (is_inner n); lia.
  - unfold insert_fuel in Hf. lia.
  - by exists n', ret.
Qed.

Lemma kad_insert_terminates_witness :
  exists n' ret,
    Node_insert 15 Node_default (mkCell (toy_id xff) (to_uint 32 7) (calc_distance (toy_id x00) (toy_id xff)))
      1 K_BUCKET = Some (n', ret) /\ height n' <= Nat.max 0 7.
Proof.
  apply (kad_insert_terminates Node_default
    (mkCell (toy_id xff) (to_uint 32 7) (calc_distance (toy_id x00) (toy_id xff))) 1 K_BUCKET 15).
  vm_compute. lia.
Defined.

(** Every tree that [add] and [remove] build from [new] is well formed: no
    key twice, stored distances are distances to the root, each cell is on the
    path its distance names, no bucket has more than [K_BUCKET] cells, and the
    tree has at most the 4 * 256 cells the code announces. *)
Theorem kad_tree_invariant `{Key K} (root : K) (t : KadTree K) :
  kad_reachable root t ->
  tree_wf t /\ root_key t = root /\ NoDup (KadTree_keys t) /\ length (KadTree_keys t) <= 1024.
Proof.
  intros Hr. destruct (kad_reachable_invariant root t Hr) as [Hwf E].
  split_and!; try done; [|by apply tree_capacity]. rewrite KadTree_keys_cells. apply Hwf.
Qed.

Lemma kad_tree_invariant_witness :
  tree_wf toy_tree /\ root_key toy_tree = toy_id x00 /\ NoDup (KadTree_keys toy_tree) /\
  length (KadTree_keys toy_tree) <= 1024.
Proof. apply kad_tree_invariant. apply toy_tree_reachable. Defined.

(** C3: [KadTree::add].  Accepted: exactly the new cell is added, at most one
    cell leaves, which has the same key or is in the key's own bucket and farther from
    the root, its value is the one reported in [removed], and a search finds the new
    value.  Refused: the stored cells are the same, nothing is reported, the key is not
    in the tree, and its own bucket, all the cells whose distances begin with the same
    [MAX_LEVEL] bits as the key's, holds exactly [K_BUCKET] cells none of which is
    farther. *)
Theorem kad_add_effect `{Key K} (t : KadTree K) (key : K) (value : u32) :
  tree_wf t ->
  let '(t', (ok, removed)) := KadTree_add t key value in
  let cell := mkCell key value (calc_distance (root_key t) key) in
  tree_wf t' /\
  (ok = true -> stored 0 (tree_cells t) cell (tree_cells t') removed /\
                KadTree_search t' key = Some (key, value, true)) /\
  (ok = false -> refused 0 (tree_cells t) cell (tree_cells t') removed).
Proof.
  intros Hwf. pose proof (KadTree_add_spec t key value Hwf) as Hs.
  destruct (KadTree_add t key value) as [t' [ok removed]] eqn:E. destruct Hs as (_ & Hwf' & Ho).
  split; [done|]. split; intros ->; [|exact Ho]. split; [exact Ho|].
  exact (KadTree_add_search t key value t' removed Hwf E).
Qed.

Lemma kad_add_effect_witness :
  let '(t', (ok, removed)) := KadTree_add toy_tree (toy_id xf0) (to_uint 32 8) in
  ok = true /\ removed = [] /\ KadTree_search t' (toy_id xf0) = Some (toy_id xf0, to_uint 32 8, true).
Proof.
  assert (tree_wf toy_tree) as Hwf by (apply (kad_reachable_invariant _ _ toy_tree_reachable)).
  pose proof (kad_add_effect toy_tree (toy_id xf0) (to_uint 32 8) Hwf) as Hs.
  destruct (KadTree_add toy_tree (toy_id xf0) (to_uint 32 8)) as [t' [ok removed]] eqn:E.
  assert (ok = true) as Hok by (by vm_compute in E; injection E as _ <- _).
  assert (removed = []) as Hrem by (by vm_compute in E; injection E as _ _ <-).
  destruct Hs as (_ & Hs & _). split; [exact Hok|]. split; [exact Hrem|]. apply (Hs Hok).
Defined.

(** [KadTree::search] and [contains]: the key is found exactly when it is in
    the tree, with its own value; another cell is returned only when the key is
    absent, and it is one of the stored cells. *)
Theorem kad_search_correct `{Key K} (t : KadTree K) (key : K) :
  tree_wf t ->
  search_outcome (tree_cells t) key (KadTree_search t key) /\
  (KadTree_contains t key = true <-> key ∈ KadTree_keys t).
Proof. intros Hwf. split; [by apply KadTree_search_spec|by apply KadTree_contains_keys]. Qed.

Lemma kad_search_correct_witness :
  KadTree_search toy_tree (toy_id xff) = Some (toy_id xff, to_uint 32 7, true) /\
  search_outcome (tree_cells toy_tree) (toy_id xff) (Some (toy_id xff, to_uint 32 7, true)).
Proof.
  assert (KadTree_search toy_tree (toy_id xff) = Some (toy_id xff, to_uint 32 7, true)) as E.
  { eapply (KadTree_add_search (KadTree_new (toy_id x00))); [apply KadTree_new_wf|].
    by vm_compute. }
  split; [exact E|]. rewrite <- E.
  exact (proj1 (kad_search_correct toy_tree (toy_id xff)
    (proj1 (kad_reachable_invariant _ _ toy_tree_reachable)))).
Defined.

(** C2: when the search answers with another peer, no stored key is closer to
    the one asked for in the XOR metric: the single bucket it scans holds the
    closest key of the whole tree. *)
Theorem kad_search_closest `{BitVecLaws} `{!Key K, !KeyLaws (K := K)} (t : KadTree K) (key k : K) (v : u32) :
  tree_wf t -> KadTree_search t key = Some (k, v, false) ->
  k ∈ KadTree_keys t /\ (key ∉ KadTree_keys t) /\
  forall k', k' ∈ KadTree_keys t -> bv_lt (calc_distance key k') (calc_distance key k) = false.
Proof.
  intros Hwf E. pose proof (KadTree_search_spec t key Hwf) as Ho. rewrite E in Ho.
  destruct (KadTree_search_closest t key k v Hwf E) as (c & Hc & <- & <- & Hf).
  rewrite KadTree_keys_cells. split_and!; [by apply list_elem_of_fmap_2|apply Ho|].
  intros k' (c' & -> & Hc')%list_elem_of_fmap. rewrite Forall_forall in Hf.
  rewrite bv_lt_bits. by apply Hf.
Qed.

Lemma kad_search_closest_witness :
  exists v, KadTree_search toy_tree (toy_id xf0) = Some (toy_id xff, v, false) /\
  forall k', k' ∈ KadTree_keys toy_tree ->
    bv_lt (calc_distance (toy_id xf0) k') (calc_distance (toy_id xf0) (toy_id xff)) = false.
Proof.
  exists (to_uint 32 7).
  assert (KadTree_search toy_tree (toy_id xf0) = Some (toy_id xff, to_uint 32 7, false)) as E
    by (by vm_compute).
  split; [exact E|].
  exact (proj2 (proj2 (kad_search_closest toy_tree (toy_id xf0) (toy_id xff) (to_uint 32 7)
    (proj1 (kad_reachable_invariant _ _ toy_tree_reachable)) E))).
Defined.

(** The search does not fall back to the other side of a tree whose own side
    was emptied: it answers [None] although the tree holds a key. *)
Theorem kad_search_gives_up :
  exists t, kad_reachable (toy_id x00) t /\ KadTree_is_empty t = false /\
            KadTree_keys t = [toy_id x0f] /\ KadTree_search t (toy_id xf0) = None.
Proof.
  exists (KadTree_add (KadTree_remove toy_tree (toy_id xff)).1 (toy_id x0f) (to_uint 32 9)).1.
  split_and!; [|by vm_compute..].
  apply kad_reach_add, kad_reach_remove, toy_tree_reachable.
Qed.

(** [KadTree::remove] takes out exactly the cell of the key and returns its
    value, or changes nothing when the key is absent; afterwards the key is not
    found. *)
Theorem kad_remove_effect `{Key K} (t : KadTree K) (key : K) :
  tree_wf t ->
  let '(t', ret) := KadTree_remove t key in
  tree_wf t' /\ remove_outcome (tree_cells t) key (tree_cells t') ret /\
  KadTree_contains t' key = false.
Proof.
  intros Hwf. pose proof (KadTree_remove_spec t key Hwf) as Hs.
  pose proof (KadTree_remove_search t key Hwf) as Hc.
  destruct (KadTree_remove t key) as [t' ret]. destruct Hs as (_ & Hwf' & Ho). done.
Qed.

Lemma kad_remove_effect_witness :
  (KadTree_remove toy_tree (toy_id xff)).2 = Some (to_uint 32 7) /\
  KadTree_contains (KadTree_remove toy_tree (toy_id xff)).1 (toy_id xff) = false.
Proof.
  assert (tree_wf toy_tree) as Hwf by (apply (kad_reachable_invariant _ _ toy_tree_reachable)).
  pose proof (kad_remove_effect toy_tree (toy_id xff) Hwf) as Hs. split; [by vm_compute|].
  destruct (KadTree_remove toy_tree (toy_id xff)) as [t' ret]. apply Hs.
Defined.

(** In every table built with unused value keys, the values are those of the
    stored peers and no others: as many values as keys, an exact hit returns the
    value of the peer asked for, and any answer is the value of a stored peer. *)
Theorem kad_table_consistent `{BitVecLib} (root_peer : PeerId) (root_ip : SocketAddr) (d : DoubleKadTree)
    (key : PeerId) :
  table_reachable root_peer root_ip d ->
  size (dk_values d) = length (DoubleKadTree_keys d) /\ NoDup (DoubleKadTree_keys d) /\
  match DoubleKadTree_search d key with
  | Some (kv, true) => peer_id (kv_peer kv) = key /\ key ∈ DoubleKadTree_keys d
  | Some (kv, false) => (key ∉ DoubleKadTree_keys d) /\ peer_id (kv_peer kv) ∈ DoubleKadTree_keys d
  | None => key ∉ DoubleKadTree_keys d
  end.
Proof.
  intros Hr. apply table_reachable_wf in Hr as Hwf. split_and!.
  - by apply table_size.
  - unfold DoubleKadTree_keys. rewrite KadTree_keys_cells. apply Hwf.
  - by apply table_search_spec.
Qed.

Lemma kad_table_consistent_witness :
  size (dk_values toy_table) = length (DoubleKadTree_keys toy_table) /\
  DoubleKadTree_search toy_table (toy_id xff) = Some (toy_value xff, true).
Proof.
  split; [|by vm_compute].
  exact (proj1 (kad_table_consistent (toy_id x00) (toy_sock x00) toy_table (toy_id xff)
    toy_table_reachable)).
Defined.
