(* ===== verification/KadMap.v ===== *)
(** * The Kademlia table refines a finite map

    What the rest of the program sees of a [DoubleKadTree]: a finite map from peer
    ids to the channels of their sessions, with a bound that lets [add] refuse an
    entry or give up a farther one.  [table_map] is the abstraction function, and
    each operation of the table is an operation of the map. *)

From S2P Require Import Prelude Net Types Kad KadMetric KadFacts KadTreeFacts KadTable.
From stdpp Require Import list_relations list.

Section TableMap.
Context `{BitVecLib}.

Abbreviation keys_of l := (cell_key <$> l).
Abbreviation vals_of l := (cell_val <$> l).

Definition cells_map (values : gmap u32 KadValue) (l : list (Cell PeerId)) : gmap PeerId KadValue :=
  foldr (fun c m => match values !! cell_val c with
                    | Some v => <[cell_key c := v]> m
                    | None => m
                    end) ∅ l.

Definition table_map (d : DoubleKadTree) : gmap PeerId KadValue :=
  cells_map (dk_values d) (tree_cells (dk_peers d)).

(** What [add] may do to the map: store the entry, store it in the place of one
    that is farther from the root, or refuse a peer that is not there. *)
Definition map_add (root : PeerId) (m : gmap PeerId KadValue) (v : KadValue) (ok : bool)
    (m' : gmap PeerId KadValue) : Prop :=
  let p := peer_id (kv_peer v) in
  if ok then
    m' = <[p := v]> m \/
    (m !! p = None /\ exists q, is_Some (m !! q) /\
       bv_lt (calc_distance root p) (calc_distance root q) = true /\ m' = <[p := v]> (delete q m))
  else m' = m /\ m !! p = None.

(** What [search] may answer: the entry of the key, or the entry of another peer
    when the key has none. *)
Definition map_search (m : gmap PeerId KadValue) (key : PeerId) (r : option (KadValue * bool)) : Prop :=
  match r with
  | Some (v, true) => m !! key = Some v
  | Some (v, false) => m !! key = None /\ exists q, m !! q = Some v
  | None => m !! key = None
  end.

(** ** Lemmas: the map of a list of cells *)

Lemma cells_map_elem (values : gmap u32 KadValue) (l : list (Cell PeerId)) (p : PeerId) (v : KadValue) :
  cells_map values l !! p = Some v ->
  exists c, c ∈ l /\ cell_key c = p /\ values !! cell_val c = Some v.
Proof.
  induction l as [|c l IH]; cbn [cells_map foldr]; [by rewrite lookup_empty|].
  fold (cells_map values l). intros Hp.
  assert (cells_map values l !! p = Some v \/ cell_key c = p /\ values !! cell_val c = Some v) as [Hl|[? ?]].
  { destruct (values !! cell_val c) as [v'|]; [|by left].
    apply lookup_insert_Some in Hp as [[? ?]|[_ ?]]; [right; split; congruence|by left]. }
  - destruct (IH Hl) as (c' & ? & ?). exists c'. split; [by right|done].
  - exists c. split; [by left|done].
Qed.

Lemma cells_map_none (values : gmap u32 KadValue) (l : list (Cell PeerId)) (p : PeerId) :
  p ∉ keys_of l -> cells_map values l !! p = None.
Proof.
  intros Hp. apply eq_None_not_Some. intros [v (c & Hc & <- & _)%cells_map_elem].
  destruct Hp. by apply list_elem_of_fmap_2.
Qed.

Lemma cells_map_lookup (values : gmap u32 KadValue) (l : list (Cell PeerId)) (p : PeerId) (v : KadValue) :
  NoDup (keys_of l) ->
  cells_map values l !! p = Some v <->
  exists c, c ∈ l /\ cell_key c = p /\ values !! cell_val c = Some v.
Proof.
  intros Hnd. split; [apply cells_map_elem|]. intros (c & Hc & <- & Hv).
  induction l as [|c' l IH]; [by apply not_elem_of_nil in Hc|]. cbn [cells_map foldr].
  fold (cells_map values l). rewrite fmap_cons in Hnd. apply NoDup_cons in Hnd as [Hn Hnd].
  apply elem_of_cons in Hc as [<-|Hc]; [by rewrite Hv, lookup_insert_eq|].
  assert (cell_key c' <> cell_key c) as Hne by (intros E; rewrite E in Hn; destruct Hn; by apply list_elem_of_fmap_2).
  destruct (values !! cell_val c'); [rewrite lookup_insert_ne by done|]; by apply IH.
Qed.

Lemma cells_map_perm (values : gmap u32 KadValue) (l l' : list (Cell PeerId)) :
  NoDup (keys_of l) -> Permutation l l' -> cells_map values l = cells_map values l'.
Proof.
  intros Hnd E. apply map_eq. intros p. apply option_eq. intros v.
  rewrite !cells_map_lookup; [|by rewrite <- E|done]. by setoid_rewrite E.
Qed.

Lemma cells_map_ext (values values' : gmap u32 KadValue) (l : list (Cell PeerId)) :
  (forall c, c ∈ l -> values !! cell_val c = values' !! cell_val c) ->
  cells_map values l = cells_map values' l.
Proof.
  induction l as [|c l IH]; intros Hv; [done|]. cbn [cells_map foldr].
  fold (cells_map values l) (cells_map values' l).
  rewrite (Hv c), IH; [done| |by left]. intros c' Hc. apply Hv. by right.
Qed.

Lemma cells_map_cons (values : gmap u32 KadValue) (c : Cell PeerId) (l : list (Cell PeerId)) (v : KadValue) :
  values !! cell_val c = Some v -> cells_map values (c :: l) = <[cell_key c := v]> (cells_map values l).
Proof. intros Hv. cbn [cells_map foldr]. by rewrite Hv. Qed.

(** ** Lemmas: the map of a table *)

Lemma table_keys_nodup (d : DoubleKadTree) : table_wf d -> NoDup (keys_of (tree_cells (dk_peers d))).
Proof. intros Hwf. apply Hwf. Qed.

Lemma table_map_dom (d : DoubleKadTree) (p : PeerId) :
  table_wf d -> is_Some (table_map d !! p) <-> p ∈ DoubleKadTree_keys d.
Proof.
  intros Hwf. pose proof Hwf as (_ & _ & _ & Hc & _).
  unfold DoubleKadTree_keys. rewrite KadTree_keys_cells. split.
  - intros [v (c & Hin & <- & _)%cells_map_elem]. by apply list_elem_of_fmap_2.
  - intros (c & -> & Hin)%list_elem_of_fmap. destruct (Hc c Hin) as (kv & Hkv & _). exists kv.
    apply cells_map_lookup; [by apply table_keys_nodup|eauto].
Qed.

(** Storing a cell, on the map of the cells: [values'] has the new value and the
    old ones of the cells that stay. *)
Lemma cells_map_stored (root : PeerId) (values values' : gmap u32 KadValue) (cells cells' : list (Cell PeerId))
    (cell : Cell PeerId) (value : KadValue) (removed : list u32) :
  cells_ok root cells -> cells_ok root cells' -> NoDup (vals_of cells) ->
  (forall c, c ∈ cells -> is_Some (values !! cell_val c)) ->
  stored 0 cells cell cells' removed ->
  cell_key cell = peer_id (kv_peer value) -> cell_dist cell = calc_distance root (peer_id (kv_peer value)) ->
  values' !! cell_val cell = Some value ->
  (forall c, c ∈ cells -> cell_val c ∉ removed -> values' !! cell_val c = values !! cell_val c) ->
  map_add root (cells_map values cells) value true (cells_map values' cells').
Proof.
  intros [Hdist Hnd] [_ Hnd'] Hnv Hv (gone & kept & E1 & E2 & -> & Hk & Hlen & Hfar) Ek Ed Hnew Hkeep.
  assert (cells_map values' kept = cells_map values kept) as Hkept.
  { apply cells_map_ext. intros c Hc. apply Hkeep; [rewrite E1; apply elem_of_app; by right|].
    intros Hg. rewrite E1, fmap_app in Hnv. apply NoDup_app in Hnv as (_ & Hd & _).
    apply (Hd _ Hg). by apply list_elem_of_fmap_2. }
  rewrite (cells_map_perm _ _ _ Hnd E1), (cells_map_perm _ _ _ Hnd' E2), (cells_map_cons _ _ _ value Hnew).
  rewrite Hkept. unfold map_add. rewrite <- Ek.
  destruct gone as [|gc [|]]; [by left| |simpl in Hlen; lia]. cbn [app] in *.
  destruct (Hv gc) as [gv Hgv]; [rewrite E1; by left|]. rewrite (cells_map_cons _ _ _ gv Hgv).
  destruct (decide (cell_key gc = cell_key cell)) as [Eg|Hne]; [left; by rewrite Eg, insert_insert_eq|].
  rewrite E1, fmap_cons in Hnd. apply NoDup_cons in Hnd as [Hng _].
  right. split; [rewrite lookup_insert_ne by done; by apply cells_map_none|].
  exists (cell_key gc). split_and!.
  - by rewrite lookup_insert_eq.
  - rewrite Forall_forall in Hdist. rewrite <- (Hdist gc) by (rewrite E1; by left).
    apply Forall_cons in Hfar as [[|[Hfar _]] _]; [done|]. by rewrite Ek, <- Ed.
  - by rewrite delete_insert_id by (by apply cells_map_none).
Qed.

(** The values of a table after an [add] that succeeded. *)
Lemma table_add_values (d : DoubleKadTree) (value_key : u32) (value : KadValue) :
  (DoubleKadTree_add d value_key value).2 = true ->
  dk_values (DoubleKadTree_add d value_key value).1 =
  <[value_key := value]> (foldl (fun m i => delete i m) (dk_values d)
    (KadTree_add (dk_peers d) (peer_id (kv_peer value)) value_key).2.2).
Proof.
  unfold DoubleKadTree_add. destruct (KadTree_add (dk_peers d) _ value_key) as [peers' [[|] removed]]; [|done].
  by destruct (KadTree_add (dk_ips d) _ value_key).
Qed.

Lemma table_add_root (d : DoubleKadTree) (value_key : u32) (value : KadValue) :
  root_key (dk_peers (DoubleKadTree_add d value_key value).1) = root_key (dk_peers d).
Proof.
  unfold DoubleKadTree_add, KadTree_add at 1.
  destruct (Distance_get _ 0); destruct (Node_insert _ _ _ _ _) as [[n [[|] r]]|]; cbn [fst];
    try done; by destruct (KadTree_add (dk_ips d) _ _).
Qed.

Lemma stored_map_add (d d' : DoubleKadTree) (value_key : u32) (value : KadValue) (removed : list u32) :
  table_wf d -> table_wf d' -> dk_values d !! value_key = None ->
  stored 0 (tree_cells (dk_peers d))
    (mkCell (peer_id (kv_peer value)) value_key
       (calc_distance (root_key (dk_peers d)) (peer_id (kv_peer value))))
    (tree_cells (dk_peers d')) removed ->
  root_key (dk_peers d') = root_key (dk_peers d) ->
  dk_values d' = <[value_key := value]> (foldl (fun m i => delete i m) (dk_values d) removed) ->
  map_add (root_key (dk_peers d)) (table_map d) value true (table_map d').
Proof.
  intros Hwf Hwf' Hf Hs Er Hv. pose proof Hwf as ([_ Hok] & _ & Hnv & Hc & _).
  destruct Hwf' as ([_ Hok'] & _). rewrite Er in Hok'.
  unfold table_map. set (cell := mkCell _ _ _) in Hs.
  apply (cells_map_stored _ _ _ _ _ cell _ removed Hok Hok' Hnv); [|exact Hs|reflexivity|reflexivity| |].
  - intros c Hin. destruct (Hc c Hin) as (kv & -> & _). by eexists.
  - rewrite Hv. apply lookup_insert_eq.
  - intros c Hin Hr. destruct (Hc c Hin) as (kv & Hkv & _).
    rewrite Hv, lookup_insert_ne, foldl_delete_lookup, decide_False by (done || congruence). done.
Qed.

Lemma table_map_add (d : DoubleKadTree) (value_key : u32) (value : KadValue) :
  table_wf d -> dk_values d !! value_key = None ->
  let '(d', ok) := DoubleKadTree_add d value_key value in
  map_add (root_key (dk_peers d)) (table_map d) value ok (table_map d').
Proof.
  intros Hwf Hf. pose proof (table_add_spec d value_key value Hwf Hf) as Hs.
  pose proof (table_add_values d value_key value) as Hv. pose proof (table_add_root d value_key value) as Er.
  destruct (KadTree_add (dk_peers d) (peer_id (kv_peer value)) value_key) as [peers' [ok' removed]].
  destruct (DoubleKadTree_add d value_key value) as [d' [|]]; destruct Hs as (Hwf' & Ho & _ & Heq); cbn [fst snd] in *.
  - by eapply stored_map_add; eauto.
  - destruct Ho as (E & _ & Hk & _). unfold map_add, table_map. rewrite (Heq eq_refl).
    split; [apply cells_map_perm; [by apply table_keys_nodup|done]|by apply cells_map_none].
Qed.

Lemma table_map_remove (d : DoubleKadTree) (key : PeerId) :
  table_wf d ->
  let '(d', ret) := DoubleKadTree_remove d key in
  table_map d' = delete key (table_map d) /\ ret = table_map d !! key.
Proof.
  intros Hwf. pose proof (table_remove_spec d key Hwf) as Hs. pose proof (table_keys_nodup _ Hwf) as Hnd.
  destruct (DoubleKadTree_remove d key) as [d' [kv|]]; destruct Hs as (Hwf' & Hr).
  - destruct Hr as (c & E & <- & Hkv & Hv & _). unfold table_map. rewrite (cells_map_perm _ _ _ Hnd E).
    rewrite (cells_map_cons _ _ _ kv Hkv), lookup_insert_eq. split; [|done].
    rewrite E, fmap_cons in Hnd. apply NoDup_cons in Hnd as [Hn Hnd].
    rewrite delete_insert_id by (by apply cells_map_none). apply cells_map_ext. intros c' Hin. rewrite Hv.
    apply lookup_delete_ne. intros Ev. destruct Hwf as (_ & _ & Hnv & _).
    rewrite E, fmap_cons in Hnv. apply NoDup_cons in Hnv as [Hnv _]. destruct Hnv. rewrite Ev.
    by apply list_elem_of_fmap_2.
  - destruct Hr as (E & Hv & Hk). assert (table_map d !! key = None) as Hnone.
    { apply eq_None_not_Some. by rewrite table_map_dom. }
    rewrite Hnone. split; [|done]. unfold table_map in *. rewrite E, Hv. by rewrite delete_id.
Qed.

Lemma table_map_search (d : DoubleKadTree) (key : PeerId) :
  table_wf d -> map_search (table_map d) key (DoubleKadTree_search d key).
Proof.
  intros Hwf. pose proof (table_keys_nodup _ Hwf) as Hnd. pose proof Hwf as (Hp & _ & _ & Hc & _).
  unfold DoubleKadTree_search. pose proof (KadTree_search_spec (dk_peers d) key Hp) as Ho.
  destruct (KadTree_search (dk_peers d) key) as [[[k v] [|]]|]; cbn [mbind option_bind]; simpl in Ho.
  - destruct Ho as (-> & c & Hin & <- & <-). destruct (Hc c Hin) as (kv & Hkv & _). rewrite Hkv. simpl.
    apply cells_map_lookup; eauto.
  - destruct Ho as (Hk & c & Hin & <- & <-). destruct (Hc c Hin) as (kv & Hkv & _). rewrite Hkv. simpl.
    split; [by apply cells_map_none|]. exists (cell_key c). apply cells_map_lookup; eauto.
  - by apply cells_map_none.
Qed.

Lemma table_map_empty (d : DoubleKadTree) :
  table_wf d -> DoubleKadTree_is_empty d = true <-> table_map d = ∅.
Proof.
  intros Hwf. unfold DoubleKadTree_is_empty. rewrite KadTree_is_empty_cells. rewrite <- dom_empty_iff_L.
  rewrite set_eq. setoid_rewrite elem_of_dom. split.
  - intros E p. rewrite table_map_dom by done. unfold DoubleKadTree_keys. rewrite KadTree_keys_cells, E. set_solver.
  - intros Hn. destruct (tree_cells (dk_peers d)) as [|c l] eqn:E; [done|]. exfalso.
    apply (not_elem_of_empty (C := gset PeerId) (cell_key c)). apply Hn, table_map_dom; [done|].
    unfold DoubleKadTree_keys. rewrite KadTree_keys_cells, E. by left.
Qed.

(** A draw that is in use: the new value takes the place of the other peer's. *)
Lemma table_add_collision (d : DoubleKadTree) (value_key : u32) (value other : KadValue) :
  table_wf d -> dk_values d !! value_key = Some other -> peer_id (kv_peer other) <> peer_id (kv_peer value) ->
  (KadTree_add (dk_peers d) (peer_id (kv_peer value)) value_key).2 = (true, []) ->
  DoubleKadTree_search (DoubleKadTree_add d value_key value).1 (peer_id (kv_peer other)) = Some (value, true).
Proof.
  intros (Hp & _ & _ & Hc & Hv) Hk Hne Hadd. unfold DoubleKadTree_add.
  pose proof (KadTree_add_spec (dk_peers d) (peer_id (kv_peer value)) value_key Hp) as Hs.
  destruct (KadTree_add (dk_peers d) _ value_key) as [t' ret]. cbn [snd] in Hadd. subst ret.
  destruct Hs as (_ & Hp' & gone & kept & E1 & E2 & Hg & _). destruct gone; [|done]. cbn [app] in E1.
  destruct (KadTree_add (dk_ips d) _ value_key) as [ips' ret]. cbn [fst foldl]. unfold DoubleKadTree_search.
  cbn [dk_peers dk_values].
  assert (value_key ∈ vals_of (tree_cells (dk_peers d))) as (c & Ev & Hin)%list_elem_of_fmap
    by (apply Hv; by eexists).
  destruct (Hc c Hin) as (kv & Hkv & Hpid). rewrite <- Ev, Hk in Hkv. injection Hkv as <-.
  assert (c ∈ tree_cells t') as Hin' by (rewrite E2; right; by rewrite <- E1).
  pose proof (KadTree_search_spec t' (peer_id (kv_peer other)) Hp') as Ho.
  assert (peer_id (kv_peer other) ∈ keys_of (tree_cells t')) as Hkey by (rewrite Hpid; by apply list_elem_of_fmap_2).
  destruct (KadTree_search t' _) as [[[k v] [|]]|]; simpl in Ho; [|by destruct Ho|done].
  destruct Ho as (-> & c' & Hc' & Ek & <-). cbn [mbind option_bind].
  assert (c' = c) as ->; [|by rewrite <- Ev, lookup_insert_eq].
  destruct Hp' as (_ & _ & Hnd). change (Node_all _) with (tree_cells t') in Hnd.
  apply list_elem_of_lookup in Hc' as [i Hi]. apply list_elem_of_lookup in Hin' as [j Hj].
  assert (i = j) as <-; [|congruence].
  eapply NoDup_lookup; [exact Hnd|by rewrite list_lookup_fmap, Hi|]. rewrite list_lookup_fmap, Hj. simpl. congruence.
Qed.

End TableMap.

(** ** Property *)

(** C13: the table refines a finite map from peers to their channels.  A new
    table is the empty map; [add], when the number it draws for the value is not in use,
    stores the entry, or stores it in the place of an entry of a peer farther from the
    root, or refuses a peer that has no entry and changes nothing; [remove] deletes
    exactly the entry it returns; [search] answers with the entry of the key exactly
    when there is one; [contains], [keys] and [is_empty] are those of the map.  The
    number is not checked by the code: when it is in use for another peer and the new
    peer is stored beside it, the entry of the other peer is overwritten, and a search
    for that peer answers with the channels of the new one. *)
Theorem kad_table_refines_map `{BitVecLib} (root_peer : PeerId) (root_ip : SocketAddr) (d : DoubleKadTree) :
  table_wf d ->
  table_map (DoubleKadTree_new root_peer root_ip) = ∅ /\
  (forall value_key value, dk_values d !! value_key = None ->
     let '(d', ok) := DoubleKadTree_add d value_key value in
     table_wf d' /\ map_add (root_key (dk_peers d)) (table_map d) value ok (table_map d')) /\
  (forall key, let '(d', ret) := DoubleKadTree_remove d key in
     table_wf d' /\ table_map d' = delete key (table_map d) /\ ret = table_map d !! key) /\
  (forall key, map_search (table_map d) key (DoubleKadTree_search d key)) /\
  (forall key, DoubleKadTree_contains d key = is_some (table_map d !! key)) /\
  list_to_set (DoubleKadTree_keys d) = dom (table_map d) /\
  (DoubleKadTree_is_empty d = true <-> table_map d = ∅) /\
  (forall value_key value other,
     dk_values d !! value_key = Some other -> peer_id (kv_peer other) <> peer_id (kv_peer value) ->
     (KadTree_add (dk_peers d) (peer_id (kv_peer value)) value_key).2 = (true, []) ->
     DoubleKadTree_search (DoubleKadTree_add d value_key value).1 (peer_id (kv_peer other)) = Some (value, true)).
Proof.
  intros Hwf. split_and!.
  - done.
  - intros value_key value Hf. pose proof (table_add_spec d value_key value Hwf Hf) as Hs.
    pose proof (table_map_add d value_key value Hwf Hf).
    destruct (DoubleKadTree_add d value_key value). by destruct Hs.
  - intros key. pose proof (table_remove_spec d key Hwf) as Hs. pose proof (table_map_remove d key Hwf).
    destruct (DoubleKadTree_remove d key). by destruct Hs.
  - intros key. by apply table_map_search.
  - intros key. pose proof (KadTree_contains_keys (dk_peers d) key (proj1 Hwf)) as Hc.
    change (KadTree_keys (dk_peers d)) with (DoubleKadTree_keys d) in Hc.
    rewrite <- (table_map_dom d key Hwf) in Hc. unfold DoubleKadTree_contains.
    destruct (KadTree_contains (dk_peers d) key), (table_map d !! key) as [v|]; try done.
    + by destruct (proj1 Hc eq_refl).
    + by discriminate (proj2 Hc (ex_intro _ _ eq_refl)).
  - apply set_eq. intros p. rewrite elem_of_list_to_set, elem_of_dom. by rewrite table_map_dom.
  - by apply table_map_empty.
  - intros value_key value other. by apply table_add_collision.
Qed.

#[local] Existing Instance toy_bitvec.

Lemma kad_table_refines_map_witness :
  (DoubleKadTree_add toy_table (to_uint 32 8) (toy_value xf0)).2 = true /\
  map_add (toy_id x00) (table_map toy_table) (toy_value xf0) true
    (table_map (DoubleKadTree_add toy_table (to_uint 32 8) (toy_value xf0)).1) /\
  DoubleKadTree_search (DoubleKadTree_add toy_table (to_uint 32 7) (toy_value xf0)).1 (toy_id xff) =
    Some (toy_value xf0, true).
Proof.
  assert (table_wf toy_table) as Hwf by exact (table_reachable_wf _ _ _ toy_table_reachable).
  assert (dk_values toy_table !! to_uint 32 8 = None) as Hf by (by vm_compute).
  pose proof (kad_table_refines_map (toy_id x00) (toy_sock x00) toy_table Hwf) as (_ & Hs & _ & _ & _ & _ & _ & Hover).
  specialize (Hs (to_uint 32 8) (toy_value xf0) Hf).
  assert ((DoubleKadTree_add toy_table (to_uint 32 8) (toy_value xf0)).2 = true) as Hok by (by vm_compute).
  change (root_key (dk_peers toy_table)) with (toy_id x00) in Hs.
  destruct (DoubleKadTree_add toy_table (to_uint 32 8) (toy_value xf0)) as [d' ok].
  cbn [fst snd] in Hs, Hok. subst ok. split; [reflexivity|]. split; [exact (proj2 Hs)|].
  apply (Hover (to_uint 32 7) (toy_value xf0) (toy_value xff)); [vm_compute; reflexivity|intros E; discriminate E|].
  vm_compute. reflexivity.
Defined.
