(* ===== verification/Buffer.v ===== *)
(** * The buffer of pending connections (src/buffer.rs)

    Queues of stable requests and results per peer, the temporary sessions that
    wait for the application's decision, and the two-phase timer that expires
    them.  A [HashMap] is a [gmap]; its iteration order is that of [map_to_list]. *)

From S2P Require Import Prelude Net Types Kad.
From stdpp Require Import list_relations list.

#[global] Instance SocketAddr_inhabited : Inhabited SocketAddr :=
  populate (SockV4 (arr_fill 4 x00) (to_uint 16 0)).

Record Buffer : Type := mkBuffer {
  buf_dhts : gmap SocketAddr bool;
  buf_connects : gmap PeerId (bool * list (u64 * list byte));
  buf_results : gmap PeerId (bool * list (u64 * list byte));
  buf_tmps : gmap PeerId (bool * KadValue * bool)
}.

Definition Buffer_init : Buffer := mkBuffer ∅ ∅ ∅ ∅.

Definition Buffer_add_dht (b : Buffer) (ip : SocketAddr) : Buffer * bool :=
  match buf_dhts b !! ip with
  | Some _ => (b, false)
  | None => (mkBuffer (<[ip := false]> (buf_dhts b)) (buf_connects b) (buf_results b) (buf_tmps b), true)
  end.

Definition Buffer_remove_dht (b : Buffer) (ip : SocketAddr) : Buffer :=
  mkBuffer (delete ip (buf_dhts b)) (buf_connects b) (buf_results b) (buf_tmps b).

(** [push] to the queue of the peer; the flag says whether there was one. *)
Definition enqueue (m : gmap PeerId (bool * list (u64 * list byte))) (peer_id : PeerId) (tid : u64)
    (data : list byte) : gmap PeerId (bool * list (u64 * list byte)) * bool :=
  match m !! peer_id with
  | Some (t, v) => (<[peer_id := (t, v ++ [(tid, data)])]> m, true)
  | None => (<[peer_id := (false, [(tid, data)])]> m, false)
  end.

Definition Buffer_add_connect (b : Buffer) (peer_id : PeerId) (tid : u64) (data : list byte)
    : Buffer * bool :=
  let '(connects, had) := enqueue (buf_connects b) peer_id tid data in
  (mkBuffer (buf_dhts b) connects (buf_results b) (buf_tmps b), had).

Definition Buffer_remove_connect (b : Buffer) (peer_id : PeerId)
    : Buffer * list (u64 * list byte) :=
  (mkBuffer (buf_dhts b) (delete peer_id (buf_connects b)) (buf_results b) (buf_tmps b),
   default [] (snd <$> buf_connects b !! peer_id)).

Definition Buffer_add_result (b : Buffer) (peer_id : PeerId) (tid : u64) (data : list byte)
    : Buffer * bool :=
  let '(results, had) := enqueue (buf_results b) peer_id tid data in
  (mkBuffer (buf_dhts b) (buf_connects b) results (buf_tmps b), had).

Definition Buffer_remove_result (b : Buffer) (peer_id : PeerId)
    : Buffer * list (u64 * list byte) :=
  (mkBuffer (buf_dhts b) (buf_connects b) (delete peer_id (buf_results b)) (buf_tmps b),
   default [] (snd <$> buf_results b !! peer_id)).

Definition Buffer_remove_stable (b : Buffer) (peer_id : PeerId) : Buffer :=
  mkBuffer (buf_dhts b) (delete peer_id (buf_connects b)) (delete peer_id (buf_results b)) (buf_tmps b).

Definition get_tmp_session (b : Buffer) (peer_id : PeerId) : option SessionSender :=
  '(_, v, _) ← buf_tmps b !! peer_id; Some (kv_session v).

Definition get_tmp_stream (b : Buffer) (peer_id : PeerId) : option EndpointSender :=
  '(_, v, _) ← buf_tmps b !! peer_id; Some (kv_stream v).

Definition Buffer_add_tmp (b : Buffer) (peer_id : PeerId) (value : KadValue) (is_d : bool) : Buffer :=
  mkBuffer (buf_dhts b) (buf_connects b) (buf_results b) (<[peer_id := (false, value, is_d)]> (buf_tmps b)).

Definition Buffer_update_peer (b : Buffer) (peer_id : PeerId) (peer : Peer) : Buffer :=
  match buf_tmps b !! peer_id with
  | Some (t, v, is_d) =>
      mkBuffer (buf_dhts b) (buf_connects b) (buf_results b)
        (<[peer_id := (t, mkKadValue (kv_session v) (kv_stream v) peer, is_d)]> (buf_tmps b))
  | None => b
  end.

Definition Buffer_remove_tmp (b : Buffer) (peer_id : PeerId) : Buffer * option (KadValue * bool) :=
  (mkBuffer (buf_dhts b) (buf_connects b) (buf_results b) (delete peer_id (buf_tmps b)),
   '(_, v, is_d) ← buf_tmps b !! peer_id; Some (v, is_d)).

(** One pass of the timer over a map: the entries that are marked are collected
    and then removed, the others are marked. *)
Section Sweep.
Context `{Countable K} {V : Type}.

Definition sweep_deletes (marked : V -> bool) (m : gmap K V) : list (K * V) :=
  filter (fun kv => marked kv.2 = true) (map_to_list m).

Definition sweep (marked : V -> bool) (mark : V -> V) (m : gmap K V) : gmap K V :=
  foldl (fun m kv => delete kv.1 m) ((fun v => if marked v then v else mark v) <$> m)
    (sweep_deletes marked m).

End Sweep.

(** [timer_clear]: the new buffer and the sessions that are sent [Close], in order. *)
Definition timer_clear (b : Buffer) : Buffer * list SessionSender :=
  let mark_queue '(_, q) := (true, q) in
  let mark_tmp '(_, v, is_d) := (true, v, is_d) in
  let marked_tmp '(t, _, _) := t in
  (mkBuffer
     (sweep id (fun _ => true) (buf_dhts b))
     (sweep fst mark_queue (buf_connects b))
     (sweep fst mark_queue (buf_results b))
     (sweep marked_tmp mark_tmp (buf_tmps b)),
   map (fun '(_, (_, v, _)) => kv_session v) (sweep_deletes marked_tmp (buf_tmps b))).

(** ** Lemmas *)

Section SweepFacts.
Context `{Countable K} {V : Type}.

Lemma foldl_delete_pairs (l : list (K * V)) (m : gmap K V) (k : K) :
  foldl (fun m kv => delete kv.1 m) m l !! k = if decide (k ∈ l.*1) then None else m !! k.
Proof.
  revert m. induction l as [|[i v] l IH]; intros m; cbn [foldl fmap list_fmap fst].
  - rewrite decide_False; [done|apply not_elem_of_nil].
  - rewrite IH. simpl. destruct (decide (k ∈ l.*1)) as [Hk|Hk].
    + rewrite decide_True; [done|]. by right.
    + destruct (decide (k = i)) as [->|Hne].
      * rewrite decide_True by by left. by rewrite lookup_delete_eq.
      * rewrite decide_False by (rewrite elem_of_cons; tauto). by rewrite lookup_delete_ne.
Qed.

Lemma elem_of_sweep_deletes (marked : V -> bool) (m : gmap K V) (k : K) (v : V) :
  (k, v) ∈ sweep_deletes marked m <-> m !! k = Some v /\ marked v = true.
Proof.
  unfold sweep_deletes. rewrite list_elem_of_filter, elem_of_map_to_list. simpl. tauto.
Qed.

(** A marked entry goes, an unmarked one stays and is marked. *)
Lemma lookup_sweep (marked : V -> bool) (mark : V -> V) (m : gmap K V) (k : K) :
  sweep marked mark m !! k = v ← m !! k; if marked v then None else Some (mark v).
Proof.
  unfold sweep. rewrite foldl_delete_pairs, lookup_fmap.
  destruct (m !! k) as [v|] eqn:E; cbn [fmap option_fmap option_map mbind option_bind].
  - destruct (marked v) eqn:Em.
    + rewrite decide_True; [done|]. apply list_elem_of_fmap. exists (k, v).
      by rewrite elem_of_sweep_deletes.
    + rewrite decide_False; [done|]. intros ((k' & v') & Ek & Hin)%list_elem_of_fmap.
      simpl in Ek. subst k'. apply elem_of_sweep_deletes in Hin as [E' Em']. congruence.
  - by destruct (decide _).
Qed.

Lemma sweep_twice_empty (marked : V -> bool) (mark : V -> V) (m : gmap K V) :
  (forall v, marked (mark v) = true) -> sweep marked mark (sweep marked mark m) = ∅.
Proof.
  intros Hm. apply map_eq. intros k. rewrite !lookup_sweep, lookup_empty.
  destruct (m !! k) as [v|]; [|done]. simpl. destruct (marked v); [done|]. simpl. by rewrite Hm.
Qed.

End SweepFacts.

Lemma enqueue_spec (m : gmap PeerId (bool * list (u64 * list byte))) (p : PeerId) (tid : u64)
    (data : list byte) :
  (enqueue m p tid data).2 = is_some (m !! p) /\
  snd <$> (enqueue m p tid data).1 !! p = Some (default [] (snd <$> m !! p) ++ [(tid, data)]) /\
  forall q, q <> p -> (enqueue m p tid data).1 !! q = m !! q.
Proof.
  unfold enqueue. destruct (m !! p) as [[t v]|]; simpl; split_and!; try done;
    rewrite ?lookup_insert_eq; try done; intros q Hq; by rewrite lookup_insert_ne.
Qed.

(** ** Properties *)

(** The queues of stable requests and of stable results keep every message of
    a peer, in order, until they are taken: adding reports whether the peer already
    had a queue, taking returns all of it once, and other peers are not touched. *)
Theorem buffer_queues (b : Buffer) (p q : PeerId) (tid : u64) (data : list byte) :
  let '(bc, had_connect) := Buffer_add_connect b p tid data in
  let '(br, had_result) := Buffer_add_result b p tid data in
  had_connect = is_some (buf_connects b !! p) /\ had_result = is_some (buf_results b !! p) /\
  (Buffer_remove_connect bc p).2 = (Buffer_remove_connect b p).2 ++ [(tid, data)] /\
  (Buffer_remove_result br p).2 = (Buffer_remove_result b p).2 ++ [(tid, data)] /\
  (Buffer_remove_connect (Buffer_remove_connect bc p).1 p).2 = [] /\
  (Buffer_remove_result (Buffer_remove_result br p).1 p).2 = [] /\
  (q = p \/ ((Buffer_remove_connect bc q).2 = (Buffer_remove_connect b q).2 /\
             (Buffer_remove_result br q).2 = (Buffer_remove_result b q).2)).
Proof.
  unfold Buffer_add_connect, Buffer_add_result.
  destruct (enqueue_spec (buf_connects b) p tid data) as (Hc1 & Hc2 & Hc3).
  destruct (enqueue_spec (buf_results b) p tid data) as (Hr1 & Hr2 & Hr3).
  destruct (enqueue (buf_connects b) p tid data) as [c hc].
  destruct (enqueue (buf_results b) p tid data) as [r hr]. simpl in *.
  rewrite Hc2, Hr2, !lookup_delete_eq. split_and!; try done.
  destruct (decide (q = p)) as [|Hq]; [by left|right]. by rewrite Hc3, Hr3.
Qed.

(** The timer expires in two phases.  A temporary session that has not seen a
    tick survives one and is marked; a marked one is removed, and exactly the
    removed sessions are sent [Close].  Two ticks with nothing in between empty
    the buffer. *)
Theorem timer_clear_two_phase (b : Buffer) :
  let '(b1, closed1) := timer_clear b in
  let '(b2, closed2) := timer_clear b1 in
  (forall p, buf_tmps b1 !! p =
     '(t, v, is_d) ← buf_tmps b !! p; if (t : bool) then None else Some (true, v, is_d)) /\
  (forall s, s ∈ closed1 <->
     exists p v is_d, buf_tmps b !! p = Some (true, v, is_d) /\ kv_session v = s) /\
  (forall s, s ∈ closed1 ++ closed2 <->
     exists p t v is_d, buf_tmps b !! p = Some (t, v, is_d) /\ kv_session v = s) /\
  b2 = Buffer_init.
Proof.
  unfold timer_clear. cbn [buf_tmps buf_dhts buf_connects buf_results].
  set (mk := fun '(_, v, is_d) => (true, v, is_d)). set (mt := fun '(t, _, _) => t).
  assert (forall m s, s ∈ map (fun '(_, (_, v, _)) => kv_session v)
            (sweep_deletes mt (m : gmap PeerId (bool * KadValue * bool))) <->
          exists p v is_d, m !! p = Some (true, v, is_d) /\ kv_session v = s) as Hclosed.
  { intros m s. split.
    - intros ((p & [[t v] d]) & -> & Hin)%list_elem_of_fmap.
      apply elem_of_sweep_deletes in Hin as [E Et]. simpl in Et. subst t. eauto.
    - intros (p & v & d & E & <-). apply list_elem_of_fmap. exists (p, (true, v, d)).
      split; [done|]. by rewrite elem_of_sweep_deletes. }
  split_and!.
  - intros p. rewrite lookup_sweep. by destruct (buf_tmps b !! p) as [[[t v] d]|].
  - apply Hclosed.
  - intros s. rewrite elem_of_app, !Hclosed. split.
    + intros [(p & v & d & E & <-)|(p & v & d & E & <-)]; [by eauto 6|].
      rewrite lookup_sweep in E. destruct (buf_tmps b !! p) as [[[t v'] d']|] eqn:Eb; [|done].
      destruct t; [done|]. injection E as <- <-. by eauto 6.
    + intros (p & t & v & d & E & <-). destruct t; [by left; eauto|right].
      exists p, v, d. by rewrite lookup_sweep, E.
  - unfold Buffer_init. f_equal; apply sweep_twice_empty; intros v;
      first [done | by destruct v as [[? ?] ?] | by destruct v].
Qed.
