(* ===== verification/PeerList.v ===== *)
(** * The peer list (src/peer_list.rs)

    The allow list that is saved as a file, the block lists, the Kademlia table
    and the stable connections.  What the methods do outside the record (the file
    [save] writes, the [Close] that [add_stable] sends to the session it replaces)
    is part of their result.  A [HashMap] is a [gmap]; its iteration order is that
    of [map_to_list]. *)

From Stdlib Require Import Ascii.
From S2P Require Import Prelude Net Types Kad KadMetric KadFacts KadTreeFacts KadTable.
From stdpp Require Import list_relations list.

(** ** Lines of a text file *)

Definition newline : ascii := "010"%char.

(** Without the carriage return that ends it. *)
Fixpoint strip_cr (s : string) : string :=
  match s with
  | EmptyString => EmptyString
  | String c EmptyString => if bool_decide (c = "013"%char) then EmptyString else s
  | String c s' => String c (strip_cr s')
  end.

(** [BufRead::lines]: the text up to each newline, without a carriage return
    before it, and what follows the last one when it is not empty. *)
Definition text_lines (s : string) : list string :=
  let pieces := str_split newline s in
  map strip_cr (removelast pieces) ++
  match last pieces with
  | Some EmptyString | None => []
  | Some l => [l]
  end.

Section PeerList.
Context `{BitVecLib}.

Record PeerList : Type := mkPeerList {
  pl_save_path : string;
  pl_allows : list Peer;
  pl_block_peers : list PeerId;
  pl_block_ips : list IpAddr;
  pl_dhts : DoubleKadTree;
  pl_stables : gmap PeerId (KadValue * bool)
}.

Definition with_allows (pl : PeerList) (allows : list Peer) : PeerList :=
  mkPeerList (pl_save_path pl) allows (pl_block_peers pl) (pl_block_ips pl) (pl_dhts pl) (pl_stables pl).
Definition with_blocks (pl : PeerList) (peers : list PeerId) (ips : list IpAddr) : PeerList :=
  mkPeerList (pl_save_path pl) (pl_allows pl) peers ips (pl_dhts pl) (pl_stables pl).
Definition with_dhts (pl : PeerList) (dhts : DoubleKadTree) : PeerList :=
  mkPeerList (pl_save_path pl) (pl_allows pl) (pl_block_peers pl) (pl_block_ips pl) dhts (pl_stables pl).
Definition with_stables (pl : PeerList) (stables : gmap PeerId (KadValue * bool)) : PeerList :=
  mkPeerList (pl_save_path pl) (pl_allows pl) (pl_block_peers pl) (pl_block_ips pl) (pl_dhts pl) stables.

(** [save]: the path and the text written to it. *)
Definition PeerList_save (pl : PeerList) : string * string :=
  (pl_save_path pl,
   foldl (fun file_string addr =>
            file_string +:+ String newline EmptyString +:+ Peer_to_multiaddr_string addr)
     EmptyString (pl_allows pl)).

(** One line of the file: [Err] lines are skipped, known sockets too. *)
Definition load_line (allows : list Peer) (addr : string) : res (list Peer) :=
  match Peer_from_multiaddr_string addr with
  | Ok p =>
      let is_new := forallb (fun ap => negb (bool_decide (peer_socket ap = peer_socket p))) allows in
      Ok (if is_new then allows ++ [p] else allows)
  | Err _ => Ok allows
  | Panic => Panic
  end.

Fixpoint load_lines (lines : list string) (allows : list Peer) : res (list Peer) :=
  match lines with
  | [] => Ok allows
  | addr :: lines => allows ← load_line allows addr; load_lines lines allows
  end.

(** [load]; [file] is the text of the file, when it can be opened. *)
Definition PeerList_load (peer_id : PeerId) (save_path : string) (file : option string)
    (allows : list Peer) (block_peers : list PeerId) (block_ips : list IpAddr) : res PeerList :=
  let dhts := DoubleKadTree_new peer_id unspecified_socket in
  match file with
  | Some text =>
      allows ← load_lines (text_lines text) allows;
      Ok (mkPeerList save_path allows block_peers block_ips dhts ∅)
  | None => Ok (mkPeerList save_path allows block_peers block_ips dhts ∅)
  end.

Definition PeerList_is_empty (pl : PeerList) : bool :=
  bool_decide (pl_stables pl = ∅) && DoubleKadTree_is_empty (pl_dhts pl).

(** [dht_get] and [stable_get]: session, stream and whether it is the peer itself. *)
Definition dht_get (pl : PeerList) (peer_id : PeerId)
    : option (SessionSender * EndpointSender * bool) :=
  '(v, is_it) ← DoubleKadTree_search (pl_dhts pl) peer_id;
  Some (kv_session v, kv_stream v, is_it).

Definition stable_get (pl : PeerList) (peer_id : PeerId)
    : option (SessionSender * EndpointSender * bool) :=
  '(v, _) ← pl_stables pl !! peer_id;
  Some (kv_session v, kv_stream v, true).

Definition option_or {A : Type} (o o' : option A) : option A :=
  match o with
  | Some a => Some a
  | None => o'
  end.

Definition PeerList_get (pl : PeerList) (peer_id : PeerId)
    : option (SessionSender * EndpointSender * bool) :=
  option_or (stable_get pl peer_id) (dht_get pl peer_id).

(** [all] *)
Definition PeerList_all (pl : PeerList) : gmap PeerId SessionSender :=
  let peers :=
    foldl (fun peers key =>
             match dht_get pl key with
             | Some (sender, _, _) => <[key := sender]> peers
             | None => peers
             end) ∅ (DoubleKadTree_keys (pl_dhts pl)) in
  foldl (fun peers '(p, (v, _)) => <[p := kv_session v]> peers) peers (map_to_list (pl_stables pl)).

Definition dht_keys (pl : PeerList) : list PeerId := DoubleKadTree_keys (pl_dhts pl).

Definition stable_all (pl : PeerList) : gmap PeerId (SessionSender * bool) :=
  (fun '(v, is_direct) => (kv_session v, is_direct)) <$> pl_stables pl.

Definition get_stable_stream (pl : PeerList) (peer_id : PeerId) : option EndpointSender :=
  '(_, stream, is_it) ← stable_get pl peer_id;
  if (is_it : bool) then Some stream else None.

Definition PeerList_next_closest (pl : PeerList) (target prev : PeerId) : option SessionSender :=
  option_or ('(v, _) ← pl_stables pl !! target; Some (kv_session v))
            (kv_session <$> id_next_closest (pl_dhts pl) target prev).

Definition PeerList_ip_next_closest (pl : PeerList) (ip prev : SocketAddr) : option SessionSender :=
  kv_session <$> ip_next_closest (pl_dhts pl) ip prev.

Definition PeerList_contains (pl : PeerList) (peer_id : PeerId) : bool :=
  is_some (pl_stables pl !! peer_id) || DoubleKadTree_contains (pl_dhts pl) peer_id.

Definition is_relay (pl : PeerList) (peer_id : PeerId) : option SessionSender :=
  '(v, is_direct) ← pl_stables pl !! peer_id;
  if (is_direct : bool) then None else Some (kv_session v).

(** [help_dht] *)
Definition help_dht (pl : PeerList) (peer_id0 : PeerId) : list Peer :=
  let peers : gmap PeerId Peer :=
    foldl (fun peers key =>
             if bool_decide (key = peer_id0) then peers
             else match DoubleKadTree_search (pl_dhts pl) key with
                  | Some (v, true) => <[peer_id (kv_peer v) := kv_peer v]> peers
                  | _ => peers
                  end) ∅ (DoubleKadTree_keys (pl_dhts pl)) in
  let peers :=
    foldl (fun peers '(p, (v, _)) =>
             if bool_decide (p = peer_id0) then peers else <[p := kv_peer v]> peers)
      peers (map_to_list (pl_stables pl)) in
  map snd (map_to_list peers).

Definition remove_peer (pl : PeerList) (peer_id : PeerId) : PeerList * option KadValue :=
  let '(dhts, v) := DoubleKadTree_remove (pl_dhts pl) peer_id in
  (with_dhts pl dhts, v).

(** The last position of the address. *)
Fixpoint last_socket (addr : SocketAddr) (l : list Peer) (k : nat) (d : option nat) : option nat :=
  match l with
  | [] => d
  | i :: l => last_socket addr l (S k) (if bool_decide (peer_socket i = addr) then Some k else d)
  end.

(** [peer_disconnect]: the list, and what is saved when it changed. *)
Definition peer_disconnect (pl : PeerList) (addr : SocketAddr) : PeerList * option (string * string) :=
  match last_socket addr (pl_allows pl) 0 None with
  | Some i =>
      let pl := with_allows pl (delete i (pl_allows pl)) in
      (pl, Some (PeerList_save pl))
  | None => (pl, None)
  end.

Definition stable_leave (pl : PeerList) (peer_id : PeerId) : PeerList :=
  with_stables pl (delete peer_id (pl_stables pl)).

(** ** Block and allow list *)

Definition bootstrap (pl : PeerList) : list Peer :=
  filter (fun p => Peer_effective_socket p = true) (pl_allows pl).

Definition add_bootstrap (pl : PeerList) (peer : Peer) : PeerList :=
  let is_new :=
    forallb (fun ap => negb (bool_decide (peer_socket ap = peer_socket peer))) (pl_allows pl) in
  if is_new then with_allows pl (pl_allows pl ++ [peer]) else pl.

Definition add_allow_peer (pl : PeerList) (pid : PeerId) : PeerList :=
  let is_new := forallb (fun ap => negb (bool_decide (peer_id ap = pid))) (pl_allows pl) in
  if is_new then with_allows pl (pl_allows pl ++ [Peer_of_id pid]) else pl.

Definition remove_allow_peer (pl : PeerList) (peer : PeerId) : PeerList * option Peer :=
  match position (fun x => bool_decide (peer_id x = peer)) (pl_allows pl) with
  | None => (pl, None)
  | Some pos => (with_allows pl (delete pos (pl_allows pl)), pl_allows pl !! pos)
  end.

Definition is_block_peer (pl : PeerList) (peer : PeerId) : bool :=
  bool_decide (peer ∈ pl_block_peers pl).

Definition is_block_addr (pl : PeerList) (addr : SocketAddr) : bool :=
  bool_decide (socket_ip addr ∈ pl_block_ips pl).

Definition add_block_peer (pl : PeerList) (peer : PeerId) : PeerList :=
  if bool_decide (peer ∈ pl_block_peers pl) then pl
  else with_blocks pl (pl_block_peers pl ++ [peer]) (pl_block_ips pl).

Definition add_block_addr (pl : PeerList) (addr : SocketAddr) : PeerList :=
  if bool_decide (socket_ip addr ∈ pl_block_ips pl) then pl
  else with_blocks pl (pl_block_peers pl) (pl_block_ips pl ++ [socket_ip addr]).

Definition remove_block_peer (pl : PeerList) (peer : PeerId) : PeerList * option PeerId :=
  match position (fun x => bool_decide (x = peer)) (pl_block_peers pl) with
  | None => (pl, None)
  | Some pos =>
      (with_blocks pl (delete pos (pl_block_peers pl)) (pl_block_ips pl), pl_block_peers pl !! pos)
  end.

Definition remove_block_addr (pl : PeerList) (addr : SocketAddr) : PeerList * option IpAddr :=
  match position (fun x => bool_decide (x = socket_ip addr)) (pl_block_ips pl) with
  | None => (pl, None)
  | Some pos =>
      (with_blocks pl (pl_block_peers pl) (delete pos (pl_block_ips pl)), pl_block_ips pl !! pos)
  end.

(** ** Connections *)

(** [add_dht], with the random key the table draws: the list, the answer, and
    what is saved. *)
Definition PeerList_add_dht (pl : PeerList) (value_key : u32) (v : KadValue)
    : PeerList * bool * option (string * string) :=
  let '(pl, saved) :=
    if peer_is_pub (kv_peer v) && negb (bool_decide (kv_peer v ∈ pl_allows pl)) then
      let pl := add_bootstrap pl (kv_peer v) in
      (pl, Some (PeerList_save pl))
    else (pl, None) in
  let '(dhts, ok) := DoubleKadTree_add (pl_dhts pl) value_key v in
  (with_dhts pl dhts, ok, saved).

(** [add_stable]: the list, and the session that is told to close. *)
Definition PeerList_add_stable (pl : PeerList) (peer_id : PeerId) (v : KadValue) (is_direct : bool)
    : PeerList * option SessionSender :=
  match pl_stables pl !! peer_id with
  | Some (old, _) =>
      (with_stables pl (<[peer_id := (v, is_direct)]> (pl_stables pl)), Some (kv_session old))
  | None =>
      let pl := add_allow_peer pl peer_id in
      (with_stables pl (<[peer_id := (v, is_direct)]> (pl_stables pl)), None)
  end.

Definition PeerList_stable_to_dht (pl : PeerList) (value_key : u32) (peer_id : PeerId)
    : PeerList * res unit :=
  let '(pl, _) := remove_allow_peer pl peer_id in
  match pl_stables pl !! peer_id with
  | Some (v, is_direct) =>
      let pl := with_stables pl (delete peer_id (pl_stables pl)) in
      if is_direct : bool then
        let '(dhts, ok) := DoubleKadTree_add (pl_dhts pl) value_key v in
        (with_dhts pl dhts, if ok then Ok () else Err "stable is closed")
      else (pl, Err "stable is closed")
  | None => (pl, Err "stable is closed")
  end.

Definition PeerList_dht_to_stable (pl : PeerList) (peer_id : PeerId) : PeerList * res unit :=
  let '(dhts, o) := DoubleKadTree_remove (pl_dhts pl) peer_id in
  let pl := with_dhts pl dhts in
  match o with
  | Some v =>
      let pl := add_allow_peer pl peer_id in
      (with_stables pl (<[peer_id := (v, true)]> (pl_stables pl)), Ok ())
  | None => (pl, Err "DHT is closed")
  end.

End PeerList.

(** ** Lemmas: the saved file *)

Definition no_newline (s : string) : Prop :=
  Forall (fun c => c <> newline /\ c <> "013"%char) (String.list_ascii_of_string s).

Lemma no_newline_app (s t : string) : no_newline s -> no_newline t -> no_newline (s +:+ t).
Proof. unfold no_newline. rewrite list_ascii_app. apply Forall_app_2. Qed.

Lemma no_newline_digits (z : Z) : no_newline (show_dec z).
Proof.
  eapply Forall_impl; [apply show_dec_digits|]. intros c [d Hd].
  split; intros ->; by vm_compute in Hd.
Qed.

Lemma no_newline_concat (sep : string) (l : list string) :
  no_newline sep -> Forall no_newline l -> no_newline (String.concat sep l).
Proof.
  intros Hs Hl. induction Hl as [|s l Hx Hl IH]; [by constructor|].
  destruct l as [|t l]; [done|]. cbn [String.concat] in *. by repeat apply no_newline_app.
Qed.

Lemma no_newline_ipv4 (a : arr 4) : no_newline (show_ipv4 a).
Proof.
  apply no_newline_concat; [by repeat constructor|]. apply Forall_forall.
  intros s (b & -> & _)%list_elem_of_fmap. apply no_newline_digits.
Qed.

Lemma no_newline_hex (z : Z) : (0 <= z < 65536)%Z -> no_newline (show_hex z).
Proof.
  unfold show_hex. generalize 4 as fuel. intros fuel. revert z. induction fuel as [|fuel IH]; intros z Hz;
    [by constructor|]. cbn [show_hex_go].
  assert (forall d, (0 <= d < 16)%Z -> no_newline (String (hex_digit d) EmptyString)) as Hd.
  { intros d Hd. apply Forall_cons_2; [|by constructor]. unfold hex_digit, newline.
    assert (In d [0; 1; 2; 3; 4; 5; 6; 7; 8; 9; 10; 11; 12; 13; 14; 15]%Z) as Hin by (simpl; lia).
    simpl in Hin. repeat (destruct Hin as [<-|Hin]; [by split|]). done. }
  destruct (Z.ltb_spec z 16); [apply Hd; lia|]. apply no_newline_app.
  - apply IH. split; [apply Z.div_pos; lia|]. apply Z.div_lt_upper_bound; lia.
  - apply Hd, Z.mod_pos_bound. lia.
Qed.

Lemma segments_range (l : list byte) : Forall (fun z => 0 <= z < 65536)%Z (segments l).
Proof.
  assert (forall n l, length l <= n -> Forall (fun z => 0 <= z < 65536)%Z (segments l)) as H.
  { intros n. induction n as [|n IH]; intros [|a [|b k]] Hn; simpl in *; try constructor; try lia.
    - pose proof (byte_to_Z_range a). pose proof (byte_to_Z_range b). lia.
    - apply IH. lia. }
  by eapply H.
Qed.

Lemma no_newline_segments (l : list Z) :
  Forall (fun z => 0 <= z < 65536)%Z l -> no_newline (show_segments l).
Proof.
  intros Hl. apply no_newline_concat; [by repeat constructor|]. apply Forall_forall.
  intros s (z & -> & Hz)%list_elem_of_fmap. apply no_newline_hex.
  rewrite Forall_forall in Hl. by apply Hl.
Qed.

Lemma no_newline_ip (ip : IpAddr) : no_newline (show_ip ip).
Proof.
  destruct ip as [a|a]; [apply no_newline_ipv4|]. unfold show_ip, show_ipv6.
  pose proof (segments_range (arr_list a)) as Hs.
  destruct (bool_decide _).
  - destruct (arr_of_list 4 _); [|by constructor].
    apply no_newline_app; [by repeat constructor|apply no_newline_ipv4].
  - destruct (zero_run _ _ _ _ _ _) as [start len]. destruct (1 <? len)%nat; [|by apply no_newline_segments].
    repeat apply no_newline_app; try (by repeat constructor);
      apply no_newline_segments; [by apply Forall_take|by apply Forall_drop].
Qed.

Lemma no_newline_multiaddr (p : Peer) : no_newline (Peer_to_multiaddr_string p).
Proof.
  unfold Peer_to_multiaddr_string. repeat apply no_newline_app; try (by repeat constructor).
  - unfold ip_version. case_match; by repeat constructor.
  - apply no_newline_ip.
  - destruct (peer_transport p); by repeat constructor.
  - apply no_newline_digits.
Qed.

Abbreviation append_line := (fun file_string addr =>
  file_string +:+ String newline EmptyString +:+ Peer_to_multiaddr_string addr).

Lemma append_lines_shift (l : list Peer) (a t : string) :
  foldl append_line (a +:+ t) l = a +:+ foldl append_line t l.
Proof. revert a t. induction l as [|p l IH]; intros a t; [done|]. cbn [foldl]. by rewrite str_app_assoc, IH. Qed.

Lemma saved_pieces (l : list Peer) (acc : string) :
  no_newline acc ->
  str_split newline (foldl append_line acc l) = acc :: map Peer_to_multiaddr_string l.
Proof.
  revert acc. induction l as [|p l IH]; intros acc Hacc; cbn [foldl map].
  - apply str_split_last. eapply Forall_impl; [done|]. by intros c [? _].
  - rewrite append_lines_shift.
    rewrite (append_lines_shift l (String newline EmptyString) (Peer_to_multiaddr_string p)).
    change (String newline EmptyString +:+ ?x) with (String newline x).
    rewrite str_split_app by (eapply Forall_impl; [done|]; by intros c [? _]).
    f_equal. apply IH, no_newline_multiaddr.
Qed.

Lemma strip_cr_id (s : string) : no_newline s -> strip_cr s = s.
Proof.
  induction s as [|c s IH]; [done|]. intros [[_ Hc] Hs]%Forall_cons. cbn [strip_cr].
  destruct s as [|d s]; [by rewrite bool_decide_false|]. by rewrite IH.
Qed.

Lemma load_line_skip (allows : list Peer) (s : string) :
  s = EmptyString \/ (exists p, s = Peer_to_multiaddr_string p) -> load_line allows s = Ok allows.
Proof.
  unfold load_line. intros [->|[p ->]]; [done|]. by rewrite multiaddr_string_rejected.
Qed.

Lemma load_lines_skip (allows : list Peer) (lines : list string) :
  Forall (fun s => s = EmptyString \/ exists p, s = Peer_to_multiaddr_string p) lines ->
  load_lines lines allows = Ok allows.
Proof.
  intros Hl. induction Hl as [|s lines Hs _ IH]; [done|]. cbn [load_lines].
  rewrite load_line_skip by done. exact IH.
Qed.

(** Every line of a saved file is empty or an address. *)
Lemma saved_lines (l : list Peer) :
  Forall (fun s => s = EmptyString \/ exists p, s = Peer_to_multiaddr_string p)
    (text_lines (foldl append_line EmptyString l)).
Proof.
  assert (Forall (fun s => s = EmptyString \/ exists p, s = Peer_to_multiaddr_string p)
            (EmptyString :: map Peer_to_multiaddr_string l)) as Hall.
  { apply Forall_cons_2; [by left|]. apply Forall_forall.
    intros s (p & -> & _)%list_elem_of_fmap. by right; exists p. }
  unfold text_lines. rewrite saved_pieces by by constructor.
  set (pieces := EmptyString :: map Peer_to_multiaddr_string l) in *.
  assert (Forall (fun s => s = EmptyString \/ exists p, s = Peer_to_multiaddr_string p)
            (removelast pieces)) as Hinit.
  { destruct pieces as [|s0 pieces] using rev_ind; [done|].
    rewrite removelast_last. by apply Forall_app in Hall as [? _]. }
  apply Forall_app_2.
  - apply Forall_forall. intros s (s' & -> & Hin)%list_elem_of_fmap.
    rewrite Forall_forall in Hinit. destruct (Hinit _ Hin) as [->|[p ->]]; [by left|].
    right. exists p. apply strip_cr_id, no_newline_multiaddr.
  - destruct (last pieces) as [s|] eqn:E; [|by constructor].
    rewrite Forall_forall in Hall.
    assert (s ∈ pieces) as Hin by (by eapply last_Some_elem_of).
    destruct s as [|c s]; [by constructor|]. constructor; [|by constructor]. by apply Hall.
Qed.

(** ** Lemmas: connections *)

Section ConnectionFacts.
Context `{BitVecLib}.

Definition peer_list_wf (pl : PeerList) : Prop := table_wf (pl_dhts pl).

Lemma add_allow_peer_dhts (pl : PeerList) (p : PeerId) :
  pl_dhts (add_allow_peer pl p) = pl_dhts pl /\ pl_stables (add_allow_peer pl p) = pl_stables pl.
Proof. unfold add_allow_peer. by case_match. Qed.

Lemma add_bootstrap_dhts (pl : PeerList) (p : Peer) :
  pl_dhts (add_bootstrap pl p) = pl_dhts pl /\ pl_stables (add_bootstrap pl p) = pl_stables pl.
Proof. unfold add_bootstrap. by case_match. Qed.

Lemma remove_allow_peer_dhts (pl : PeerList) (p : PeerId) :
  pl_dhts (remove_allow_peer pl p).1 = pl_dhts pl /\
  pl_stables (remove_allow_peer pl p).1 = pl_stables pl.
Proof. unfold remove_allow_peer. by case_match. Qed.

Lemma table_contains_search (d : DoubleKadTree) (key : PeerId) :
  table_wf d ->
  DoubleKadTree_contains d key = true <-> exists v, DoubleKadTree_search d key = Some (v, true).
Proof.
  intros Hwf. pose proof (table_search_spec d key Hwf) as Hs.
  unfold DoubleKadTree_contains. rewrite KadTree_contains_keys by apply Hwf.
  change (KadTree_keys (dk_peers d)) with (DoubleKadTree_keys d).
  destruct (DoubleKadTree_search d key) as [[v [|]]|].
  - split; [by eauto|]. intros _. apply Hs.
  - split; [by intros ?; destruct Hs|]. by intros [? ?].
  - split; [by intros ?; destruct Hs|]. by intros [? ?].
Qed.

Lemma position_Some {A : Type} (f : A -> bool) (l : list A) (i : nat) :
  position f l = Some i -> exists x, l !! i = Some x /\ f x = true.
Proof.
  revert i. induction l as [|x l IH]; intros i; [done|]. simpl. destruct (f x) eqn:E.
  - intros [= <-]. by exists x.
  - destruct (position f l) as [j|]; [|done]. intros [= <-]. by apply IH.
Qed.

Lemma position_None {A : Type} (f : A -> bool) (l : list A) :
  position f l = None -> Forall (fun x => f x = false) l.
Proof.
  induction l as [|x l IH]; [by constructor|]. simpl. destruct (f x) eqn:E; [done|].
  destruct (position f l); [done|]. intros _. constructor; auto.
Qed.

Lemma PeerList_add_dht_search (pl : PeerList) (k : u32) (v : KadValue) :
  peer_list_wf pl -> (DoubleKadTree_add (pl_dhts pl) k v).2 = true ->
  (PeerList_add_dht pl k v).1.2 = true /\
  DoubleKadTree_search (pl_dhts (PeerList_add_dht pl k v).1.1) (peer_id (kv_peer v)) = Some (v, true).
Proof.
  intros Hwf Ha. unfold PeerList_add_dht.
  destruct (if _ && _ then _ else _) as [pl1 saved] eqn:E1.
  assert (pl_dhts pl1 = pl_dhts pl) as Ed.
  { destruct (_ && _); injection E1 as <- <-; [apply add_bootstrap_dhts|done]. }
  rewrite Ed. pose proof (table_add_search (pl_dhts pl) k v Hwf Ha) as Hs.
  destruct (DoubleKadTree_add (pl_dhts pl) k v) as [d ok]. done.
Qed.

(** ** Properties *)

(** C39: a saved peer list is not read back.  The saved form of an address starts
    with a version field the parser takes for the address, so [load] skips every
    line of the file [save] writes and starts from the configured allow list
    alone. *)
Theorem peer_list_save_load (pl : PeerList) (me : PeerId) (path : string) (allows : list Peer)
    (bp : list PeerId) (bi : list IpAddr) :
  PeerList_load me path (Some (PeerList_save pl).2) allows bp bi =
  Ok (mkPeerList path allows bp bi (DoubleKadTree_new me unspecified_socket) ∅).
Proof.
  unfold PeerList_load, PeerList_save. cbn [snd].
  rewrite load_lines_skip by apply saved_lines. done.
Qed.

(** Routing.  [get] answers with the peer itself exactly when the list
    contains it, a stable connection goes before the table, and otherwise the
    answer is the table's. *)
Theorem peer_list_routing (pl : PeerList) (p : PeerId) :
  peer_list_wf pl ->
  (PeerList_contains pl p = true <-> exists s e, PeerList_get pl p = Some (s, e, true)) /\
  (forall v is_direct, pl_stables pl !! p = Some (v, is_direct) ->
     PeerList_get pl p = Some (kv_session v, kv_stream v, true)) /\
  (pl_stables pl !! p = None -> PeerList_get pl p = dht_get pl p).
Proof.
  intros Hwf. unfold PeerList_contains, PeerList_get, stable_get.
  destruct (pl_stables pl !! p) as [[v d]|] eqn:E; simpl.
  - split_and!; [|by intros ? ? [= <- <-]|done]. split; [|done]. by eauto.
  - split_and!; [|done|done]. rewrite table_contains_search by exact Hwf. unfold dht_get. split.
    + intros [v ->]. simpl. by eauto.
    + destruct (DoubleKadTree_search (pl_dhts pl) p) as [[v b]|]; [|by intros (? & ? & ?)].
      simpl. intros (s & e & [= _ _ ->]). by eauto.
Qed.

(** Moving a peer between the table and the stable connections.
    [dht_to_stable] moves the peer's own entry, as a direct connection, or fails
    and leaves the stable connections as they were when the table does not hold
    it.  [stable_to_dht] always takes the peer off the stable connections; it
    succeeds exactly for a direct connection the table accepts, which is then
    found there with the same channels. *)
Theorem peer_list_moves (pl : PeerList) (value_key : u32) (p : PeerId) :
  peer_list_wf pl -> dk_values (pl_dhts pl) !! value_key = None ->
  (let '(pl', r) := PeerList_dht_to_stable pl p in
   peer_list_wf pl' /\ DoubleKadTree_contains (pl_dhts pl') p = false /\
   match r with
   | Ok _ => exists v, peer_id (kv_peer v) = p /\ DoubleKadTree_contains (pl_dhts pl) p = true /\
             pl_stables pl' = <[p := (v, true)]> (pl_stables pl)
   | _ => DoubleKadTree_contains (pl_dhts pl) p = false /\ pl_stables pl' = pl_stables pl
   end) /\
  (let '(pl', r) := PeerList_stable_to_dht pl value_key p in
   peer_list_wf pl' /\ pl_stables pl' = delete p (pl_stables pl) /\
   match r with
   | Ok _ => exists v, pl_stables pl !! p = Some (v, true) /\
             DoubleKadTree_search (pl_dhts pl') (peer_id (kv_peer v)) = Some (v, true)
   | _ => forall v, pl_stables pl !! p = Some (v, true) ->
            (DoubleKadTree_add (pl_dhts pl) value_key v).2 = false
   end).
Proof.
  intros Hwf Hf. split.
  - unfold PeerList_dht_to_stable. pose proof (table_remove_spec (pl_dhts pl) p Hwf) as Hs.
    pose proof (table_remove_gone (pl_dhts pl) p Hwf) as Hg.
    destruct (DoubleKadTree_remove (pl_dhts pl) p) as [dhts o]. destruct Hs as [Hwf' Ho].
    destruct o as [v|].
    + destruct (add_allow_peer_dhts (with_dhts pl dhts) p) as [Ed Es]. unfold peer_list_wf.
      cbn [with_stables pl_dhts pl_stables]. rewrite Ed, Es. cbn [with_dhts pl_dhts pl_stables].
      split; [done|]. split; [done|]. exists v. destruct Ho as (c & E & Ek & _ & _ & Hid).
      split; [done|]. split; [|done]. apply KadTree_contains_keys; [apply Hwf|].
      rewrite KadTree_keys_cells, E, <- Ek. by left.
    + split; [done|]. split; [done|]. split; [|done]. destruct Ho as (_ & _ & Hk).
      apply not_true_is_false. intros Hc. by apply KadTree_contains_keys in Hc; [|apply Hwf].
  - unfold PeerList_stable_to_dht. destruct (remove_allow_peer_dhts pl p) as [Ed Es].
    destruct (remove_allow_peer pl p) as [pl1 o]. cbn [fst] in Ed, Es. rewrite Es.
    destruct (pl_stables pl !! p) as [[v [|]]|] eqn:E.
    + cbn [with_stables with_dhts pl_dhts]. rewrite Ed.
      pose proof (table_add_spec (pl_dhts pl) value_key v Hwf Hf) as Hs.
      pose proof (table_add_search (pl_dhts pl) value_key v Hwf) as Hfound.
      destruct (DoubleKadTree_add (pl_dhts pl) value_key v) as [d' [|]] eqn:Ea; destruct Hs as [Hwf' _].
      * split; [done|]. split; [done|]. exists v. split; [done|]. by apply Hfound.
      * split; [done|]. split; [done|]. intros v' [= <-]. by rewrite Ea.
    + unfold peer_list_wf. cbn [with_stables pl_dhts pl_stables]. rewrite Ed. done.
    + unfold peer_list_wf. rewrite Ed, Es. split; [done|]. split; [|done].
      by rewrite delete_id.
Qed.

(** [add_stable] stores the new channels, and exactly when the peer already
    had a stable connection the replaced session is told to close; the peer is in
    the allow list afterwards when it was new. *)
Theorem peer_list_add_stable (pl : PeerList) (p : PeerId) (v : KadValue) (is_direct : bool) :
  let '(pl', closed) := PeerList_add_stable pl p v is_direct in
  pl_stables pl' = <[p := (v, is_direct)]> (pl_stables pl) /\ pl_dhts pl' = pl_dhts pl /\
  closed = kv_session <$> (fst <$> pl_stables pl !! p) /\
  (closed = None -> exists a, a ∈ pl_allows pl' /\ peer_id a = p) /\
  (forall a, a ∈ pl_allows pl -> a ∈ pl_allows pl').
Proof.
  unfold PeerList_add_stable. destruct (pl_stables pl !! p) as [[old d]|] eqn:E; simpl.
  - done.
  - destruct (add_allow_peer_dhts pl p) as [Ed Es]. rewrite Ed, Es. split_and!; try done.
    + intros _. unfold add_allow_peer. destruct (forallb _ _) eqn:Ef.
      * exists (Peer_of_id p). split; [|done]. simpl. apply elem_of_app. right. by left.
      * apply not_true_iff_false in Ef. rewrite forallb_forall in Ef.
        destruct (decide (Exists (fun a => peer_id a = p) (pl_allows pl))) as [Hx|Hx].
        -- by apply Exists_exists in Hx.
        -- destruct Ef. intros a Ha. apply negb_true_iff, bool_decide_false.
           intros Hp. destruct Hx. apply Exists_exists. exists a. by rewrite list_elem_of_In.
    + intros a Ha. unfold add_allow_peer. destruct (forallb _ _); [|done].
      simpl. apply elem_of_app. by left.
Qed.

End ConnectionFacts.

(** ** Witnesses *)

#[local] Existing Instance toy_bitvec.

Definition toy_list : PeerList := mkPeerList "peer_list" [] [] [] toy_table ∅.

Lemma toy_list_wf : peer_list_wf toy_list.
Proof. exact (table_reachable_wf _ _ _ toy_table_reachable). Qed.

Lemma peer_list_routing_witness :
  PeerList_contains toy_list (toy_id xff) = true /\
  exists s e, PeerList_get toy_list (toy_id xff) = Some (s, e, true).
Proof.
  assert (PeerList_contains toy_list (toy_id xff) = true) as E by (by vm_compute).
  split; [exact E|].
  destruct (peer_list_routing toy_list (toy_id xff) toy_list_wf) as [Hc _].
  destruct Hc as [Hc _]. exact (Hc E).
Defined.

Lemma peer_list_moves_witness :
  is_ok (PeerList_dht_to_stable toy_list (toy_id xff)).2 = true /\
  DoubleKadTree_contains (pl_dhts (PeerList_dht_to_stable toy_list (toy_id xff)).1) (toy_id xff) = false.
Proof.
  assert (dk_values (pl_dhts toy_list) !! to_uint 32 8 = None) as Hf by (by vm_compute).
  assert (is_ok (PeerList_dht_to_stable toy_list (toy_id xff)).2 = true) as Hok by (by vm_compute).
  pose proof (peer_list_moves toy_list (to_uint 32 8) (toy_id xff) toy_list_wf Hf) as [Hs _].
  destruct (PeerList_dht_to_stable toy_list (toy_id xff)) as [pl' r]. split; [exact Hok|].
  destruct Hs as (_ & Hc & _). exact Hc.
Defined.
