(* ===== verification/Global.v ===== *)
(** * Shared state, messages and the effects of a task (src/global.rs)

    Every task of the program works on the state the [Global] record shares: the
    peer list, the buffer and the started transports.  [World] is that state with
    the log of what tasks send, write and spawn; a task is a function of the world
    in the monad [M], which ends in a value, an [Err], a panic or not at all.

    A channel is named by a number; the receiving half of a channel may be gone,
    which the environment [Env] says, and a send to it fails.  Channels have no
    capacity: a [send] that would wait is a send that is accepted later.  A handler
    runs from one wait for a message to the next without interleaving. *)

From S2P Require Import Prelude Net Types Keys Wire Kad Buffer PeerList.
From stdpp Require Import list_relations list.

#[global] Instance TransportType_countable : Countable TransportType.
Proof.
  refine (inj_countable TransportType_to_byte
    (fun b => match TransportType_from_byte b with Ok t => Some t | _ => None end) _).
  by intros [].
Defined.

(** [hole_punching::_handle]: none of the three requests is acted on. *)
Definition hole_handle `{BitVecLib} (remote_peer : PeerId) (hole : Hole) (peers : PeerList) : res () :=
  match hole with
  | StunOne => Ok ()
  | StunTwo => Ok ()
  | Help => Ok ()
  end.

(** ** Messages *)

Record EndpointReceiver : Set := mkEndpointReceiver { endpoint_recv : N }.
Record SessionReceiver : Set := mkSessionReceiver { session_recv : N }.
Record TransSender : Set := mkTransSender { trans_chan : N }.

(** [TransportStream] (types/src/types.rs): the channels of a byte stream; two are
    equal when their transports are. *)
Record TransportStream : Set := mkTransportStream {
  ts_transport : TransportType;
  ts_sender : N;
  ts_receiver : N
}.

Definition TransportStream_eq (a b : TransportStream) : bool :=
  bool_decide (ts_transport a = ts_transport b).

Definition TransportStream_new (transport : TransportType) (sender receiver : N) : TransportStream :=
  mkTransportStream transport sender receiver.

Definition TransportStream_channel (s : TransportStream) : N * N := (ts_sender s, ts_receiver s).

(** Messages of the application: types/src/message.rs. *)
Inductive StreamType : Set :=
| ST_Req (p : Peer)
| ST_Res (is_ok : bool)
| ST_Ok (s : TransportStream).

Inductive ReceiveMessage : Set :=
| RM_StableConnect (p : Peer) (data : list byte)
| RM_StableResult (p : Peer) (is_ok : bool) (data : list byte)
| RM_ResultConnect (p : Peer) (data : list byte)
| RM_StableLeave (p : PeerId)
| RM_Data (p : PeerId) (data : list byte)
| RM_Stream (symbol : u32) (t : StreamType) (data : list byte)
| RM_Delivery (t : DeliveryType) (tid : u64) (is_ok : bool) (data : list byte)
| RM_NetworkLost.

Inductive StateRequest : Set := SR_Stable | SR_DHT | SR_Seed.

Inductive StateResponse : Set :=
| SP_Stable (peers : list (PeerId * bool))
| SP_DHT (peers : list PeerId)
| SP_Seed (peers : list Peer).

Inductive SendMessage : Set :=
| SD_StableResult (tid : u64) (p : Peer) (is_ok is_force : bool) (data : list byte)
| SD_StableConnect (tid : u64) (p : Peer) (data : list byte)
| SD_StableDisconnect (p : PeerId)
| SD_Connect (p : Peer)
| SD_DisConnect (p : Peer)
| SD_Data (tid : u64) (p : PeerId) (data : list byte)
| SD_Broadcast (b : Broadcast) (data : list byte)
| SD_Stream (symbol : u32) (t : StreamType) (data : list byte)
| SD_NetworkState (req : StateRequest) (sender : N)
| SD_NetworkReboot.

(** [SessionMessage] (src/session.rs) *)
Inductive SessionMessage : Set :=
| SM_Data (tid : u64) (data : list byte)
| SM_StableConnect (tid : u64) (data : list byte)
| SM_StableResult (tid : u64) (is_ok is_force : bool) (data : list byte)
| SM_RelayData (from to : PeerId) (data : list byte)
| SM_RelayConnect (from : RemotePublic) (to : PeerId)
| SM_RelayResult (remote : RemotePublic) (sender : SessionSender)
| SM_RelayClose (p : PeerId)
| SM_Close
| SM_DirectIncoming (p : Peer) (stream_sender : EndpointSender) (stream_receiver : EndpointReceiver)
    (endpoint_sender : EndpointSender).

(** [TransportSendMessage] (src/transports.rs) *)
Inductive TransportSendMessage : Set :=
| TS_Connect (addr : SocketAddr) (remote_pk : RemotePublic) (session_key : SessionKey)
| TS_StableConnect (sender : EndpointSender) (receiver : EndpointReceiver) (addr : SocketAddr)
    (remote_pk : RemotePublic).

(** [TransportRecvMessage] (src/transports.rs) *)
Record TransportRecvMessage : Set := mkTransportRecv {
  tr_addr : SocketAddr;
  tr_remote : RemotePublic;
  tr_is_self : option SessionKey;
  tr_stream_sender : EndpointSender;
  tr_stream_receiver : EndpointReceiver;
  tr_endpoint_sender : EndpointSender
}.

(** [OutType] of the two transports: whom a new connection is for.  The channel
    to the server is the same for all connections. *)
Inductive OutType : Set :=
| OT_DHT (self_sender : EndpointSender) (out_receiver : EndpointReceiver)
| OT_Stable.

(** [ConnectType] and [Session] (src/session.rs); the receivers are named by
    their channels. *)
Inductive ConnectType : Set :=
| Direct (s : EndpointSender)
| Relay (s : SessionSender).

#[global] Instance ConnectType_eq_dec : EqDecision ConnectType.
Proof. solve_decision. Defined.

Record Session : Type := mkSession {
  remote_peer : Peer;
  session_sender : SessionSender;
  stream_receiver : EndpointReceiver;
  s_endpoint : ConnectType;
  session_key : SessionKey;
  is_recv_data : bool;
  is_stable : bool;
  heartbeat : u32;
  relay_sessions : gmap PeerId SessionSender
}.

Definition Session_new (remote_peer : Peer) (session_sender : SessionSender)
    (stream_receiver : EndpointReceiver) (endpoint : ConnectType) (session_key : SessionKey)
    (is_recv_data : bool) : Session :=
  mkSession remote_peer session_sender stream_receiver endpoint session_key is_recv_data false
    (to_uint 32 0) ∅.

(** What a task does outside the shared state. *)
Inductive Event : Type :=
| Ev_session (to : SessionSender) (m : SessionMessage)
| Ev_endpoint (to : EndpointSender) (m : EndpointMessage)
| Ev_out (m : ReceiveMessage)
| Ev_trans (to : TransSender) (m : TransportSendMessage)
| Ev_state (to : N) (r : StateResponse)
| Ev_write (path text : string)
| Ev_write_key (path : string) (bytes : list byte)
| Ev_start (peer : Peer)
| Ev_session_spawn (s : Session) (r : SessionReceiver)
| Ev_direct_stable (tid : u64) (delivery : list byte) (to : Peer) (is_recv_data : bool)
| Ev_relay_stable (tid : u64) (delivery : list byte) (to : Peer) (relay : SessionSender)
    (is_recv_data : bool)
(** what the connections of a transport do: a connection handed to the server, bytes
    offered to the socket of a connection, and the tasks that are spawned *)
| Ev_incoming (m : TransportRecvMessage)
| Ev_socket (conn : N) (bytes : list byte)
| Ev_process (conn : N) (out_sender : EndpointSender) (self_receiver : EndpointReceiver)
    (out_type : OutType) (has_session : option SessionKey)
| Ev_connect (m : TransportSendMessage).

(** ** The monad *)

Inductive outcome (A : Type) : Type :=
| Done (a : A)
| Fail (e : string)
| Crash
| Hang.
Arguments Done {A} a.
Arguments Fail {A} e.
Arguments Crash {A}.
Arguments Hang {A}.

Definition M (S A : Type) : Type := S -> outcome A * S.

#[global] Instance M_ret (S : Type) : MRet (M S) := fun A a s => (Done a, s).

#[global] Instance M_bind (S : Type) : MBind (M S) := fun A B f m s =>
  match m s with
  | (Done a, s) => f a s
  | (Fail e, s) => (Fail e, s)
  | (Crash, s) => (Crash, s)
  | (Hang, s) => (Hang, s)
  end.

Definition fail {S A : Type} (e : string) : M S A := fun s => (Fail e, s).
Definition crash {S A : Type} : M S A := fun s => (Crash, s).
Definition hang {S A : Type} : M S A := fun s => (Hang, s).
Definition gets {S A : Type} (f : S -> A) : M S A := fun s => (Done (f s), s).
Definition modify {S : Type} (f : S -> S) : M S () := fun s => (Done (), f s).

(** [let _ = m;]: an [Err] is dropped. *)
Definition ignore {S A : Type} (m : M S A) : M S () := fun s =>
  match m s with
  | (Done _, s) | (Fail _, s) => (Done (), s)
  | (Crash, s) => (Crash, s)
  | (Hang, s) => (Hang, s)
  end.

Definition when {S : Type} (b : bool) (m : M S ()) : M S () := if b then m else mret ().

(** [for x in l { f(x)?; }] *)
Fixpoint for_each {S A : Type} (l : list A) (f : A -> M S ()) : M S () :=
  match l with
  | [] => mret ()
  | x :: l => f x ;; for_each l f
  end.

Definition of_res {S A : Type} (r : res A) : M S A :=
  match r with
  | Ok a => mret a
  | Err e => fail e
  | Panic => crash
  end.

(** ** Shared state *)

Section Global.
Context `{BitVecLib, CryptoLib}.

(** The fields of [Global] that do not change. *)
Record Global : Type := mkGlobal {
  g_peer : Peer;
  g_key : Keypair;
  is_relay_data : bool;
  delivery_length : nat
}.

(** What the environment decides: the receivers that are gone, how the start of a
    QUIC endpoint ends (it is opened, it cannot be opened, or it panics), and the
    numbers the random generator draws. *)
Record Env : Type := mkEnv {
  session_gone : SessionSender -> bool;
  endpoint_gone : EndpointSender -> bool;
  trans_gone : TransSender -> bool;
  out_gone : bool;
  quic_starts : Peer -> res ();
  random_session : nat -> SessionRandom;
  random_key : nat -> u32
}.

Record World : Type := mkWorld {
  w_peer_list : PeerList;
  w_buffer : Buffer;
  w_transports : gmap TransportType TransSender;
  w_channels : N;
  w_draws : nat;
  w_log : list Event
}.

Definition set_peer_list (pl : PeerList) (w : World) : World :=
  mkWorld pl (w_buffer w) (w_transports w) (w_channels w) (w_draws w) (w_log w).
Definition set_buffer (b : Buffer) (w : World) : World :=
  mkWorld (w_peer_list w) b (w_transports w) (w_channels w) (w_draws w) (w_log w).
Definition set_transports (t : gmap TransportType TransSender) (w : World) : World :=
  mkWorld (w_peer_list w) (w_buffer w) t (w_channels w) (w_draws w) (w_log w).
Definition add_event (e : Event) (w : World) : World :=
  mkWorld (w_peer_list w) (w_buffer w) (w_transports w) (w_channels w) (w_draws w) (w_log w ++ [e]).
Definition drawn (w : World) : World :=
  mkWorld (w_peer_list w) (w_buffer w) (w_transports w) (w_channels w) (S (w_draws w)) (w_log w).
Definition channel_made (w : World) : World :=
  mkWorld (w_peer_list w) (w_buffer w) (w_transports w) (w_channels w + 1) (w_draws w) (w_log w).

Definition peer_id_of (g : Global) : PeerId := peer_id (g_peer g).

Context (g : Global) (env : Env).

Definition emit (e : Event) : M World () := modify (add_event e).

(** [sender.send(msg).await.map_err(..)] on the four kinds of channels *)
Definition send_session (s : SessionSender) (m : SessionMessage) (e : string) : M World () :=
  if session_gone env s then fail e else emit (Ev_session s m).

Definition send_endpoint (s : EndpointSender) (m : EndpointMessage) (e : string) : M World () :=
  if endpoint_gone env s then fail e else emit (Ev_endpoint s m).

Definition send_trans (s : TransSender) (m : TransportSendMessage) (e : string) : M World () :=
  if trans_gone env s then fail e else emit (Ev_trans s m).

(** [new_endpoint_channel] and [new_session_channel] *)
Definition new_channel : M World N :=
  n ← gets w_channels; modify channel_made ;; mret n.

Definition new_endpoint_channel : M World (EndpointSender * EndpointReceiver) :=
  n ← new_channel; mret (mkEndpointSender n, mkEndpointReceiver n).

Definition new_session_channel : M World (SessionSender * SessionReceiver) :=
  n ← new_channel; mret (mkSessionSender n, mkSessionReceiver n).

(** The draw of the random generator. *)
Definition draw {A : Type} (f : nat -> A) : M World A :=
  n ← gets w_draws; modify drawn ;; mret (f n).

Definition remote_public (session_key : SessionKey) : RemotePublic :=
  mkRemotePublic (Keypair_public (g_key g)) (g_peer g) (out_bytes session_key).

(** [generate_remote]: the loop leaves with the first key that can be made;
    whether one can be made does not depend on what is drawn
    ([generate_session_key_same]), so a first failure repeats for ever. *)
Definition generate_remote : M World (SessionKey * RemotePublic) :=
  r ← draw (random_session env);
  match generate_session_key (g_key g) r with
  | Ok session_key => mret (session_key, remote_public session_key)
  | Err _ => hang
  | Panic => crash
  end.

Definition complete_remote (remote_key : Keypair) (dh_bytes : list byte)
    : M World (option (SessionKey * RemotePublic)) :=
  r ← draw (random_session env);
  match complete_session_key (g_key g) r remote_key dh_bytes with
  | Ok (Some session_key) => mret (Some (session_key, remote_public session_key))
  | Ok None => mret None
  | Err e => fail e
  | Panic => crash
  end.

(** [transports::start] of a transport that only connects: TCP always starts, QUIC
    makes its configuration, which panics when no certificate can be made, and opens an
    endpoint, the other types panic. *)
Definition transports_start (peer : Peer) : M World TransSender :=
  n ← new_channel;
  match peer_transport peer with
  | TCP => emit (Ev_start peer) ;; mret (mkTransSender n)
  | QUIC => of_res (quic_starts env peer) ;; emit (Ev_start peer) ;; mret (mkTransSender n)
  | _ => crash
  end.

Definition with_transport (p : Peer) (t : TransportType) : Peer :=
  mkPeer (peer_id p) (peer_socket p) t (peer_is_pub p).

Definition trans_send (trans_type : TransportType) (msg : TransportSendMessage) : M World () :=
  transports ← gets w_transports;
  match transports !! trans_type with
  | Some sender => send_trans sender msg "Transport missing"
  | None =>
      let new_peer := Peer_zero_port (with_transport (g_peer g) trans_type) in
      trans_send ← transports_start new_peer;
      send_trans trans_send msg "Transport missing" ;;
      modify (fun w => set_transports (<[trans_type := trans_send]> (w_transports w)) w)
  end.

Definition out_send (msg : ReceiveMessage) : M World () :=
  if out_gone env then fail "Outside missing" else emit (Ev_out msg).

Definition save_file (f : option (string * string)) : M World () :=
  match f with
  | Some (path, text) => emit (Ev_write path text)
  | None => mret ()
  end.

(** Updates of the two locked structures. *)
Definition on_buffer {A : Type} (f : Buffer -> Buffer * A) : M World A :=
  b ← gets w_buffer;
  let '(b, a) := f b in
  modify (set_buffer b) ;; mret a.

Definition on_peer_list {A : Type} (f : PeerList -> PeerList * A) : M World A :=
  pl ← gets w_peer_list;
  let '(pl, a) := f pl in
  modify (set_peer_list pl) ;; mret a.

Definition global_add_tmp (p : PeerId) (k : KadValue) (d : bool) : M World (list (u64 * list byte)) :=
  on_buffer (fun b =>
    let '(b, stables) := Buffer_remove_connect b p in
    (Buffer_add_tmp b p k d, stables)).

Definition global_add_all_tmp (p : PeerId) (kv : KadValue) (is_direct : bool)
    : M World (list (u64 * list byte) * list (u64 * list byte)) :=
  on_buffer (fun b =>
    let '(b, connects) := Buffer_remove_connect b p in
    let '(b, results) := Buffer_remove_result b p in
    (Buffer_add_tmp b p kv is_direct, (connects, results))).

(** [PeerList::add_stable] with its [try_send] of [Close]. *)
Definition world_add_stable (p : PeerId) (v : KadValue) (is_d : bool) : M World () :=
  closed ← on_peer_list (fun pl => PeerList_add_stable pl p v is_d);
  match closed with
  | Some s => ignore (send_session s SM_Close "closed")
  | None => mret ()
  end.

(** [PeerList::add_dht] with the file it saves. *)
Definition world_add_dht (v : KadValue) : M World bool :=
  value_key ← draw (random_key env);
  '(ok, saved) ← on_peer_list (fun pl =>
    let '(pl, ok, saved) := PeerList_add_dht pl value_key v in (pl, (ok, saved)));
  save_file saved ;; mret ok.

Definition global_upgrade (p : PeerId) : M World () :=
  v_some ← on_buffer (fun b => Buffer_remove_tmp b p);
  match v_some with
  | Some (v, is_d) => world_add_stable p v is_d
  | None => r ← on_peer_list (fun pl => PeerList_dht_to_stable pl p); of_res r
  end.

Definition global_tmp_to_dht (p : PeerId) : M World () :=
  v_some ← on_buffer (fun b => Buffer_remove_tmp b p);
  match v_some with
  | Some (v, true) =>
      ok ← world_add_dht v;
      if (ok : bool) then mret () else fail "missing buffer"
  | _ => fail "missing buffer"
  end.

Definition global_stable_to_dht (p : PeerId) : M World () :=
  on_buffer (fun b => Buffer_remove_tmp b p) ;;
  on_buffer (fun b => (Buffer_remove_stable b p, ())) ;;
  value_key ← draw (random_key env);
  r ← on_peer_list (fun pl => PeerList_stable_to_dht pl value_key p);
  of_res r.

End Global.

(** Whether a session key can be made depends on the key pair alone. *)
Lemma generate_session_key_same `{CryptoLib} (k : Keypair) (r r' : SessionRandom) (e : string) :
  generate_session_key k r = Err e -> generate_session_key k r' = Err e.
Proof.
  unfold generate_session_key, KeyType_session_key, Keypair_sign, KeyType_sign.
  destruct (kp_key k); try done.
  destruct (copy_from_slice 32 (kp_sk k)) as [sk| |]; cbn [mbind res_bind map_err]; try done.
  destruct (copy_from_slice 32 (kp_pk k)) as [pk| |]; cbn [mbind res_bind map_err]; try done.
  destruct (copy_from_slice 64 _) as [b| |]; cbn [mbind res_bind map_err]; try done.
  by destruct (ed_keypair_from_bytes b).
Qed.
