(* ===== verification/Session.v ===== *)
(** * Sessions (src/session.rs)

    A session runs one connection with a remote peer: it answers the messages of
    the server and of other sessions ([handle_outside]), of the transport
    ([handle_endpoint]) and the heartbeat, and takes its entries out of the shared
    state when it ends ([close], [listen]).  The state of a task is the session
    record with the world. *)

From S2P Require Import Prelude Net Types Keys Wire Kad Buffer PeerList Global.
From stdpp Require Import list_relations list.

Section Session.
Context `{BitVecLib, CryptoLib}.
Context (g : Global) (env : Env).

Definition SW : Type := Session * World.

(** An operation on the world alone. *)
Definition world {A : Type} (m : M World A) : M SW A := fun '(s, w) =>
  let '(r, w) := m w in (r, (s, w)).

Definition self {A : Type} (f : Session -> A) : M SW A := gets (fun sw => f sw.1).
Definition set_self (f : Session -> Session) : M SW () := modify (fun sw => (f sw.1, sw.2)).
Definition shared {A : Type} (f : World -> A) : M SW A := gets (fun sw => f sw.2).

Definition my_id : PeerId := peer_id_of g.
Definition remote_id (s : Session) : PeerId := peer_id (remote_peer s).

Definition is_direct (s : Session) : bool :=
  match s_endpoint s with
  | Direct _ => true
  | Relay _ => false
  end.

Definition set_stable (b : bool) (s : Session) : Session :=
  mkSession (remote_peer s) (session_sender s) (stream_receiver s) (s_endpoint s) (session_key s)
    (is_recv_data s) b (heartbeat s) (relay_sessions s).
Definition set_recv_data (b : bool) (s : Session) : Session :=
  mkSession (remote_peer s) (session_sender s) (stream_receiver s) (s_endpoint s) (session_key s)
    b (is_stable s) (heartbeat s) (relay_sessions s).
Definition set_heartbeat (h : u32) (s : Session) : Session :=
  mkSession (remote_peer s) (session_sender s) (stream_receiver s) (s_endpoint s) (session_key s)
    (is_recv_data s) (is_stable s) h (relay_sessions s).
Definition set_relay_sessions (m : gmap PeerId SessionSender) (s : Session) : Session :=
  mkSession (remote_peer s) (session_sender s) (stream_receiver s) (s_endpoint s) (session_key s)
    (is_recv_data s) (is_stable s) (heartbeat s) m.

(** The stream, the endpoint and the peer of a session that becomes direct. *)
Definition set_direct (p : Peer) (r : EndpointReceiver) (e : EndpointSender) (s : Session) : Session :=
  mkSession p (session_sender s) r (Direct e) (session_key s)
    (is_recv_data s) (is_stable s) (heartbeat s) (relay_sessions s).

Definition session_out_send (m : ReceiveMessage) : M SW () := world (out_send env m).

Definition direct_send (m : EndpointMessage) : M SW () :=
  endpoint ← self s_endpoint;
  match endpoint with
  | Direct sender => world (send_endpoint env sender m "Endpoint missing")
  | Relay _ => mret ()
  end.

Definition relay_send (m : SessionMessage) : M SW () :=
  endpoint ← self s_endpoint;
  match endpoint with
  | Relay sender => world (send_session env sender m "Endpoint missing")
  | Direct _ => mret ()
  end.

Definition session_close (is_leave : bool) : M SW () :=
  s ← self id;
  let p := remote_id s in
  (if is_stable s then
     ignore (session_out_send (RM_StableLeave p)) ;;
     when (negb (is_direct s)) (ignore (relay_send (SM_RelayClose my_id))) ;;
     if is_leave then
       world (on_peer_list (fun pl => (stable_leave pl p, ()))) ;;
       ignore (direct_send EM_Close)
     else when (is_direct s) (world (global_stable_to_dht env p))
   else if is_direct s then
     if is_leave then
       world (on_buffer (fun b => (fst (Buffer_remove_tmp b p), ()))) ;;
       world (on_peer_list (fun pl => (fst (remove_peer pl p), ())))
     else world (global_tmp_to_dht env p)
   else world (on_buffer (fun b => (fst (Buffer_remove_tmp b p), ())))) ;;
  fail "close session".

(** [tid != 0] *)
Definition nonzero (tid : u64) : bool := negb (uval tid =? 0)%Z.

(** The feedback for data that cannot be sent. *)
Definition failure_delivery (t : DeliveryType) (tid : u64) (data : list byte) : M SW () :=
  when (nonzero tid)
    (session_out_send (RM_Delivery t tid false (delivery_split data (delivery_length g)))).

(** [CoreData::from_bytes(self.session_key.decrypt(e_data)?)], with the two
    failures and the panic apart. *)
Definition open_core_data (k : SessionKey) (e_data : list byte) : res (res CoreData) :=
  match SessionKey_decrypt k e_data with
  | Ok bytes => Ok (CoreData_from_bytes bytes)
  | Err e => Err e
  | Panic => Panic
  end.

Definition failure_send (e_data : list byte) : M SW () :=
  k ← self session_key;
  match open_core_data k e_data with
  | Ok (Ok msg) =>
      match msg with
      | CD_Ping | CD_Pong | CD_Unstable | CD_Delivery _ _ _ => mret ()
      | CD_Data tid data => failure_delivery DT_Data tid data
      | CD_StableConnect tid data => failure_delivery DT_StableConnect tid data
      | CD_StableResult tid _ data => failure_delivery DT_StableResult tid data
      | CD_ResultConnect tid data => failure_delivery DT_StableResult tid data
      end
  | Ok Panic | Panic => crash
  | _ => mret ()
  end.

Definition send_core_data (data : CoreData) : M SW () :=
  s ← self id;
  let e_data := SessionKey_encrypt (session_key s) (CoreData_to_bytes data) in
  if is_direct s then direct_send (EM_Data e_data)
  else relay_send (SM_RelayData my_id (remote_id s) e_data).

(** The answer to a message that asks for feedback. *)
Definition deliver_back (t : DeliveryType) (tid : u64) (data : list byte) : M SW () :=
  when (nonzero tid) (send_core_data (CD_Delivery t tid data)).

Definition handle_core_data (e_data : list byte) : M SW () :=
  s ← self id;
  match open_core_data (session_key s) e_data with
  | Ok (Ok msg) =>
      match msg with
      | CD_Ping => send_core_data CD_Pong
      | CD_Pong => set_self (set_heartbeat (to_uint 32 0))
      | CD_Data tid p_data =>
          when (is_recv_data s)
            (let delivery_data := delivery_split p_data (delivery_length g) in
             session_out_send (RM_Data (remote_id s) p_data) ;;
             deliver_back DT_Data tid delivery_data)
      | CD_Delivery t tid data =>
          when (nonzero tid)
            match t with
            | DT_Data => when (is_recv_data s) (session_out_send (RM_Delivery t tid true data))
            | _ => session_out_send (RM_Delivery t tid true data)
            end
      | CD_StableConnect tid data =>
          let delivery_data := delivery_split data (delivery_length g) in
          session_out_send (RM_StableConnect (remote_peer s) data) ;;
          deliver_back DT_StableConnect tid delivery_data
      | CD_StableResult tid is_ok data =>
          let delivery_data := delivery_split data (delivery_length g) in
          session_out_send (RM_StableResult (remote_peer s) is_ok data) ;;
          deliver_back DT_StableResult tid delivery_data
      | CD_ResultConnect tid data =>
          let delivery_data := delivery_split data (delivery_length g) in
          session_out_send (RM_ResultConnect (remote_peer s) data) ;;
          deliver_back DT_StableResult tid delivery_data
      | CD_Unstable => session_close false
      end
  | Ok Panic | Panic => crash
  | _ => mret ()
  end.

Definition session_upgrade : M SW () :=
  set_self (set_stable true) ;;
  set_self (set_recv_data true) ;;
  p ← self remote_id;
  world (global_upgrade env p).

(** A message this session cannot relay itself goes to the session the table
    names. *)
Definition relay_again (to : PeerId) (m : SessionMessage) : M SW () :=
  pl ← shared w_peer_list;
  match dht_get pl to with
  | Some (ss, _, _) => ignore (world (send_session env ss m "missing"))
  | None => mret ()
  end.

Definition handle_outside (msg : SessionMessage) : M SW () :=
  s ← self id;
  match msg with
  | SM_Data tid data => send_core_data (CD_Data tid data)
  | SM_StableConnect tid data =>
      send_core_data (CD_StableConnect tid data) ;;
      when (negb (is_stable s)) session_upgrade
  | SM_StableResult tid is_ok is_force data =>
      send_core_data (CD_StableResult tid is_ok data) ;;
      when (negb (is_stable s) && is_ok) session_upgrade ;;
      stable ← self is_stable;
      when (negb stable && negb is_ok) (session_close false) ;;
      if is_force then fail "force close" else mret ()
  | SM_RelayData from to data =>
      if bool_decide (to = remote_id s) && bool_decide (from = my_id) then failure_send data
      else if is_direct s then direct_send (EM_RelayData from to data)
      else relay_again to (SM_RelayData from to data)
  | SM_RelayConnect from_peer to =>
      if bool_decide (to = remote_id s) && bool_decide (RemotePublic_id from_peer = my_id) then mret ()
      else if is_direct s then direct_send (EM_RelayHandshake from_peer to)
      else relay_again to (SM_RelayConnect from_peer to)
  | SM_RelayResult _ _ => mret ()
  | SM_RelayClose p => set_self (fun s => set_relay_sessions (delete p (relay_sessions s)) s)
  | SM_Close => session_close false
  | SM_DirectIncoming p _ stream_receiver endpoint_sender =>
      ignore (relay_send (SM_RelayClose my_id)) ;;
      set_self (set_direct p stream_receiver endpoint_sender)
  end.

(** A connection to a peer that help brought. *)
Definition connect_peer (p : Peer) : M World () :=
  '(session_key, remote_pk) ← generate_remote g env;
  ignore (trans_send g env (peer_transport p) (TS_Connect (peer_socket p) remote_pk session_key)).

Definition handle_endpoint (msg : EndpointMessage) : M SW () :=
  s ← self id;
  match msg with
  | EM_Close => fail "close"
  | EM_Handshake _ => mret ()
  | EM_DHT peers =>
      for_each peers (fun p =>
        pl ← shared w_peer_list;
        when (negb (bool_decide (peer_id p = my_id)) && negb (PeerList_contains pl (peer_id p)))
          (world (connect_peer p)))
  | EM_Hole _ => mret ()
  | EM_HoleConnect => mret ()
  | EM_Data e_data => handle_core_data e_data
  | EM_RelayData from to data =>
      if bool_decide (to = my_id) then
        if bool_decide (from = remote_id s) then handle_core_data data
        else
          pl ← shared w_peer_list;
          match get_stable_stream pl from with
          | Some stream_sender => ignore (world (send_endpoint env stream_sender (EM_Data data) "missing"))
          | None =>
              b ← shared w_buffer;
              match get_tmp_stream b from with
              | Some stream_sender => ignore (world (send_endpoint env stream_sender (EM_Data data) "missing"))
              | None => when (is_recv_data s) (session_out_send (RM_Data from data))
              end
          end
      else
        when (is_relay_data g)
          (pl ← shared w_peer_list;
           match PeerList_next_closest pl to (remote_id s) with
           | Some sender => ignore (world (send_session env sender (SM_RelayData from to data) "missing"))
           | None => mret ()
           end)
  | EM_RelayHandshake from_peer to =>
      if bool_decide (to = my_id) then
        let remote_peer_id := RemotePublic_id from_peer in
        if bool_decide (remote_peer_id = my_id) then mret ()
        else
          b ← shared w_buffer;
          match get_tmp_session b remote_peer_id with
          | Some sender =>
              ignore (world (send_session env sender (SM_RelayResult from_peer (session_sender s)) "missing"))
          | None =>
              result ← world (complete_remote g env (rp_key from_peer) (rp_dh from_peer));
              match result with
              | None => mret ()
              | Some (new_session_key, new_remote_pk) =>
                  '(new_stream_sender, new_stream_receiver) ← world new_endpoint_channel;
                  '(new_session_sender, new_session_receiver) ← world new_session_channel;
                  world (on_buffer (fun b =>
                    (Buffer_add_tmp b remote_peer_id
                       (mkKadValue new_session_sender new_stream_sender (rp_peer from_peer)) false, ()))) ;;
                  world (emit (Ev_session_spawn
                    (Session_new (rp_peer from_peer) new_session_sender new_stream_receiver
                       (Relay (session_sender s)) new_session_key false)
                    new_session_receiver)) ;;
                  direct_send (EM_RelayHandshake new_remote_pk remote_peer_id)
              end
          end
      else
        when (is_relay_data g)
          (pl ← shared w_peer_list;
           match PeerList_next_closest pl to (remote_id s) with
           | Some sender => ignore (world (send_session env sender (SM_RelayConnect from_peer to) "missing"))
           | None => mret ()
           end)
  end.

(** [self.heartbeat += 1] cannot overflow: it follows the check. *)
Definition handle_heartbeat : M SW () :=
  h ← self heartbeat;
  if (3 <? uval h)%Z then fail "timeout"
  else
    set_self (set_heartbeat (to_uint 32 (uval h + 1))) ;;
    send_core_data CD_Ping.

Definition handle_robust : M SW () := mret ().

(** [FutureResult]: what the [select!] of [forever] can give. *)
Inductive FutureResult : Set :=
| FR_Out (m : SessionMessage)
| FR_Endpoint (m : EndpointMessage)
| FR_HeartBeat
| FR_Robust.

(** One turn of the loop of [forever]. *)
Definition forever_step (f : FutureResult) : M SW () :=
  match f with
  | FR_Out m => handle_outside m
  | FR_Endpoint m => handle_endpoint m
  | FR_HeartBeat => handle_heartbeat
  | FR_Robust => handle_robust
  end.

(** [forever] on the sequence of results the [select!] gives; the end of the
    sequence is the [None] of a closed channel. *)
Definition forever (l : list FutureResult) : M SW () := for_each l forever_step.

Definition listen (l : list FutureResult) : M SW () :=
  ignore (forever l) ;; session_close true.

(** ** Opening a stable connection *)

(** A session that runs inside a task. *)
Definition run_session {A : Type} (s : Session) (m : M SW A) : M World A := fun w =>
  let '(r, (_, w)) := m (s, w) in (r, w).

(** The feedback of a failed stable connection. *)
Definition stable_failure (tid : u64) (delivery : list byte) : M World () :=
  when (nonzero tid) (out_send env (RM_Delivery DT_StableConnect tid false delivery)).

(** What a new stable session does first: the buffered requests and results, the
    upgrade, and then its loop. *)
Definition stable_session (connects results : list (u64 * list byte)) (l : list FutureResult) : M SW () :=
  for_each connects (fun '(tid, data) => send_core_data (CD_StableConnect tid data)) ;;
  for_each results (fun '(tid, data) => send_core_data (CD_ResultConnect tid data)) ;;
  stable ← self is_stable;
  when (negb stable) session_upgrade ;;
  listen l.

(** [relay_stable]; [msg] is what the [select!] over the session channel and the
    ten-second timer gives, [l] what the loop of the session receives. *)
Definition relay_stable (tid : u64) (delivery : list byte) (to : Peer) (relay_sender : SessionSender)
    (recv_data : bool) (msg : option SessionMessage) (l : list FutureResult) : M World () :=
  '(stream_sender, stream_receiver) ← new_endpoint_channel;
  '(session_sender, session_receiver) ← new_session_channel;
  '(session_key, remote_pk) ← generate_remote g env;
  '(connects, results) ← global_add_all_tmp (peer_id to)
    (mkKadValue session_sender stream_sender Peer_default) false;
  send_session env relay_sender (SM_RelayConnect remote_pk (peer_id to)) "Session missing" ;;
  match msg with
  | Some (SM_RelayResult (mkRemotePublic remote_key remote_peer dh_key) recv_ss) =>
      let remote_id := Keypair_peer_id remote_key in
      let remove_tmp := on_buffer (fun b => (fst (Buffer_remove_tmp b (peer_id to)), ())) in
      if negb (bool_decide (remote_id = peer_id to)) then
        remove_tmp ;; fail "session stable unknown peer."
      else if bool_decide (remote_id = my_id) then
        remove_tmp ;; stable_failure tid delivery ;; fail "session stable self failure."
      else
        '(session_key, ok) ← of_res (SessionKey_complete session_key (kp_pk remote_key) dh_key);
        if negb ok then remove_tmp ;; fail "session stable key failure."
        else
          on_buffer (fun b => (Buffer_update_peer b (peer_id to) remote_peer, ())) ;;
          run_session
            (Session_new remote_peer session_sender stream_receiver (Relay recv_ss) session_key recv_data)
            (stable_session connects results l)
  | _ =>
      stable_failure tid delivery ;;
      on_buffer (fun b => (fst (Buffer_remove_tmp b (peer_id to)), ())) ;;
      fail "session relay reach faiure."
  end.

(** [direct_stable]; [answer] is what the transport sends back on the stream,
    [msg] and [l] as in [relay_stable]. *)
Definition direct_stable (tid : u64) (delivery : list byte) (to : Peer) (recv_data : bool)
    (answer : option EndpointMessage) (msg : option SessionMessage) (l : list FutureResult) : M World () :=
  '(endpoint_sender, endpoint_receiver) ← new_endpoint_channel;
  '(stream_sender, stream_receiver) ← new_endpoint_channel;
  '(session_key, remote_pk) ← generate_remote g env;
  trans_send g env (peer_transport to)
    (TS_StableConnect stream_sender endpoint_receiver (peer_socket to) remote_pk) ;;
  match answer with
  | Some (EM_Handshake (mkRemotePublic remote_key remote_peer dh_key)) =>
      let remote_id := Keypair_peer_id remote_key in
      if negb (Peer_effective_id to) && negb (bool_decide (remote_id = peer_id to)) then
        fail "session stable unknown peer."
      else if bool_decide (remote_id = my_id) then
        ignore (send_endpoint env endpoint_sender EM_Close "missing") ;;
        stable_failure tid delivery ;;
        fail "session stable self failure."
      else
        '(session_key, ok) ← of_res (SessionKey_complete session_key (kp_pk remote_key) dh_key);
        if negb ok then
          on_buffer (fun b => (fst (Buffer_remove_connect b (peer_id to)), ())) ;;
          fail "session stable key failure."
        else
          let remote_peer := nat_peer (peer_socket to) remote_peer in
          '(session_sender, session_receiver) ← new_session_channel;
          buffers ← global_add_tmp remote_id (mkKadValue session_sender stream_sender remote_peer) true;
          run_session
            (Session_new remote_peer session_sender stream_receiver (Direct endpoint_sender) session_key
               recv_data)
            (stable_session buffers [] l)
  | _ =>
      pl ← gets w_peer_list;
      match PeerList_get pl (peer_id to) with
      | Some (ss, _, _) => relay_stable tid delivery to ss recv_data msg l
      | None =>
          stable_failure tid delivery ;;
          on_buffer (fun b => (fst (Buffer_remove_connect b (peer_id to)), ())) ;;
          fail "no closest peer."
      end
  end.

End Session.
