(* ===== verification/Server.v ===== *)
(** * The server (src/server.rs, src/config.rs)

    The two loops of the server: incoming connections with the two timers, and
    the requests of the application; and what [start] does before them.  A loop
    handles one message after the other; each handler is a definition on its own,
    with [continue] as its early end. *)

From Stdlib Require Import Ascii.
From S2P Require Import Prelude Net Types Keys Wire Kad Buffer PeerList Global Session.
From stdpp Require Import list_relations list.

Record Config : Set := mkConfig {
  cfg_db_dir : string;
  cfg_peer : Peer;
  cfg_allowlist : list Peer;
  cfg_blocklist : list IpAddr;
  cfg_allow_peer_list : list PeerId;
  cfg_block_peer_list : list PeerId;
  cfg_permission : bool;
  cfg_only_stable_data : bool;
  cfg_delivery_length : nat
}.

Definition Config_default (peer : Peer) : Config :=
  mkConfig "./" peer [] [] [] [] false false 0.

Definition Config_new (db_dir : string) (peer : Peer) (allowlist : list Peer) (blocklist : list IpAddr)
    (allow_peer_list block_peer_list : list PeerId) (permission only_stable_data : bool)
    (delivery_length : nat) : Config :=
  mkConfig db_dir peer allowlist blocklist allow_peer_list block_peer_list permission
    only_stable_data delivery_length.

Section Server.
Context `{BitVecLib, CryptoLib}.
Context (g : Global) (env : Env) (recv_data : bool).

(** ** Incoming connections *)

(** [let _ = endpoint_sender.send(EndpointMessage::Close).await;] *)
Definition refuse (endpoint_sender : EndpointSender) : M World () :=
  ignore (send_endpoint env endpoint_sender EM_Close "missing").

(** Step 3: the session key, when the handshake is valid. *)
Definition incoming_key (m : TransportRecvMessage) : M World (option SessionKey) :=
  let '(mkRemotePublic remote_key _ dh_key) := tr_remote m in
  match tr_is_self m with
  | Some session_key =>
      '(session_key, ok) ← of_res (SessionKey_complete session_key (kp_pk remote_key) dh_key);
      mret (if ok : bool then Some session_key else None)
  | None =>
      r ← complete_remote g env remote_key dh_key;
      match r with
      | Some (session_key, remote_pk) =>
          ignore (send_endpoint env (tr_endpoint_sender m) (EM_Handshake remote_pk) "missing") ;;
          mret (Some session_key)
      | None => mret None
      end
  end.

Definition handle_incoming (m : TransportRecvMessage) : M World () :=
  let '(mkTransportRecv addr (mkRemotePublic remote_key remote_peer dh_key) is_self stream_sender
          stream_receiver endpoint_sender) := m in
  pl ← gets w_peer_list;
  if is_block_addr pl addr then refuse endpoint_sender
  else
    let remote_id := Keypair_peer_id remote_key in
    let remote_peer := nat_peer addr remote_peer in
    if bool_decide (remote_id = peer_id_of g) || is_block_peer pl remote_id then refuse endpoint_sender
    else
      key ← incoming_key m;
      match key with
      | None => refuse endpoint_sender
      | Some session_key =>
          pl ← gets w_peer_list;
          match is_relay pl remote_id with
          | Some ss =>
              ignore (send_session env ss
                (SM_DirectIncoming remote_peer stream_sender stream_receiver endpoint_sender) "missing")
          | None =>
              '(session_sender, session_receiver) ← new_session_channel;
              let kv := mkKadValue session_sender stream_sender remote_peer in
              is_new ← world_add_dht env kv;
              if negb is_new then refuse endpoint_sender
              else
                pl ← gets w_peer_list;
                let peers := help_dht pl remote_id in
                ignore (send_endpoint env endpoint_sender (EM_DHT peers) "missing") ;;
                emit (Ev_session_spawn
                  (Session_new remote_peer session_sender stream_receiver (Direct endpoint_sender)
                     session_key recv_data)
                  session_receiver)
          end
      end.

(** The check timer and the clear timer. *)
Definition handle_check : M World () :=
  pl ← gets w_peer_list;
  when (PeerList_is_empty pl) (ignore (out_send env RM_NetworkLost)).

Definition handle_clear : M World () :=
  closed ← on_buffer timer_clear;
  for_each closed (fun s => ignore (send_session env s SM_Close "missing")).

(** ** Requests of the application *)

(** The feedback of a request that cannot be met. *)
Definition request_failure (t : DeliveryType) (tid : u64) (data : list byte) : M World () :=
  when (nonzero tid)
    (ignore (out_send env (RM_Delivery t tid false (delivery_split data (delivery_length g))))).

(** Start of a new stable connection, direct when the address is known. *)
Definition spawn_stable (tid : u64) (delivery : list byte) (to : Peer) (ss : SessionSender) : M World () :=
  if Peer_effective_socket to then emit (Ev_direct_stable tid delivery to recv_data)
  else emit (Ev_relay_stable tid delivery to ss recv_data).

Definition handle_stable_connect (tid : u64) (to : Peer) (data : list byte) : M World () :=
  if bool_decide (peer_id to = peer_id_of g) then request_failure DT_StableConnect tid data
  else
    pl ← gets w_peer_list;
    match PeerList_get pl (peer_id to) with
    | None => request_failure DT_StableConnect tid data
    | Some (s, _, true) => ignore (send_session env s (SM_StableConnect tid data) "missing")
    | Some (ss, _, false) =>
        b ← gets w_buffer;
        match get_tmp_session b (peer_id to) with
        | Some sender => ignore (send_session env sender (SM_StableConnect tid data) "missing")
        | None =>
            let delivery := delivery_split data (delivery_length g) in
            had ← on_buffer (fun b => Buffer_add_connect b (peer_id to) tid data);
            if (had : bool) then mret () else spawn_stable tid delivery to ss
        end
    end.

Definition handle_stable_result (tid : u64) (to : Peer) (is_ok is_force : bool) (data : list byte)
    : M World () :=
  if bool_decide (peer_id to = peer_id_of g) then request_failure DT_StableResult tid data
  else
    b ← gets w_buffer;
    match get_tmp_session b (peer_id to) with
    | Some sender => ignore (send_session env sender (SM_StableResult tid is_ok is_force data) "missing")
    | None =>
        pl ← gets w_peer_list;
        match PeerList_get pl (peer_id to) with
        | None => request_failure DT_StableResult tid data
        | Some (s, _, true) => ignore (send_session env s (SM_StableResult tid is_ok is_force data) "missing")
        | Some (ss, _, false) =>
            if negb is_ok then mret ()
            else
              b ← gets w_buffer;
              match get_tmp_session b (peer_id to) with
              | Some sender =>
                  ignore (send_session env sender (SM_StableResult tid is_ok is_force data) "missing")
              | None =>
                  let delivery := delivery_split data (delivery_length g) in
                  had ← on_buffer (fun b => Buffer_add_result b (peer_id to) tid data);
                  if (had : bool) then mret () else spawn_stable tid delivery to ss
              end
        end
    end.

Definition handle_data (tid : u64) (to : PeerId) (data : list byte) : M World () :=
  if bool_decide (to = peer_id_of g) then
    when (nonzero tid)
      (ignore (out_send env (RM_Delivery DT_Data tid true (delivery_split data (delivery_length g))))) ;;
    ignore (out_send env (RM_Data to data))
  else
    pl ← gets w_peer_list;
    match PeerList_get pl to with
    | Some (sender, _, true) => ignore (send_session env sender (SM_Data tid data) "missing")
    | Some (sender, _, false) =>
        ignore (send_session env sender (SM_RelayData (peer_id_of g) to data) "missing")
    | None => request_failure DT_Data tid data
    end.

(** [SessionMessage::Data(0, data.clone())] to every session. *)
Definition send_all (l : list SessionSender) (data : list byte) : M World () :=
  for_each l (fun sender => ignore (send_session env sender (SM_Data (to_uint 64 0) data) "missing")).

Definition handle_request (m : SendMessage) : M World () :=
  match m with
  | SD_StableConnect tid to data => handle_stable_connect tid to data
  | SD_StableResult tid to is_ok is_force data => handle_stable_result tid to is_ok is_force data
  | SD_StableDisconnect pid =>
      pl ← gets w_peer_list;
      match PeerList_get pl pid with
      | Some (sender, _, true) => ignore (send_session env sender SM_Close "missing")
      | _ => mret ()
      end
  | SD_Connect peer => connect_peer g env peer
  | SD_DisConnect peer =>
      saved ← on_peer_list (fun pl => peer_disconnect pl (peer_socket peer));
      save_file saved
  | SD_Data tid to data => handle_data tid to data
  | SD_Broadcast StableAll data =>
      pl ← gets w_peer_list;
      send_all (map (fun '(_, (sender, _)) => sender) (map_to_list (stable_all pl))) data
  | SD_Broadcast Gossip data =>
      pl ← gets w_peer_list;
      send_all (map snd (map_to_list (PeerList_all pl))) data
  | SD_Stream _ _ _ => mret ()
  | SD_NetworkState SR_Stable res_sender =>
      pl ← gets w_peer_list;
      emit (Ev_state res_sender
        (SP_Stable (map (fun '(id, (_, is_direct)) => (id, is_direct)) (map_to_list (stable_all pl)))))
  | SD_NetworkState SR_DHT res_sender =>
      pl ← gets w_peer_list; emit (Ev_state res_sender (SP_DHT (dht_keys pl)))
  | SD_NetworkState SR_Seed res_sender =>
      pl ← gets w_peer_list; emit (Ev_state res_sender (SP_Seed (bootstrap pl)))
  | SD_NetworkReboot =>
      pl ← gets w_peer_list;
      for_each (bootstrap pl) (connect_peer g env)
  end.

(** The results of the first loop's [select!]. *)
Inductive ServerEvent : Set :=
| SE_Trans (m : TransportRecvMessage)
| SE_Check
| SE_Clear
| SE_Request (m : SendMessage).

Definition server_step (e : ServerEvent) : M World () :=
  match e with
  | SE_Trans m => handle_incoming m
  | SE_Check => handle_check
  | SE_Clear => handle_clear
  | SE_Request m => handle_request m
  end.

End Server.

(** ** Start *)

(** [PathBuf::push] of a relative component. *)
Definition path_push (base component : string) : string :=
  match last (String.list_ascii_of_string base) with
  | None => component
  | Some c => if bool_decide (c = "/"%char) then base +:+ component
              else base +:+ "/" +:+ component
  end.

Definition STORAGE_NAME : string := "p2p".
Definition STORAGE_KEY_KEY : string := "key".
Definition STORAGE_PEER_LIST_KEY : string := "peer_list".

(** What [start] finds: the directory and the two files, whether it can write,
    the secret the key generator draws, and the address the transport is bound to
    ([None]: it cannot be started, where [start] panics, through its own [expect] or
    through the [unwrap] of the QUIC configuration). *)
Record Startup : Type := mkStartup {
  st_dir_exists : bool;
  st_create_dir : bool;
  st_key_file : option (list byte);
  st_write_key : bool;
  st_peer_file : option string;
  st_secret : arr 32;
  st_bound : option SocketAddr
}.

Section Start.
Context `{BitVecLib, CryptoLib}.

(** The key pair of the node: the stored one, or a new one with the file it is
    saved to. *)
Definition load_key (st : Startup) (key_path : string) : res (Keypair * list Event) :=
  match Keypair_from_db_bytes (default [] (st_key_file st)) with
  | Ok keypair => Ok (keypair, [])
  | Err _ =>
      let key := generate_kepair Ed25519 (st_secret st) in
      if st_write_key st then Ok (key, [Ev_write_key key_path (Keypair_to_db_bytes key)])
      else Err "write"
  | Panic => Panic
  end.

(** [start] up to the spawn of the two loops: the shared record and the world
    they start from. *)
Definition server_start (config : Config) (st : Startup) (env : Env) : outcome (Global * World) :=
  let allowlist := cfg_allowlist config ++ map Peer_of_id (cfg_allow_peer_list config) in
  let db_dir := path_push (cfg_db_dir config) STORAGE_NAME in
  if negb (st_dir_exists st) && negb (st_create_dir st) then Fail "create_dir_all"
  else
    let key_path := path_push db_dir STORAGE_KEY_KEY in
    match load_key st key_path with
    | Err e => Fail e
    | Panic => Crash
    | Ok (key, log) =>
        let peer_id := Keypair_peer_id key in
        let peer_list_path := path_push db_dir STORAGE_PEER_LIST_KEY in
        match PeerList_load peer_id peer_list_path (st_peer_file st) allowlist
                (cfg_block_peer_list config) (cfg_blocklist config) with
        | Err e => Fail e
        | Panic => Crash
        | Ok peer_list =>
            match peer_transport (cfg_peer config), st_bound st with
            | RTP, _ | UDT, _ | _, None => Crash
            | transport, Some local_addr =>
                let peer := mkPeer peer_id local_addr transport (peer_is_pub (cfg_peer config)) in
                let g := mkGlobal peer key (negb (cfg_permission config)) (cfg_delivery_length config) in
                let w := mkWorld peer_list Buffer_init {[ transport := mkTransSender 0 ]} 1 0 log in
                match for_each (bootstrap peer_list) (connect_peer g env) w with
                | (Done _, w) => Done (g, w)
                | (Fail e, _) => Fail e
                | (Crash, _) => Crash
                | (Hang, _) => Hang
                end
            end
        end
    end.

End Start.
