(* ===== verification/Connect.v ===== *)
(** * Connections (src/transports/tcp.rs, src/transports/quic.rs)

    The tasks of a transport: the listener, the task that dials what it is asked to,
    and the task of one connection ([process_stream]).  Each is written in the
    monad of the shared state.  The network is a parameter of a task: what arrives
    on a connection, whether a dial succeeds, and the messages the session gives the
    connection to send, until it drops its sender or sends [Close].

    The two halves of a connection share nothing, so the order in which their
    effects are logged, the writing half first, is one of many. *)

From S2P Require Import Prelude Net Types Keys Wire Transport Kad Buffer PeerList Global Session Server.
From stdpp Require Import list_relations list.

Section Connect.
Context `{BitVecLib, CryptoLib}.
Context (env : Env) (server_gone : bool).

(** [sender.send(TransportRecvMessage(..)).await.map_err(..)] *)
Definition send_incoming (m : TransportRecvMessage) (e : string) : M World () :=
  if server_gone then fail e else emit (Ev_incoming m).

(** The announcement of a connection whose handshake was read. *)
Definition announce (addr : SocketAddr) (remote_pk : RemotePublic) (out_sender : EndpointSender)
    (out_type : OutType) (has_session : option SessionKey) : M World () :=
  match out_type with
  | OT_Stable => send_endpoint env out_sender (EM_Handshake remote_pk) "endpoint channel missing"
  | OT_DHT self_sender out_receiver =>
      send_incoming (mkTransportRecv addr remote_pk has_session out_sender out_receiver self_sender)
        "server channel missing"
  end.

(** [let _ = out_sender.send(msg).await;] for what a reading half reads *)
Definition forward (out_sender : EndpointSender) (l : list EndpointMessage) : M World () :=
  for_each l (fun msg => ignore (send_endpoint env out_sender msg "missing")).

(** ** TCP *)

(** A connection: its number, what [peer_addr] gives, what arrives, and how far the
    writes of the dial and those of the messages get. *)
Record TcpConn : Type := mkTcpConn {
  tc_id : N;
  tc_peer_addr : option SocketAddr;
  tc_stream : Stream;
  tc_dial_write : SocketWrite;
  tc_writes : nat -> SocketWrite
}.

(** [process_stream]; [reads] bounds the reads of the connection, [self_messages]
    are what [self_receiver] gives. *)
Definition tcp_process_stream (reads : nat) (c : TcpConn) (out_sender : EndpointSender)
    (self_messages : list EndpointMessage) (out_type : OutType) (has_session : option SessionKey)
    : M World () :=
  match tc_peer_addr c with
  | None => fail "peer_addr"
  | Some addr =>
      match tcp_handshake reads (tc_stream c) with
      | (None, _) => mret ()
      | (Some remote_pk, st) =>
          announce addr remote_pk out_sender out_type has_session ;;
          emit (Ev_socket (tc_id c) (tcp_writer (tc_writes c) self_messages)) ;;
          let '(l, ended) := tcp_reader reads st in
          forward out_sender l ;;
          if ended : bool then mret () else hang
      end
  end.

(** [run_listen]: every connection gets its channels and its task; the loop ends
    when [accept] fails. *)
Definition tcp_run_listen (accepted : list TcpConn) : M World () :=
  for_each accepted (fun c =>
    '(self_sender, self_receiver) ← new_endpoint_channel;
    '(out_sender, out_receiver) ← new_endpoint_channel;
    emit (Ev_process (tc_id c) out_sender self_receiver (OT_DHT self_sender out_receiver) None)) ;;
  fail "accept".

(** [run_self_recv]: a task per request. *)
Definition tcp_run_self_recv (recv : list TransportSendMessage) : M World () :=
  for_each recv (fun m => emit (Ev_connect m)).

(** The task of a request: [dialed] is what [TcpStream::connect] gives. *)
Definition tcp_connect (reads : nat) (dialed : option TcpConn) (self_messages : list EndpointMessage)
    (m : TransportSendMessage) : M World () :=
  match m with
  | TS_Connect _ remote_pk session_key =>
      match dialed with
      | Some stream =>
          emit (Ev_socket (tc_id stream) (tcp_write_handshake (tc_dial_write stream) remote_pk)) ;;
          '(self_sender, self_receiver) ← new_endpoint_channel;
          '(out_sender, out_receiver) ← new_endpoint_channel;
          ignore (tcp_process_stream reads stream out_sender self_messages
            (OT_DHT self_sender out_receiver) (Some session_key))
      | None => mret ()
      end
  | TS_StableConnect out_sender self_receiver _ remote_pk =>
      match dialed with
      | Some stream =>
          emit (Ev_socket (tc_id stream) (tcp_write_handshake (tc_dial_write stream) remote_pk)) ;;
          ignore (tcp_process_stream reads stream out_sender self_messages OT_Stable None)
      | None => ignore (send_endpoint env out_sender EM_Close "missing")
      end
  end.

(** The tasks [start] spawns. *)
Inductive StartedTask : Set :=
| Task_listen
| Task_self_recv.

(** [tcp::start]: [bound] is what [TcpListener::bind] gives, a listener with what
    its [local_addr] gives. *)
Definition tcp_start (bind_addr : SocketAddr) (bound : option (option SocketAddr)) (both : bool)
    : res (SocketAddr * list StartedTask) :=
  if both then
    match bound with
    | None => Err "TCP Listen"
    | Some None => Err "local_addr"
    | Some (Some addr) => Ok (addr, [Task_listen; Task_self_recv])
    end
  else Ok (bind_addr, [Task_self_recv]).

(** ** QUIC *)

(** A connection: its number, the address of the remote, the streams that arrive
    before it ends, and how many streams can be opened. *)
Record QuicConn : Type := mkQuicConn {
  qc_id : N;
  qc_remote_addr : SocketAddr;
  qc_streams : list (list byte);
  qc_opens : nat
}.

(** [recv.read_to_end(size_limit)] of the quinn crate *)
Context (read_to_end : nat -> list byte -> option (list byte)).

Definition quic_process_stream (c : QuicConn) (out_sender : EndpointSender)
    (self_messages : list EndpointMessage) (out_type : OutType) (has_session : option SessionKey)
    : M World () :=
  match quic_handshake read_to_end (qc_streams c) with
  | (None, _) => mret ()
  | (Some remote_pk, streams) =>
      announce (qc_remote_addr c) remote_pk out_sender out_type has_session ;;
      for_each (take (qc_opens c) (quic_writer self_messages))
        (fun bytes => emit (Ev_socket (qc_id c) bytes)) ;;
      forward out_sender (quic_reader read_to_end streams)
  end.

(** What dialling gives: [connect_with] fails, the connection fails, or a
    connection, with whether a stream opens and takes and finishes the handshake. *)
Inductive QuicDial : Type :=
| QD_config_error
| QD_refused
| QD_connected (c : QuicConn) (open_uni write_all finish : bool).

Definition connect_to (connect : QuicDial) (remote_pk : RemotePublic) : M World QuicConn :=
  match connect with
  | QD_config_error => fail "connecting failure."
  | QD_refused => fail "connection"
  | QD_connected conn open_uni write_all finish =>
      if negb open_uni then fail "open_uni"
      else if negb write_all then fail "write_all"
      else
        emit (Ev_socket (qc_id conn) (EndpointMessage_to_bytes (EM_Handshake remote_pk))) ;;
        if negb finish then fail "finish" else mret conn
  end.

Definition dht_connect_to (connect : QuicDial) (self_messages : list EndpointMessage)
    (remote_pk : RemotePublic) (session_key : SessionKey) : M World () :=
  conn ← connect_to connect remote_pk;
  '(self_sender, self_receiver) ← new_endpoint_channel;
  '(out_sender, out_receiver) ← new_endpoint_channel;
  quic_process_stream conn out_sender self_messages (OT_DHT self_sender out_receiver) (Some session_key).

(** [match connect_to(..).await { Ok(conn) => .., Err(_) => .. }] *)
Definition or_else {A B : Type} (m : M World A) (k : A -> M World B) (e : M World B) : M World B := fun w =>
  match m w with
  | (Done a, w) => k a w
  | (Fail _, w) => e w
  | (Crash, w) => (Crash, w)
  | (Hang, w) => (Hang, w)
  end.

Definition stable_connect_to (connect : QuicDial) (out_sender : EndpointSender)
    (self_messages : list EndpointMessage) (remote_pk : RemotePublic) : M World () :=
  or_else (connect_to connect remote_pk)
    (fun conn => quic_process_stream conn out_sender self_messages OT_Stable None)
    (ignore (send_endpoint env out_sender EM_Close "missing")).

(** [run_self_recv]: [connect_with] is called by the loop, the rest by a task. *)
Definition quic_run_self_recv (recv : list TransportSendMessage) : M World () :=
  for_each recv (fun m => emit (Ev_connect m)).

Definition quic_connect (connect : QuicDial) (self_messages : list EndpointMessage)
    (m : TransportSendMessage) : M World () :=
  match m with
  | TS_Connect _ remote_pk session_key => dht_connect_to connect self_messages remote_pk session_key
  | TS_StableConnect out_sender _ _ remote_pk => stable_connect_to connect out_sender self_messages remote_pk
  end.

(** The listening task of [start]: an incoming connection that fails ([None]) is
    skipped, and one of an endpoint that only dials is dropped. *)
Definition quic_listen (both : bool) (incoming : list (option QuicConn)) : M World () :=
  for_each incoming (fun quinn_conn =>
    match quinn_conn with
    | Some conn =>
        when both (
          '(self_sender, self_receiver) ← new_endpoint_channel;
          '(out_sender, out_receiver) ← new_endpoint_channel;
          emit (Ev_process (qc_id conn) out_sender self_receiver (OT_DHT self_sender out_receiver) None))
    | None => mret ()
    end).

End Connect.

(** ** The tasks of the transports *)

Section TransportTasks.
Context `{BitVecLib, CryptoLib}.

Inductive TransportTask : Type :=
| TT_tcp_listen (accepted : list TcpConn)
| TT_tcp_process (server_gone : bool) (reads : nat) (c : TcpConn) (out_sender : EndpointSender)
    (self_messages : list EndpointMessage) (out_type : OutType) (has_session : option SessionKey)
| TT_tcp_connect (server_gone : bool) (reads : nat) (dialed : option TcpConn)
    (self_messages : list EndpointMessage) (m : TransportSendMessage)
| TT_quic_listen (both : bool) (incoming : list (option QuicConn))
| TT_quic_process (server_gone : bool) (read_to_end : nat -> list byte -> option (list byte)) (c : QuicConn)
    (out_sender : EndpointSender) (self_messages : list EndpointMessage) (out_type : OutType)
    (has_session : option SessionKey)
| TT_quic_connect (server_gone : bool) (read_to_end : nat -> list byte -> option (list byte)) (connect : QuicDial)
    (self_messages : list EndpointMessage) (m : TransportSendMessage)
| TT_requests (recv : list TransportSendMessage).

Definition transport_task (env : Env) (t : TransportTask) : M World () :=
  match t with
  | TT_tcp_listen accepted => tcp_run_listen accepted
  | TT_tcp_process gone reads c os msgs ot hs => tcp_process_stream env gone reads c os msgs ot hs
  | TT_tcp_connect gone reads dialed msgs m => tcp_connect env gone reads dialed msgs m
  | TT_quic_listen both incoming => quic_listen both incoming
  | TT_quic_process gone read c os msgs ot hs => quic_process_stream env gone read c os msgs ot hs
  | TT_quic_connect gone read connect msgs m => quic_connect env gone read connect msgs m
  | TT_requests recv => tcp_run_self_recv recv
  end.

End TransportTasks.
