(* ===== verification/SessionFacts.v ===== *)
(** * Facts about sessions

    A small program logic for the monad [M]: [safe m] says that a task neither
    panics nor hangs, [keeps I m] that it keeps an invariant whatever its outcome.
    Both are closed under the constructs the handlers are written with; the hint
    database [task] carries the rules. *)

From S2P Require Import Prelude Net Types Keys Wire Kad KadTable Buffer PeerList Global Session.
From stdpp Require Import list_relations list.

Create HintDb task.

(** ** The logic *)

Definition ends {A : Type} (r : outcome A) : Prop :=
  match r with
  | Done _ | Fail _ => True
  | Crash | Hang => False
  end.

Definition safe {S A : Type} (m : M S A) : Prop := forall s, ends (m s).1.

Definition keeps {S A : Type} (I : S -> Prop) (m : M S A) : Prop := forall s, I s -> I (m s).2.

(** Running a task: the equations of the monad. *)
Section Run.
Context {S : Type}.

Lemma run_ret {A B} (a : A) (k : A -> M S B) (s : S) : ((mret a : M S A) ≫= k) s = k a s.
Proof. done. Qed.

Lemma run_fail {A B} (e : string) (k : A -> M S B) (s : S) : ((fail e : M S A) ≫= k) s = (Fail e, s).
Proof. done. Qed.

Lemma run_gets {A B} (f : S -> A) (k : A -> M S B) (s : S) : (gets f ≫= k) s = k (f s) s.
Proof. done. Qed.

Lemma run_modify {B} (f : S -> S) (k : () -> M S B) (s : S) : (modify f ≫= k) s = k () (f s).
Proof. done. Qed.

Lemma run_done {A B} (m : M S A) (k : A -> M S B) (s s' : S) (a : A) :
  m s = (Done a, s') -> (m ≫= k) s = k a s'.
Proof. intros E. unfold mbind, M_bind. by rewrite E. Qed.

Lemma run_failed {A B} (m : M S A) (k : A -> M S B) (s s' : S) (e : string) :
  m s = (Fail e, s') -> (m ≫= k) s = (Fail e, s').
Proof. intros E. unfold mbind, M_bind. by rewrite E. Qed.

Lemma run_assoc {A B C} (m : M S A) (f : A -> M S B) (k : B -> M S C) (s : S) :
  ((m ≫= f) ≫= k) s = (m ≫= (fun a => f a ≫= k)) s.
Proof. unfold mbind, M_bind. by destruct (m s) as [[a|e| |] s']. Qed.

Lemma for_each_app_done {A} (l l' : list A) (f : A -> M S ()) (s s' : S) :
  for_each l f s = (Done (), s') -> for_each (l ++ l') f s = for_each l' f s'.
Proof.
  revert s. induction l as [|x l IH]; intros s; cbn [for_each app]; [by intros [= ->]|].
  unfold mbind, M_bind. destruct (f x s) as [[a|e| |] s1]; try done. apply IH.
Qed.

End Run.

Section Rules.
Context {S : Type}.

Lemma safe_ret {A} (a : A) : safe (mret a : M S A).
Proof. by intros s. Qed.

Lemma safe_fail {A} (e : string) : safe (fail e : M S A).
Proof. by intros s. Qed.

Lemma safe_gets {A} (f : S -> A) : safe (gets f).
Proof. by intros s. Qed.

Lemma safe_modify (f : S -> S) : safe (modify f).
Proof. by intros s. Qed.

Lemma safe_bind {A B} (m : M S A) (f : A -> M S B) :
  safe m -> (forall a, safe (f a)) -> safe (m ≫= f).
Proof.
  intros Hm Hf s. specialize (Hm s). unfold mbind, M_bind.
  destruct (m s) as [[a|e| |] s']; try done. apply Hf.
Qed.

Lemma safe_ignore {A} (m : M S A) : safe m -> safe (ignore m).
Proof.
  intros Hm s. specialize (Hm s). unfold ignore. by destruct (m s) as [[a|e| |] s'].
Qed.

Lemma safe_when (b : bool) (m : M S ()) : safe m -> safe (when b m).
Proof. destruct b; [done|]. intros _. apply safe_ret. Qed.

Lemma safe_if {A} (b : bool) (m m' : M S A) : safe m -> safe m' -> safe (if b then m else m').
Proof. by destruct b. Qed.

Lemma safe_of_res {A} (r : res A) : no_panic r -> safe (of_res r : M S A).
Proof. by destruct r. Qed.

Lemma safe_for_each {A} (l : list A) (f : A -> M S ()) :
  Forall (fun x => safe (f x)) l -> safe (for_each l f).
Proof.
  intros Hl. induction Hl as [|x l Hx _ IH]; cbn [for_each]; [apply safe_ret|].
  by apply safe_bind.
Qed.

Lemma keeps_ret {A} (I : S -> Prop) (a : A) : keeps I (mret a : M S A).
Proof. by intros s. Qed.

Lemma keeps_fail {A} (I : S -> Prop) (e : string) : keeps I (fail e : M S A).
Proof. by intros s. Qed.

Lemma keeps_crash {A} (I : S -> Prop) : keeps I (crash : M S A).
Proof. by intros s. Qed.

Lemma keeps_hang {A} (I : S -> Prop) : keeps I (hang : M S A).
Proof. by intros s. Qed.

Lemma keeps_gets {A} (I : S -> Prop) (f : S -> A) : keeps I (gets f).
Proof. by intros s. Qed.

Lemma keeps_modify (I : S -> Prop) (f : S -> S) : (forall s, I s -> I (f s)) -> keeps I (modify f).
Proof. intros Hf s Hs. by apply Hf. Qed.

Lemma keeps_bind {A B} (I : S -> Prop) (m : M S A) (f : A -> M S B) :
  keeps I m -> (forall a, keeps I (f a)) -> keeps I (m ≫= f).
Proof.
  intros Hm Hf s Hs. specialize (Hm s Hs). unfold mbind, M_bind.
  destruct (m s) as [[a|e| |] s']; try done. by apply Hf.
Qed.

Lemma keeps_ignore {A} (I : S -> Prop) (m : M S A) : keeps I m -> keeps I (ignore m).
Proof.
  intros Hm s Hs. specialize (Hm s Hs). unfold ignore. by destruct (m s) as [[a|e| |] s'].
Qed.

Lemma keeps_when (I : S -> Prop) (b : bool) (m : M S ()) : keeps I m -> keeps I (when b m).
Proof. destruct b; [done|]. intros _. apply keeps_ret. Qed.

Lemma keeps_for_each {A} (I : S -> Prop) (l : list A) (f : A -> M S ()) :
  (forall x, keeps I (f x)) -> keeps I (for_each l f).
Proof.
  intros Hf. induction l as [|x l IH]; cbn [for_each]; [apply keeps_ret|]. by apply keeps_bind.
Qed.

Lemma keeps_of_res {A} (I : S -> Prop) (r : res A) : keeps I (of_res r : M S A).
Proof. intros s Hs. by destruct r. Qed.

End Rules.

(** Loops over lists that are equal, mapped or appended. *)
Section Loops.
Context {S A B : Type}.

Lemma for_each_ext (l : list A) (f f' : A -> M S ()) (s : S) :
  Forall (fun x => forall s, f x s = f' x s) l -> for_each l f s = for_each l f' s.
Proof.
  intros Hl. revert s. induction Hl as [|x l Hx _ IH]; intros s; [done|]. cbn [for_each]. unfold mbind, M_bind.
  rewrite Hx. by destruct (f' x s) as [[[]|e| |] s'].
Qed.

Lemma for_each_map (h : B -> A) (l : list B) (f : A -> M S ()) (s : S) :
  for_each (map h l) f s = for_each l (fun x => f (h x)) s.
Proof.
  revert s. induction l as [|x l IH]; intros s; [done|]. cbn [map for_each]. unfold mbind, M_bind.
  by destruct (f (h x) s) as [[[]|e| |] s'].
Qed.

Lemma for_each_app (l l' : list A) (f : A -> M S ()) (s : S) :
  for_each (l ++ l') f s = (for_each l f ;; for_each l' f) s.
Proof.
  revert s. induction l as [|x l IH]; intros s; [done|]. cbn [app for_each]. rewrite run_assoc.
  unfold mbind, M_bind. destruct (f x s) as [[[]|e| |] s']; [apply IH|done..].
Qed.

Lemma for_each_one (x : A) (f : A -> M S ()) (s : S) : for_each [x] f s = f x s.
Proof. cbn [for_each]. unfold mbind, M_bind. by destruct (f x s) as [[[]|e| |] s']. Qed.

(** Binding the same results in the same states. *)
Lemma run_ext {C} (m m' : M S C) (k k' : C -> M S A) (s : S) :
  m s = m' s -> (forall a s, k a s = k' a s) -> (m ≫= k) s = (m' ≫= k') s.
Proof. intros E Ek. unfold mbind, M_bind. rewrite E. by destruct (m' s) as [[a|e| |] s']. Qed.

Lemma for_each_snoc (l : list A) (x : A) (f : A -> M S ()) (s s' : S) :
  for_each l f s = (Done (), s') -> for_each (l ++ [x]) f s = f x s'.
Proof.
  intros E. rewrite (for_each_app_done _ _ _ _ _ E). cbn [for_each]. unfold mbind, M_bind.
  by destruct (f x s') as [[[]|e| |] s''].
Qed.

End Loops.

#[export] Hint Resolve safe_ret safe_fail safe_gets safe_modify safe_ignore safe_when
  keeps_ret keeps_fail keeps_crash keeps_hang keeps_gets keeps_ignore keeps_when keeps_of_res : task.

(** The goal-directed use of the rules: binds, conditionals and matches are taken
    apart, the rest is left to the hints. *)
Ltac task_step :=
  match goal with
  | |- safe (_ ≫= _) => apply safe_bind; [|intros ?]
  | |- keeps _ (_ ≫= _) => apply keeps_bind; [|intros ?]
  | |- keeps _ (for_each _ _) => apply keeps_for_each; intros ?
  | |- safe (ignore _) => apply safe_ignore
  | |- keeps _ (ignore _) => apply keeps_ignore
  | |- safe (when _ _) => apply safe_when
  | |- keeps _ (when _ _) => apply keeps_when
  | |- safe (match ?x with _ => _ end) => destruct x eqn:?
  | |- keeps _ (match ?x with _ => _ end) => destruct x eqn:?
  | |- safe (let '(_, _) := ?x in _) => destruct x eqn:?
  | |- keeps _ (let '(_, _) := ?x in _) => destruct x eqn:?
  end.
Ltac task := repeat (first [solve [eauto 2 with task nocore] | task_step]).

Section Safety.
Context `{BitVecLib, CryptoLib}.
Context (g : Global) (env : Env).

Lemma safe_world {A} (m : M World A) : safe m -> safe (world m).
Proof. intros Hm [s w]. specialize (Hm w). unfold world. by destruct (m w). Qed.
#[local] Hint Resolve safe_world : task.

Lemma safe_emit (e : Event) : safe (emit e).
Proof. apply safe_modify. Qed.

Lemma safe_send_session (s : SessionSender) (m : SessionMessage) (e : string) :
  safe (send_session env s m e).
Proof. unfold send_session. task. Qed.

Lemma safe_send_endpoint (s : EndpointSender) (m : EndpointMessage) (e : string) :
  safe (send_endpoint env s m e).
Proof. unfold send_endpoint. task. Qed.

Lemma safe_send_trans (s : TransSender) (m : TransportSendMessage) (e : string) :
  safe (send_trans env s m e).
Proof. unfold send_trans. task. Qed.

Lemma safe_out_send (m : ReceiveMessage) : safe (out_send env m).
Proof. unfold out_send. task. Qed.

Lemma safe_on_buffer {A} (f : Buffer -> Buffer * A) : safe (on_buffer f).
Proof. unfold on_buffer. task. Qed.

Lemma safe_on_peer_list {A} (f : PeerList -> PeerList * A) : safe (on_peer_list f).
Proof. unfold on_peer_list. task. Qed.

Lemma safe_new_channel : safe new_channel.
Proof. unfold new_channel. task. Qed.

Lemma safe_draw {A} (f : nat -> A) : safe (draw f).
Proof. unfold draw. task. Qed.

Lemma safe_save_file (f : option (string * string)) : safe (save_file f).
Proof. unfold save_file. task. Qed.

#[local] Hint Resolve safe_emit safe_send_session safe_send_endpoint safe_send_trans safe_out_send
  safe_on_buffer safe_on_peer_list safe_new_channel safe_draw safe_save_file : task.

Lemma safe_new_endpoint_channel : safe new_endpoint_channel.
Proof. unfold new_endpoint_channel. task. Qed.

Lemma safe_new_session_channel : safe new_session_channel.
Proof. unfold new_session_channel. task. Qed.

#[local] Hint Resolve safe_new_endpoint_channel safe_new_session_channel : task.

(** An [Err] the peer list answers with is an [Err] of the task. *)
Lemma safe_peer_list_result (f : PeerList -> PeerList * res ()) :
  (forall pl, no_panic (f pl).2) -> safe (r ← on_peer_list f; of_res r).
Proof.
  intros Hf w. unfold on_peer_list, mbind, M_bind, gets, modify, mret, M_ret.
  specialize (Hf (w_peer_list w)). destruct (f (w_peer_list w)) as [pl r]. simpl in *.
  by destruct r.
Qed.

Lemma safe_global_upgrade (p : PeerId) : safe (global_upgrade env p).
Proof.
  unfold global_upgrade, world_add_stable. apply safe_bind; [task|]. intros [[v d]|]; [task|].
  apply safe_peer_list_result. intros pl. unfold PeerList_dht_to_stable.
  destruct (DoubleKadTree_remove _ _) as [d [v|]]; done.
Qed.

Lemma safe_global_tmp_to_dht (p : PeerId) : safe (global_tmp_to_dht env p).
Proof. unfold global_tmp_to_dht, world_add_dht. task. Qed.

Lemma safe_global_stable_to_dht (p : PeerId) : safe (global_stable_to_dht env p).
Proof.
  unfold global_stable_to_dht. do 3 (apply safe_bind; [task|intros ?]).
  apply safe_peer_list_result. intros pl. unfold PeerList_stable_to_dht.
  destruct (remove_allow_peer pl p) as [pl1 ?]. destruct (pl_stables pl1 !! p) as [[v [|]]|]; try done.
  destruct (DoubleKadTree_add _ _ _) as [d [|]]; done.
Qed.

#[local] Hint Resolve safe_global_upgrade safe_global_tmp_to_dht safe_global_stable_to_dht : task.

Lemma safe_direct_send (m : EndpointMessage) : safe (direct_send env m).
Proof. unfold direct_send, self. task. Qed.

Lemma safe_relay_send (m : SessionMessage) : safe (relay_send env m).
Proof. unfold relay_send, self. task. Qed.

Lemma safe_session_out_send (m : ReceiveMessage) : safe (session_out_send env m).
Proof. unfold session_out_send. task. Qed.

#[local] Hint Resolve safe_direct_send safe_relay_send safe_session_out_send : task.

Lemma safe_session_close (b : bool) : safe (session_close g env b).
Proof. unfold session_close, self. task. Qed.

Lemma safe_send_core_data (c : CoreData) : safe (send_core_data g env c).
Proof. unfold send_core_data, self. task. Qed.

#[local] Hint Resolve safe_session_close safe_send_core_data : task.

(** Received bytes never make a session panic. *)
Lemma open_core_data_no_panic (k : SessionKey) (e_data : list byte) :
  match open_core_data k e_data with
  | Ok Panic | Panic => False
  | _ => True
  end.
Proof.
  unfold open_core_data, SessionKey_decrypt. destruct (aes_decrypt _ _ _) as [bytes|]; [|done]. simpl.
  pose proof (CoreData_from_bytes_no_panic bytes) as Hp. by destruct (CoreData_from_bytes bytes).
Qed.

Lemma safe_handle_core_data (e_data : list byte) : safe (handle_core_data g env e_data).
Proof.
  unfold handle_core_data, self. apply safe_bind; [task|]. intros s.
  pose proof (open_core_data_no_panic (session_key s) e_data) as Hp.
  destruct (open_core_data (session_key s) e_data) as [[msg|e|]|e|]; try done; [|task..].
  unfold deliver_back, set_self. destruct msg; task.
Qed.

Lemma safe_failure_send (e_data : list byte) : safe (failure_send g env e_data).
Proof.
  unfold failure_send, self. apply safe_bind; [task|]. intros k.
  pose proof (open_core_data_no_panic k e_data) as Hp.
  destruct (open_core_data k e_data) as [[msg|e|]|e|]; try done; [|task..].
  unfold failure_delivery. destruct msg; task.
Qed.

#[local] Hint Resolve safe_handle_core_data safe_failure_send : task.

Lemma safe_session_upgrade : safe (session_upgrade env).
Proof. unfold session_upgrade, self, set_self. task. Qed.
#[local] Hint Resolve safe_session_upgrade : task.

Lemma safe_handle_outside (m : SessionMessage) : safe (handle_outside g env m).
Proof. unfold handle_outside, relay_again, self, set_self, shared. destruct m; task. Qed.

Lemma safe_handle_heartbeat : safe (handle_heartbeat g env).
Proof. unfold handle_heartbeat, self, set_self. task. Qed.

(** ** Making and completing session keys *)

Lemma SessionKey_complete_no_panic (s : SessionKey) (remote_pk remote_dh : list byte) :
  sk_key s = Ed25519 -> length (sk_sk s) = 32 -> no_panic (SessionKey_complete s remote_pk remote_dh).
Proof.
  intros Hk Hs. unfold SessionKey_complete. rewrite Hk. case_if_bool; [done|].
  apply orb_false_iff in Heqb as [_ Hl]. apply negb_false_iff, Nat.eqb_eq in Hl.
  change (dh_pk_len Ed25519) with 32 in *. change (sign_len Ed25519) with 64 in *.
  rewrite drain_ok by lia. cbn [mbind res_bind].
  rewrite drain_ok by (rewrite length_drop; lia). cbn [mbind res_bind].
  pose proof (KeyType_verify_no_panic Ed25519 remote_pk (take 32 remote_dh)
    (take 64 (drop 32 remote_dh))) as Hv.
  destruct (KeyType_verify Ed25519 remote_pk _ _) as [[|]|e|]; try done.
  unfold KeyType_dh. destruct (copy_from_slice_ok 32 (sk_sk s) Hs) as (a & -> & _).
  destruct (copy_from_slice_ok 32 (take 32 remote_dh)) as (b & -> & _); [rewrite length_take; lia|].
  cbn [mbind res_bind].
  destruct (copy_from_slice_ok 12 (drop 64 (drop 32 remote_dh))) as (c & -> & _);
    [rewrite !length_drop; lia|]. done.
Qed.

Lemma SessionKey_complete_no_err (s : SessionKey) (remote_pk remote_dh : list byte) (e : string) :
  SessionKey_complete s remote_pk remote_dh <> Err e.
Proof.
  unfold SessionKey_complete. case_if_bool; [done|].
  unfold drain. destruct (_ <=? length remote_dh); [|done]. cbn [mbind res_bind].
  destruct (_ <=? _); [|done]. cbn [mbind res_bind].
  destruct (KeyType_verify _ _ _ _) as [[|]|?|]; try done.
  destruct (KeyType_dh _ _ _); try done. unfold copy_from_slice. by destruct (arr_of_list 12 _).
Qed.

Context (Hkey : keypair_signs (g_key g)).

Lemma safe_generate_remote : safe (generate_remote g env).
Proof.
  unfold generate_remote. apply safe_bind; [task; apply safe_draw|]. intros r.
  destruct (generate_session_key_ok (g_key g) r Hkey) as (sig & ->). task.
Qed.

Lemma complete_session_key_no_panic (r : SessionRandom) (remote : Keypair) (dh : list byte) :
  exists o, complete_session_key (g_key g) r remote dh = Ok o.
Proof.
  unfold complete_session_key.
  destruct (generate_session_key_ok (g_key g) r Hkey) as (sig & ->).
  match goal with |- context [SessionKey_complete ?s ?pk ?d] =>
    pose proof (SessionKey_complete_no_panic s pk d eq_refl (arr_length _)) as Hp;
    pose proof (SessionKey_complete_no_err s pk d) as He;
    destruct (SessionKey_complete s pk d) as [[s' b]|e|] end; [by eexists|by destruct (He e)|done].
Qed.

Lemma safe_complete_remote (k : Keypair) (dh : list byte) : safe (complete_remote g env k dh).
Proof.
  unfold complete_remote. apply safe_bind; [task; apply safe_draw|]. intros r.
  destruct (complete_session_key_no_panic r k dh) as ([s|] & ->); task.
Qed.

(** The transports that can be started. *)
Definition startable (t : TransportType) : bool :=
  match t with
  | QUIC | TCP => true
  | RTP | UDT => false
  end.

(** The start of a QUIC endpoint does not panic: its certificate can be made. *)
Definition quic_sound (env : Env) : Prop := forall peer, no_panic (quic_starts env peer).

Context (Hquic : quic_sound env).

Lemma safe_trans_send (t : TransportType) (m : TransportSendMessage) :
  startable t = true -> safe (trans_send g env t m).
Proof.
  intros Ht. unfold trans_send. apply safe_bind; [task|]. intros ts.
  destruct (ts !! t) as [s|]; [apply safe_send_trans|].
  apply safe_bind; [|intros s'; task; apply safe_send_trans].
  unfold transports_start. apply safe_bind; [apply safe_new_channel|]. intros n.
  assert (peer_transport (Peer_zero_port (with_transport (g_peer g) t)) = t) as ->.
  { unfold Peer_zero_port, with_transport. simpl. done. }
  destruct t; try done; task. apply safe_of_res, Hquic.
Qed.

Lemma safe_connect_peer (p : Peer) : startable (peer_transport p) = true -> safe (connect_peer g env p).
Proof.
  intros Ht. unfold connect_peer. apply safe_bind; [apply safe_generate_remote|]. intros [k r].
  apply safe_ignore. by apply safe_trans_send.
Qed.

(** The messages of the transport that name only transports that can be started. *)
Definition endpoint_supported (m : EndpointMessage) : Prop :=
  match m with
  | EM_DHT peers => Forall (fun p => startable (peer_transport p) = true) peers
  | _ => True
  end.

Lemma safe_handle_endpoint (m : EndpointMessage) :
  endpoint_supported m -> safe (handle_endpoint g env m).
Proof.
  intros Hm. unfold handle_endpoint, self, shared. apply safe_bind; [task|]. intros s. destruct m; simpl in Hm.
  3: { apply safe_for_each. eapply Forall_impl; [done|]. intros p Hp. simpl in Hp.
       apply safe_bind; [task|]. intros pl. apply safe_when, safe_world. by apply safe_connect_peer. }
  all: task; eauto using safe_world, safe_complete_remote, safe_handle_core_data, safe_send_endpoint,
    safe_send_session, safe_session_out_send, safe_new_endpoint_channel, safe_new_session_channel,
    safe_on_buffer, safe_emit, safe_direct_send.
Qed.

Lemma safe_forever_step (f : FutureResult) :
  match f with FR_Endpoint m => endpoint_supported m | _ => True end -> safe (forever_step g env f).
Proof.
  destruct f; intros Hf; [apply safe_handle_outside|by apply safe_handle_endpoint
    |apply safe_handle_heartbeat|apply safe_ret].
Qed.

(** The results of a session's [select!] that name only transports that can be
    started. *)
Definition results_supported (l : list FutureResult) : Prop :=
  Forall (fun f => match f with FR_Endpoint m => endpoint_supported m | _ => True end) l.

Lemma safe_listen (l : list FutureResult) : results_supported l -> safe (listen g env l).
Proof.
  intros Hl. apply safe_bind; [|intros _; apply safe_session_close]. apply safe_ignore, safe_for_each.
  eapply Forall_impl; [done|]. intros f Hf. by apply safe_forever_step.
Qed.

Lemma safe_stable_session (connects results : list (u64 * list byte)) (l : list FutureResult) :
  results_supported l -> safe (stable_session g env connects results l).
Proof.
  intros Hl. unfold stable_session, self.
  assert (forall (q : list (u64 * list byte)) (c : u64 -> list byte -> CoreData),
            safe (for_each q (fun '(tid, data) => send_core_data g env (c tid data)))) as Hq.
  { intros q c. apply safe_for_each, Forall_true. intros [tid data]. apply safe_send_core_data. }
  apply safe_bind; [apply Hq|intros _]. apply safe_bind; [apply Hq|intros _].
  apply safe_bind; [task|]. intros stable.
  apply safe_bind; [apply safe_when, safe_session_upgrade|intros _]. by apply safe_listen.
Qed.

Lemma safe_run_session {A} (s : Session) (m : M SW A) : safe m -> safe (run_session s m).
Proof. intros Hm w. specialize (Hm (s, w)). unfold run_session. by destruct (m (s, w)) as [r [s' w']]. Qed.

(** A fresh session key is one that [complete] does not panic on. *)
Lemma safe_with_remote {A} (f : SessionKey * RemotePublic -> M World A) :
  (forall k r, sk_key k = Ed25519 -> length (sk_sk k) = 32 -> safe (f (k, r))) ->
  safe (generate_remote g env ≫= f).
Proof.
  intros Hf w. unfold generate_remote, draw. rewrite !run_assoc, run_gets, !run_assoc, run_modify, run_ret.
  destruct (generate_session_key_ok (g_key g) (random_session env (w_draws w)) Hkey) as (sig & ->).
  rewrite run_ret. apply Hf; [done|apply arr_length].
Qed.

Lemma safe_relay_stable (tid : u64) (delivery : list byte) (to : Peer) (relay : SessionSender) (rd : bool)
    (msg : option SessionMessage) (l : list FutureResult) :
  results_supported l -> safe (relay_stable g env tid delivery to relay rd msg l).
Proof.
  intros Hl. unfold relay_stable, stable_failure, global_add_all_tmp.
  apply safe_bind; [apply safe_new_endpoint_channel|intros [es er]].
  apply safe_bind; [apply safe_new_session_channel|intros [ss sr]].
  apply safe_with_remote. intros k r Hk Hlen.
  apply safe_bind; [apply safe_on_buffer|intros [cs rs]].
  apply safe_bind; [apply safe_send_session|intros _].
  destruct msg as [[]|]; try solve [task]. destruct remote as [rk rp dh]. task.
  - by apply safe_of_res, SessionKey_complete_no_panic.
  - by apply safe_run_session, safe_stable_session.
Qed.

Lemma safe_direct_stable (tid : u64) (delivery : list byte) (to : Peer) (rd : bool)
    (answer : option EndpointMessage) (msg : option SessionMessage) (l : list FutureResult) :
  startable (peer_transport to) = true -> results_supported l ->
  safe (direct_stable g env tid delivery to rd answer msg l).
Proof.
  intros Ht Hl. unfold direct_stable, stable_failure, global_add_tmp.
  apply safe_bind; [apply safe_new_endpoint_channel|intros [es er]].
  apply safe_bind; [apply safe_new_endpoint_channel|intros [ss sr]].
  apply safe_with_remote. intros k r Hk Hlen.
  apply safe_bind; [by apply safe_trans_send|intros _].
  pose proof (fun ss => safe_relay_stable tid delivery to ss rd msg l Hl) as Hr.
  destruct answer as [[]|]; try solve [task]. destruct r0 as [rk rp dh]. task.
  - by apply safe_of_res, SessionKey_complete_no_panic.
  - by apply safe_run_session, safe_stable_session.
Qed.

End Safety.

(** ** What a session keeps *)

Section Invariant.
Context `{BitVecLib, CryptoLib}.
Context (g : Global) (env : Env).
Context (k0 : SessionKey) (ss0 : SessionSender).

(** The key and the channel of a session never change, and the missed heartbeats
    are at most one more than the three that are tolerated. *)
Definition session_inv (s : Session) : Prop :=
  session_key s = k0 /\ session_sender s = ss0 /\ (uval (heartbeat s) <= 4)%Z.

Definition on_session (P : Session -> Prop) (sw : SW) : Prop := P sw.1.

Lemma keeps_world {A} (P : Session -> Prop) (m : M World A) : keeps (on_session P) (world m).
Proof. intros [s w] Hs. unfold world. by destruct (m w). Qed.

Lemma keeps_set_self (P : Session -> Prop) (f : Session -> Session) :
  (forall s, P s -> P (f s)) -> keeps (on_session P) (set_self f).
Proof. intros Hf [s w] Hs. by apply Hf. Qed.

#[local] Hint Resolve keeps_world : task.

Abbreviation kept m := (keeps (on_session session_inv) m).

Lemma kept_direct_send (m : EndpointMessage) : kept (direct_send env m).
Proof. unfold direct_send, self. task. Qed.

Lemma kept_relay_send (m : SessionMessage) : kept (relay_send env m).
Proof. unfold relay_send, self. task. Qed.

Lemma kept_session_out_send (m : ReceiveMessage) : kept (session_out_send env m).
Proof. apply keeps_world. Qed.

#[local] Hint Resolve kept_direct_send kept_relay_send kept_session_out_send : task.

Lemma kept_session_close (b : bool) : kept (session_close g env b).
Proof. unfold session_close, self. task. Qed.

Lemma kept_send_core_data (c : CoreData) : kept (send_core_data g env c).
Proof. unfold send_core_data, self. task. Qed.

#[local] Hint Resolve kept_session_close kept_send_core_data : task.

Lemma kept_session_upgrade : kept (session_upgrade env).
Proof.
  unfold session_upgrade, self.
  apply keeps_bind; [by apply keeps_set_self|intros _].
  apply keeps_bind; [by apply keeps_set_self|intros _]. task.
Qed.

Lemma kept_handle_core_data (e_data : list byte) : kept (handle_core_data g env e_data).
Proof.
  unfold handle_core_data, deliver_back, self. apply keeps_bind; [task|]. intros s.
  destruct (open_core_data (session_key s) e_data) as [[msg|e|]|e|]; try task.
  apply keeps_set_self. unfold session_inv. simpl. intros s' (? & ? & ?). split_and!; done.
Qed.

Lemma kept_failure_send (e_data : list byte) : kept (failure_send g env e_data).
Proof. unfold failure_send, failure_delivery, self. task. Qed.

#[local] Hint Resolve kept_session_upgrade kept_handle_core_data kept_failure_send : task.

Lemma kept_handle_outside (m : SessionMessage) : kept (handle_outside g env m).
Proof.
  unfold handle_outside, relay_again, self, shared. destruct m; task; by apply keeps_set_self.
Qed.

Lemma kept_handle_endpoint (m : EndpointMessage) : kept (handle_endpoint g env m).
Proof. unfold handle_endpoint, self, shared. destruct m; task. Qed.

Lemma kept_handle_heartbeat : kept (handle_heartbeat g env).
Proof.
  intros [s w] (Hk & Hs & Hh). unfold handle_heartbeat, self. rewrite run_gets. cbn [fst].
  destruct (Z.ltb_spec 3 (uval (heartbeat s))) as [Hlt|Hge]; [by split_and!|].
  unfold set_self. rewrite run_modify. cbn [fst snd].
  apply (kept_send_core_data CD_Ping (set_heartbeat (to_uint 32 (uval (heartbeat s) + 1)) s, w)).
  split; [done|]. split; [done|]. pose proof (uval_range (heartbeat s)) as Hr.
  assert (2 ^ Z.of_N 32 = 4294967296)%Z as Hw by done.
  change (uval (to_uint 32 (uval (heartbeat s) + 1)) <= 4)%Z. rewrite to_uint_small; lia.
Qed.

Lemma kept_forever_step (f : FutureResult) : kept (forever_step g env f).
Proof.
  destruct f; [apply kept_handle_outside|apply kept_handle_endpoint
    |apply kept_handle_heartbeat|apply keeps_ret].
Qed.

End Invariant.
