(* ===== verification/TaskInvariant.v ===== *)
(** * What every task keeps

    An interface between the shared state and the tasks: [WorldInvariant I] lists
    the elementary changes of the world a task can make, and every handler, session
    and start-up step of the program keeps any [I] that is closed under them.  An
    invariant of the node is then proved by its elementary changes alone. *)

From S2P Require Import Prelude Net Types Keys Wire Kad KadTable Buffer PeerList Global Session Server Connect SessionFacts.
From stdpp Require Import list_relations list.

Section TaskInvariant.
Context `{BitVecLib, CryptoLib}.
Context (g : Global) (env : Env).

(** The same table and block lists: the allow list and the stable connections may
    differ. *)
Definition same_table (pl pl' : PeerList) : Prop :=
  pl_dhts pl' = pl_dhts pl /\ pl_block_peers pl' = pl_block_peers pl /\ pl_block_ips pl' = pl_block_ips pl.

(** What a task may log: the node never hands the application a [Stream]. *)
Definition event_ok (e : Event) : Prop :=
  match e with Ev_out (RM_Stream _ _ _) => False | _ => True end.

Class WorldInvariant (I : World -> Prop) : Prop := {
  inv_event (e : Event) (w : World) : event_ok e -> I w -> I (add_event e w);
  inv_channel (w : World) : I w -> I (channel_made w);
  inv_drawn (w : World) : I w -> I (drawn w);
  inv_buffer (b : Buffer) (w : World) : I w -> I (set_buffer b w);
  inv_transport (t : TransportType) (s : TransSender) (w : World) :
    startable t = true -> I w -> I (set_transports (<[t := s]> (w_transports w)) w);
  inv_list (pl : PeerList) (w : World) : same_table (w_peer_list w) pl -> I w -> I (set_peer_list pl w);
  inv_remove (p : PeerId) (w : World) :
    I w ->
    I (set_peer_list (with_dhts (w_peer_list w) (DoubleKadTree_remove (pl_dhts (w_peer_list w)) p).1) w);
  inv_add (v : KadValue) (w : World) :
    I w ->
    I (set_peer_list (with_dhts (w_peer_list w)
         (DoubleKadTree_add (pl_dhts (w_peer_list w)) (random_key env (w_draws w)) v).1) (drawn w))
}.

Context (I : World -> Prop) `{HI : !WorldInvariant I}.

(** ** Lemmas: the shared state *)

Lemma inv_emit (e : Event) : event_ok e -> keeps I (emit e).
Proof. intros He. apply keeps_modify. intros w. by apply inv_event. Qed.

#[local] Hint Extern 0 (event_ok _) => exact Logic.I : task.

Lemma inv_new_channel : keeps I new_channel.
Proof. unfold new_channel. task. apply keeps_modify. intros w. apply inv_channel. Qed.

Lemma inv_draw {A} (f : nat -> A) : keeps I (draw f).
Proof. unfold draw. task. apply keeps_modify. intros w. apply inv_drawn. Qed.

Lemma inv_on_buffer {A} (f : Buffer -> Buffer * A) : keeps I (on_buffer f).
Proof. unfold on_buffer. task. apply keeps_modify. intros w. apply inv_buffer. Qed.

#[local] Hint Resolve inv_emit inv_new_channel inv_draw inv_on_buffer : task.

Lemma inv_send_session (s : SessionSender) (m : SessionMessage) (e : string) : keeps I (send_session env s m e).
Proof. unfold send_session. task. Qed.

Lemma inv_send_endpoint (s : EndpointSender) (m : EndpointMessage) (e : string) : keeps I (send_endpoint env s m e).
Proof. unfold send_endpoint. task. Qed.

Lemma inv_send_trans (s : TransSender) (m : TransportSendMessage) (e : string) : keeps I (send_trans env s m e).
Proof. unfold send_trans. task. Qed.

Lemma inv_out_send (m : ReceiveMessage) : event_ok (Ev_out m) -> keeps I (out_send env m).
Proof. intros Hm. unfold out_send. task. Qed.

Lemma inv_save_file (f : option (string * string)) : keeps I (save_file f).
Proof. unfold save_file. task. Qed.

#[local] Hint Resolve inv_send_session inv_send_endpoint inv_send_trans inv_out_send inv_save_file : task.

Lemma inv_new_endpoint_channel : keeps I new_endpoint_channel.
Proof. unfold new_endpoint_channel. task. Qed.

Lemma inv_new_session_channel : keeps I new_session_channel.
Proof. unfold new_session_channel. task. Qed.

Lemma inv_generate_remote : keeps I (generate_remote g env).
Proof. unfold generate_remote. task. Qed.

Lemma inv_complete_remote (k : Keypair) (dh : list byte) : keeps I (complete_remote g env k dh).
Proof. unfold complete_remote. task. Qed.

Lemma inv_trans_send (t : TransportType) (m : TransportSendMessage) : keeps I (trans_send g env t m).
Proof.
  unfold trans_send. apply keeps_bind; [task|]. intros ts. destruct (ts !! t) as [s|]; [task|].
  destruct (startable t) eqn:Ht.
  - apply keeps_bind; [unfold transports_start; task|]. intros s. task.
    apply keeps_modify. intros w. by apply inv_transport.
  - intros w Hw. unfold transports_start. rewrite run_assoc.
    pose proof (inv_new_channel w Hw) as Hn. unfold mbind, M_bind. destruct (new_channel w) as [[n|e| |] w']; try done.
    by destruct t.
Qed.

#[local] Hint Resolve inv_new_endpoint_channel inv_new_session_channel inv_generate_remote
  inv_complete_remote inv_trans_send : task.

Lemma inv_connect_peer (p : Peer) : keeps I (connect_peer g env p).
Proof. unfold connect_peer. task. Qed.

(** ** Lemmas: the peer list *)

Lemma same_table_with (pl : PeerList) (stables : gmap PeerId (KadValue * bool)) :
  same_table pl (with_stables pl stables).
Proof. done. Qed.

Lemma add_allow_peer_same (pl : PeerList) (p : PeerId) : same_table pl (add_allow_peer pl p).
Proof. unfold add_allow_peer. by case_match. Qed.

Lemma add_bootstrap_same (pl : PeerList) (p : Peer) : same_table pl (add_bootstrap pl p).
Proof. unfold add_bootstrap. by case_match. Qed.

Lemma remove_allow_peer_same (pl : PeerList) (p : PeerId) : same_table pl (remove_allow_peer pl p).1.
Proof. unfold remove_allow_peer. by case_match. Qed.

Lemma same_table_trans (pl pl' pl'' : PeerList) :
  same_table pl pl' -> same_table pl' pl'' -> same_table pl pl''.
Proof. unfold same_table. intros (?&?&?) (?&?&?). split_and!; congruence. Qed.

Lemma inv_on_peer_list {A} (f : PeerList -> PeerList * A) :
  (forall pl, same_table pl (f pl).1) -> keeps I (on_peer_list f).
Proof.
  intros Hf w Hw. unfold on_peer_list. rewrite run_gets. specialize (Hf (w_peer_list w)).
  destruct (f (w_peer_list w)) as [pl a]. rewrite run_modify. by apply inv_list.
Qed.

Lemma inv_stable_leave (p : PeerId) : keeps I (on_peer_list (fun pl => (stable_leave pl p, ()))).
Proof. by apply inv_on_peer_list. Qed.

Lemma inv_remove_peer (p : PeerId) : keeps I (on_peer_list (fun pl => (fst (remove_peer pl p), ()))).
Proof.
  intros w Hw. unfold on_peer_list, remove_peer. rewrite run_gets, run_modify.
  pose proof (inv_remove p w Hw). by destruct (DoubleKadTree_remove (pl_dhts (w_peer_list w)) p).
Qed.

Lemma inv_peer_disconnect (a : SocketAddr) : keeps I (on_peer_list (fun pl => peer_disconnect pl a)).
Proof. apply inv_on_peer_list. intros pl. unfold peer_disconnect. by case_match. Qed.

Lemma inv_world_add_stable (p : PeerId) (v : KadValue) (b : bool) : keeps I (world_add_stable env p v b).
Proof.
  unfold world_add_stable. apply keeps_bind; [|intros ?; task].
  apply inv_on_peer_list. intros pl. unfold PeerList_add_stable.
  destruct (pl_stables pl !! p) as [[old d]|]; [done|].
  eapply same_table_trans; [apply add_allow_peer_same|done].
Qed.

(** A world whose list is replaced twice. *)
Lemma inv_replace (pl pl' : PeerList) (w : World) :
  same_table pl pl' -> I (set_peer_list pl w) -> I (set_peer_list pl' w).
Proof. intros Hs Hw. exact (inv_list pl' (set_peer_list pl w) Hs Hw). Qed.

Lemma inv_world_add_dht (v : KadValue) : keeps I (world_add_dht env v).
Proof.
  unfold world_add_dht, draw. intros w Hw. rewrite run_assoc, run_gets, run_assoc, run_modify, run_ret.
  revert w Hw. intros w Hw. pose proof (inv_add v w Hw) as Ha. unfold on_peer_list.
  rewrite run_assoc, run_gets. cbn [w_peer_list drawn]. unfold PeerList_add_dht.
  set (pl := w_peer_list w) in *.
  assert (exists pl1 saved, (if peer_is_pub (kv_peer v) && negb (bool_decide (kv_peer v ∈ pl_allows pl))
            then (add_bootstrap pl (kv_peer v), Some (PeerList_save (add_bootstrap pl (kv_peer v))))
            else (pl, None)) = (pl1, saved) /\ same_table pl pl1) as (pl1 & saved & -> & Hs).
  { destruct (_ && _); do 2 eexists; split; [done|apply add_bootstrap_same|done|done]. }
  rewrite (proj1 Hs). destruct (DoubleKadTree_add (pl_dhts pl) (random_key env (w_draws w)) v) as [d ok].
  cbn [fst] in Ha. rewrite run_assoc, run_modify, run_ret.
  assert (I (set_peer_list (with_dhts pl1 d) (drawn w))) as Hw'.
  { refine (inv_replace _ _ _ _ Ha). by destruct Hs as (_ & ? & ?). }
  assert (keeps I (save_file saved ;; mret ok)) as Hk by task. by apply Hk.
Qed.

Lemma inv_global_stable_to_dht (p : PeerId) : keeps I (global_stable_to_dht env p).
Proof.
  unfold global_stable_to_dht. apply keeps_bind; [task|intros _]. apply keeps_bind; [task|intros _].
  intros w Hw. unfold draw, on_peer_list. rewrite run_assoc, run_gets, run_assoc, run_modify, run_ret.
  rewrite run_assoc, run_gets. cbn [w_peer_list drawn]. unfold PeerList_stable_to_dht.
  pose proof (remove_allow_peer_same (w_peer_list w) p) as Hs.
  destruct (remove_allow_peer (w_peer_list w) p) as [pl1 o]. cbn [fst] in Hs.
  assert (forall (pl2 : PeerList) (r : res ()), I (set_peer_list pl2 (drawn w)) ->
            I (((modify (set_peer_list pl2) ;; mret r : M World (res ())) ≫= (fun r => of_res r : M World ())) (drawn w)).2) as Hend.
  { intros pl2 r Hpl. rewrite run_assoc, run_modify, run_ret. by apply (keeps_of_res I r). }
  destruct (pl_stables pl1 !! p) as [[v [|]]|].
  - cbn [with_stables pl_dhts]. rewrite (proj1 Hs). pose proof (inv_add v w Hw) as Ha.
    destruct (DoubleKadTree_add (pl_dhts (w_peer_list w)) (random_key env (w_draws w)) v) as [d ok].
    apply Hend. refine (inv_replace _ _ _ _ Ha). by destruct Hs as (_ & ? & ?).
  - apply Hend, inv_list; [exact Hs|by apply inv_drawn].
  - apply Hend, inv_list; [exact Hs|by apply inv_drawn].
Qed.

#[local] Hint Resolve inv_connect_peer inv_stable_leave inv_remove_peer inv_peer_disconnect
  inv_world_add_stable inv_world_add_dht inv_global_stable_to_dht : task.

Lemma inv_global_upgrade (p : PeerId) : keeps I (global_upgrade env p).
Proof.
  unfold global_upgrade. apply keeps_bind; [task|]. intros [[v d]|]; [task|].
  apply keeps_bind; [|intros r; task]. intros w Hw. unfold on_peer_list, PeerList_dht_to_stable.
  rewrite run_gets. pose proof (inv_remove p w Hw) as Hr.
  destruct (DoubleKadTree_remove (pl_dhts (w_peer_list w)) p) as [d [v|]]; rewrite run_modify; [|done].
  refine (inv_replace _ _ _ _ Hr). eapply same_table_trans; [apply add_allow_peer_same|done].
Qed.

Lemma inv_global_tmp_to_dht (p : PeerId) : keeps I (global_tmp_to_dht env p).
Proof. unfold global_tmp_to_dht. task. Qed.

#[local] Hint Resolve inv_global_upgrade inv_global_tmp_to_dht : task.

(** ** Lemmas: sessions *)

Definition on_world (sw : SW) : Prop := I sw.2.

Lemma inv_world {A} (m : M World A) : keeps I m -> keeps on_world (world m).
Proof. intros Hm [s w] Hw. specialize (Hm w Hw). unfold world. by destruct (m w). Qed.

Lemma inv_set_self (f : Session -> Session) : keeps on_world (set_self f).
Proof. by intros [s w] Hw. Qed.

#[local] Hint Resolve inv_world inv_set_self : task.
#[local] Hint Extern 1 (keeps on_world (world _)) => apply inv_world : task.

Ltac session_task := repeat (first [solve [eauto 2 with task nocore] | task_step | apply inv_world]).

Lemma inv_direct_send (m : EndpointMessage) : keeps on_world (direct_send env m).
Proof. unfold direct_send, self. session_task. Qed.

Lemma inv_relay_send (m : SessionMessage) : keeps on_world (relay_send env m).
Proof. unfold relay_send, self. session_task. Qed.

Lemma inv_session_out_send (m : ReceiveMessage) : event_ok (Ev_out m) -> keeps on_world (session_out_send env m).
Proof. intros Hm. unfold session_out_send. session_task. Qed.

#[local] Hint Resolve inv_direct_send inv_relay_send inv_session_out_send : task.

Lemma inv_session_close (b : bool) : keeps on_world (session_close g env b).
Proof. unfold session_close, self. session_task. Qed.

Lemma inv_send_core_data (c : CoreData) : keeps on_world (send_core_data g env c).
Proof. unfold send_core_data, self. session_task. Qed.

#[local] Hint Resolve inv_session_close inv_send_core_data : task.

Lemma inv_session_upgrade : keeps on_world (session_upgrade env).
Proof. unfold session_upgrade, self. session_task. Qed.

Lemma inv_handle_core_data (e_data : list byte) : keeps on_world (handle_core_data g env e_data).
Proof. unfold handle_core_data, deliver_back, self. session_task. Qed.

Lemma inv_failure_send (e_data : list byte) : keeps on_world (failure_send g env e_data).
Proof. unfold failure_send, failure_delivery, self. session_task. Qed.

#[local] Hint Resolve inv_session_upgrade inv_handle_core_data inv_failure_send : task.

Lemma inv_handle_outside (m : SessionMessage) : keeps on_world (handle_outside g env m).
Proof. unfold handle_outside, relay_again, self, shared. destruct m; session_task. Qed.

Lemma inv_handle_endpoint (m : EndpointMessage) : keeps on_world (handle_endpoint g env m).
Proof. unfold handle_endpoint, self, shared. destruct m; session_task. Qed.

Lemma inv_handle_heartbeat : keeps on_world (handle_heartbeat g env).
Proof. unfold handle_heartbeat, self. session_task. Qed.

Lemma inv_forever_step (f : FutureResult) : keeps on_world (forever_step g env f).
Proof.
  destruct f; [apply inv_handle_outside|apply inv_handle_endpoint|apply inv_handle_heartbeat|apply keeps_ret].
Qed.

Lemma inv_listen (l : list FutureResult) : keeps on_world (listen g env l).
Proof.
  unfold listen, forever. apply keeps_bind; [|intros _; apply inv_session_close].
  apply keeps_ignore, keeps_for_each. intros f. apply inv_forever_step.
Qed.

Lemma inv_run_session {A} (s : Session) (m : M SW A) : keeps on_world m -> keeps I (run_session s m).
Proof. intros Hm w Hw. specialize (Hm (s, w) Hw). unfold run_session. by destruct (m (s, w)) as [r [s' w']]. Qed.

Lemma inv_stable_session (connects results : list (u64 * list byte)) (l : list FutureResult) :
  keeps on_world (stable_session g env connects results l).
Proof.
  pose proof (inv_listen l). unfold stable_session, self. session_task.
Qed.

Lemma inv_relay_stable (tid : u64) (delivery : list byte) (to : Peer) (relay : SessionSender) (rd : bool)
    (msg : option SessionMessage) (l : list FutureResult) :
  keeps I (relay_stable g env tid delivery to relay rd msg l).
Proof.
  pose proof (fun s c r => inv_run_session s _ (inv_stable_session c r l)).
  unfold relay_stable, stable_failure, global_add_all_tmp. task.
Qed.

Lemma inv_direct_stable (tid : u64) (delivery : list byte) (to : Peer) (rd : bool)
    (answer : option EndpointMessage) (msg : option SessionMessage) (l : list FutureResult) :
  keeps I (direct_stable g env tid delivery to rd answer msg l).
Proof.
  pose proof (fun s c r => inv_run_session s _ (inv_stable_session c r l)).
  pose proof inv_relay_stable.
  unfold direct_stable, stable_failure, global_add_tmp. task.
Qed.

(** ** Lemmas: the server *)

Lemma inv_incoming_key (m : TransportRecvMessage) : keeps I (incoming_key g env m).
Proof. unfold incoming_key. task. Qed.

#[local] Hint Resolve inv_incoming_key : task.

Lemma inv_handle_incoming (rd : bool) (m : TransportRecvMessage) : keeps I (handle_incoming g env rd m).
Proof. unfold handle_incoming, refuse. task. Qed.

Lemma inv_handle_request (rd : bool) (m : SendMessage) : keeps I (handle_request g env rd m).
Proof.
  unfold handle_request, handle_stable_connect, handle_stable_result, handle_data, send_all, spawn_stable,
    request_failure. destruct m; task.
Qed.

Lemma inv_server_step (rd : bool) (e : ServerEvent) : keeps I (server_step g env rd e).
Proof.
  destruct e; cbn [server_step]; [apply inv_handle_incoming| | |apply inv_handle_request].
  - unfold handle_check. task.
  - unfold handle_clear. task.
Qed.

(** ** Lemmas: the transports *)

Lemma inv_announce (gone : bool) (addr : SocketAddr) (r : RemotePublic) (os : EndpointSender) (ot : OutType)
    (hs : option SessionKey) : keeps I (announce env gone addr r os ot hs).
Proof. unfold announce, send_incoming. task. Qed.

Lemma inv_forward (os : EndpointSender) (l : list EndpointMessage) : keeps I (forward env os l).
Proof. unfold forward. task. Qed.

#[local] Hint Resolve inv_announce inv_forward : task.

Lemma inv_connect_to (dial : QuicDial) (rp : RemotePublic) : keeps I (connect_to dial rp).
Proof. unfold connect_to. task. Qed.

Lemma inv_or_else {A B} (m : M World A) (k : A -> M World B) (e : M World B) :
  keeps I m -> (forall a, keeps I (k a)) -> keeps I e -> keeps I (or_else m k e).
Proof.
  intros Hm Hk He w Hw. specialize (Hm w Hw). unfold or_else. destruct (m w) as [[a|x| |] w']; try done.
  - by apply Hk.
  - by apply He.
Qed.

Lemma inv_transport_task (t : TransportTask) : keeps I (transport_task env t).
Proof.
  pose proof inv_connect_to.
  assert (forall gone reads c os msgs ot hs, keeps I (tcp_process_stream env gone reads c os msgs ot hs)) as Ht.
  { intros. unfold tcp_process_stream. task. }
  assert (forall gone read c os msgs ot hs, keeps I (quic_process_stream env gone read c os msgs ot hs)) as Hq.
  { intros. unfold quic_process_stream. task. }
  destruct t; cbn [transport_task].
  - unfold tcp_run_listen. task.
  - apply Ht.
  - unfold tcp_connect. task.
  - unfold quic_listen. task.
  - apply Hq.
  - unfold quic_connect, dht_connect_to, stable_connect_to. destruct m; task. apply inv_or_else; task.
  - unfold tcp_run_self_recv. task.
Qed.

End TaskInvariant.
