(* ===== verification/SessionProps.v ===== *)
(** * Properties of sessions

    What a session does with the messages it gets, end to end: data and its
    feedback between two sessions that share a key, the heartbeat, the end of a
    session, and whom a stable connection is opened with. *)

From S2P Require Import Prelude Net Types Keys Wire Kad KadMetric KadFacts KadTreeFacts KadTable Buffer PeerList Global Session SessionFacts.
From stdpp Require Import list_relations list.

Section Running.
Context `{BitVecLib, CryptoLib}.
Context (g : Global) (env : Env).

(** A world with more in its log. *)
Definition logged (l : list Event) (w : World) : World :=
  mkWorld (w_peer_list w) (w_buffer w) (w_transports w) (w_channels w) (w_draws w) (w_log w ++ l).

Lemma logged_nil (w : World) : logged [] w = w.
Proof. unfold logged. rewrite app_nil_r. by destruct w. Qed.

Lemma logged_logged (l l' : list Event) (w : World) : logged l' (logged l w) = logged (l ++ l') w.
Proof. unfold logged. simpl. by rewrite app_assoc. Qed.

Lemma run_self {A B} (f : Session -> A) (k : A -> M SW B) (s : Session) (w : World) :
  (self f ≫= k) (s, w) = k (f s) (s, w).
Proof. done. Qed.

Lemma run_set_self {B} (f : Session -> Session) (k : () -> M SW B) (s : Session) (w : World) :
  (set_self f ≫= k) (s, w) = k () (f s, w).
Proof. done. Qed.

Lemma run_shared {A B} (f : World -> A) (k : A -> M SW B) (s : Session) (w : World) :
  (shared f ≫= k) (s, w) = k (f w) (s, w).
Proof. done. Qed.

Lemma run_world {A B} (m : M World A) (k : A -> M SW B) (s : Session) (w w' : World) (a : A) :
  m w = (Done a, w') -> (world m ≫= k) (s, w) = k a (s, w').
Proof. intros E. unfold world, mbind, M_bind. by rewrite E. Qed.

(** Sends that succeed. *)
Lemma direct_send_run (s : Session) (w : World) (e : EndpointSender) (m : EndpointMessage) :
  s_endpoint s = Direct e -> endpoint_gone env e = false ->
  direct_send env m (s, w) = (Done (), (s, logged [Ev_endpoint e m] w)).
Proof.
  intros E Hg. unfold direct_send. rewrite run_self, E. unfold world, send_endpoint. by rewrite Hg.
Qed.

Lemma send_core_data_run (s : Session) (w : World) (e : EndpointSender) (c : CoreData) :
  s_endpoint s = Direct e -> endpoint_gone env e = false ->
  send_core_data g env c (s, w) =
  (Done (), (s, logged [Ev_endpoint e (EM_Data (SessionKey_encrypt (session_key s) (CoreData_to_bytes c)))] w)).
Proof.
  intros E Hg. unfold send_core_data. rewrite run_self. cbn [id]. unfold is_direct. rewrite E.
  by apply direct_send_run.
Qed.

Lemma session_out_send_run (s : Session) (w : World) (m : ReceiveMessage) :
  out_gone env = false -> session_out_send env m (s, w) = (Done (), (s, logged [Ev_out m] w)).
Proof. intros Hg. unfold session_out_send, world, out_send. by rewrite Hg. Qed.

Lemma out_send_run (w : World) (m : ReceiveMessage) :
  out_gone env = false -> out_send env m w = (Done (), logged [Ev_out m] w).
Proof. intros Hg. unfold out_send. by rewrite Hg. Qed.

Lemma then_fail_never_done {S A B : Type} (m : M S A) (e : string) (s : S) :
  match ((m ;; (fail e : M S B)) s).1 with Done _ => False | _ => True end.
Proof. unfold mbind, M_bind. by destruct (m s) as [[a|e'| |] s']. Qed.

(** The end of every [close]: an [Err]. *)
Lemma session_close_never_done (b : bool) (sw : SW) :
  match (session_close g env b sw).1 with Done _ => False | _ => True end.
Proof.
  unfold session_close. destruct sw as [s w]. rewrite run_self. apply then_fail_never_done.
Qed.

End Running.

(** Two session keys that share cipher key and nonce. *)
Definition keys_agree (k1 k2 : SessionKey) : Prop :=
  sk_cipher k1 = sk_cipher k2 /\ sk_nonce k1 = sk_nonce k2.

(** The cipher accepts the message (it refuses only messages that are too long). *)
Definition sealable `{CryptoLib} (k : SessionKey) (c : CoreData) : Prop :=
  is_Some (aes_encrypt (sk_cipher k) (sk_nonce k) (CoreData_to_bytes c)).

(** A sealed message is opened as what was sealed. *)
Lemma open_sealed `{CryptoLaws} (k1 k2 : SessionKey) (c : CoreData) :
  keys_agree k1 k2 -> sealable k1 c ->
  open_core_data k2 (SessionKey_encrypt k1 (CoreData_to_bytes c)) = Ok (Ok c).
Proof.
  intros (E1 & E2) [m Hm]. unfold open_core_data.
  rewrite (decrypt_encrypt k1 k2 _ m) by done. by rewrite CoreData_roundtrip.
Qed.

(** The message, sealed by the cipher of the key. *)
Definition seals `{CryptoLib} (k : SessionKey) (c : CoreData) (sealed : list byte) : Prop :=
  aes_encrypt (sk_cipher k) (sk_nonce k) (CoreData_to_bytes c) = Some sealed.

Lemma seals_sealable `{CryptoLib} (k : SessionKey) (c : CoreData) (sealed : list byte) :
  seals k c sealed -> sealable k c /\ SessionKey_encrypt k (CoreData_to_bytes c) = sealed.
Proof. intros E. unfold seals in E. split; [by eexists|]. unfold SessionKey_encrypt. by rewrite E. Qed.

(** C1: data and feedback.  Between two direct sessions that share a key and of nodes
    that receive data ([is_recv_data]), a message the first is asked to send is put on
    its transport as what the cipher makes of it under the session key and nonce; the
    second hands exactly that message to its application, and, when feedback was asked
    for, answers with a receipt, sealed in the same way, on which the first reports the
    delivery as successful with the agreed prefix of the data.  Nothing else is sent and
    no session or shared state changes. *)
Theorem data_exchange `{BitVecLib, CryptoLaws} (g1 g2 : Global) (env1 env2 : Env) (s1 s2 : Session)
    (w1 w2 w3 : World) (e1 e2 : EndpointSender) (tid : u64) (data sealed sealed_receipt : list byte) :
  let receipt := CD_Delivery DT_Data tid (delivery_split data (delivery_length g2)) in
  keys_agree (session_key s1) (session_key s2) ->
  seals (session_key s1) (CD_Data tid data) sealed -> seals (session_key s2) receipt sealed_receipt ->
  s_endpoint s1 = Direct e1 -> endpoint_gone env1 e1 = false -> out_gone env1 = false ->
  s_endpoint s2 = Direct e2 -> endpoint_gone env2 e2 = false -> out_gone env2 = false ->
  is_recv_data s1 = true -> is_recv_data s2 = true ->
  handle_outside g1 env1 (SM_Data tid data) (s1, w1) =
    (Done (), (s1, logged [Ev_endpoint e1 (EM_Data sealed)] w1)) /\
  handle_endpoint g2 env2 (EM_Data sealed) (s2, w2) =
    (Done (), (s2, logged ([Ev_out (RM_Data (remote_id s2) data)] ++
                           if nonzero tid then [Ev_endpoint e2 (EM_Data sealed_receipt)] else []) w2)) /\
  (nonzero tid = true ->
   handle_endpoint g1 env1 (EM_Data sealed_receipt) (s1, w3) =
     (Done (), (s1, logged [Ev_out (RM_Delivery DT_Data tid true
                                      (delivery_split data (delivery_length g2)))] w3))).
Proof.
  intros receipt Hk [Hs1 <-]%seals_sealable [Hs2 <-]%seals_sealable E1 Hg1 Ho1 E2 Hg2 Ho2 Hr1 Hr2.
  split_and!.
  - unfold handle_outside. rewrite run_self. by apply send_core_data_run.
  - unfold handle_endpoint. rewrite run_self. unfold handle_core_data. rewrite run_self. cbn [id].
    rewrite open_sealed by done. rewrite Hr2. cbn [when].
    rewrite (run_done _ _ _ _ _ (session_out_send_run env2 s2 w2 _ Ho2)).
    unfold deliver_back, when. destruct (nonzero tid).
    + rewrite (send_core_data_run g2 env2 _ _ e2) by done. by rewrite logged_logged.
    + done.
  - intros Ht. unfold handle_endpoint. rewrite run_self. unfold handle_core_data. rewrite run_self. cbn [id].
    rewrite open_sealed by (done || by destruct Hk). unfold receipt. rewrite Ht. cbn [when].
    rewrite Hr1. cbn [when]. by rewrite session_out_send_run.
Qed.

(** ** A concrete system *)

Definition toy_env `{CryptoLib} : Env :=
  mkEnv (fun _ => false) (fun _ => false) (fun _ => false) false (fun _ => Ok ())
    (fun _ => toy_random x03) (fun n => to_uint 32 (Z.of_nat n + 100)).

Lemma toy_quic_sound `{CryptoLib} : quic_sound toy_env.
Proof. by intros peer. Qed.

Definition toy_global (b : byte) : Global := mkGlobal (toy_peer b) (toy_keypair b) true 4.

Definition toy_session_key : SessionKey :=
  mkSessionKey Ed25519 (replicate 32 x03) (replicate 32 x03) (replicate 64 x03) true
    (arr_fill 32 x07) (arr_fill 12 x03).

(** The session of a node with the peer named by [b], on the channels named by [b]. *)
Definition toy_session (b : byte) (stable : bool) : Session :=
  let n := Strings.Byte.to_N b in
  mkSession (toy_peer b) (mkSessionSender n) (mkEndpointReceiver n) (Direct (mkEndpointSender (n + 1)))
    toy_session_key true stable (to_uint 32 0) ∅.

#[local] Existing Instance toy_bitvec.
#[local] Existing Instance toy_crypto.
#[local] Existing Instance toy_crypto_laws.

Definition toy_world : World :=
  mkWorld toy_list Buffer_init {[ QUIC := mkTransSender 0 ]} 1000 0 [].

Lemma data_exchange_witness :
  let sealed := rev (CoreData_to_bytes (CD_Data (to_uint 64 9) [x41; x42])) in
  let receipt := rev (CoreData_to_bytes (CD_Delivery DT_Data (to_uint 64 9) [x41; x42])) in
  handle_outside (toy_global x01) toy_env (SM_Data (to_uint 64 9) [x41; x42]) (toy_session x02 true, toy_world) =
    (Done (), (toy_session x02 true, logged [Ev_endpoint (mkEndpointSender 3) (EM_Data sealed)] toy_world)) /\
  handle_endpoint (toy_global x02) toy_env (EM_Data sealed) (toy_session x01 true, toy_world) =
    (Done (), (toy_session x01 true,
      logged [Ev_out (RM_Data (toy_id x01) [x41; x42]);
              Ev_endpoint (mkEndpointSender 2) (EM_Data receipt)] toy_world)).
Proof.
  intros sealed receipt. assert (keys_agree toy_session_key toy_session_key) as Hk by done.
  assert (seals (session_key (toy_session x02 true)) (CD_Data (to_uint 64 9) [x41; x42]) sealed) as H1
    by reflexivity.
  assert (seals (session_key (toy_session x01 true))
    (CD_Delivery DT_Data (to_uint 64 9) (delivery_split [x41; x42] (delivery_length (toy_global x02)))) receipt) as H2
    by reflexivity.
  destruct (data_exchange (toy_global x01) (toy_global x02) toy_env toy_env (toy_session x02 true)
    (toy_session x01 true) toy_world toy_world toy_world (mkEndpointSender 3) (mkEndpointSender 2)
    (to_uint 64 9) [x41; x42] sealed receipt Hk H1 H2 eq_refl eq_refl eq_refl eq_refl eq_refl eq_refl
    eq_refl eq_refl) as (E1 & E2 & _).
  exact (conj E1 E2).
Defined.

(** ** The loop of a session *)

(** C15: a session loop does not panic and none of its handlers loops for ever, on
    messages whose lists of peers name only transports that can be started (TCP and
    QUIC), in a node whose key pair can sign and where the start of a QUIC endpoint does
    not panic: it handles its messages to the last or to the first [Err] and then closes
    with an [Err]; the key and the channel stay those it was created with, and the
    missed-heartbeat counter stays at most 4.  A send is taken to be accepted sooner or
    later and a lock to be given: what happens when the channels of the node are full and
    they are not is the subject of [Locks]. *)
Theorem session_loop_safe `{BitVecLib, CryptoLib} (g : Global) (env : Env) (l : list FutureResult)
    (s : Session) (w : World) :
  keypair_signs (g_key g) -> quic_sound env -> results_supported l -> (uval (heartbeat s) <= 4)%Z ->
  let '(r, (s', _)) := listen g env l (s, w) in
  (exists e, r = Fail e) /\ session_key s' = session_key s /\
  session_sender s' = session_sender s /\ (uval (heartbeat s') <= 4)%Z.
Proof.
  intros Hkey Hquic Hl Hh.
  pose proof (safe_listen g env Hkey Hquic l Hl) as Hsafe.
  assert (keeps (on_session (session_inv (session_key s) (session_sender s))) (listen g env l)) as Hkeeps.
  { apply keeps_bind; [|intros _; by apply kept_session_close].
    apply keeps_ignore, keeps_for_each. intros f. apply kept_forever_step. }
  specialize (Hsafe (s, w)). specialize (Hkeeps (s, w) (conj eq_refl (conj eq_refl Hh))).
  assert (match (listen g env l (s, w)).1 with Done _ => False | _ => True end) as Hend.
  { unfold listen. unfold mbind, M_bind.
    destruct (ignore (forever g env l) (s, w)) as [[a|e| |] sw]; try done.
    apply session_close_never_done. }
  destruct (listen g env l (s, w)) as [[a|e| |] [s' w']]; try done.
  split; [by eexists|]. exact Hkeeps.
Qed.

Lemma session_loop_safe_witness :
  let '(r, (s', _)) := listen (toy_global x01) toy_env [FR_HeartBeat; FR_Endpoint (EM_Data [x02])]
                         (toy_session x02 true, toy_world) in
  (exists e, r = Fail e) /\ session_key s' = toy_session_key.
Proof.
  assert (results_supported [FR_HeartBeat; FR_Endpoint (EM_Data [x02])]) as Hl by (by repeat constructor).
  assert (uval (heartbeat (toy_session x02 true)) <= 4)%Z as Hh by (by vm_compute).
  pose proof (session_loop_safe (toy_global x01) toy_env [FR_HeartBeat; FR_Endpoint (EM_Data [x02])]
    (toy_session x02 true) toy_world (toy_keypair_signs x01) toy_quic_sound Hl Hh) as Hs.
  destruct (listen _ _ _ _) as [r [s' w']]. destruct Hs as (Hr & Hk & _). exact (conj Hr Hk).
Defined.

(** Connecting to a peer whose transport cannot be started panics. *)
Lemma connect_peer_crash `{BitVecLib, CryptoLib} (g : Global) (env : Env) (w : World) (p : Peer) :
  keypair_signs (g_key g) -> startable (peer_transport p) = false -> w_transports w !! peer_transport p = None ->
  (connect_peer g env p w).1 = Crash.
Proof.
  intros Hkey Ht Hw. unfold connect_peer, generate_remote, draw.
  rewrite !run_assoc, run_gets, !run_assoc, run_modify, run_ret.
  destruct (generate_session_key_ok (g_key g) (random_session env (w_draws w)) Hkey) as (sig & ->).
  rewrite run_ret. unfold ignore, trans_send. rewrite run_gets. cbn [w_transports drawn]. rewrite Hw.
  unfold transports_start, new_channel. rewrite !run_assoc, run_gets, !run_assoc, run_modify, run_ret.
  change (peer_transport (Peer_zero_port (with_transport (g_peer g) (peer_transport p))))
    with (peer_transport p). by destruct (peer_transport p).
Qed.

(** A remote peer can make a session panic: DHT help that names a peer with a
    transport that cannot be started (RTP or UDT, which decode without error)
    makes the session start that transport, which panics, so the session ends
    without closing. *)
Theorem dht_help_panics `{BitVecLib, CryptoLib} (g : Global) (env : Env) (s : Session) (w : World)
    (p : Peer) (rest : list Peer) :
  keypair_signs (g_key g) -> startable (peer_transport p) = false ->
  w_transports w !! peer_transport p = None ->
  peer_id p <> my_id g -> PeerList_contains (w_peer_list w) (peer_id p) = false ->
  (handle_endpoint g env (EM_DHT (p :: rest)) (s, w)).1 = Crash.
Proof.
  intros Hkey Ht Hw Hp Hc. unfold handle_endpoint. rewrite run_self. cbn [for_each].
  rewrite run_assoc, run_shared, Hc, bool_decide_false by done. cbn [negb andb when].
  pose proof (connect_peer_crash g env w p Hkey Ht Hw) as Hcr. unfold world, mbind at 1, M_bind at 1.
  destruct (connect_peer g env p w) as [o w']. cbn [fst] in Hcr. by subst o.
Qed.

Definition toy_rtp_peer : Peer := mkPeer (toy_id x0a) (toy_sock x0a) RTP true.

Lemma dht_help_panics_witness :
  (handle_endpoint (toy_global x01) toy_env (EM_DHT [toy_rtp_peer]) (toy_session x02 true, toy_world)).1 = Crash.
Proof.
  apply (dht_help_panics (toy_global x01) toy_env (toy_session x02 true) toy_world toy_rtp_peer []).
  - apply toy_keypair_signs.
  - reflexivity.
  - reflexivity.
  - intros E. discriminate E.
  - vm_compute. reflexivity.
Defined.

(** ** Heartbeat *)

Section Heartbeat.
Context `{BitVecLib, CryptoLib}.
Context (g : Global) (env : Env).

Definition ping (s : Session) (e : EndpointSender) : Event :=
  Ev_endpoint e (EM_Data (SessionKey_encrypt (session_key s) (CoreData_to_bytes CD_Ping))).

Lemma handle_heartbeat_run (s : Session) (w : World) (e : EndpointSender) :
  s_endpoint s = Direct e -> endpoint_gone env e = false -> (uval (heartbeat s) <= 3)%Z ->
  handle_heartbeat g env (s, w) =
  (Done (), (set_heartbeat (to_uint 32 (uval (heartbeat s) + 1)) s, logged [ping s e] w)).
Proof.
  intros E Hg Hh. unfold handle_heartbeat. rewrite run_self.
  destruct (Z.ltb_spec 3 (uval (heartbeat s))); [lia|]. rewrite run_set_self.
  by rewrite (send_core_data_run g env _ _ e).
Qed.

Lemma handle_heartbeat_timeout (s : Session) (w : World) :
  (3 < uval (heartbeat s))%Z -> handle_heartbeat g env (s, w) = (Fail "timeout", (s, w)).
Proof.
  intros Hh. unfold handle_heartbeat. rewrite run_self. by rewrite (proj2 (Z.ltb_lt _ _) Hh).
Qed.

Lemma heartbeats_run (n : nat) (s : Session) (w : World) (e : EndpointSender) :
  s_endpoint s = Direct e -> endpoint_gone env e = false ->
  (uval (heartbeat s) + Z.of_nat n <= 4)%Z ->
  forever g env (replicate n FR_HeartBeat) (s, w) =
  (Done (), (set_heartbeat (to_uint 32 (uval (heartbeat s) + Z.of_nat n)) s,
             logged (replicate n (ping s e)) w)).
Proof.
  revert s w. induction n as [|n IH]; intros s w E Hg Hh.
  - rewrite Z.add_0_r, to_uint_uval, logged_nil. by destruct s.
  - unfold forever in *. cbn [replicate for_each forever_step].
    rewrite (run_done _ _ _ _ _ (handle_heartbeat_run s w e E Hg ltac:(lia))).
    pose proof (uval_range (heartbeat s)) as Hr. change (2 ^ Z.of_N 32)%Z with 4294967296%Z in Hr.
    assert (uval (to_uint 32 (uval (heartbeat s) + 1)) = uval (heartbeat s) + 1)%Z as Hu.
    { apply to_uint_small. change (2 ^ Z.of_N 32)%Z with 4294967296%Z. lia. }
    rewrite IH; try done; cbn [heartbeat set_heartbeat]; rewrite ?Hu; [|lia].
    rewrite logged_logged.
    by replace (uval (heartbeat s) + 1 + Z.of_nat n)%Z with (uval (heartbeat s) + Z.of_nat (S n))%Z by lia.
Qed.

(** The heartbeat.  A direct session sends one ping per beat; without a pong
    it survives four beats and the fifth ends it with a timeout, after which it
    closes. *)
Theorem heartbeat_timeout (s : Session) (w : World) (e : EndpointSender) (later : list FutureResult) :
  s_endpoint s = Direct e -> endpoint_gone env e = false -> uval (heartbeat s) = 0%Z ->
  (forall n, n <= 4 ->
     forever g env (replicate n FR_HeartBeat) (s, w) =
     (Done (), (set_heartbeat (to_uint 32 (Z.of_nat n)) s, logged (replicate n (ping s e)) w))) /\
  forever g env (replicate 5 FR_HeartBeat ++ later) (s, w) =
  (Fail "timeout", (set_heartbeat (to_uint 32 4) s, logged (replicate 4 (ping s e)) w)).
Proof.
  intros E Hg Hh. split.
  - intros n Hn. rewrite (heartbeats_run n s w e) by (done || lia). by rewrite Hh.
  - pose proof (heartbeats_run 4 s w e E Hg) as Hrun. rewrite Hh in Hrun. specialize (Hrun ltac:(lia)).
    change (replicate 5 FR_HeartBeat ++ later) with (replicate 4 FR_HeartBeat ++ FR_HeartBeat :: later).
    unfold forever in *. rewrite (for_each_app_done _ _ _ _ _ Hrun). cbn [for_each forever_step].
    apply run_failed. apply handle_heartbeat_timeout. by vm_compute.
Qed.

End Heartbeat.

Lemma heartbeat_timeout_witness :
  forever (toy_global x01) toy_env (replicate 5 FR_HeartBeat) (toy_session x02 true, toy_world) =
  (Fail "timeout", (set_heartbeat (to_uint 32 4) (toy_session x02 true),
     logged (replicate 4 (ping (toy_session x02 true) (mkEndpointSender 3))) toy_world)).
Proof.
  apply (heartbeat_timeout (toy_global x01) toy_env (toy_session x02 true) toy_world
    (mkEndpointSender 3) [] eq_refl eq_refl eq_refl).
Defined.

(** ** The end of a session *)

Section Closing.
Context `{BitVecLib, CryptoLib}.
Context (g : Global) (env : Env).

Definition run_res {A : Type} (r : res A) : outcome A :=
  match r with
  | Ok a => Done a
  | Err e => Fail e
  | Panic => Crash
  end.

Lemma global_stable_to_dht_run (p : PeerId) (w : World) :
  global_stable_to_dht env p w =
  let '(pl, r) := PeerList_stable_to_dht (w_peer_list w) (random_key env (w_draws w)) p in
  (run_res r, set_peer_list pl (drawn (set_buffer
     (Buffer_remove_stable (Buffer_remove_tmp (w_buffer w) p).1 p) w))).
Proof.
  unfold global_stable_to_dht, on_buffer, on_peer_list, draw, mbind, M_bind, gets, modify, mret, M_ret.
  destruct (Buffer_remove_tmp (w_buffer w) p) as [b o]. cbn [w_peer_list w_buffer w_draws set_buffer drawn].
  by destruct (PeerList_stable_to_dht _ _ _) as [pl [u|e|]].
Qed.

(** [close(false)] of a stable direct session. *)
Lemma close_stable_direct_run (s : Session) (w : World) (e : EndpointSender) :
  is_stable s = true -> s_endpoint s = Direct e -> out_gone env = false ->
  session_close g env false (s, w) =
  let p := remote_id s in
  let '(r, w') := global_stable_to_dht env p (logged [Ev_out (RM_StableLeave p)] w) in
  (match r with Done _ => Fail "close session" | Fail e => Fail e | Crash => Crash | Hang => Hang end,
   (s, w')).
Proof.
  intros Hs E Ho. unfold session_close. rewrite run_self. cbn [id]. rewrite Hs.
  assert (is_direct s = true) as Hd by (unfold is_direct; by rewrite E). rewrite Hd. cbn [negb when].
  rewrite !run_assoc.
  assert (ignore (session_out_send env (RM_StableLeave (remote_id s))) (s, w) =
          (Done (), (s, logged [Ev_out (RM_StableLeave (remote_id s))] w))) as E1
    by (unfold ignore; by rewrite session_out_send_run).
  rewrite (run_done _ _ _ _ _ E1), !run_assoc, run_ret. cbn zeta.
  unfold world, mbind, M_bind.
  by destruct (global_stable_to_dht env (remote_id s) _) as [[a|e'| |] w'].
Qed.

(** [close(true)] of a stable direct session. *)
Lemma leave_stable_direct_run (s : Session) (w : World) (e : EndpointSender) :
  is_stable s = true -> s_endpoint s = Direct e -> out_gone env = false -> endpoint_gone env e = false ->
  session_close g env true (s, w) =
  (Fail "close session",
   (s, logged [Ev_endpoint e EM_Close]
         (set_peer_list (stable_leave (w_peer_list w) (remote_id s))
            (logged [Ev_out (RM_StableLeave (remote_id s))] w)))).
Proof.
  intros Hs E Ho Hg. unfold session_close. rewrite run_self. cbn [id]. rewrite Hs.
  assert (is_direct s = true) as Hd by (unfold is_direct; by rewrite E). rewrite Hd. cbn [negb when].
  rewrite !run_assoc.
  assert (ignore (session_out_send env (RM_StableLeave (remote_id s))) (s, w) =
          (Done (), (s, logged [Ev_out (RM_StableLeave (remote_id s))] w))) as E1
    by (unfold ignore; by rewrite session_out_send_run).
  rewrite (run_done _ _ _ _ _ E1), !run_assoc, run_ret, !run_assoc.
  set (w1 := set_peer_list (stable_leave (w_peer_list w) (remote_id s))
               (logged [Ev_out (RM_StableLeave (remote_id s))] w)).
  assert (world (on_peer_list (fun pl => (stable_leave pl (remote_id s), ())))
            (s, logged [Ev_out (RM_StableLeave (remote_id s))] w) = (Done (), (s, w1))) as E2 by done.
  rewrite (run_done _ _ _ _ _ E2).
  assert (ignore (direct_send env EM_Close) (s, w1) = (Done (), (s, logged [Ev_endpoint e EM_Close] w1))) as E3
    by (unfold ignore; by rewrite (direct_send_run env s w1 e)).
  by rewrite (run_done _ _ _ _ _ E3).
Qed.

Lemma PeerList_stable_to_dht_direct (pl : PeerList) (k : u32) (p : PeerId) (v : KadValue) :
  pl_stables pl !! p = Some (v, true) ->
  (PeerList_stable_to_dht pl k p).2 =
    (if (DoubleKadTree_add (pl_dhts pl) k v).2 then Ok () else Err "stable is closed") /\
  pl_dhts (PeerList_stable_to_dht pl k p).1 = (DoubleKadTree_add (pl_dhts pl) k v).1 /\
  pl_stables (PeerList_stable_to_dht pl k p).1 = delete p (pl_stables pl).
Proof.
  intros E. unfold PeerList_stable_to_dht. destruct (remove_allow_peer_dhts pl p) as [Ed Es].
  destruct (remove_allow_peer pl p) as [pl1 o]. cbn [fst] in Ed, Es. rewrite Es, E.
  cbn [with_stables with_dhts pl_dhts]. rewrite Ed.
  by destruct (DoubleKadTree_add (pl_dhts pl) k v) as [d [|]].
Qed.

(** A peer that the table refuses is not in it. *)
Lemma table_add_refused (d : DoubleKadTree) (k : u32) (v : KadValue) :
  table_wf d -> dk_values d !! k = None -> (DoubleKadTree_add d k v).2 = false ->
  DoubleKadTree_contains (DoubleKadTree_add d k v).1 (peer_id (kv_peer v)) = false.
Proof.
  intros Hwf Hf Hr. pose proof (table_add_spec d k v Hwf Hf) as Hs.
  destruct (DoubleKadTree_add d k v) as [d' ok]. cbn [fst snd] in *. subst ok.
  destruct Hs as (Hwf' & (E & _ & Hk & _) & _). apply not_true_is_false. unfold DoubleKadTree_contains.
  rewrite KadTree_contains_keys, KadTree_keys_cells by apply Hwf'. by rewrite E.
Qed.

(** C37: closing a stable direct session by request.  [Close] moves the peer from the
    stable connections to the DHT table and ends the loop, and the session then closes
    once more as a leave: the application is told twice that the peer left and the
    transport is closed.  When the table accepts the peer, its entry is left behind: the
    table still answers with the channels of the session that has ended.  When the table
    refuses it, because its bucket is full of closer peers, the peer is gone.  (The number
    drawn for the entry is one that is not in use.) *)
Theorem stable_close_leaves_entry (s : Session) (w : World) (e : EndpointSender) (v : KadValue) :
  let add := DoubleKadTree_add (pl_dhts (w_peer_list w)) (random_key env (w_draws w)) v in
  is_stable s = true -> s_endpoint s = Direct e -> out_gone env = false -> endpoint_gone env e = false ->
  peer_list_wf (w_peer_list w) ->
  dk_values (pl_dhts (w_peer_list w)) !! random_key env (w_draws w) = None ->
  pl_stables (w_peer_list w) !! remote_id s = Some (v, true) -> peer_id (kv_peer v) = remote_id s ->
  let '(r, (_, w')) := listen g env [FR_Out SM_Close] (s, w) in
  r = Fail "close session" /\
  w_log w' = w_log w ++ [Ev_out (RM_StableLeave (remote_id s)); Ev_out (RM_StableLeave (remote_id s));
                         Ev_endpoint e EM_Close] /\
  pl_stables (w_peer_list w') !! remote_id s = None /\
  (add.2 = true -> PeerList_get (w_peer_list w') (remote_id s) = Some (kv_session v, kv_stream v, true)) /\
  (add.2 = false -> DoubleKadTree_contains (pl_dhts (w_peer_list w')) (remote_id s) = false).
Proof.
  intros add Hs E Ho Hg Hwf Hf Hst Hid. unfold listen, forever. cbn [for_each forever_step].
  destruct (PeerList_stable_to_dht_direct _ (random_key env (w_draws w)) _ _ Hst) as (Hr & Hd & Hl).
  fold add in Hr, Hd.
  assert (handle_outside g env SM_Close (s, w) = session_close g env false (s, w)) as E0 by done.
  rewrite (close_stable_direct_run s w e Hs E Ho) in E0. cbn zeta in E0.
  rewrite global_stable_to_dht_run in E0.
  cbn [w_peer_list w_draws logged] in E0.
  destruct (PeerList_stable_to_dht (w_peer_list w) (random_key env (w_draws w)) (remote_id s)) as [pl r].
  cbn [fst snd] in *. subst r.
  assert (exists err, match run_res (if add.2 then Ok () else Err "stable is closed") with
    Done _ => Fail "close session" | Fail e => Fail e | Crash => Crash | Hang => Hang end = @Fail () err) as [err Eerr]
    by (destruct add.2; by eexists).
  rewrite Eerr in E0.
  match type of E0 with _ = (_, (s, ?w1)) => set (w2 := w1) in E0 end.
  assert (ignore (handle_outside g env SM_Close ;; mret ()) (s, w) = (Done (), (s, w2))) as E1
    by (unfold ignore; by rewrite (run_failed _ _ _ _ _ E0)).
  rewrite (run_done _ _ _ _ _ E1), (leave_stable_direct_run s w2 e) by done.
  split; [done|]. split_and!.
  - cbn. by rewrite <- !app_assoc.
  - cbn. rewrite Hl. by rewrite delete_delete_eq, lookup_delete_eq.
  - intros Ha. unfold PeerList_get, stable_get, dht_get. cbn. rewrite Hl, Hd, delete_delete_eq, lookup_delete_eq.
    simpl. rewrite <- Hid. unfold add in *. by rewrite table_add_search.
  - intros Ha. cbn. rewrite Hd, <- Hid. unfold add in *. by apply table_add_refused.
Qed.

End Closing.

(** A world in which the peer [x02] has a stable direct connection. *)
Definition toy_stable_world : World :=
  mkWorld (mkPeerList "peer_list" [] [] [] toy_table {[ toy_id x02 := (toy_value x02, true) ]})
    Buffer_init {[ QUIC := mkTransSender 0 ]} 1000 0 [].

Lemma stable_close_leaves_entry_witness :
  let '(r, (_, w')) := listen (toy_global x01) toy_env [FR_Out SM_Close] (toy_session x02 true, toy_stable_world) in
  r = Fail "close session" /\
  w_log w' = [Ev_out (RM_StableLeave (toy_id x02)); Ev_out (RM_StableLeave (toy_id x02));
              Ev_endpoint (mkEndpointSender 3) EM_Close] /\
  pl_stables (w_peer_list w') !! toy_id x02 = None /\
  PeerList_get (w_peer_list w') (toy_id x02) = Some (mkSessionSender 2, mkEndpointSender 2, true).
Proof.
  assert (dk_values (pl_dhts (w_peer_list toy_stable_world)) !! random_key toy_env 0 = None) as Hf by (by vm_compute).
  assert (pl_stables (w_peer_list toy_stable_world) !! toy_id x02 = Some (toy_value x02, true)) as Hst
    by (by vm_compute).
  assert ((DoubleKadTree_add toy_table (random_key toy_env 0) (toy_value x02)).2 = true) as Ha by (by vm_compute).
  pose proof (stable_close_leaves_entry (toy_global x01) toy_env (toy_session x02 true) toy_stable_world
    (mkEndpointSender 3) (toy_value x02) eq_refl eq_refl eq_refl eq_refl toy_list_wf Hf Hst eq_refl) as Hs.
  destruct (listen _ _ _ _) as [r [s' w']]. destruct Hs as (H1 & H2 & H3 & H4 & _).
  exact (conj H1 (conj H2 (conj H3 (H4 Ha)))).
Defined.

Section Refusing.
Context `{BitVecLib, CryptoLib}.
Context (g : Global) (env : Env).

Lemma add_dht_wf (pl : PeerList) (k : u32) (v : KadValue) :
  peer_list_wf pl -> dk_values (pl_dhts pl) !! k = None ->
  peer_list_wf (PeerList_add_dht pl k v).1.1.
Proof.
  intros Hwf Hf. unfold PeerList_add_dht.
  destruct (if _ && _ then _ else _) as [pl1 saved] eqn:E1.
  assert (pl_dhts pl1 = pl_dhts pl) as Ed.
  { destruct (_ && _); injection E1 as <- <-; [apply add_bootstrap_dhts|done]. }
  rewrite Ed. pose proof (table_add_spec (pl_dhts pl) k v Hwf Hf) as Hs.
  destruct (DoubleKadTree_add (pl_dhts pl) k v) as [d ok]. apply Hs.
Qed.

Lemma world_add_dht_run (v : KadValue) (w : World) :
  world_add_dht env v w =
  let '(pl, ok, saved) := PeerList_add_dht (w_peer_list w) (random_key env (w_draws w)) v in
  (Done ok, logged (match saved with Some (path, text) => [Ev_write path text] | None => [] end)
              (set_peer_list pl (drawn w))).
Proof.
  unfold world_add_dht, on_peer_list, draw, save_file, mbind, M_bind, gets, modify, mret, M_ret.
  cbn [w_peer_list w_draws drawn].
  destruct (PeerList_add_dht _ _ _) as [[pl ok] [[path text]|]]; [done|]. by rewrite logged_nil.
Qed.

(** The table after [add_dht]. *)
Lemma add_dht_table (pl : PeerList) (k : u32) (v : KadValue) :
  pl_dhts (PeerList_add_dht pl k v).1.1 = (DoubleKadTree_add (pl_dhts pl) k v).1.
Proof.
  unfold PeerList_add_dht. destruct (if _ && _ then _ else _) as [pl1 saved] eqn:E1.
  assert (pl_dhts pl1 = pl_dhts pl) as ->.
  { destruct (_ && _); injection E1 as <- <-; [apply add_bootstrap_dhts|done]. }
  by destruct (DoubleKadTree_add (pl_dhts pl) k v).
Qed.

(** [tmp_to_dht] keeps the table sound and moves a direct temporary entry into it. *)
Lemma tmp_to_dht_moves (p : PeerId) (w : World) :
  peer_list_wf (w_peer_list w) -> dk_values (pl_dhts (w_peer_list w)) !! random_key env (w_draws w) = None ->
  let w1 := (global_tmp_to_dht env p w).2 in
  peer_list_wf (w_peer_list w1) /\ buf_tmps (w_buffer w1) !! p = None /\
  (forall t v, buf_tmps (w_buffer w) !! p = Some (t, v, true) ->
     (DoubleKadTree_add (pl_dhts (w_peer_list w)) (random_key env (w_draws w)) v).2 = true ->
     DoubleKadTree_search (pl_dhts (w_peer_list w1)) (peer_id (kv_peer v)) = Some (v, true)).
Proof.
  intros Hwf Hf. unfold global_tmp_to_dht, on_buffer. rewrite run_assoc, run_gets. cbn [Buffer_remove_tmp].
  rewrite run_assoc, run_modify, run_ret.
  destruct (buf_tmps (w_buffer w) !! p) as [[[t v] [|]]|]; cbn [mbind option_bind].
  2,3: split; [done|]; split; [apply lookup_delete_eq|done].
  unfold mbind, M_bind. rewrite world_add_dht_run. cbn [w_peer_list w_draws set_buffer].
  pose proof (add_dht_wf (w_peer_list w) (random_key env (w_draws w)) v Hwf Hf) as Hw.
  pose proof (add_dht_table (w_peer_list w) (random_key env (w_draws w)) v) as Ht.
  destruct (PeerList_add_dht _ _ _) as [[pl [|]] saved]; cbn [fst snd] in *;
    (split; [done|]; split; [apply lookup_delete_eq|]);
    intros t' v' [= <- <-] Ha; cbn; rewrite Ht; by apply table_add_search.
Qed.

(** [close(false)] of a session that is not stable, direct. *)
Lemma close_unstable_direct_run (s : Session) (w : World) (e : EndpointSender) :
  is_stable s = false -> s_endpoint s = Direct e ->
  exists err, session_close g env false (s, w) = (Fail err, (s, (global_tmp_to_dht env (remote_id s) w).2)) .
Proof.
  intros Hs E. unfold session_close. rewrite run_self. cbn [id]. rewrite Hs.
  assert (is_direct s = true) as -> by (unfold is_direct; by rewrite E).
  pose proof (safe_global_tmp_to_dht env (remote_id s) w) as Hsafe.
  unfold world, mbind, M_bind. destruct (global_tmp_to_dht env (remote_id s) w) as [[a|e'| |] w']; try done;
    by eexists.
Qed.

Lemma leave_unstable_direct_run (s : Session) (w : World) (e : EndpointSender) :
  is_stable s = false -> s_endpoint s = Direct e ->
  session_close g env true (s, w) =
  (Fail "close session",
   (s, set_peer_list (remove_peer (w_peer_list w) (remote_id s)).1
         (set_buffer (Buffer_remove_tmp (w_buffer w) (remote_id s)).1 w))).
Proof.
  intros Hs E. unfold session_close. rewrite run_self. cbn [id]. rewrite Hs.
  assert (is_direct s = true) as -> by (unfold is_direct; by rewrite E). done.
Qed.

(** What a negative result does before the session ends. *)
Lemma refused_result_moves (s : Session) (w : World) (e : EndpointSender) (tid : u64) (is_force : bool)
    (data : list byte) :
  is_stable s = false -> s_endpoint s = Direct e -> endpoint_gone env e = false ->
  exists err, handle_outside g env (SM_StableResult tid false is_force data) (s, w) =
    (Fail err, (s, (global_tmp_to_dht env (remote_id s) (logged [Ev_endpoint e (EM_Data
       (SessionKey_encrypt (session_key s) (CoreData_to_bytes (CD_StableResult tid false data))))] w)).2)).
Proof.
  intros Hs E Hg. unfold handle_outside. rewrite run_self. cbn [id]. rewrite Hs.
  rewrite (run_done _ _ _ _ _ (send_core_data_run g env s w e (CD_StableResult tid false data) E Hg)).
  cbn [negb andb when]. rewrite run_ret, run_self, Hs. cbn [negb andb when].
  match goal with |- context [(s, ?w0)] => set (w2 := w0) end.
  destruct (close_unstable_direct_run s w2 e Hs E) as [err Ec].
  rewrite (run_failed _ _ _ _ _ Ec). by eexists.
Qed.


End Refusing.

(** A world in which the peer [xfe] has a temporary session. *)
Definition toy_tmp_world : World :=
  set_buffer (Buffer_add_tmp Buffer_init (toy_id xfe) (toy_value xfe) true) toy_world.

