(* ===== verification/RelayProps.v ===== *)
(** * Data through a relay

    Two peers without a direct connection, each with a relayed stable session to
    the other and a direct session to the same third node: what one sends reaches
    the application of the other, hop by hop, and the node between them handles
    nothing but the sealed bytes. *)

From S2P Require Import Prelude Net Types Keys Wire Kad KadMetric KadTable Buffer PeerList Global Session SessionFacts SessionProps.
From stdpp Require Import list_relations list.

(** ** The hops *)

Section Hops.
Context `{BitVecLib, CryptoLib}.
Context (g : Global) (env : Env).

(** A relayed session hands the sealed message to the session it is relayed by. *)
Lemma relay_send_core_data_run (s : Session) (w : World) (ss : SessionSender) (c : CoreData) :
  s_endpoint s = Relay ss -> session_gone env ss = false ->
  send_core_data g env c (s, w) =
  (Done (), (s, logged [Ev_session ss (SM_RelayData (my_id g) (remote_id s)
                          (SessionKey_encrypt (session_key s) (CoreData_to_bytes c)))] w)).
Proof.
  intros E Hg. unfold send_core_data. rewrite run_self. cbn [id]. unfold is_direct. rewrite E.
  unfold relay_send. rewrite run_self, E. unfold world, send_session. by rewrite Hg.
Qed.

(** A direct session passes a message on that is not from its own node to its own
    peer. *)
Lemma relay_forward_run (s : Session) (w : World) (e : EndpointSender) (from to : PeerId) (data : list byte) :
  s_endpoint s = Direct e -> endpoint_gone env e = false -> to <> remote_id s \/ from <> my_id g ->
  handle_outside g env (SM_RelayData from to data) (s, w) =
  (Done (), (s, logged [Ev_endpoint e (EM_RelayData from to data)] w)).
Proof.
  intros E Hg Hne. unfold handle_outside. rewrite run_self. cbn [id].
  assert (bool_decide (to = remote_id s) && bool_decide (from = my_id g) = false) as ->.
  { apply andb_false_iff. rewrite !bool_decide_eq_false. tauto. }
  unfold is_direct. rewrite E. by apply direct_send_run.
Qed.

(** The node between: a message for another peer goes to the session the peer list
    names. *)
Lemma relay_between_run (s : Session) (w : World) (ss : SessionSender) (from to : PeerId) (data : list byte) :
  is_relay_data g = true -> to <> my_id g ->
  PeerList_next_closest (w_peer_list w) to (remote_id s) = Some ss -> session_gone env ss = false ->
  handle_endpoint g env (EM_RelayData from to data) (s, w) =
  (Done (), (s, logged [Ev_session ss (SM_RelayData from to data)] w)).
Proof.
  intros Hr Hto Hn Hg. unfold handle_endpoint. rewrite run_self. rewrite bool_decide_false by done.
  rewrite Hr. cbn [when]. rewrite run_shared. cbn [id]. rewrite Hn.
  unfold ignore, world, send_session. by rewrite Hg.
Qed.

(** The other end: a message of a stable peer that came through another one goes
    to the stream of that peer's session. *)
Lemma relay_arrival_run (s : Session) (w : World) (es : EndpointSender) (from : PeerId) (data : list byte) :
  from <> remote_id s -> get_stable_stream (w_peer_list w) from = Some es -> endpoint_gone env es = false ->
  handle_endpoint g env (EM_RelayData from (my_id g) data) (s, w) =
  (Done (), (s, logged [Ev_endpoint es (EM_Data data)] w)).
Proof.
  intros Hf Hs Hg. unfold handle_endpoint. rewrite run_self. rewrite bool_decide_true by done.
  rewrite bool_decide_false by done. rewrite run_shared, Hs. unfold ignore, world, send_endpoint. by rewrite Hg.
Qed.

End Hops.

(** ** End to end *)

Section Relayed.
Context `{BitVecLib, CryptoLaws}.

(** The three nodes. *)
Context (g_a g_r g_b : Global) (env_a env_r env_b : Env).

(** The sessions of [a] with [b] and with [r], of [r] with [a] and [b], and of [b]
    with [r] and with [a]. *)
Context (s_ab s_ar s_ra s_rb s_br s_ba : Session).

(** The channels between them. *)
Context (to_ar to_rb to_br : SessionSender) (wire_ar wire_rb stream_ba : EndpointSender).

Record relay_path (pl_r pl_b : PeerList) : Prop := mkRelayPath {
  path_distinct : my_id g_a <> my_id g_r /\ my_id g_b <> my_id g_r;
  path_names : remote_id s_ab = my_id g_b /\ remote_id s_ar = my_id g_r /\ remote_id s_ra = my_id g_a /\
               remote_id s_rb = my_id g_b /\ remote_id s_br = my_id g_r /\ remote_id s_ba = my_id g_a;
  path_relayed : s_endpoint s_ab = Relay to_ar /\ s_endpoint s_ba = Relay to_br;
  path_direct : s_endpoint s_ar = Direct wire_ar /\ s_endpoint s_rb = Direct wire_rb;
  path_next : is_relay_data g_r = true /\
              PeerList_next_closest pl_r (my_id g_b) (my_id g_a) = Some to_rb;
  path_stable : get_stable_stream pl_b (my_id g_a) = Some stream_ba;
  path_open : session_gone env_a to_ar = false /\ endpoint_gone env_a wire_ar = false /\
              session_gone env_r to_rb = false /\ endpoint_gone env_r wire_rb = false /\
              endpoint_gone env_b stream_ba = false /\ session_gone env_b to_br = false /\
              out_gone env_b = false
}.

(** C10: data through a relay.  Two peers that share a key and have no direct
    connection exchange data through a node both are connected to, which relays data
    ([is_relay_data]) and whose peer list names the session of the second as the next hop:
    the sender seals the message with the cipher under the session key and nonce of the
    two; each hop forwards what the cipher made of it, and nothing else, unchanged to the
    next one; the last hop, when that node receives data ([is_recv_data]), hands exactly
    the data that was sent, under the sender's name, to the application, and a receipt that
    was asked for, sealed in the same way, starts on the way back.  No hop changes a session
    or the shared state. *)
Theorem relayed_data_delivered (w_ab w_ar w_ra w_rb w_br w_ba : World) (tid : u64)
    (data sealed receipt : list byte) :
  relay_path (w_peer_list w_ra) (w_peer_list w_br) ->
  keys_agree (session_key s_ab) (session_key s_ba) -> seals (session_key s_ab) (CD_Data tid data) sealed ->
  seals (session_key s_ba) (CD_Delivery DT_Data tid (delivery_split data (delivery_length g_b))) receipt ->
  is_recv_data s_ba = true ->
    handle_outside g_a env_a (SM_Data tid data) (s_ab, w_ab) =
      (Done (), (s_ab, logged [Ev_session to_ar (SM_RelayData (my_id g_a) (my_id g_b) sealed)] w_ab)) /\
    handle_outside g_a env_a (SM_RelayData (my_id g_a) (my_id g_b) sealed) (s_ar, w_ar) =
      (Done (), (s_ar, logged [Ev_endpoint wire_ar (EM_RelayData (my_id g_a) (my_id g_b) sealed)] w_ar)) /\
    handle_endpoint g_r env_r (EM_RelayData (my_id g_a) (my_id g_b) sealed) (s_ra, w_ra) =
      (Done (), (s_ra, logged [Ev_session to_rb (SM_RelayData (my_id g_a) (my_id g_b) sealed)] w_ra)) /\
    handle_outside g_r env_r (SM_RelayData (my_id g_a) (my_id g_b) sealed) (s_rb, w_rb) =
      (Done (), (s_rb, logged [Ev_endpoint wire_rb (EM_RelayData (my_id g_a) (my_id g_b) sealed)] w_rb)) /\
    handle_endpoint g_b env_b (EM_RelayData (my_id g_a) (my_id g_b) sealed) (s_br, w_br) =
      (Done (), (s_br, logged [Ev_endpoint stream_ba (EM_Data sealed)] w_br)) /\
    handle_endpoint g_b env_b (EM_Data sealed) (s_ba, w_ba) =
      (Done (), (s_ba, logged ([Ev_out (RM_Data (my_id g_a) data)] ++
         if nonzero tid then [Ev_session to_br (SM_RelayData (my_id g_b) (my_id g_a) receipt)] else []) w_ba)).
Proof.
  intros [[Har Hbr] (Nab & Nar & Nra & Nrb & Nbr & Nba) [Eab Eba] [Ear Erb] [Hr Hn] Hst
    (O1 & O2 & O3 & O4 & O5 & O6 & O7)] Hk [Hseal <-]%seals_sealable [_ <-]%seals_sealable Hrecv.
  split_and!.
  - unfold handle_outside. rewrite run_self. rewrite (relay_send_core_data_run _ _ _ _ to_ar) by done. by rewrite Nab.
  - apply relay_forward_run; [done|done|]. left. congruence.
  - apply relay_between_run; [done|done| |done]. by rewrite Nra.
  - apply relay_forward_run; [done|done|]. by right.
  - apply relay_arrival_run; [congruence|done|done].
  - unfold handle_endpoint. rewrite run_self. unfold handle_core_data. rewrite run_self. cbn [id].
    rewrite open_sealed by done. rewrite Hrecv. cbn [when].
    rewrite (run_done _ _ _ _ _ (session_out_send_run env_b s_ba w_ba _ O7)). rewrite Nba.
    unfold deliver_back, when. destruct (nonzero tid); [|done].
    rewrite (relay_send_core_data_run _ _ _ _ to_br) by done. by rewrite logged_logged, Nba.
Qed.

End Relayed.

(** ** Witness *)

#[local] Existing Instance toy_bitvec.
#[local] Existing Instance toy_crypto.
#[local] Existing Instance toy_crypto_laws.

(** A session of the given node with the peer named by [b], relayed by [ss]. *)
Definition toy_relayed (b : byte) (ss : SessionSender) : Session :=
  mkSession (toy_peer b) (mkSessionSender 50) (mkEndpointReceiver 50) (Relay ss) toy_session_key true true
    (to_uint 32 0) ∅.

(** The peer list with a stable connection to the peer named by [b]. *)
Definition toy_with_stable (b : byte) (is_direct : bool) : World :=
  mkWorld (PeerList_add_stable toy_list (toy_id b) (toy_value b) is_direct).1 Buffer_init ∅ 1000 0 [].

Lemma relayed_data_delivered_witness :
  let sealed := rev (CoreData_to_bytes (CD_Data (to_uint 64 0) [x41])) in
    handle_endpoint (toy_global x03) toy_env (EM_RelayData (toy_id x01) (toy_id x02) sealed)
      (toy_session x01 true, toy_with_stable x02 true) =
      (Done (), (toy_session x01 true,
        logged [Ev_session (mkSessionSender 2) (SM_RelayData (toy_id x01) (toy_id x02) sealed)]
          (toy_with_stable x02 true))) /\
    handle_endpoint (toy_global x02) toy_env (EM_Data sealed) (toy_relayed x01 (mkSessionSender 3), toy_world) =
      (Done (), (toy_relayed x01 (mkSessionSender 3), logged [Ev_out (RM_Data (toy_id x01) [x41])] toy_world)).
Proof.
  intros sealed.
  set (receipt := rev (CoreData_to_bytes (CD_Delivery DT_Data (to_uint 64 0) [x41]))).
  destruct (relayed_data_delivered (toy_global x01) (toy_global x03) (toy_global x02) toy_env toy_env toy_env
    (toy_relayed x02 (mkSessionSender 3)) (toy_session x03 true) (toy_session x01 true) (toy_session x02 true)
    (toy_session x03 true) (toy_relayed x01 (mkSessionSender 3))
    (mkSessionSender 3) (mkSessionSender 2) (mkSessionSender 3)
    (mkEndpointSender 4) (mkEndpointSender 3) (mkEndpointSender 1)
    toy_world toy_world (toy_with_stable x02 true) toy_world (toy_with_stable x01 false) toy_world
    (to_uint 64 0) [x41] sealed receipt) as (_ & _ & E3 & _ & _ & E6).
  - constructor.
    + split; intros E; vm_compute in E; discriminate E.
    + repeat split.
    + repeat split.
    + repeat split.
    + split; [reflexivity|]. vm_compute. reflexivity.
    + vm_compute. reflexivity.
    + repeat split.
  - split; reflexivity.
  - reflexivity.
  - reflexivity.
  - reflexivity.
  - split; [exact E3|exact E6].
Defined.
