(* ===== verification/ServerProps.v ===== *)
(** * Properties of the server and of opening connections

    Whom a stable connection is opened with, which incoming connections are
    accepted and under which name, where the requests of the application go, and
    what a node is after a restart. *)

From S2P Require Import Prelude Net Types Keys Wire Kad KadMetric KadFacts KadTreeFacts KadTable KadMap Buffer PeerList Global Session Server SessionFacts SessionProps.
From stdpp Require Import list_relations list.

(** ** Opening a stable connection *)

Section Opening.
Context `{BitVecLib, CryptoLib}.
Context (g : Global) (env : Env).
Context (Hkey : keypair_signs (g_key g)).

Lemma new_channel_run (w : World) : new_channel w = (Done (w_channels w), channel_made w).
Proof. done. Qed.

Lemma generate_remote_run (w : World) :
  exists k, generate_session_key (g_key g) (random_session env (w_draws w)) = Ok k /\
            generate_remote g env w = (Done (k, remote_public g k), drawn w).
Proof.
  destruct (generate_session_key_ok (g_key g) (random_session env (w_draws w)) Hkey) as (sig & E).
  eexists. split; [done|]. unfold generate_remote, draw. rewrite run_assoc, run_gets, run_assoc, run_modify, run_ret.
  by rewrite E.
Qed.

Lemma trans_send_run (t : TransportType) (m : TransportSendMessage) (w : World) (ts : TransSender) :
  w_transports w !! t = Some ts -> trans_gone env ts = false ->
  trans_send g env t m w = (Done (), logged [Ev_trans ts m] w).
Proof.
  intros E Hg. unfold trans_send. rewrite run_gets, E. unfold send_trans. by rewrite Hg.
Qed.

(** C36: a relayed stable connection checks whom it reached.  When the key of the
    remote that answers is not the key of the peer asked for, no session is
    started: the temporary entry is removed, the peer list is as before, nothing
    but the relay request was sent, and the task ends with the error. *)
Theorem relay_stable_checks_identity (tid : u64) (delivery : list byte) (to : Peer)
    (relay_sender recv_ss : SessionSender) (recv_data : bool) (rp : RemotePublic)
    (l : list FutureResult) (w : World) :
  session_gone env relay_sender = false -> Keypair_peer_id (rp_key rp) <> peer_id to ->
  exists w' m,
    relay_stable g env tid delivery to relay_sender recv_data (Some (SM_RelayResult rp recv_ss)) l w =
      (Fail "session stable unknown peer.", w') /\
    buf_tmps (w_buffer w') !! peer_id to = None /\ w_peer_list w' = w_peer_list w /\
    w_log w' = w_log w ++ [Ev_session relay_sender (SM_RelayConnect m (peer_id to))].
Proof.
  intros Hg Hid. unfold relay_stable, new_endpoint_channel, new_session_channel.
  rewrite run_assoc, (run_done _ _ _ _ _ (new_channel_run w)), run_ret.
  rewrite run_assoc, (run_done _ _ _ _ _ (new_channel_run _)), run_ret.
  destruct (generate_remote_run (channel_made (channel_made w))) as (k & _ & Ek).
  rewrite (run_done _ _ _ _ _ Ek).
  assert (forall kv w0, global_add_all_tmp (peer_id to) kv false w0 =
    (Done ((Buffer_remove_connect (w_buffer w0) (peer_id to)).2,
           (Buffer_remove_result (Buffer_remove_connect (w_buffer w0) (peer_id to)).1 (peer_id to)).2),
     set_buffer (Buffer_add_tmp (Buffer_remove_result (Buffer_remove_connect (w_buffer w0) (peer_id to)).1
       (peer_id to)).1 (peer_id to) kv false) w0)) as Ea by done.
  rewrite (run_done _ _ _ _ _ (Ea _ _)). unfold send_session. rewrite Hg.
  destruct rp as [rk rpeer dh]. cbn [rp_key] in Hid. unfold emit. rewrite run_modify.
  rewrite bool_decide_false by done. cbn [negb].
  unfold on_buffer. rewrite run_assoc, run_gets, run_assoc, run_modify, run_ret.
  do 2 eexists. split; [reflexivity|]. split_and!; [|done|reflexivity].
  cbn. by rewrite lookup_delete_eq.
Qed.

(** C35: a direct stable connection does not check whom it reached.  When the
    request names the peer (its id is not the default one) and the handshake is
    valid under the key of whoever answers, whether or not that is the peer that was
    asked for, the temporary entry is made under the id of that key and a session is
    run, with the completed key, whose remote is the record the answer claims to be. *)
Theorem direct_stable_identity_unchecked (tid : u64) (delivery : list byte) (to : Peer) (recv_data : bool)
    (rp : RemotePublic) (msg : option SessionMessage) (l : list FutureResult) (w : World)
    (ts : TransSender) (k k' : SessionKey) :
  w_transports w !! peer_transport to = Some ts -> trans_gone env ts = false ->
  Peer_effective_id to = true -> Keypair_peer_id (rp_key rp) <> my_id g ->
  generate_session_key (g_key g) (random_session env (w_draws w)) = Ok k ->
  SessionKey_complete k (kp_pk (rp_key rp)) (rp_dh rp) = Ok (k', true) ->
  exists s queued w' kv,
    direct_stable g env tid delivery to recv_data (Some (EM_Handshake rp)) msg l w =
      run_session s (stable_session g env queued [] l) w' /\
    session_key s = k' /\ remote_peer s = nat_peer (peer_socket to) (rp_peer rp) /\
    buf_tmps (w_buffer w') !! Keypair_peer_id (rp_key rp) = Some (false, kv, true) /\
    kv_peer kv = nat_peer (peer_socket to) (rp_peer rp).
Proof.
  intros Ht Htg Heff Hme Hk Hc. unfold direct_stable, new_endpoint_channel, new_session_channel.
  rewrite run_assoc, (run_done _ _ _ _ _ (new_channel_run w)), run_ret.
  rewrite run_assoc, (run_done _ _ _ _ _ (new_channel_run _)), run_ret.
  destruct (generate_remote_run (channel_made (channel_made w))) as (k0 & Ek0 & Ek).
  cbn [w_draws channel_made] in Ek0. assert (k0 = k) as -> by congruence.
  rewrite (run_done _ _ _ _ _ Ek).
  rewrite (run_done _ _ _ _ _ (trans_send_run _ _ (drawn (channel_made (channel_made w))) ts Ht Htg)).
  destruct rp as [rk rpeer dh]. cbn [rp_key rp_peer rp_dh] in *.
  rewrite Heff. cbn [negb andb]. rewrite bool_decide_false by done. rewrite Hc. cbn [of_res]. rewrite run_ret. cbn [negb].
  rewrite run_assoc, (run_done _ _ _ _ _ (new_channel_run _)), run_ret.
  unfold global_add_tmp, on_buffer. rewrite run_assoc, run_gets. cbn zeta.
  unfold Buffer_remove_connect at 1. rewrite run_assoc, run_modify, run_ret.
  do 4 eexists. split; [reflexivity|]. split; [done|]. split; [done|].
  split; [cbn; rewrite lookup_insert_eq; reflexivity|reflexivity].
Qed.

End Opening.

#[local] Existing Instance toy_bitvec.
#[local] Existing Instance toy_bitvec_laws.
#[local] Existing Instance toy_crypto.
#[local] Existing Instance toy_crypto_laws.

(** The handshake of the owner of the key [x04], whoever it says it is. *)
Definition toy_remote (claimed : byte) : RemotePublic :=
  mkRemotePublic (Keypair_public (toy_keypair x04)) (toy_peer claimed)
    (replicate 32 x05 ++ replicate 32 x04 ++ replicate 32 x00 ++ replicate 12 x06).

Lemma relay_stable_checks_identity_witness :
  exists w' m,
    relay_stable (toy_global x01) toy_env (to_uint 64 0) [] (toy_peer x02) (mkSessionSender 7) true
      (Some (SM_RelayResult (toy_remote x02) (mkSessionSender 8))) [] toy_world =
      (Fail "session stable unknown peer.", w') /\
    buf_tmps (w_buffer w') !! toy_id x02 = None /\ w_peer_list w' = toy_list /\
    w_log w' = [Ev_session (mkSessionSender 7) (SM_RelayConnect m (toy_id x02))].
Proof.
  apply (relay_stable_checks_identity (toy_global x01) toy_env (toy_keypair_signs x01)).
  - reflexivity.
  - intros E. vm_compute in E. discriminate E.
Defined.

Lemma direct_stable_identity_unchecked_witness :
  Keypair_peer_id (rp_key (toy_remote x02)) <> toy_id x02 /\
  exists s queued w' kv,
    direct_stable (toy_global x01) toy_env (to_uint 64 0) [] (toy_peer x02) true
      (Some (EM_Handshake (toy_remote x02))) None [] toy_world =
      run_session s (stable_session (toy_global x01) toy_env queued [] []) w' /\
    buf_tmps (w_buffer w') !! Keypair_peer_id (rp_key (toy_remote x02)) = Some (false, kv, true).
Proof.
  split; [intros E; vm_compute in E; discriminate E|].
  assert (exists k, generate_session_key (toy_keypair x01) (toy_random x03) = Ok k /\
    exists k', SessionKey_complete k (replicate 32 x04) (rp_dh (toy_remote x02)) = Ok (k', true))
    as (k & Ek & k' & Ek').
  { eexists. split; [reflexivity|]. eexists. vm_compute. reflexivity. }
  destruct (direct_stable_identity_unchecked (toy_global x01) toy_env (toy_keypair_signs x01)
    (to_uint 64 0) [] (toy_peer x02) true (toy_remote x02) None [] toy_world (mkTransSender 0) k k')
    as (s & q & w' & kv & E & _ & _ & Et & _).
  - vm_compute. reflexivity.
  - reflexivity.
  - vm_compute. reflexivity.
  - intros E. vm_compute in E. discriminate E.
  - exact Ek.
  - exact Ek'.
  - exists s, q, w', kv. exact (conj E Et).
Defined.

(** ** Incoming connections *)

Section Incoming.
Context `{BitVecLib, CryptoLib}.
Context (g : Global) (env : Env) (recv_data : bool).

Lemma refuse_run (e : EndpointSender) (w : World) :
  endpoint_gone env e = false -> refuse env e w = (Done (), logged [Ev_endpoint e EM_Close] w).
Proof. intros Hg. unfold refuse, ignore, send_endpoint. by rewrite Hg. Qed.

(** Why a connection is refused before it is stored. *)
Definition incoming_blocked (m : TransportRecvMessage) (w : World) : Prop :=
  is_block_addr (w_peer_list w) (tr_addr m) = true \/
  Keypair_peer_id (rp_key (tr_remote m)) = peer_id_of g \/
  is_block_peer (w_peer_list w) (Keypair_peer_id (rp_key (tr_remote m))) = true.

(** The handshake of an incoming connection that is not valid. *)
Definition incoming_forged (m : TransportRecvMessage) (w : World) : Prop :=
  match tr_is_self m with
  | Some k => SessionKey_complete k (kp_pk (rp_key (tr_remote m))) (rp_dh (tr_remote m)) = Ok (k, false)
  | None => complete_session_key (g_key g) (random_session env (w_draws w)) (rp_key (tr_remote m))
              (rp_dh (tr_remote m)) = Ok None
  end.

Lemma incoming_forged_run (m : TransportRecvMessage) (w : World) :
  incoming_forged m w ->
  exists w', incoming_key g env m w = (Done None, w') /\ w_peer_list w' = w_peer_list w /\
             w_buffer w' = w_buffer w /\ w_log w' = w_log w.
Proof.
  destruct m as [addr [rk rpeer dh] is_self ss sr es]. unfold incoming_forged, incoming_key.
  cbn [tr_remote tr_is_self rp_key rp_dh]. destruct is_self as [k|].
  - intros ->. cbn [of_res]. rewrite run_ret. by exists w.
  - intros E. unfold complete_remote, draw.
    rewrite !run_assoc, run_gets, !run_assoc, run_modify, run_ret, E, run_ret. by exists (drawn w).
Qed.

Lemma incoming_blocked_run (m : TransportRecvMessage) (w : World) :
  endpoint_gone env (tr_endpoint_sender m) = false -> incoming_blocked m w ->
  handle_incoming g env recv_data m w =
    (Done (), logged [Ev_endpoint (tr_endpoint_sender m) EM_Close] w).
Proof.
  intros Hg Hb. destruct m as [addr [rk rpeer dh] is_self ss sr es].
  unfold incoming_blocked in Hb. cbn [tr_endpoint_sender tr_remote tr_addr rp_key] in *.
  unfold handle_incoming. rewrite run_gets. destruct (is_block_addr (w_peer_list w) addr); [by apply refuse_run|].
  destruct (bool_decide _ || is_block_peer _ _) eqn:Eb; [by apply refuse_run|].
  apply orb_false_iff in Eb as [Eme Eblk]. apply bool_decide_eq_false in Eme.
  destruct Hb as [?|[?|Hb]]; [done|done|by rewrite Hb in Eblk].
Qed.

(** C4: a blocked address, a blocked peer, the node itself and a handshake that
    does not verify are refused: the transport is told to close, nothing else is
    sent, and neither the peer list nor the buffer changes. *)
Theorem incoming_refused (m : TransportRecvMessage) (w : World) :
  endpoint_gone env (tr_endpoint_sender m) = false ->
  incoming_blocked m w \/ incoming_forged m w ->
  exists w', handle_incoming g env recv_data m w = (Done (), w') /\
    w_peer_list w' = w_peer_list w /\ w_buffer w' = w_buffer w /\
    w_log w' = w_log w ++ [Ev_endpoint (tr_endpoint_sender m) EM_Close].
Proof.
  intros Hg [Hb|Hf].
  { rewrite incoming_blocked_run by done. by eexists. }
  destruct (decide (incoming_blocked m w)) as [Hb|Hb].
  { rewrite incoming_blocked_run by done. by eexists. }
  destruct (incoming_forged_run m w Hf) as (w' & E & Hp & Hbuf & Hl).
  destruct m as [addr [rk rpeer dh] is_self ss sr es].
  unfold incoming_blocked in Hb. cbn [tr_endpoint_sender tr_remote tr_addr rp_key] in *.
  unfold handle_incoming. rewrite run_gets.
  rewrite (not_true_is_false (is_block_addr _ _)), (not_true_is_false (is_block_peer _ _)) by tauto.
  rewrite bool_decide_false by tauto. cbn [orb]. rewrite (run_done _ _ _ _ _ E).
  rewrite refuse_run by done. eexists. split; [done|]. cbn. by rewrite Hp, Hbuf, Hl.
Qed.

Lemma ignore_send_endpoint_run (e : EndpointSender) (m : EndpointMessage) (err : string) (w : World) :
  ignore (send_endpoint env e m err) w =
  (Done (), logged (if endpoint_gone env e then [] else [Ev_endpoint e m]) w).
Proof.
  unfold ignore, send_endpoint, emit, modify. destruct (endpoint_gone env e); [|done].
  unfold fail. by rewrite logged_nil.
Qed.

(** The key of a connection that this node dialled, and of one that it answers. *)
Lemma incoming_key_dialled (m : TransportRecvMessage) (w : World) (k k' : SessionKey) :
  tr_is_self m = Some k ->
  SessionKey_complete k (kp_pk (rp_key (tr_remote m))) (rp_dh (tr_remote m)) = Ok (k', true) ->
  incoming_key g env m w = (Done (Some k'), w).
Proof.
  intros Hs Hc. unfold incoming_key. rewrite Hs. destruct (tr_remote m) as [rk rpeer dh].
  cbn [rp_key rp_dh] in Hc. rewrite Hc. done.
Qed.

Lemma incoming_key_answered (m : TransportRecvMessage) (w : World) (k : SessionKey) :
  tr_is_self m = None ->
  complete_session_key (g_key g) (random_session env (w_draws w)) (rp_key (tr_remote m)) (rp_dh (tr_remote m))
    = Ok (Some k) ->
  incoming_key g env m w =
  (Done (Some k), logged (if endpoint_gone env (tr_endpoint_sender m) then []
                          else [Ev_endpoint (tr_endpoint_sender m) (EM_Handshake (remote_public g k))]) (drawn w)).
Proof.
  intros Hs Hc. unfold incoming_key. rewrite Hs. destruct (tr_remote m) as [rk rpeer dh]. cbn [rp_key rp_dh] in Hc.
  unfold complete_remote, draw. rewrite !run_assoc, run_gets, !run_assoc, run_modify, run_ret, Hc, run_ret.
  by rewrite (run_done _ _ _ _ _ (ignore_send_endpoint_run _ _ _ _)).
Qed.

(** A connection that is neither blocked nor of a relayed peer, with a valid
    handshake and room in the table, is stored and gets its session. *)
Lemma incoming_accepted (m : TransportRecvMessage) (w w1 : World) (k : SessionKey) :
  let key_id := Keypair_peer_id (rp_key (tr_remote m)) in
  let claimed := nat_peer (tr_addr m) (rp_peer (tr_remote m)) in
  let kv := mkKadValue (mkSessionSender (w_channels w1)) (tr_stream_sender m) claimed in
  is_block_addr (w_peer_list w) (tr_addr m) = false -> key_id <> peer_id_of g ->
  is_block_peer (w_peer_list w) key_id = false -> is_relay (w_peer_list w) key_id = None ->
  incoming_key g env m w = (Done (Some k), w1) -> w_peer_list w1 = w_peer_list w ->
  peer_list_wf (w_peer_list w) ->
  (DoubleKadTree_add (pl_dhts (w_peer_list w)) (random_key env (w_draws w1)) kv).2 = true ->
  exists w' s r l,
    handle_incoming g env recv_data m w = (Done (), w') /\
    dht_get (w_peer_list w') (peer_id claimed) =
      Some (mkSessionSender (w_channels w1), tr_stream_sender m, true) /\
    w_log w' = w_log w1 ++ l ++ [Ev_session_spawn s r] /\
    session_key s = k /\ remote_peer s = claimed /\ s_endpoint s = Direct (tr_endpoint_sender m) /\
    stream_receiver s = tr_stream_receiver m /\
    w_peer_list w' = (PeerList_add_dht (w_peer_list w) (random_key env (w_draws w1)) kv).1.1 /\
    exists l0, l = l0 ++ if endpoint_gone env (tr_endpoint_sender m) then []
                         else [Ev_endpoint (tr_endpoint_sender m) (EM_DHT (help_dht (w_peer_list w') key_id))].
Proof.
  intros key_id claimed kv Hb Hme Hbp Hrel Ek Hpl Hwf Hadd.
  destruct m as [addr [rk rpeer dh] is_self ss sr es].
  cbn [tr_addr tr_remote tr_stream_sender tr_stream_receiver tr_endpoint_sender rp_key rp_peer] in *.
  unfold handle_incoming. rewrite run_gets, Hb. fold key_id. rewrite Hbp, bool_decide_false by done. cbn [orb].
  rewrite (run_done _ _ _ _ _ Ek), run_gets, Hpl, Hrel.
  unfold new_session_channel. rewrite run_assoc, (run_done _ _ _ _ _ (new_channel_run _)), run_ret.
  change (mkKadValue _ _ _) with kv. unfold mbind at 1, M_bind at 1. rewrite world_add_dht_run.
  cbn [w_peer_list w_draws channel_made]. rewrite Hpl.
  destruct (PeerList_add_dht_search (w_peer_list w) (random_key env (w_draws w1)) kv Hwf Hadd) as (Ha & Hs).
  destruct (PeerList_add_dht (w_peer_list w) (random_key env (w_draws w1)) kv) as [[pl ok] saved].
  cbn [fst snd] in Ha, Hs. subst ok. cbn [negb]. rewrite run_gets.
  rewrite (run_done _ _ _ _ _ (ignore_send_endpoint_run _ _ _ _)).
  eexists _, (Session_new claimed (mkSessionSender (w_channels w1)) sr (Direct es) k recv_data),
    (mkSessionReceiver (w_channels w1)), _.
  split; [reflexivity|]. split; [|split; [|split_and!; [done..|by eexists]]].
  - unfold dht_get. cbn [w_peer_list logged set_peer_list add_event]. unfold kv in Hs. cbn [kv_peer] in Hs. by rewrite Hs.
  - cbn [w_log logged set_peer_list add_event channel_made drawn].
    exact (eq_trans (f_equal (fun x => x ++ _) (eq_sym (app_assoc _ _ _))) (eq_sym (app_assoc _ _ _))).
Qed.

(** C34: an accepted connection is stored under the name the remote claims.  When
    neither blocked nor forged, not a relayed peer becoming direct, and the table
    has room, the peer is found in the DHT table with the new session's channels,
    a session with the completed key is spawned, and its remote id is the id in the
    peer record that was sent, which the code does not compare with the id of the
    key that signed the handshake. *)
Theorem incoming_claimed_identity (addr : SocketAddr) (rp : RemotePublic) (stream_sender endpoint_sender : EndpointSender)
    (stream_receiver : EndpointReceiver) (w : World) (k : SessionKey) :
  let m := mkTransportRecv addr rp None stream_sender stream_receiver endpoint_sender in
  let key_id := Keypair_peer_id (rp_key rp) in
  let kv := mkKadValue (mkSessionSender (w_channels w)) stream_sender (nat_peer addr (rp_peer rp)) in
  is_block_addr (w_peer_list w) addr = false -> key_id <> peer_id_of g ->
  is_block_peer (w_peer_list w) key_id = false -> is_relay (w_peer_list w) key_id = None ->
  complete_session_key (g_key g) (random_session env (w_draws w)) (rp_key rp) (rp_dh rp) = Ok (Some k) ->
  peer_list_wf (w_peer_list w) ->
  (DoubleKadTree_add (pl_dhts (w_peer_list w)) (random_key env (S (w_draws w))) kv).2 = true ->
  exists w' s r,
    handle_incoming g env recv_data m w = (Done (), w') /\
    dht_get (w_peer_list w') (peer_id (rp_peer rp)) =
      Some (mkSessionSender (w_channels w), stream_sender, true) /\
    last (w_log w') = Some (Ev_session_spawn s r) /\
    session_key s = k /\ remote_id s = peer_id (rp_peer rp) /\ s_endpoint s = Direct endpoint_sender.
Proof.
  intros m key_id kv Hb Hme Hbp Hrel Hc Hwf Hadd.
  pose proof (incoming_key_answered m w k eq_refl Hc) as Ek.
  destruct (incoming_accepted m w _ k Hb Hme Hbp Hrel Ek eq_refl Hwf Hadd)
    as (w' & s & r & l & E & Hd & Hl & Hk & Hp & He & _).
  exists w', s, r. split; [exact E|]. split; [exact Hd|]. split; [|split; [exact Hk|split; [|exact He]]].
  - by rewrite Hl, app_assoc, last_snoc.
  - unfold remote_id. by rewrite Hp.
Qed.

End Incoming.

Definition toy_incoming (claimed : byte) : TransportRecvMessage :=
  mkTransportRecv (toy_sock x0b) (toy_remote claimed) None (mkEndpointSender 20) (mkEndpointReceiver 20)
    (mkEndpointSender 21).

(** The same world with the key [x04] blocked. *)
Definition toy_blocking_world : World :=
  mkWorld (add_block_peer toy_list (toy_id x04)) Buffer_init {[ QUIC := mkTransSender 0 ]} 1000 0 [].

Lemma incoming_refused_witness :
  exists w', handle_incoming (toy_global x01) toy_env true (toy_incoming x0a) toy_blocking_world = (Done (), w') /\
    w_peer_list w' = add_block_peer toy_list (toy_id x04) /\ w_buffer w' = Buffer_init /\
    w_log w' = [Ev_endpoint (mkEndpointSender 21) EM_Close].
Proof.
  apply (incoming_refused (toy_global x01) toy_env true (toy_incoming x0a) toy_blocking_world).
  - reflexivity.
  - left. right. right. vm_compute. reflexivity.
Defined.

Lemma incoming_claimed_identity_witness :
  Keypair_peer_id (rp_key (toy_remote x0a)) <> toy_id x0a /\
  exists w' s r,
    handle_incoming (toy_global x01) toy_env true (toy_incoming x0a) toy_world = (Done (), w') /\
    dht_get (w_peer_list w') (toy_id x0a) = Some (mkSessionSender 1000, mkEndpointSender 20, true) /\
    last (w_log w') = Some (Ev_session_spawn s r) /\ remote_id s = toy_id x0a.
Proof.
  split; [intros E; vm_compute in E; discriminate E|].
  assert (exists k, complete_session_key (toy_keypair x01) (toy_random x03) (rp_key (toy_remote x0a))
    (rp_dh (toy_remote x0a)) = Ok (Some k)) as [k Ek] by (eexists; vm_compute; reflexivity).
  destruct (incoming_claimed_identity (toy_global x01) toy_env true (toy_sock x0b) (toy_remote x0a)
    (mkEndpointSender 20) (mkEndpointSender 21) (mkEndpointReceiver 20) toy_world k)
    as (w' & s & r & E1 & E2 & E3 & _ & E4 & _).
  - vm_compute. reflexivity.
  - intros E. vm_compute in E. discriminate E.
  - vm_compute. reflexivity.
  - vm_compute. reflexivity.
  - exact Ek.
  - exact toy_list_wf.
  - vm_compute. reflexivity.
  - exists w', s, r. exact (conj E1 (conj E2 (conj E3 E4))).
Defined.

(** ** Requests of the application *)

Section Requests.
Context `{BitVecLib, CryptoLib}.
Context (g : Global) (env : Env) (recv_data : bool).

(** A send to a session whose receiver is there. *)
Lemma ignore_send_session_run (s : SessionSender) (m : SessionMessage) (e : string) (w : World) :
  ignore (send_session env s m e) w =
  (Done (), logged (if session_gone env s then [] else [Ev_session s m]) w).
Proof.
  unfold ignore, send_session. destruct (session_gone env s); [|done]. unfold fail. by rewrite logged_nil.
Qed.

Lemma ignore_out_send_run (m : ReceiveMessage) (w : World) :
  ignore (out_send env m) w = (Done (), logged (if out_gone env then [] else [Ev_out m]) w).
Proof.
  unfold ignore, out_send. destruct (out_gone env); [|done]. unfold fail. by rewrite logged_nil.
Qed.

(** What the peer list does not say of a data request: the events it sends. *)
Lemma handle_data_run (tid : u64) (to : PeerId) (data : list byte) (w : World) :
  out_gone env = false -> (forall s, session_gone env s = false) -> to <> peer_id_of g ->
  handle_request g env recv_data (SD_Data tid to data) w =
  (Done (), logged (match PeerList_get (w_peer_list w) to with
    | Some (s, _, true) => [Ev_session s (SM_Data tid data)]
    | Some (s, _, false) => [Ev_session s (SM_RelayData (peer_id_of g) to data)]
    | None => if nonzero tid
              then [Ev_out (RM_Delivery DT_Data tid false (delivery_split data (delivery_length g)))] else []
    end) w).
Proof.
  intros Ho Hs Hme. unfold handle_request, handle_data, request_failure, when.
  rewrite bool_decide_false by done. rewrite run_gets.
  destruct (PeerList_get (w_peer_list w) to) as [[[s e] [|]]|].
  - by rewrite ignore_send_session_run, Hs.
  - by rewrite ignore_send_session_run, Hs.
  - destruct (nonzero tid); [by rewrite ignore_out_send_run, Ho|]. by rewrite logged_nil.
Qed.

Lemma send_all_run (l : list SessionSender) (data : list byte) (w : World) :
  (forall s, session_gone env s = false) ->
  send_all env l data w =
  (Done (), logged (map (fun s => Ev_session s (SM_Data (to_uint 64 0) data)) l) w).
Proof.
  intros Hs. unfold send_all. revert w. induction l as [|s l IH]; intros w; cbn [for_each map].
  - by rewrite logged_nil.
  - rewrite (run_done _ _ _ _ _ (ignore_send_session_run s _ _ w)), Hs, IH. by rewrite logged_logged.
Qed.

(** A broadcast to the stable peers sends the data, without asking for
    feedback, to the session of every stable peer and to no other, once per peer. *)
Theorem stable_broadcast (data : list byte) (w : World) :
  (forall s, session_gone env s = false) ->
  exists l,
    handle_request g env recv_data (SD_Broadcast StableAll data) w =
      (Done (), logged (map (fun s => Ev_session s (SM_Data (to_uint 64 0) data)) l) w) /\
    Permutation l (map (fun '(_, (v, _)) => kv_session v) (map_to_list (pl_stables (w_peer_list w)))).
Proof.
  intros Hs. unfold handle_request. rewrite run_gets.
  eexists. split; [by apply send_all_run|].
  unfold stable_all. rewrite map_to_list_fmap. rewrite <- list_fmap_compose.
  match goal with |- Permutation ?a ?b => assert (a = b) as -> end; [|done].
  apply list_fmap_ext. by intros i [p [v d]] _.
Qed.

End Requests.

(** The channels a node has for a peer: those of its stable connection, or of its entry
    in the map of the table. *)
Definition peer_entry `{BitVecLib} (pl : PeerList) (id : PeerId) : option KadValue :=
  match pl_stables pl !! id with
  | Some (v, _) => Some v
  | None => table_map (pl_dhts pl) !! id
  end.

(** The entry is the one of a peer of the table, and no peer of the table is closer to
    the target. *)
Definition closest_entry `{BitVecLib} (pl : PeerList) (target : PeerId) (v : KadValue) : Prop :=
  table_map (pl_dhts pl) !! peer_id (kv_peer v) = Some v /\
  forall id, is_Some (table_map (pl_dhts pl) !! id) ->
    bv_lt (calc_distance target id) (calc_distance target (peer_id (kv_peer v))) = false.

Lemma table_search_closest `{BitVecLaws} (pl : PeerList) (target : PeerId) (v : KadValue) :
  peer_list_wf pl -> DoubleKadTree_search (pl_dhts pl) target = Some (v, false) -> closest_entry pl target v.
Proof.
  intros Hwf E. pose proof Hwf as (Hp & _ & _ & Hc & _). unfold DoubleKadTree_search in E.
  destruct (KadTree_search (dk_peers (pl_dhts pl)) target) as [[[k i] b]|] eqn:Es; [|done].
  cbn [mbind option_bind] in E. destruct (dk_values (pl_dhts pl) !! i) as [v'|] eqn:Ev; [|done]. injection E as -> ->.
  destruct (KadTree_search_closest _ _ _ _ Hp Es) as (c & Hin & <- & <- & Hf).
  destruct (Hc c Hin) as (kv & Hkv & Hid). rewrite Ev in Hkv. injection Hkv as <-. split.
  - rewrite Hid. apply cells_map_lookup; [by apply table_keys_nodup|]. by exists c.
  - intros id Hsome. rewrite table_map_dom in Hsome by done. unfold DoubleKadTree_keys in Hsome.
    rewrite KadTree_keys_cells in Hsome. apply list_elem_of_fmap in Hsome as (c' & -> & Hc').
    rewrite Forall_forall in Hf. rewrite Hid, bv_lt_bits. by apply Hf.
Qed.

(** What the peer list gives for a target. *)
Lemma PeerList_get_entry `{BitVecLaws} (pl : PeerList) (to : PeerId) :
  peer_list_wf pl ->
  match PeerList_get pl to with
  | Some (s, _, true) => exists v, peer_entry pl to = Some v /\ kv_session v = s
  | Some (s, _, false) => peer_entry pl to = None /\ exists v, closest_entry pl to v /\ kv_session v = s
  | None => peer_entry pl to = None /\ DoubleKadTree_search (pl_dhts pl) to = None
  end.
Proof.
  intros Hwf. pose proof (table_map_search (pl_dhts pl) to Hwf) as Hs. unfold peer_entry, PeerList_get, stable_get.
  destruct (pl_stables pl !! to) as [[v d]|] eqn:E; [by exists v|]. simpl. unfold dht_get.
  destruct (DoubleKadTree_search (pl_dhts pl) to) as [[v [|]]|] eqn:Es; simpl in *; [by exists v| |done].
  split; [by destruct Hs|]. exists v. split; [by apply table_search_closest|done].
Qed.

(** C20: where data goes.  With all channels open, a data request does one of the
    following and nothing else.  For the node itself it is answered at once.  For a peer
    the node has channels for, a stable connection or an entry of the table, it is handed
    to the session of that peer.  For another peer it is handed, to be relayed, to the
    session of a peer of the table that no peer of the table is closer than to the target;
    or, when the search of the table gives nothing, which it does on an empty table, it is
    reported as not delivered, if feedback was asked for.  (The search can also give
    nothing on a table that has peers, [kad_search_gives_up].)  The relayed form does not
    carry the feedback number, so a relayed request is never reported. *)
Theorem data_routing `{BitVecLaws, CryptoLib} (g : Global) (env : Env) (recv_data : bool) (tid : u64)
    (to : PeerId) (data : list byte) (w : World) :
  let prefix := delivery_split data (delivery_length g) in
  let pl := w_peer_list w in
  out_gone env = false -> (forall s, session_gone env s = false) -> peer_list_wf pl ->
  exists log,
    handle_request g env recv_data (SD_Data tid to data) w = (Done (), logged log w) /\
    (to = peer_id_of g ->
       log = (if nonzero tid then [Ev_out (RM_Delivery DT_Data tid true prefix)] else []) ++ [Ev_out (RM_Data to data)]) /\
    (to <> peer_id_of g -> forall v, peer_entry pl to = Some v -> log = [Ev_session (kv_session v) (SM_Data tid data)]) /\
    (to <> peer_id_of g -> peer_entry pl to = None ->
       (exists v, closest_entry pl to v /\ log = [Ev_session (kv_session v) (SM_RelayData (peer_id_of g) to data)]) \/
       (DoubleKadTree_search (pl_dhts pl) to = None /\
        log = if nonzero tid then [Ev_out (RM_Delivery DT_Data tid false prefix)] else [])) /\
    (table_map (pl_dhts pl) = ∅ -> DoubleKadTree_search (pl_dhts pl) to = None).
Proof.
  intros prefix pl Ho Hs Hwf.
  assert (table_map (pl_dhts pl) = ∅ -> DoubleKadTree_search (pl_dhts pl) to = None) as Hempty.
  { intros E. pose proof (table_map_search (pl_dhts pl) to Hwf) as Hm. rewrite E in Hm.
    destruct (DoubleKadTree_search (pl_dhts pl) to) as [[v [|]]|]; simpl in Hm; [by rewrite lookup_empty in Hm| |done].
    destruct Hm as (_ & q & Hq). by rewrite lookup_empty in Hq. }
  destruct (decide (to = peer_id_of g)) as [Hme|Hme].
  - eexists. split; [|split; [intros _; reflexivity|by split_and!]].
    unfold handle_request, handle_data, when. rewrite bool_decide_true by done. destruct (nonzero tid).
    + rewrite (run_done _ _ _ _ _ (ignore_out_send_run env _ w)), ignore_out_send_run, Ho. by rewrite logged_logged.
    + by rewrite run_ret, ignore_out_send_run, Ho.
  - eexists. split; [by apply handle_data_run|]. split; [done|].
    pose proof (PeerList_get_entry pl to Hwf) as Hg. fold pl.
    destruct (PeerList_get pl to) as [[[s e] [|]]|].
    + destruct Hg as (v & Ev & <-). rewrite Ev. split_and!; [by intros _ v' [= <-]|done|done].
    + destruct Hg as (Ev & v & Hv & <-). rewrite Ev. split_and!; [done| |done]. intros _ _. left. by exists v.
    + destruct Hg as (Ev & Hn). rewrite Ev. split_and!; [done| |done]. intros _ _. by right.
Qed.

Lemma data_routing_witness :
  handle_request (toy_global x01) toy_env true (SD_Data (to_uint 64 5) (toy_id xff) [x41]) toy_world =
  (Done (), logged [Ev_session (mkSessionSender 255) (SM_Data (to_uint 64 5) [x41])] toy_world).
Proof.
  destruct (data_routing (toy_global x01) toy_env true (to_uint 64 5) (toy_id xff) [x41] toy_world eq_refl
    (fun _ => eq_refl) toy_list_wf) as (log & E & _ & Hv & _).
  rewrite E, (Hv ltac:(intros Ei; discriminate Ei) (toy_value xff)); [reflexivity|vm_compute; reflexivity].
Defined.

Lemma stable_broadcast_witness :
  exists l,
    handle_request (toy_global x01) toy_env true (SD_Broadcast StableAll [x41]) toy_stable_world =
      (Done (), logged (map (fun s => Ev_session s (SM_Data (to_uint 64 0) [x41])) l) toy_stable_world) /\
    Permutation l [mkSessionSender 2].
Proof.
  destruct (stable_broadcast (toy_global x01) toy_env true [x41] toy_stable_world) as (l & E & Hp);
    [reflexivity|]. exists l. split; [exact E|exact Hp].
Defined.

(** ** Safety of the server *)

Section ServerSafety.
Context `{BitVecLib, CryptoLib}.
Context (g : Global) (env : Env) (recv_data : bool).

#[local] Hint Resolve safe_send_session safe_send_endpoint safe_out_send safe_on_buffer safe_on_peer_list
  safe_draw safe_save_file safe_emit safe_new_session_channel : task.

Lemma safe_world_add_dht (v : KadValue) : safe (world_add_dht env v).
Proof. unfold world_add_dht. task. Qed.

Lemma safe_refuse (e : EndpointSender) : safe (refuse env e).
Proof. unfold refuse. task. Qed.

#[local] Hint Resolve safe_world_add_dht safe_refuse : task.

Context (Hkey : keypair_signs (g_key g)) (Hquic : quic_sound env).

Lemma safe_incoming_key (m : TransportRecvMessage) :
  (forall k, tr_is_self m = Some k -> sk_key k = Ed25519 /\ length (sk_sk k) = 32) ->
  safe (incoming_key g env m).
Proof.
  intros Hm. unfold incoming_key. destruct (tr_remote m) as [rk rpeer dh].
  destruct (tr_is_self m) as [k|].
  - destruct (Hm k eq_refl) as [Hk Hs]. apply safe_bind; [|intros [k' b]; task].
    apply safe_of_res. by apply SessionKey_complete_no_panic.
  - apply safe_bind; [by apply safe_complete_remote|]. intros r. task.
Qed.

(** The events a server survives: an outgoing handshake carries a key this node
    made, and the peers it is asked to connect to have a transport that can be
    started. *)
Definition server_event_ok (e : ServerEvent) (w : World) : Prop :=
  match e with
  | SE_Trans m => forall k, tr_is_self m = Some k -> sk_key k = Ed25519 /\ length (sk_sk k) = 32
  | SE_Request (SD_Connect p) => startable (peer_transport p) = true
  | SE_Request SD_NetworkReboot =>
      Forall (fun p => startable (peer_transport p) = true) (bootstrap (w_peer_list w))
  | _ => True
  end.

(** C16: no event makes the server panic, and none of its handlers loops for ever: an
    incoming handshake, a timer or a request of the application is handled to its end or
    to an [Err], in a node whose key pair can sign and where the start of a QUIC endpoint
    does not panic, when the peers it is asked to connect to have a transport that can be
    started (TCP or QUIC) and the session key of a dial is one the node made.  A send is
    taken to be accepted sooner or later and a lock to be given: what happens when the
    channels of the node are full and they are not is the subject of [Locks]. *)
Theorem server_step_safe (e : ServerEvent) (w : World) :
  server_event_ok e w -> ends (server_step g env recv_data e w).1.
Proof.
  intros Hok. destruct e as [m| | |m]; cbn [server_step server_event_ok] in *.
  - pose proof (safe_incoming_key m Hok) as Hsafe.
    assert (safe (handle_incoming g env recv_data m)) as Hin; [|apply Hin].
    destruct m as [addr [rk rpeer dh] is_self ss sr es]. unfold handle_incoming. task.
  - assert (safe (handle_check env)) as Hin; [|apply Hin]. unfold handle_check. task.
  - assert (safe (handle_clear env)) as Hin; [|apply Hin]. unfold handle_clear.
    apply safe_bind; [task|]. intros l. apply safe_for_each, Forall_true. intros s. task.
  - assert (forall l data, safe (send_all env l data)) as Hall.
    { intros l data. apply safe_for_each, Forall_true. intros s. task. }
    destruct m; unfold handle_request.
    all: try solve [match goal with |- ends (?m ?x).1 => assert (safe m) as Hin; [|apply Hin] end;
      unfold handle_stable_connect, handle_stable_result, handle_data, request_failure, spawn_stable; task].
    + by apply safe_connect_peer.
    + rewrite run_gets. apply safe_for_each. eapply Forall_impl; [exact Hok|].
      intros p Hp. by apply safe_connect_peer.
Qed.

End ServerSafety.

Lemma server_step_safe_witness :
  ends (server_step (toy_global x01) toy_env true (SE_Trans (toy_incoming x0a)) toy_world).1.
Proof.
  apply (server_step_safe (toy_global x01) toy_env true (toy_keypair_signs x01) toy_quic_sound).
  intros k E. discriminate E.
Defined.

(** ** One attempt per peer *)

Section Attempts.
Context `{BitVecLib, CryptoLib}.
Context (g : Global) (env : Env) (recv_data : bool).

Lemma on_buffer_run {A} (f : Buffer -> Buffer * A) (w : World) :
  on_buffer f w = (Done (f (w_buffer w)).2, set_buffer (f (w_buffer w)).1 w).
Proof. unfold on_buffer. rewrite run_gets. by destruct (f (w_buffer w)). Qed.

(** The attempt to connect that a request starts. *)
Definition attempt (tid : u64) (data : list byte) (to : Peer) (ss : SessionSender) : Event :=
  let delivery := delivery_split data (delivery_length g) in
  if Peer_effective_socket to then Ev_direct_stable tid delivery to recv_data
  else Ev_relay_stable tid delivery to ss recv_data.

Lemma stable_connect_far_run (tid : u64) (to : Peer) (data : list byte) (w : World) (ss : SessionSender)
    (es : EndpointSender) :
  peer_id to <> peer_id_of g -> PeerList_get (w_peer_list w) (peer_id to) = Some (ss, es, false) ->
  get_tmp_session (w_buffer w) (peer_id to) = None ->
  handle_stable_connect g env recv_data tid to data w =
  let '(b, had) := Buffer_add_connect (w_buffer w) (peer_id to) tid data in
  (Done (), logged (if had then [] else [attempt tid data to ss]) (set_buffer b w)).
Proof.
  intros Hme Hget Htmp. unfold handle_stable_connect. rewrite bool_decide_false by done.
  rewrite run_gets, Hget, run_gets, Htmp, (run_done _ _ _ _ _ (on_buffer_run _ w)).
  destruct (Buffer_add_connect (w_buffer w) (peer_id to) tid data) as [b [|]]; cbn [fst snd].
  - by rewrite logged_nil.
  - unfold spawn_stable, attempt. by destruct (Peer_effective_socket to).
Qed.


(** What the peer list names for the next hop: the target's stable connection, or
    the entry of the key the search gives, when the message did not come from it. *)
Lemma next_closest_entry (pl : PeerList) (target prev : PeerId) (s : SessionSender) :
  peer_list_wf pl -> PeerList_next_closest pl target prev = Some s ->
  (exists v d, pl_stables pl !! target = Some (v, d) /\ kv_session v = s) \/
  (exists k i b v, KadTree_search (dk_peers (pl_dhts pl)) target = Some (k, i, b) /\ k <> prev /\
     dk_values (pl_dhts pl) !! i = Some v /\ kv_session v = s /\ peer_id (kv_peer v) = k /\ k ∈ dht_keys pl).
Proof.
  intros Hwf. unfold PeerList_next_closest.
  destruct (pl_stables pl !! target) as [[v d]|] eqn:E; simpl.
  { intros [= <-]. left. by exists v, d. }
  unfold id_next_closest, KadTree_next_closest. pose proof Hwf as (Hp & _ & _ & Hc & _).
  pose proof (KadTree_search_spec (dk_peers (pl_dhts pl)) target Hp) as Ho.
  destruct (KadTree_search (dk_peers (pl_dhts pl)) target) as [[[k i] b]|]; [|done]. simpl.
  destruct (bool_decide (k = prev)) eqn:Ek; [done|]. apply bool_decide_eq_false in Ek. simpl.
  assert (exists c, c ∈ tree_cells (dk_peers (pl_dhts pl)) /\ cell_key c = k /\ cell_val c = i)
    as (c & Hin & <- & <-).
  { destruct b; simpl in Ho; destruct Ho as [? Ho]; [subst|]; exact Ho. }
  destruct (Hc c Hin) as (kv & Hkv & Hid). rewrite Hkv. simpl. intros [= <-]. right.
  exists (cell_key c), (cell_val c), b, kv. split_and!; try done.
  unfold dht_keys, DoubleKadTree_keys. rewrite KadTree_keys_cells. by apply list_elem_of_fmap_2.
Qed.

(** Relayed messages move on.  The session the peer list names for the next
    hop is the target's own stable connection, or the session of a peer of the DHT
    table other than the one the message came from. *)
Theorem relay_next_hop (pl : PeerList) (target prev : PeerId) (s : SessionSender) :
  peer_list_wf pl -> PeerList_next_closest pl target prev = Some s ->
  (exists v d, pl_stables pl !! target = Some (v, d) /\ kv_session v = s) \/
  (exists v, kv_session v = s /\ peer_id (kv_peer v) ∈ dht_keys pl /\ peer_id (kv_peer v) <> prev).
Proof.
  intros Hwf Hn. destruct (next_closest_entry pl target prev s Hwf Hn)
    as [?|(k & i & b & v & _ & Hne & _ & Hs & <- & Hin)]; [by left|].
  right. by exists v.
Qed.

End Attempts.

(** A world whose table knows the peer [x0f] only. *)
Definition toy_far_world : World :=
  mkWorld (mkPeerList "peer_list" [] [] []
    (DoubleKadTree_add (DoubleKadTree_new (toy_id x00) (toy_sock x00)) (to_uint 32 7) (toy_value x0f)).1 ∅)
    Buffer_init {[ QUIC := mkTransSender 0 ]} 1000 0 [].


Lemma relay_next_hop_witness :
  (exists v d, pl_stables toy_list !! toy_id xf0 = Some (v, d) /\ kv_session v = mkSessionSender 255) \/
  (exists v, kv_session v = mkSessionSender 255 /\ peer_id (kv_peer v) ∈ dht_keys toy_list /\
             peer_id (kv_peer v) <> toy_id x01).
Proof.
  apply (relay_next_hop toy_list (toy_id xf0) (toy_id x01) (mkSessionSender 255) toy_list_wf).
  vm_compute. reflexivity.
Defined.

(** ** Restart *)

Section Restart.
Context `{BitVecLib, CryptoLib}.

(** Tasks only add to the log. *)
Lemma keeps_log_emit (P : Event -> Prop) (ev : Event) :
  keeps (fun w => Exists P (w_log w)) (emit ev).
Proof. intros w Hw. cbn. apply Exists_app. by left. Qed.

Lemma keeps_log_connect (g : Global) (env : Env) (P : Event -> Prop) (p : Peer) :
  keeps (fun w => Exists P (w_log w)) (connect_peer g env p).
Proof.
  assert (forall ev, keeps (fun w => Exists P (w_log w)) (emit ev)) as He by apply keeps_log_emit.
  assert (forall f : World -> World, (forall w, w_log (f w) = w_log w) ->
            keeps (fun w => Exists P (w_log w)) (modify f)) as Hm.
  { intros f Hf. apply keeps_modify. intros w Hw. by rewrite Hf. }
  unfold connect_peer, generate_remote, draw, trans_send, transports_start, new_channel, send_trans.
  task; by apply Hm.
Qed.

Lemma load_key_stored (st : Startup) (path : string) (key : Keypair) :
  st_key_file st = Some (Keypair_to_db_bytes key) -> keypair_wf key ->
  load_key st path = Ok (key, []).
Proof.
  intros Hf Hwf. unfold load_key. rewrite Hf. cbn [default from_option id].
  by rewrite Keypair_db_roundtrip.
Qed.

Lemma server_start_key (config : Config) (st : Startup) (env : Env) (g : Global) (w : World) :
  server_start config st env = Done (g, w) ->
  exists path log, load_key st path = Ok (g_key g, log) /\ peer_id_of g = Keypair_peer_id (g_key g) /\
                   (forall P : Event -> Prop, Exists P log -> Exists P (w_log w)).
Proof.
  unfold server_start. destruct (_ && _); [done|].
  set (path := path_push (path_push (cfg_db_dir config) STORAGE_NAME) STORAGE_KEY_KEY).
  destruct (load_key st path) as [[key log]|e|] eqn:Ek; [|done|done].
  destruct (PeerList_load _ _ _ _ _ _) as [pl|e|]; [|done|done].
  assert (forall g0 w0, w_log w0 = log ->
    match for_each (bootstrap pl) (connect_peer g0 env) w0 with
    | (Done _, w1) => Done (g0, w1)
    | (Fail e, _) => Fail e
    | (Crash, _) => Crash
    | (Hang, _) => Hang
    end = Done (g, w) ->
    g0 = g /\ (forall P : Event -> Prop, Exists P log -> Exists P (w_log w))) as Hrun.
  { intros g0 w0 Hw0. pose proof (fun P => keeps_for_each _ (bootstrap pl) (connect_peer g0 env)
      (keeps_log_connect g0 env P)) as Hk.
    destruct (for_each (bootstrap pl) (connect_peer g0 env) w0) as [[a|e| |] w1] eqn:Ef; try done.
    intros [= <- <-]. split; [done|]. intros P HP.
    specialize (Hk P w0). rewrite Ef in Hk. apply Hk. by rewrite Hw0. }
  intros Hd. exists path, log. rewrite Ek.
  destruct (peer_transport (cfg_peer config)), (st_bound st) as [addr|]; try done;
    (apply Hrun in Hd as [<- HP]; done).
Qed.

(** A node keeps its identity.  The first start, without a key file, writes
    the new key to disk; any later start that finds those bytes has the same key
    pair and the same peer id, whatever its configuration. *)
Theorem restart_keeps_identity (config config' : Config) (st st' : Startup) (env env' : Env)
    (g g' : Global) (w w' : World) :
  st_key_file st = None -> server_start config st env = Done (g, w) ->
  st_key_file st' = Some (Keypair_to_db_bytes (g_key g)) -> server_start config' st' env' = Done (g', w') ->
  Exists (fun ev => exists path, ev = Ev_write_key path (Keypair_to_db_bytes (g_key g))) (w_log w) /\
  g_key g' = g_key g /\ peer_id_of g' = peer_id_of g.
Proof.
  intros Hnone Hs Hsome Hs'.
  apply server_start_key in Hs as (path & log & Ek & Hid & Hlog).
  apply server_start_key in Hs' as (path' & log' & Ek' & Hid' & _).
  unfold load_key in Ek. rewrite Hnone in Ek. cbn [default from_option Keypair_from_db_bytes] in Ek.
  change (Keypair_from_db_bytes []) with (@Err Keypair "keypair from db bytes failure.") in Ek.
  destruct (st_write_key st); [|done]. injection Ek as Ekey Elog.
  assert (keypair_wf (g_key g)) as Hwf.
  { rewrite <- Ekey. split; apply arr_length. }
  rewrite (load_key_stored st' path' (g_key g) Hsome Hwf) in Ek'. injection Ek' as Ekey' _.
  split; [|split; congruence].
  apply Hlog. subst log. constructor. exists path. by rewrite Ekey.
Qed.

End Restart.

Definition toy_startup (key_file : option (list byte)) : Startup :=
  mkStartup false true key_file true None (arr_fill 32 x11) (Some (toy_sock x0c)).

Definition toy_config : Config := Config_default (toy_peer x00).

Definition toy_key_file : list byte := Keypair_to_db_bytes (generate_kepair Ed25519 (arr_fill 32 x11)).

Lemma restart_keeps_identity_witness :
  exists g w g' w',
    server_start toy_config (toy_startup None) toy_env = Done (g, w) /\
    server_start toy_config (toy_startup (Some toy_key_file)) toy_env = Done (g', w') /\
    g_key g' = g_key g /\ peer_id_of g' = peer_id_of g.
Proof.
  assert (forall f, match f with None => True | Some b => b = toy_key_file end ->
    match server_start toy_config (toy_startup f) toy_env with Done _ => True | _ => False end) as Hstart.
  { intros [b|]; [intros ->|intros _]; vm_compute; exact I. }
  pose proof (Hstart None I) as H1. pose proof (Hstart (Some toy_key_file) eq_refl) as H2.
  destruct (server_start toy_config (toy_startup None) toy_env) as [[g w]|e| |] eqn:E; try contradiction.
  destruct (server_start toy_config (toy_startup (Some toy_key_file)) toy_env) as [[g' w']|e| |] eqn:E';
    try contradiction.
  assert (st_key_file (toy_startup (Some toy_key_file)) = Some (Keypair_to_db_bytes (g_key g))) as Hf.
  { destruct (server_start_key _ _ _ _ _ E) as (path & log & Ek & _).
    change (load_key (toy_startup None) path) with
      (Ok (generate_kepair Ed25519 (arr_fill 32 x11), [Ev_write_key path toy_key_file])) in Ek.
    injection Ek as Eg _. rewrite <- Eg. reflexivity. }
  exists g, w, g', w'. split; [reflexivity|]. split; [reflexivity|].
  exact (proj2 (restart_keeps_identity toy_config toy_config (toy_startup None)
    (toy_startup (Some toy_key_file)) toy_env toy_env g g' w w' eq_refl E Hf E')).
Defined.
