(* ===== verification/StableProps.v ===== *)
(** * Stable connections

    How a connection of the table becomes a stable one: the request of one
    application, the answer of the other, and what the two sessions and the two
    peer lists hold afterwards. *)

From S2P Require Import Prelude Net Types Keys Wire Kad KadMetric KadFacts KadTreeFacts KadTable KadMap Buffer PeerList Global Session Server SessionFacts SessionProps RelayProps ServerProps.
From stdpp Require Import list_relations list.

(** ** The upgrade of a session *)

(** The peer is in the table, with the given channels, and nothing else knows it. *)
Definition in_table `{BitVecLib} (w : World) (id : PeerId) (v : KadValue) : Prop :=
  peer_list_wf (w_peer_list w) /\ pl_stables (w_peer_list w) !! id = None /\
  buf_tmps (w_buffer w) !! id = None /\ DoubleKadTree_search (pl_dhts (w_peer_list w)) id = Some (v, true).

(** The peer has a stable direct connection with the given channels, and nothing
    else knows it. *)
Definition is_stable_peer `{BitVecLib} (w : World) (id : PeerId) (v : KadValue) : Prop :=
  peer_list_wf (w_peer_list w) /\ pl_stables (w_peer_list w) !! id = Some (v, true) /\
  buf_tmps (w_buffer w) !! id = None /\ DoubleKadTree_contains (pl_dhts (w_peer_list w)) id = false.

(** What an upgrade changes: the entry of the peer moves, every other entry stays. *)
Definition upgraded `{BitVecLib} (w w' : World) (id : PeerId) (v : KadValue) : Prop :=
  is_stable_peer w' id v /\
  pl_stables (w_peer_list w') = <[id := (v, true)]> (pl_stables (w_peer_list w)) /\
  table_map (pl_dhts (w_peer_list w')) = delete id (table_map (pl_dhts (w_peer_list w))).

(** The session of a stable connection. *)
Definition stable_of (s : Session) : Session := set_recv_data true (set_stable true s).

Section Upgrade.
Context `{BitVecLib, CryptoLib}.
Context (g : Global) (env : Env).

Lemma in_table_get (w : World) (id : PeerId) (v : KadValue) :
  in_table w id v -> PeerList_get (w_peer_list w) id = Some (kv_session v, kv_stream v, true).
Proof.
  intros (_ & Hs & _ & Hd). unfold PeerList_get, stable_get, dht_get. rewrite Hs, Hd. done.
Qed.

Lemma stable_peer_get (w : World) (id : PeerId) (v : KadValue) :
  is_stable_peer w id v -> PeerList_get (w_peer_list w) id = Some (kv_session v, kv_stream v, true).
Proof. intros (_ & Hs & _). unfold PeerList_get, stable_get. by rewrite Hs. Qed.

Lemma no_tmp_session (b : Buffer) (id : PeerId) : buf_tmps b !! id = None -> get_tmp_session b id = None.
Proof. intros E. unfold get_tmp_session. by rewrite E. Qed.

Lemma PeerList_dht_to_stable_ok (pl : PeerList) (id : PeerId) (v : KadValue) :
  peer_list_wf pl -> DoubleKadTree_search (pl_dhts pl) id = Some (v, true) ->
  exists pl', PeerList_dht_to_stable pl id = (pl', Ok ()) /\ peer_list_wf pl' /\
    DoubleKadTree_contains (pl_dhts pl') id = false /\
    pl_stables pl' = <[id := (v, true)]> (pl_stables pl) /\
    table_map (pl_dhts pl') = delete id (table_map (pl_dhts pl)).
Proof.
  intros Hwf Hd. pose proof (table_map_search _ id Hwf) as Hm. rewrite Hd in Hm. cbn [map_search] in Hm.
  pose proof (table_map_remove _ id Hwf) as Hr. pose proof (table_remove_spec _ id Hwf) as Hs.
  pose proof (table_remove_gone _ id Hwf) as Hg. unfold PeerList_dht_to_stable.
  destruct (DoubleKadTree_remove (pl_dhts pl) id) as [dhts o]. destruct Hr as [Ht ->], Hs as [Hwf' _].
  rewrite Hm. destruct (add_allow_peer_dhts (with_dhts pl dhts) id) as [Ed Es].
  eexists. split; [reflexivity|]. unfold peer_list_wf. cbn [with_stables pl_dhts pl_stables].
  rewrite Ed, Es. done.
Qed.

(** The upgrade of a session whose peer is in the table. *)
Lemma session_upgrade_run (s : Session) (w : World) (v : KadValue) :
  in_table w (remote_id s) v ->
  exists w', session_upgrade env (s, w) = (Done (), (stable_of s, w')) /\
    upgraded w w' (remote_id s) v /\ w_log w' = w_log w.
Proof.
  intros (Hwf & Hs & Hb & Hd). unfold session_upgrade. rewrite !run_set_self, run_self.
  change (remote_id (set_recv_data true (set_stable true s))) with (remote_id s).
  destruct (PeerList_dht_to_stable_ok _ _ v Hwf Hd) as (pl' & E & Hwf' & Hc & Hst & Ht).
  unfold world, global_upgrade. rewrite (run_done _ _ _ _ _ (on_buffer_run _ w)).
  unfold Buffer_remove_tmp at 1. rewrite Hb. cbn [fst snd mbind option_bind].
  unfold on_peer_list at 1. rewrite !run_assoc, run_gets. cbn [w_peer_list set_buffer]. rewrite E.
  rewrite !run_assoc, run_modify, run_ret. cbn [of_res]. eexists. split; [reflexivity|].
  split; [|done]. split; [|done]. unfold is_stable_peer. cbn [w_peer_list set_peer_list set_buffer w_buffer buf_tmps].
  split_and!; [done|by rewrite Hst, lookup_insert_eq|apply lookup_delete_eq|done].
Qed.

End Upgrade.

(** ** Messages of a direct session *)

(** A payload on the wire, sealed by the cipher under the key and nonce of the session. *)
Definition sealed `{CryptoLib} (s : Session) (c : CoreData) : EndpointMessage :=
  EM_Data (default [] (aes_encrypt (sk_cipher (session_key s)) (sk_nonce (session_key s)) (CoreData_to_bytes c))).

Lemma sealed_encrypt `{CryptoLib} (s : Session) (c : CoreData) :
  sealed s c = EM_Data (SessionKey_encrypt (session_key s) (CoreData_to_bytes c)).
Proof. done. Qed.

Section Direct.
Context `{BitVecLib, CryptoLaws}.
Context (g : Global) (env : Env) (s : Session) (e : EndpointSender).
Context (Hdirect : s_endpoint s = Direct e) (Hopen : endpoint_gone env e = false) (Hout : out_gone env = false).

(** The receipt of a message, when one is asked for. *)
Definition receipt (t : DeliveryType) (tid : u64) (data : list byte) : list Event :=
  if nonzero tid then [Ev_endpoint e (sealed s (CD_Delivery t tid (delivery_split data (delivery_length g))))] else [].

Lemma deliver_back_run (t : DeliveryType) (tid : u64) (data : list byte) (w : World) :
  deliver_back g env t tid (delivery_split data (delivery_length g)) (s, w) =
  (Done (), (s, logged (receipt t tid data) w)).
Proof.
  unfold deliver_back, receipt, when. destruct (nonzero tid); [by apply send_core_data_run|].
  by rewrite logged_nil.
Qed.

(** The payloads about stable connections: what the application is told, and the
    receipt that goes back. *)
Definition told (c : CoreData) : option (ReceiveMessage * (DeliveryType * u64 * list byte)) :=
  match c with
  | CD_StableConnect tid data => Some (RM_StableConnect (remote_peer s) data, (DT_StableConnect, tid, data))
  | CD_StableResult tid is_ok data => Some (RM_StableResult (remote_peer s) is_ok data, (DT_StableResult, tid, data))
  | CD_ResultConnect tid data => Some (RM_ResultConnect (remote_peer s) data, (DT_StableResult, tid, data))
  | _ => None
  end.

Lemma told_run (s' : Session) (c : CoreData) (m : ReceiveMessage) (t : DeliveryType) (tid : u64) (data : list byte)
    (w : World) :
  keys_agree (session_key s') (session_key s) -> sealable (session_key s') c -> told c = Some (m, (t, tid, data)) ->
  handle_endpoint g env (sealed s' c) (s, w) = (Done (), (s, logged (Ev_out m :: receipt t tid data) w)).
Proof.
  intros Hk Hs Hc. unfold handle_endpoint. rewrite sealed_encrypt, run_self. unfold handle_core_data. rewrite run_self.
  cbn [id]. rewrite open_sealed by done. destruct c; try done; injection Hc as <- <- <- <-;
    by rewrite (run_done _ _ _ _ _ (session_out_send_run env s w _ Hout)), deliver_back_run, logged_logged.
Qed.

(** The receipt of a request or of a result is reported to the application. *)
Lemma receipt_run (s' : Session) (t : DeliveryType) (tid : u64) (data : list byte) (w : World) :
  keys_agree (session_key s') (session_key s) -> sealable (session_key s') (CD_Delivery t tid data) ->
  nonzero tid = true -> t <> DT_Data ->
  handle_endpoint g env (sealed s' (CD_Delivery t tid data)) (s, w) =
  (Done (), (s, logged [Ev_out (RM_Delivery t tid true data)] w)).
Proof.
  intros Hk Hs Ht Hd. unfold handle_endpoint. rewrite sealed_encrypt, run_self. unfold handle_core_data. rewrite run_self.
  cbn [id]. rewrite open_sealed by done. rewrite Ht. cbn [when]. destruct t; try done; by apply session_out_send_run.
Qed.

End Direct.

(** ** Requests for a peer of the table *)

Section Requests.
Context `{BitVecLib, CryptoLib}.
Context (g : Global) (env : Env) (recv_data : bool).

(** A request for a peer the list itself names goes to that peer's session. *)
Lemma connect_request_run (tid : u64) (to : Peer) (data : list byte) (ss : SessionSender) (es : EndpointSender)
    (w : World) :
  peer_id to <> my_id g -> PeerList_get (w_peer_list w) (peer_id to) = Some (ss, es, true) ->
  session_gone env ss = false ->
  handle_request g env recv_data (SD_StableConnect tid to data) w =
  (Done (), logged [Ev_session ss (SM_StableConnect tid data)] w).
Proof.
  intros Hne Hw Hg. unfold handle_request, handle_stable_connect. rewrite bool_decide_false by done.
  by rewrite run_gets, Hw, ignore_send_session_run, Hg.
Qed.

Lemma data_request_run (tid : u64) (to : PeerId) (data : list byte) (ss : SessionSender) (es : EndpointSender)
    (w : World) :
  to <> my_id g -> PeerList_get (w_peer_list w) to = Some (ss, es, true) -> session_gone env ss = false ->
  handle_request g env recv_data (SD_Data tid to data) w = (Done (), logged [Ev_session ss (SM_Data tid data)] w).
Proof.
  intros Hne Hw Hg. unfold handle_request, handle_data. rewrite bool_decide_false by done.
  by rewrite run_gets, Hw, ignore_send_session_run, Hg.
Qed.

Lemma result_request_run (tid : u64) (to : Peer) (is_ok is_force : bool) (data : list byte) (v : KadValue) (w : World) :
  peer_id to <> my_id g -> in_table w (peer_id to) v -> session_gone env (kv_session v) = false ->
  handle_request g env recv_data (SD_StableResult tid to is_ok is_force data) w =
  (Done (), logged [Ev_session (kv_session v) (SM_StableResult tid is_ok is_force data)] w).
Proof.
  intros Hne Hw Hg. unfold handle_request, handle_stable_result. rewrite bool_decide_false by done.
  rewrite run_gets, no_tmp_session by apply Hw.
  by rewrite run_gets, (in_table_get _ _ _ Hw), ignore_send_session_run, Hg.
Qed.

Context (s : Session) (e : EndpointSender).
Context (Hdirect : s_endpoint s = Direct e) (Hopen : endpoint_gone env e = false) (Hfresh : is_stable s = false).

Lemma stable_connect_run (tid : u64) (data : list byte) (v : KadValue) (w : World) :
  in_table w (remote_id s) v ->
  exists w', handle_outside g env (SM_StableConnect tid data) (s, w) = (Done (), (stable_of s, w')) /\
    w_log w' = w_log w ++ [Ev_endpoint e (sealed s (CD_StableConnect tid data))] /\ upgraded w w' (remote_id s) v.
Proof.
  intros Hw. unfold handle_outside. rewrite run_self.
  rewrite (run_done _ _ _ _ _ (send_core_data_run g env s w e _ Hdirect Hopen)). cbn [id]. rewrite Hfresh. cbn [negb when].
  destruct (session_upgrade_run env s (logged [Ev_endpoint e (sealed s (CD_StableConnect tid data))] w) v Hw)
    as (w' & E & Hu & Hl).
  exists w'. split; [exact E|]. split; [exact Hl|exact Hu].
Qed.

Lemma stable_consent_run (tid : u64) (data : list byte) (v : KadValue) (w : World) :
  in_table w (remote_id s) v ->
  exists w', handle_outside g env (SM_StableResult tid true false data) (s, w) = (Done (), (stable_of s, w')) /\
    w_log w' = w_log w ++ [Ev_endpoint e (sealed s (CD_StableResult tid true data))] /\ upgraded w w' (remote_id s) v.
Proof.
  intros Hw. unfold handle_outside. rewrite run_self.
  rewrite (run_done _ _ _ _ _ (send_core_data_run g env s w e _ Hdirect Hopen)). cbn [id]. rewrite Hfresh. cbn [negb andb when].
  destruct (session_upgrade_run env s (logged [Ev_endpoint e (sealed s (CD_StableResult tid true data))] w) v Hw)
    as (w' & E & Hu & Hl).
  rewrite (run_done _ _ _ _ _ E), run_self. cbn. exists w'. split; [reflexivity|]. split; [exact Hl|exact Hu].
Qed.

End Requests.

(** ** From request to stable connection *)

Section Stable.
Context `{BitVecLib, CryptoLaws}.

(** Two nodes with a session each, not stable yet, and the channels of the sessions. *)
Context (g_a g_b : Global) (env_a env_b : Env) (s_ab s_ba : Session).
Context (e_ab e_ba : EndpointSender) (v_ab v_ba : KadValue).

Record table_link : Prop := mkTableLink {
  link_names : my_id g_a <> my_id g_b /\ remote_id s_ab = my_id g_b /\ remote_id s_ba = my_id g_a;
  link_keys : keys_agree (session_key s_ab) (session_key s_ba);
  link_direct : s_endpoint s_ab = Direct e_ab /\ s_endpoint s_ba = Direct e_ba;
  link_fresh : is_stable s_ab = false /\ is_stable s_ba = false;
  link_sessions : kv_session v_ab = session_sender s_ab /\ kv_session v_ba = session_sender s_ba;
  link_open : endpoint_gone env_a e_ab = false /\ endpoint_gone env_b e_ba = false /\
              out_gone env_a = false /\ out_gone env_b = false /\
              session_gone env_a (session_sender s_ab) = false /\ session_gone env_b (session_sender s_ba) = false
}.

(** C6: a stable connection.  Two nodes that have each other in their tables turn
    their connection into a stable one: the request of the first application goes to
    its session, which sends it sealed and makes the connection stable; the other
    side hands it to its application, whose consent goes back the same way and makes
    its side stable; the first application gets it.  Both requests are acknowledged
    when that was asked for, each side has moved the other from its table, where it is no
    longer, to its stable connections and nothing else there, and data to the other node
    now goes to that session.  (The documentation of the request says that the peer is
    added to the table.) *)
Theorem stable_connection_made (rd_a rd_b : bool) (to : Peer) (tid1 tid2 : u64) (data1 data2 : list byte) :
  let receipt1 := CD_Delivery DT_StableConnect tid1 (delivery_split data1 (delivery_length g_b)) in
  let receipt2 := CD_Delivery DT_StableResult tid2 (delivery_split data2 (delivery_length g_a)) in
  table_link -> peer_id to = my_id g_b ->
  sealable (session_key s_ab) (CD_StableConnect tid1 data1) -> sealable (session_key s_ba) receipt1 ->
  sealable (session_key s_ba) (CD_StableResult tid2 true data2) -> sealable (session_key s_ab) receipt2 ->
  (forall w, in_table w (my_id g_b) v_ab ->
     handle_request g_a env_a rd_a (SD_StableConnect tid1 to data1) w =
       (Done (), logged [Ev_session (session_sender s_ab) (SM_StableConnect tid1 data1)] w) /\
     exists w', handle_outside g_a env_a (SM_StableConnect tid1 data1) (s_ab, w) = (Done (), (stable_of s_ab, w')) /\
       w_log w' = w_log w ++ [Ev_endpoint e_ab (sealed s_ab (CD_StableConnect tid1 data1))] /\
       upgraded w w' (my_id g_b) v_ab) /\
  (forall w, handle_endpoint g_b env_b (sealed s_ab (CD_StableConnect tid1 data1)) (s_ba, w) =
     (Done (), (s_ba, logged (Ev_out (RM_StableConnect (remote_peer s_ba) data1) ::
        if nonzero tid1 then [Ev_endpoint e_ba (sealed s_ba receipt1)] else []) w))) /\
  (forall w, in_table w (my_id g_a) v_ba ->
     handle_request g_b env_b rd_b (SD_StableResult tid2 (remote_peer s_ba) true false data2) w =
       (Done (), logged [Ev_session (session_sender s_ba) (SM_StableResult tid2 true false data2)] w) /\
     exists w', handle_outside g_b env_b (SM_StableResult tid2 true false data2) (s_ba, w) =
         (Done (), (stable_of s_ba, w')) /\
       w_log w' = w_log w ++ [Ev_endpoint e_ba (sealed s_ba (CD_StableResult tid2 true data2))] /\
       upgraded w w' (my_id g_a) v_ba) /\
  (forall w, handle_endpoint g_a env_a (sealed s_ba (CD_StableResult tid2 true data2)) (stable_of s_ab, w) =
     (Done (), (stable_of s_ab, logged (Ev_out (RM_StableResult (remote_peer s_ab) true data2) ::
        if nonzero tid2 then [Ev_endpoint e_ab (sealed s_ab receipt2)] else []) w))) /\
  (nonzero tid1 = true -> forall w, handle_endpoint g_a env_a (sealed s_ba receipt1) (stable_of s_ab, w) =
     (Done (), (stable_of s_ab, logged [Ev_out (RM_Delivery DT_StableConnect tid1 true
        (delivery_split data1 (delivery_length g_b)))] w))) /\
  (nonzero tid2 = true -> forall w, handle_endpoint g_b env_b (sealed s_ab receipt2) (stable_of s_ba, w) =
     (Done (), (stable_of s_ba, logged [Ev_out (RM_Delivery DT_StableResult tid2 true
        (delivery_split data2 (delivery_length g_a)))] w))) /\
  (forall w tid data, is_stable_peer w (my_id g_b) v_ab ->
     handle_request g_a env_a rd_a (SD_Data tid (my_id g_b) data) w =
       (Done (), logged [Ev_session (session_sender s_ab) (SM_Data tid data)] w)).
Proof.
  intros receipt1 receipt2 [(Hne & Nab & Nba) Hk [Eab Eba] [Fab Fba] [Vab Vba] (O1 & O2 & O3 & O4 & O5 & O6)]
    Hto S1 S2 S3 S4.
  assert (keys_agree (session_key s_ba) (session_key s_ab)) as Hk' by (by destruct Hk).
  split_and!.
  - intros w Hw. split; [rewrite <- Vab; apply (connect_request_run _ _ _ _ _ _ _ (kv_stream v_ab)); rewrite ?Hto, ?Vab; [congruence|rewrite <- Vab; by apply in_table_get|done]|].
    rewrite <- Nab in Hw |- *. by apply stable_connect_run.
  - intros w. by apply told_run.
  - intros w Hw. split; [rewrite <- Vba; apply result_request_run; rewrite ?Vba; unfold remote_id in Nba; rewrite ?Nba; done|]. rewrite <- Nba in Hw |- *. by apply stable_consent_run.
  - intros w. by apply (told_run g_a env_a (stable_of s_ab) e_ab Eab O1 O3).
  - intros Ht w. by apply receipt_run.
  - intros Ht w. by apply receipt_run.
  - intros w tid data Hw. apply (data_request_run _ _ _ _ _ _ _ (kv_stream v_ab)); [by intros E; apply Hne| |done].
    rewrite <- Vab. by apply stable_peer_get.
Qed.

End Stable.

#[local] Existing Instance toy_bitvec.
#[local] Existing Instance toy_crypto.
#[local] Existing Instance toy_crypto_laws.

Lemma toy_in_table : in_table toy_world (toy_id xff) (toy_value xff).
Proof. split_and!; [exact toy_list_wf|done|done|by vm_compute]. Qed.

Lemma stable_connection_made_witness :
  exists w', handle_outside (toy_global x00) toy_env (SM_StableConnect (to_uint 64 9) [x41])
               (toy_session xff false, toy_world) = (Done (), (stable_of (toy_session xff false), w')) /\
    pl_stables (w_peer_list w') !! toy_id xff = Some (toy_value xff, true).
Proof.
  assert (forall b c, sealable (session_key (toy_session b false)) c) as Hseal by (intros b c; by eexists).
  destruct (stable_connection_made (toy_global x00) (toy_global xff) toy_env toy_env (toy_session xff false)
    (toy_session x00 false) (mkEndpointSender 256) (mkEndpointSender 1) (toy_value xff) (toy_value x00)
    true true (toy_peer xff) (to_uint 64 9) (to_uint 64 8) [x41] [x42]) as (Hc & _); try apply Hseal.
  - constructor; repeat split. intros E. vm_compute in E. discriminate E.
  - reflexivity.
  - destruct (Hc toy_world toy_in_table) as (_ & w' & E & _ & Hu & _). exists w'.
    split; [exact E|]. apply Hu.
Defined.
