(* ===== verification/RelayNet.v ===== *)
(** * Relaying through a network

    A message for a distant peer goes from node to node, each handing it to the
    session the peer list names ([PeerList_next_closest]).  A network is a set of
    nodes with their sessions; a hop runs the two handlers of a node that forwards
    a message, and the network carries what its session sends to the node at the
    other end.  The order of Kademlia makes every such journey end. *)

From S2P Require Import Prelude Net Types Keys Wire Kad KadMetric KadFacts KadTreeFacts KadTable Buffer PeerList Global Session SessionFacts SessionProps RelayProps ServerProps.
From stdpp Require Import list_relations list gmap.

(** ** Nodes and hops *)

(** The messages that are relayed: sealed data, and the handshake of a relayed
    stable connection. *)
Inductive Relayed : Set :=
| RL_Data (from : PeerId) (data : list byte)
| RL_Handshake (from_peer : RemotePublic).

Definition on_wire (r : Relayed) (to : PeerId) : EndpointMessage :=
  match r with
  | RL_Data from data => EM_RelayData from to data
  | RL_Handshake from_peer => EM_RelayHandshake from_peer to
  end.

Definition in_session (r : Relayed) (to : PeerId) : SessionMessage :=
  match r with
  | RL_Data from data => SM_RelayData from to data
  | RL_Handshake from_peer => SM_RelayConnect from_peer to
  end.

(** Who sent it. *)
Definition origin (r : Relayed) : PeerId :=
  match r with
  | RL_Data from _ => from
  | RL_Handshake from_peer => RemotePublic_id from_peer
  end.

Section Network.
Context `{BitVecLib, CryptoLib}.

Record NetNode : Type := mkNetNode {
  n_global : Global;
  n_env : Env;
  n_world : World;
  n_sessions : list Session
}.

Definition session_with (n : NetNode) (id : PeerId) : option Session :=
  snd <$> list_find (fun s => remote_id s = id) (n_sessions n).

Definition session_of (n : NetNode) (ss : SessionSender) : option Session :=
  snd <$> list_find (fun s => session_sender s = ss) (n_sessions n).

(** A message on its way: the node it has reached, the node it came from. *)
Record Flight : Type := mkFlight {
  f_at : PeerId;
  f_via : PeerId;
  f_msg : EndpointMessage
}.

Definition new_events (w w' : World) : list Event := drop (length (w_log w)) (w_log w').

(** One hop of a message for [to]: the session the message arrives in hands it to
    another session of the node, which puts it on its wire.  [None] when the message
    has arrived or goes no further. *)
Definition relay_hop (net : gmap PeerId NetNode) (to : PeerId) (f : Flight) : option Flight :=
  if bool_decide (f_at f = to) then None
  else
    n ← net !! f_at f;
    s_in ← session_with n (f_via f);
    let '(_, (_, w1)) := handle_endpoint (n_global n) (n_env n) (f_msg f) (s_in, n_world n) in
    match new_events (n_world n) w1 with
    | [Ev_session ss m] =>
        s_out ← session_of n ss;
        let '(_, (_, w2)) := handle_outside (n_global n) (n_env n) m (s_out, n_world n) in
        match new_events (n_world n) w2 with
        | [Ev_endpoint e msg] =>
            if bool_decide (Direct e = s_endpoint s_out) then Some (mkFlight (remote_id s_out) (f_at f) msg)
            else None
        | _ => None
        end
    | _ => None
    end.

(** The message after [k] hops, as long as it goes on. *)
Fixpoint relay_hops (net : gmap PeerId NetNode) (to : PeerId) (k : nat) (f : Flight) : option Flight :=
  match k with
  | O => Some f
  | S k => f' ← relay_hop net to f; relay_hops net to k f'
  end.

(** A network for messages to [to]: the nodes have the ids they are listed under and
    sound tables, every entry of a table names a direct session with the peer of the
    entry, and so does a stable connection with the target; a node that has another
    in its table is in the table of the other. *)
Record network_wf (net : gmap PeerId NetNode) (to : PeerId) : Prop := mkNetworkWf {
  net_id x n : net !! x = Some n -> my_id (n_global n) = x;
  net_table x n : net !! x = Some n -> peer_list_wf (w_peer_list (n_world n));
  net_entries x n i v : net !! x = Some n -> dk_values (pl_dhts (w_peer_list (n_world n))) !! i = Some v ->
    exists s, session_of n (kv_session v) = Some s /\ remote_id s = peer_id (kv_peer v) /\ is_direct s = true;
  net_stable x n v d : net !! x = Some n -> pl_stables (w_peer_list (n_world n)) !! to = Some (v, d) ->
    exists s, session_of n (kv_session v) = Some s /\ remote_id s = to /\ is_direct s = true;
  net_symmetric x n y : net !! x = Some n -> y ∈ dht_keys (w_peer_list (n_world n)) ->
    exists n', net !! y = Some n' /\ x ∈ dht_keys (w_peer_list (n_world n'))
}.

End Network.

(** A journey that has ended stays so. *)
Lemma relay_hops_more `{BitVecLib, CryptoLib} (net : gmap PeerId NetNode) (to : PeerId) (k c : nat) (f : Flight) :
  relay_hops net to k f = None -> relay_hops net to (k + c) f = None.
Proof.
  revert f. induction k as [|k IH]; intros f; [done|]. cbn. destruct (relay_hop net to f) as [f'|]; [|done].
  cbn. apply IH.
Qed.

(** ** The two handlers of a hop *)

Section Hop.
Context `{BitVecLib, CryptoLib}.
Context (g : Global) (env : Env).

Lemma new_events_logged (w : World) (l : list Event) : new_events w (logged l w) = l.
Proof. unfold new_events. cbn [logged w_log]. apply drop_app_length. Qed.

(** A message for another node goes to the session the peer list names, when the
    node relays and that session is there. *)
Lemma relay_in_run (r : Relayed) (to : PeerId) (s : Session) (w : World) :
  to <> my_id g ->
  handle_endpoint g env (on_wire r to) (s, w) =
  (Done (), (s, logged (if is_relay_data g then
                          match PeerList_next_closest (w_peer_list w) to (remote_id s) with
                          | Some ss => if session_gone env ss then [] else [Ev_session ss (in_session r to)]
                          | None => []
                          end
                        else []) w)).
Proof.
  intros Hto. destruct r as [from data|from_peer]; unfold handle_endpoint, on_wire; rewrite run_self;
    rewrite bool_decide_false by done; (destruct (is_relay_data g); cbn [when]; [|by rewrite logged_nil]);
    rewrite run_shared; cbn [id]; (destruct (PeerList_next_closest _ _ _) as [ss|]; [|by rewrite logged_nil]);
    unfold ignore, world, send_session; (destruct (session_gone env ss); [by rewrite logged_nil|done]).
Qed.

(** Feedback for data that cannot be sent goes to the application only. *)
Lemma failure_send_out (data : list byte) (s : Session) (w : World) :
  exists o l, failure_send g env data (s, w) = (o, (s, logged l w)) /\ Forall (fun ev => exists m, ev = Ev_out m) l.
Proof.
  unfold failure_send. rewrite run_self.
  assert (forall (o : outcome ()), exists o' l, (o, (s, w)) = (o', (s, logged l w)) /\
    Forall (fun ev => exists m, ev = Ev_out m) l) as Hnil by (intros o; exists o, []; by rewrite logged_nil).
  assert (forall t tid d, exists o l, failure_delivery g env t tid d (s, w) = (o, (s, logged l w)) /\
    Forall (fun ev => exists m, ev = Ev_out m) l) as Hone.
  { intros t tid d. unfold failure_delivery, when. destruct (nonzero tid); [|apply Hnil].
    unfold session_out_send, world, out_send. destruct (out_gone env); [apply Hnil|].
    eexists (Done ()), [_]. split; [reflexivity|]. repeat constructor. by eexists. }
  destruct (open_core_data (session_key s) data) as [[[]| |]| |]; try apply Hnil; apply Hone.
Qed.

(** A direct session puts the message on its wire, or tells the application when its
    own message came back to it. *)
Lemma relay_out_run (r : Relayed) (to : PeerId) (s : Session) (w : World) (e : EndpointSender) (msg : EndpointMessage) :
  is_direct s = true -> new_events w (handle_outside g env (in_session r to) (s, w)).2.2 = [Ev_endpoint e msg] ->
  msg = on_wire r to.
Proof.
  intros Hd. assert (forall m, new_events w (direct_send env m (s, w)).2.2 = [Ev_endpoint e msg] -> msg = m) as Hsend.
  { intros m. unfold direct_send. rewrite run_self. unfold is_direct in Hd. destruct (s_endpoint s) as [e'|]; [|done].
    unfold world, send_endpoint. destruct (endpoint_gone env e').
    - cbn. rewrite <- (logged_nil w) at 2. by rewrite new_events_logged.
    - cbn. change (add_event ?ev w) with (logged [ev] w). rewrite new_events_logged. by intros [= _ ->]. }
  destruct r as [from data|from_peer]; unfold handle_outside, in_session; rewrite run_self; cbn [id]; rewrite Hd;
    (destruct (_ && _); [|apply Hsend]).
  - destruct (failure_send_out data s w) as (o & l & -> & Hl). cbn [fst snd]. rewrite new_events_logged.
    intros ->. apply Forall_inv in Hl as [m Hm]. done.
  - cbn. rewrite <- (logged_nil w) at 2. by rewrite new_events_logged.
Qed.

End Hop.

(** ** Every hop comes closer *)

Section Journey.
Context `{BitVecLaws, CryptoLib}.
Context (net : gmap PeerId NetNode) (to : PeerId) (Hnet : network_wf net to).

Lemma session_with_Some (n : NetNode) (id : PeerId) (s : Session) : session_with n id = Some s -> remote_id s = id.
Proof. unfold session_with. intros ([i s'] & (_ & E & _)%list_find_Some & ->)%fmap_Some. exact E. Qed.

(** What a hop does. *)
Lemma relay_hop_inv (f f' : Flight) (r : Relayed) :
  f_msg f = on_wire r to -> relay_hop net to f = Some f' ->
  f_at f <> to /\ exists n ss s, net !! f_at f = Some n /\
    PeerList_next_closest (w_peer_list (n_world n)) to (f_via f) = Some ss /\ session_of n ss = Some s /\
    f_at f' = remote_id s /\ f_via f' = f_at f /\ (is_direct s = true -> f_msg f' = on_wire r to).
Proof.
  intros Hm. unfold relay_hop. rewrite Hm. destruct (bool_decide_reflect (f_at f = to)) as [|Hto]; [done|].
  destruct (net !! f_at f) as [n|] eqn:En; [|done]. cbn [mbind option_bind].
  destruct (session_with n (f_via f)) as [s_in|] eqn:Es; [|done]. cbn [mbind option_bind].
  pose proof (net_id net to Hnet _ _ En) as Hid. rewrite relay_in_run by congruence. rewrite new_events_logged.
  rewrite (session_with_Some _ _ _ Es). destruct (is_relay_data _); [|done].
  destruct (PeerList_next_closest _ _ _) as [ss|] eqn:Ec; [|done]. destruct (session_gone _ _); [done|].
  destruct (session_of n ss) as [s|] eqn:Eo; [|done]. cbn [mbind option_bind].
  destruct (handle_outside _ _ _ _) as [o [s' w']] eqn:Eh. destruct (new_events (n_world n) w') as [|ev l] eqn:Ev; [done|].
  destruct ev as [| e msg | | | | | | | | | | | | |]; try done. destruct l; [|done].
  case_bool_decide; [|done]. intros [= <-]. split; [done|]. exists n, ss, s. cbn. split_and!; try done.
  intros Hd. apply (relay_out_run (n_global n) (n_env n) r to s (n_world n) e msg Hd). by rewrite Eh.
Qed.

(** The first id is closer to the target than the second. *)
Definition closer (a b : PeerId) : Prop :=
  bits_lt (bv_bits (calc_distance to a)) (bv_bits (calc_distance to b)) = true.

#[local] Instance closer_dec (a b : PeerId) : Decision (closer a b).
Proof. unfold closer. apply bool_eq_dec. Defined.
#[local] Typeclasses Opaque closer.

Lemma closer_of_min (a b : PeerId) : ~ closer b a -> a <> b -> closer a b.
Proof.
  intros Hn Hne. apply not_false_is_true. intros Hf. apply Hne, (calc_distance_inj to).
  apply bits_lt_total; [|exact Hf|by apply not_true_is_false].
  exact (eq_trans (calc_distance_length to a) (eq_sym (calc_distance_length to b))).
Qed.

Lemma bits_lt_zero (l l' : list bool) :
  length l = length l' -> Forall (fun x => x = false) l' -> bits_lt l l' = false.
Proof.
  revert l'. induction l as [|x l IH]; intros [|y l'] Hl Hz; try done. apply Forall_cons in Hz as [-> Hz].
  destruct x; [done|]. cbn. apply IH; [by injection Hl|done].
Qed.

Lemma target_closest (b : PeerId) : ~ closer b to.
Proof.
  unfold closer. rewrite bits_lt_zero; [done| |by apply (peer_distance_metric to to)].
  exact (eq_trans (calc_distance_length to b) (eq_sym (calc_distance_length to to))).
Qed.

(** A hop goes to a node at least as close as every node of the table, or to the
    target. *)
Lemma relay_hop_min (f f' : Flight) (r : Relayed) :
  f_msg f = on_wire r to -> relay_hop net to f = Some f' ->
  f_via f' = f_at f /\ f_msg f' = on_wire r to /\
  exists n, net !! f_at f = Some n /\
    (f_at f' = to \/ f_at f' ∈ dht_keys (w_peer_list (n_world n)) /\ f_at f' <> f_via f /\
       forall k, k ∈ dht_keys (w_peer_list (n_world n)) -> ~ closer k (f_at f')).
Proof.
  intros Hm Hh. destruct (relay_hop_inv f f' r Hm Hh) as (Hto & n & ss & s & En & Ec & Eo & Ha & Hv & Hd).
  pose proof (net_table net to Hnet _ _ En) as Hwf. split; [done|].
  destruct (next_closest_entry _ _ _ _ Hwf Ec) as [(v & d & Hst & <-)|(k & i & b & v & Hs & Hne & Hi & <- & <- & Hin)].
  - destruct (net_stable net to Hnet _ _ _ _ En Hst) as (s' & Es & Hr & Hd'). replace s' with s in * by congruence.
    split; [by apply Hd|]. exists n. split; [done|]. left. congruence.
  - destruct (net_entries net to Hnet _ _ _ _ En Hi) as (s' & Es & Hr & Hd'). replace s' with s in * by congruence.
    split; [by apply Hd|]. exists n. split; [done|]. right. rewrite Ha, Hr. split_and!; [done|done|].
    intros k Hk. destruct b.
    + pose proof (KadTree_search_spec _ to (proj1 Hwf)) as Ho. rewrite Hs in Ho. destruct Ho as [-> _]. apply target_closest.
    + destruct (KadTree_search_closest _ _ _ _ (proj1 Hwf) Hs) as (c & _ & <- & _ & Hf).
      unfold dht_keys, DoubleKadTree_keys in Hk. rewrite KadTree_keys_cells in Hk.
      apply list_elem_of_fmap in Hk as (c' & -> & Hc'). rewrite Forall_forall in Hf. unfold closer. by rewrite Hf.
Qed.

(** How many nodes are closer. *)
Definition rank (a : PeerId) : nat := size (filter (fun b => closer b a) (dom net : gset PeerId)).

Lemma rank_lt (a b : PeerId) : a ∈ (dom net : gset PeerId) -> closer a b -> rank a < rank b.
Proof.
  intros Ha Hc. unfold rank. apply (subset_size (C := gset PeerId)). split.
  - intros x. rewrite !elem_of_filter. intros [Hx Hd]. split; [|done]. exact (bits_lt_trans _ _ _ Hx Hc).
  - intros Hsub. specialize (Hsub a). rewrite !elem_of_filter in Hsub. destruct Hsub as [Hs _]; [done|].
    unfold closer in Hs. by rewrite bits_lt_irrefl in Hs.
Qed.

Lemma rank_bound (a : PeerId) : rank a <= size net.
Proof. unfold rank. rewrite <- (size_dom (D := gset PeerId)). apply (subseteq_size (C := gset PeerId)). intros x. rewrite elem_of_filter. by intros [_ ?]. Qed.

(** A message on its way that came from a node of the table. *)
Definition on_its_way (r : Relayed) (f : Flight) : Prop :=
  f_msg f = on_wire r to /\ exists n, net !! f_at f = Some n /\ f_via f ∈ dht_keys (w_peer_list (n_world n)).

(** The measure of a journey: the ranks of the last two nodes. *)
Definition remaining (f : Flight) : nat := rank (f_at f) + rank (f_via f).

Lemma relay_hop_closer (f f' : Flight) (r : Relayed) :
  on_its_way r f -> relay_hop net to f = Some f' ->
  f_at f' = to \/ on_its_way r f' /\ remaining f' < remaining f.
Proof.
  intros (Hm & n & En & Hin) Hh. destruct (relay_hop_min f f' r Hm Hh) as (Hv & Hm' & n' & En' & Hat).
  replace n' with n in * by congruence. destruct Hat as [Hat|(Hin' & Hne & Hmin)]; [by left|]. right.
  destruct (net_symmetric net to Hnet _ _ _ En Hin') as (n1 & En1 & Hs). split.
  - split; [done|]. exists n1. by rewrite Hv.
  - unfold remaining. rewrite Hv. assert (rank (f_at f') < rank (f_via f)); [|lia].
    apply rank_lt; [by apply elem_of_dom; eexists|]. apply closer_of_min; [by apply Hmin|done].
Qed.

Lemma arrived (f : Flight) (k : nat) : f_at f = to -> relay_hops net to (S k) f = None.
Proof. intros E. cbn. unfold relay_hop. by rewrite bool_decide_true. Qed.

Lemma relay_hops_end (f : Flight) (r : Relayed) :
  on_its_way r f -> relay_hops net to (S (S (remaining f))) f = None.
Proof.
  remember (remaining f) as m eqn:Em. revert f Em. induction m as [m IH] using lt_wf_ind. intros f -> Hf.
  destruct (relay_hop net to f) as [f'|] eqn:Eh; [|cbn; by rewrite Eh].
  change (relay_hops net to (S (S (remaining f))) f)
    with (f' ← relay_hop net to f; relay_hops net to (S (remaining f)) f').
  rewrite Eh. cbn [mbind option_bind].
  destruct (relay_hop_closer f f' r Hf Eh) as [Hat|[Hf' Hlt]]; [by apply arrived|].
  pose proof (IH _ Hlt f' eq_refl Hf') as Hend. revert Hend. generalize (remaining f') (remaining f) Hlt.
  intros a b Hab. assert (exists c, b = S a + c) as [c ->] by (exists (b - S a); lia). clear Hab Hlt.
  replace (S (S a + c)) with (S (S a) + c) by lia. intros Hend.
  by apply relay_hops_more.
Qed.

(** Where a journey has got to. *)
Lemma relay_hops_way (r : Relayed) (k : nat) (f f1 : Flight) :
  on_its_way r f -> relay_hops net to k f = Some f1 -> f_msg f1 = on_wire r to /\ (f_at f1 = to \/ on_its_way r f1).
Proof.
  revert f. induction k as [|k IH]; intros f Hf; cbn.
  - intros [= <-]. split; [apply Hf|by right].
  - destruct (relay_hop net to f) as [f2|] eqn:E; [|done]. cbn. intros Hk.
    destruct (relay_hop_closer f f2 r Hf E) as [Hat|[Hf2 _]]; [|by apply (IH f2)].
    destruct k as [|k]; [|by rewrite (arrived f2 k Hat) in Hk]. injection Hk as <-.
    split; [apply (relay_hop_min f f2 r (proj1 Hf) E)|by left].
Qed.

End Journey.


#[local] Existing Instance toy_bitvec.
#[local] Existing Instance toy_bitvec_laws.
#[local] Existing Instance toy_crypto.

(** Three nodes in a line. *)
Definition toy_net_table (me : byte) (known : list (Z * byte)) : DoubleKadTree :=
  foldl (fun d '(k, b) => (DoubleKadTree_add d (to_uint 32 k) (toy_value b)).1)
    (DoubleKadTree_new (toy_id me) (toy_sock me)) known.

Definition toy_net_node (me : byte) (known : list (Z * byte)) : NetNode :=
  mkNetNode (toy_global me) toy_env
    (mkWorld (mkPeerList "peer_list" [] [] [] (toy_net_table me known) ∅) Buffer_init ∅ 1000 0 [])
    (map (fun '(_, b) => toy_session b false) known).

Definition toy_net_nodes : list (byte * list (Z * byte)) :=
  [(x01, [(7, x02)]); (x02, [(7, x01); (8, x03)]); (x03, [(7, x02)])]%Z.

Definition toy_net : gmap PeerId NetNode :=
  list_to_map (map (fun '(b, known) => (toy_id b, toy_net_node b known)) toy_net_nodes).

Lemma toy_net_lookup (x : PeerId) (n : NetNode) :
  toy_net !! x = Some n ->
  exists b known, (b, known) ∈ toy_net_nodes /\ x = toy_id b /\ n = toy_net_node b known.
Proof.
  intros E. apply elem_of_list_to_map_2, list_elem_of_fmap in E as ([b known] & [= -> ->] & Hin).
  by exists b, known.
Qed.

Lemma toy_net_at (b : byte) (known : list (Z * byte)) :
  (b, known) ∈ toy_net_nodes -> toy_net !! toy_id b = Some (toy_net_node b known).
Proof.
  intros Hin. apply elem_of_list_to_map_1.
  - change (NoDup (map toy_id [x01; x02; x03])). apply (bool_decide_unpack _). vm_compute. exact I.
  - apply (list_elem_of_fmap_2 (fun '(b, known) => (toy_id b, toy_net_node b known)) _ _ Hin).
Qed.

Lemma toy_net_reachable (me : byte) (known : list (Z * byte)) :
  (me, known) ∈ toy_net_nodes -> table_reachable (toy_id me) (toy_sock me) (toy_net_table me known).
Proof.
  unfold toy_net_nodes. rewrite !elem_of_cons, elem_of_nil. intros [[= -> ->]|[[= -> ->]|[[= -> ->]|[]]]];
    repeat (apply table_reach_add; [|by vm_compute]); apply table_reach_new.
Qed.

(** The sessions of a node are those its table names. *)
Definition toy_entries_ok (n : NetNode) : Prop :=
  map_Forall (fun _ v =>
    match session_of n (kv_session v) with
    | Some s => remote_id s = peer_id (kv_peer v) /\ is_direct s = true
    | None => False
    end) (dk_values (pl_dhts (w_peer_list (n_world n)))).

Lemma toy_net_entries (me : byte) (known : list (Z * byte)) :
  (me, known) ∈ toy_net_nodes -> toy_entries_ok (toy_net_node me known).
Proof.
  unfold toy_net_nodes. rewrite !elem_of_cons, elem_of_nil.
  intros [[= -> ->]|[[= -> ->]|[[= -> ->]|[]]]]; unfold toy_entries_ok; apply map_Forall_to_list;
    vm_compute; repeat constructor.
Qed.

Lemma toy_net_keys (me : byte) (known : list (Z * byte)) :
  (me, known) ∈ toy_net_nodes ->
  dht_keys (w_peer_list (n_world (toy_net_node me known))) = map (fun e => toy_id e.2) known.
Proof.
  unfold toy_net_nodes. rewrite !elem_of_cons, elem_of_nil.
  intros [[= -> ->]|[[= -> ->]|[[= -> ->]|[]]]]; vm_compute; reflexivity.
Qed.

Lemma toy_net_stables (me : byte) (known : list (Z * byte)) :
  pl_stables (w_peer_list (n_world (toy_net_node me known))) = ∅.
Proof. reflexivity. Qed.

Lemma toy_net_wf : network_wf toy_net (toy_id x03).
Proof.
  constructor.
  - intros x n (b & known & _ & -> & ->)%toy_net_lookup. reflexivity.
  - intros x n (b & known & Hin & -> & ->)%toy_net_lookup. exact (table_reachable_wf _ _ _ (toy_net_reachable _ _ Hin)).
  - intros x n i v (b & known & Hin & -> & ->)%toy_net_lookup Hi. pose proof (toy_net_entries _ _ Hin i v Hi) as Hv.
    cbn beta in Hv. destruct (session_of _ _) as [s|]; [|done]. by exists s.
  - intros x n v d (b & known & _ & -> & ->)%toy_net_lookup Hs.
    rewrite (toy_net_stables b known), lookup_empty in Hs. discriminate Hs.
  - intros x n y (b & known & Hin & -> & ->)%toy_net_lookup Hy. rewrite (toy_net_keys b known Hin) in Hy.
    apply list_elem_of_fmap in Hy as ([k b'] & -> & Hb). cbn [snd].
    assert (exists known', (b', known') ∈ toy_net_nodes /\ b ∈ map snd known') as (known' & Hin' & Hs).
    { revert Hin Hb. unfold toy_net_nodes at 1. rewrite !elem_of_cons, elem_of_nil.
      intros [[= -> ->]|[[= -> ->]|[[= -> ->]|[]]]]; rewrite ?elem_of_cons, elem_of_nil.
      - intros [[= -> ->]|[]]. exists [(7, x01); (8, x03)]%Z. split; [right; left|left].
      - intros [[= -> ->]|[[= -> ->]|[]]]; exists [(7, x02)]%Z; (split; [|left]); [left|right; right; left].
      - intros [[= -> ->]|[]]. exists [(7, x01); (8, x03)]%Z. split; [right; left|right; left]. }
    exists (toy_net_node b' known'). split; [by apply toy_net_at|]. rewrite (toy_net_keys b' known' Hin').
    apply list_elem_of_fmap in Hs as (e & -> & He). by apply (list_elem_of_fmap_2 (fun e => toy_id e.2)).
Qed.

Definition toy_flight : Flight :=
  mkFlight (toy_id x02) (toy_id x01) (EM_RelayData (toy_id x01) (toy_id x03) [x41]).

