(* ===== verification/Locks.v ===== *)
(** * Locks and full channels

    The task that answers the application and the task of a session share the lock
    of the peer list and the channel of the session, which holds 128 messages
    ([new_session_channel]).  The first task keeps the lock for reading while it
    waits for room in the channel ([SendMessage::StableConnect] and
    [SendMessage::Data] in src/server.rs); the second, which alone makes room, needs
    the lock for writing to make its connection stable ([Global::upgrade]).

    The two tasks are a transition system that stops at every wait: for the lock, for
    room and for a message.  What happens between two waits is what the handlers of
    [Server] and [Session] do.  A waiting writer keeps new readers out, as in tokio. *)

From S2P Require Import Prelude Net Types Keys Wire Kad KadMetric KadFacts KadTreeFacts KadTable Buffer PeerList Global Session Server SessionFacts SessionProps ServerProps StableProps.
From stdpp Require Import list_relations list relations.

Definition CAPACITY : nat := 128.

Section Locks.
Context `{BitVecLib, CryptoLib}.
Context (g : Global) (env : Env) (recv_data : bool).

(** Where the session is: waiting for a message, sending the sealed message to its
    transport, or waiting for the peer list with the rest of the handler to do. *)
Inductive Phase : Set :=
| Idle
| Sending (m : SessionMessage)
| Waiting (m : SessionMessage).

(** The two tasks; [offering] is the message the first task, which holds the lock,
    wants to put into the channel. *)
Record Tasks : Type := mkTasks {
  requests : list SendMessage;
  offering : option SessionMessage;
  queue : list SessionMessage;
  phase : Phase;
  session : Session;
  state : World
}.

(** Whether the handler of a message writes to the peer list. *)
Definition needs_list (s : Session) (m : SessionMessage) : bool :=
  match m with
  | SM_StableConnect _ _ => negb (is_stable s)
  | _ => false
  end.

Definition waiting (p : Phase) : bool := match p with Waiting _ => true | _ => false end.

Inductive step : Tasks -> Tasks -> Prop :=
| step_take r rs q p s w m :
    waiting p = false ->
    handle_request g env recv_data r w = (Done (), logged [Ev_session (session_sender s) m] w) ->
    step (mkTasks (r :: rs) None q p s w) (mkTasks rs (Some m) q p s w)
| step_offer rs q p s w m :
    length q < CAPACITY ->
    step (mkTasks rs (Some m) q p s w) (mkTasks rs None (q ++ [m]) p s w)
| step_receive rs o q s w m :
    step (mkTasks rs o (m :: q) Idle s w) (mkTasks rs o q (Sending m) s w)
| step_handle rs o q s s' w w' m :
    needs_list s m = false -> handle_outside g env m (s, w) = (Done (), (s', w')) ->
    step (mkTasks rs o q (Sending m) s w) (mkTasks rs o q Idle s' w')
| step_wait rs o q s w m :
    needs_list s m = true -> step (mkTasks rs o q (Sending m) s w) (mkTasks rs o q (Waiting m) s w)
| step_write rs q s s' w w' m :
    handle_outside g env m (s, w) = (Done (), (s', w')) ->
    step (mkTasks rs None q (Waiting m) s w) (mkTasks rs None q Idle s' w').

Definition stuck (x : Tasks) : Prop := forall y, ~ step x y.

Definition finished (x : Tasks) : Prop :=
  requests x = [] /\ offering x = None /\ queue x = [] /\ phase x = Idle.

(** The message a request becomes for a peer that has a session. *)
Definition offer (r : SendMessage) : option SessionMessage :=
  match r with
  | SD_StableConnect tid _ data => Some (SM_StableConnect tid data)
  | SD_Data tid _ data => Some (SM_Data tid data)
  | _ => None
  end.

(** Requests for a stable connection with the peer and for data to it. *)
Definition for_peer (p : PeerId) (r : SendMessage) : Prop :=
  match r with
  | SD_StableConnect _ to _ => peer_id to = p
  | SD_Data _ to _ => to = p
  | _ => False
  end.

(** A session of a peer of the table, before and after it is stable. *)
Definition session_ok (s0 : Session) (v : KadValue) (s : Session) (w : World) : Prop :=
  s = s0 /\ in_table w (remote_id s0) v \/ s = stable_of s0 /\ is_stable_peer w (remote_id s0) v.

Context (s0 : Session) (v : KadValue) (e : EndpointSender).
Context (Hdirect : s_endpoint s0 = Direct e) (Hopen : endpoint_gone env e = false).
Context (Hfresh : is_stable s0 = false) (Hother : remote_id s0 <> my_id g).
Context (Hchan : kv_session v = session_sender s0) (Hlive : session_gone env (session_sender s0) = false).

Lemma request_offered (r : SendMessage) (s : Session) (w : World) :
  for_peer (remote_id s0) r -> session_ok s0 v s w ->
  exists m, offer r = Some m /\
    handle_request g env recv_data r w = (Done (), logged [Ev_session (session_sender s) m] w).
Proof.
  intros Hr Hs. assert (PeerList_get (w_peer_list w) (remote_id s0) = Some (session_sender s, kv_stream v, true)) as Hget.
  { destruct Hs as [[-> Hw]|[-> Hw]]; [apply in_table_get in Hw|apply stable_peer_get in Hw];
      rewrite Hw, Hchan; done. }
  assert (session_sender s = session_sender s0) as Es by (by destruct Hs as [[-> _]|[-> _]]).
  rewrite Es in Hget |- *.
  destruct r as [|tid to data| | | |tid to data| | | |]; try done; cbn in Hr; subst.
  - eexists. split; [done|]. apply (connect_request_run _ _ _ _ _ _ _ (kv_stream v)); by rewrite ?Hr.
  - eexists. split; [done|]. by apply (data_request_run _ _ _ _ _ _ _ (kv_stream v)).
Qed.

(** The payload a message becomes. *)
Definition payload (m : SessionMessage) : CoreData :=
  match m with
  | SM_StableConnect tid data => CD_StableConnect tid data
  | SM_Data tid data => CD_Data tid data
  | _ => CD_Ping
  end.

Definition sent (m : SessionMessage) : Event := Ev_endpoint e (sealed s0 (payload m)).

Definition offered (m : SessionMessage) : Prop := exists r, offer r = Some m.

(** What the session does with a message, in either state. *)
Lemma message_handled (m : SessionMessage) (s : Session) (w : World) :
  offered m -> session_ok s0 v s w ->
  exists s' w', handle_outside g env m (s, w) = (Done (), (s', w')) /\ session_ok s0 v s' w' /\
    w_log w' = w_log w ++ [sent m].
Proof.
  intros [r Hm] Hs. assert (s_endpoint s = Direct e) as Hd by (by destruct Hs as [[-> _]|[-> _]]).
  assert (forall c, send_core_data g env c (s, w) = (Done (), (s, logged [Ev_endpoint e (sealed s0 c)] w))) as Hsend.
  { intros c. rewrite (send_core_data_run g env s w e c Hd Hopen). by destruct Hs as [[-> _]|[-> _]]. }
  destruct r as [|tid to data| | | |tid to data| | | |]; try done; injection Hm as <-.
  - destruct Hs as [[-> Hw]|[-> Hw]].
    + destruct (stable_connect_run g env s0 e Hdirect Hopen Hfresh tid data v w Hw) as (w' & E & Hl & Hu).
      exists (stable_of s0), w'. split; [done|]. split; [right; split; [done|apply Hu]|done].
    + exists (stable_of s0), (logged [sent (SM_StableConnect tid data)] w).
      split; [|split; [by right|done]]. unfold handle_outside. rewrite run_self. by rewrite (run_done _ _ _ _ _ (Hsend _)).
  - exists s, (logged [sent (SM_Data tid data)] w).
    split; [|split; [|done]]; [unfold handle_outside; rewrite run_self; apply Hsend|exact Hs].
Qed.

(** ** The invariant of a run *)

Definition phase_messages (p : Phase) : list SessionMessage :=
  match p with
  | Idle => []
  | Sending m | Waiting m => [m]
  end.

(** The messages between the two tasks, oldest first. *)
Definition underway (x : Tasks) : list SessionMessage :=
  phase_messages (phase x) ++ queue x ++ option_list (offering x).

(** Every request is handled, underway or to come, in the order of the requests. *)
Record tasks_ok (reqs : list SendMessage) (log : list Event) (x : Tasks) : Prop := mkTasksOk {
  ok_session : session_ok s0 v (session x) (state x);
  ok_requests : Forall (for_peer (remote_id s0)) (requests x);
  ok_underway : Forall offered (underway x);
  ok_order : exists handled, omap offer reqs = handled ++ underway x ++ omap offer (requests x) /\
    w_log (state x) = log ++ map sent handled
}.

#[local] Ltac tasks_simpl :=
  cbn [requests offering queue phase session state phase_messages option_list option_rect] in *.

Lemma handled_ok (reqs : list SendMessage) (log : list Event) (rs : list SendMessage) (o : option SessionMessage)
    (q : list SessionMessage) (p : Phase) (s s' : Session) (w w' : World) (m : SessionMessage) :
  phase_messages p = [m] -> handle_outside g env m (s, w) = (Done (), (s', w')) ->
  tasks_ok reqs log (mkTasks rs o q p s w) -> tasks_ok reqs log (mkTasks rs o q Idle s' w').
Proof.
  intros Hp E [Hs Hr Hu (handled & Ho & Hl)]. unfold underway in *. tasks_simpl. rewrite Hp in *.
  apply Forall_cons in Hu as [Hm Hu]. destruct (message_handled m s w Hm Hs) as (s1 & w1 & E1 & Hs1 & Hl1).
  rewrite E in E1. injection E1 as <- <-. constructor; unfold underway; tasks_simpl; [done|done|done|].
  exists (handled ++ [m]). split; [by rewrite Ho, <- !app_assoc|]. by rewrite Hl1, Hl, map_app, app_assoc.
Qed.

Lemma step_keeps_ok (reqs : list SendMessage) (log : list Event) (x y : Tasks) :
  tasks_ok reqs log x -> step x y -> tasks_ok reqs log y.
Proof.
  intros Hok Hstep. pose proof Hok as [Hs Hr Hu (handled & Ho & Hl)].
  destruct Hstep as [r rs q p s w m Hp E|rs q p s w m Hq|rs o q s w m|rs o q s s' w w' m Hn E|rs o q s w m Hn|rs q s s' w w' m E];
    unfold underway in *; tasks_simpl.
  - apply Forall_cons in Hr as [Hr Hrs]. destruct (request_offered r s w Hr Hs) as (m' & Hm & E').
    assert (m' = m) as -> by (rewrite E in E'; injection E' as E'; by apply app_inv_head in E' as [= ->]).
    constructor; unfold underway; tasks_simpl; [done|done| |].
    + rewrite app_nil_r in Hu. rewrite app_assoc. apply Forall_app. split; [done|]. repeat constructor. by exists r.
    + exists handled. split; [|done]. rewrite Ho. cbn [omap list_omap]. rewrite Hm.
      rewrite app_nil_r, <- !app_assoc. done.
  - constructor; unfold underway; tasks_simpl; [done|done| |]; [by rewrite app_nil_r|]. exists handled. by rewrite app_nil_r.
  - constructor; unfold underway; tasks_simpl; [done|done|done|]. by exists handled.
  - by apply (handled_ok reqs log rs o q (Sending m) s s' w w' m).
  - constructor; unfold underway; tasks_simpl; [done|done|done|]. by exists handled.
  - by apply (handled_ok reqs log rs None q (Waiting m) s s' w w' m).
Qed.

(** ** Few requests *)

Definition phase_cost (p : Phase) : nat :=
  match p with Idle => 0 | Sending _ => 2 | Waiting _ => 1 end.

(** How many steps are left at most. *)
Definition work (x : Tasks) : nat :=
  5 * length (requests x) + 4 * length (option_list (offering x)) + 3 * length (queue x) + phase_cost (phase x).

Lemma step_works (x y : Tasks) : step x y -> work y < work x.
Proof.
  destruct 1; unfold work; tasks_simpl; cbn [phase_cost length]; rewrite ?length_app; cbn [length]; lia.
Qed.

(** How many messages there are. *)
Definition total (x : Tasks) : nat := length (requests x) + length (underway x).

Lemma step_total (x y : Tasks) : step x y -> total y <= total x.
Proof.
  destruct 1; unfold total, underway; tasks_simpl; rewrite ?length_app; cbn [length]; rewrite ?length_app; cbn [length]; lia.
Qed.

Lemma tasks_progress (reqs : list SendMessage) (log : list Event) (x : Tasks) :
  tasks_ok reqs log x -> total x <= CAPACITY + 1 -> finished x \/ exists y, step x y.
Proof.
  intros [Hs Hr Hu _] Ht. destruct x as [rs o q p s w]. unfold total, underway in *. tasks_simpl.
  destruct p as [|m|m]; tasks_simpl.
  - destruct q as [|m q]; [|right; eexists; apply step_receive].
    destruct o as [m|]; [right; eexists; apply step_offer; unfold CAPACITY; cbn; lia|].
    destruct rs as [|r rs]; [by left|]. right. apply Forall_cons in Hr as [Hr _].
    destruct (request_offered r s w Hr Hs) as (m & _ & E). eexists. by apply step_take.
  - right. destruct (needs_list s m) eqn:E; [eexists; by apply step_wait|].
    apply Forall_cons in Hu as [Hm _]. destruct (message_handled m s w Hm Hs) as (s' & w' & Eh & _).
    eexists. by apply step_handle with (1 := E) (2 := Eh).
  - right. destruct o as [m'|].
    + eexists. apply step_offer. rewrite !length_app in Ht. cbn [length option_list option_rect] in Ht. lia.
    + apply Forall_cons in Hu as [Hm _]. destruct (message_handled m s w Hm Hs) as (s' & w' & Eh & _).
      eexists. by apply step_write with (1 := Eh).
Qed.

(** The two tasks at the start of a sequence of requests. *)
Definition begin (reqs : list SendMessage) (w : World) : Tasks := mkTasks reqs None [] Idle s0 w.

Lemma begin_ok (reqs : list SendMessage) (w : World) :
  Forall (for_peer (remote_id s0)) reqs -> in_table w (remote_id s0) v -> tasks_ok reqs (w_log w) (begin reqs w).
Proof.
  intros Hr Hw. constructor; [by left|done|by constructor|]. exists []. by rewrite app_nil_r.
Qed.

Lemma run_ok (reqs : list SendMessage) (log : list Event) (k : nat) (x y : Tasks) :
  tasks_ok reqs log x -> nsteps step k x y -> tasks_ok reqs log y /\ total y <= total x /\ k + work y <= work x.
Proof.
  intros Hx Hk. induction Hk as [x|k x y z Hs _ IH]; [split_and!; (done || lia)|].
  pose proof (step_keeps_ok _ _ _ _ Hx Hs) as Hy. pose proof (step_works _ _ Hs). pose proof (step_total _ _ Hs).
  destruct (IH Hy) as (? & ? & ?). split_and!; [done|lia|lia].
Qed.

(** C8: few requests are served.  While the application has asked for no more than
    129 things of a peer, requests for a stable connection and data, the two tasks
    never block each other: every run ends, after at most five steps a request, and
    when it can go no further every request has been put on the wire, once and in
    the order in which it was made. *)
Theorem few_requests_served (reqs : list SendMessage) (w : World) (k : nat) (y : Tasks) :
  Forall (for_peer (remote_id s0)) reqs -> in_table w (remote_id s0) v -> length reqs <= CAPACITY + 1 ->
  nsteps step k (begin reqs w) y ->
  k <= 5 * length reqs /\
  ((exists z, step y z) \/
   finished y /\ w_log (state y) = w_log w ++ map sent (omap offer reqs) /\
   session_ok s0 v (session y) (state y)).
Proof.
  intros Hr Hw Hlen Hk. destruct (run_ok _ _ _ _ _ (begin_ok reqs w Hr Hw) Hk) as (Hok & Ht & Hb).
  unfold work, total, begin, underway in *. cbn in Ht, Hb. split; [lia|].
  destruct (tasks_progress _ _ _ Hok) as [Hf|?]; [unfold total, underway; lia| |by left]. right. split; [done|].
  destruct Hok as [Hs _ _ (handled & Ho & Hl)]. destruct Hf as (Er & Eo & Eq & Ep). split; [|done].
  unfold underway in Ho. rewrite Er, Eo, Eq, Ep in Ho. cbn in Ho. rewrite app_nil_r in Ho. by rewrite Ho.
Qed.

(** ** Many requests *)

Lemma offers_length (l : list SendMessage) :
  Forall (for_peer (remote_id s0)) l -> length (omap offer l) = length l.
Proof.
  induction 1 as [|r l Hr _ IH]; [done|]. cbn [omap list_omap]. by destruct r; cbn [offer length]; rewrite ?IH.
Qed.

(** Requests that find room go into the channel. *)
Lemma requests_queued (l rs : list SendMessage) (q : list SessionMessage) (p : Phase) (w : World) :
  Forall (for_peer (remote_id s0)) l -> in_table w (remote_id s0) v -> waiting p = false ->
  length q + length l <= CAPACITY ->
  rtc step (mkTasks (l ++ rs) None q p s0 w) (mkTasks rs None (q ++ omap offer l) p s0 w).
Proof.
  intros Hl Hw Hp. revert q. induction Hl as [|r l Hr _ IH]; intros q Hq; [by rewrite app_nil_r|].
  destruct (request_offered r s0 w Hr) as (m & Hm & E); [by left|]. cbn [app omap list_omap length] in *. rewrite Hm.
  eapply rtc_l; [by apply step_take|]. eapply rtc_l; [apply step_offer; lia|].
  replace (q ++ m :: omap offer l) with ((q ++ [m]) ++ omap offer l) by (by rewrite <- app_assoc).
  apply IH. rewrite length_app. cbn [length]. lia.
Qed.

(** C9: many requests block the node.  An application that asks for a stable
    connection with a peer of the table and for at least 129 things more can bring
    the two tasks into a state that neither ever leaves: the task that answers the
    application holds the peer list while it waits for room in the full channel of
    the session, and the session, which alone makes room, waits for the peer list to
    enter the stable connection.  No request is answered any more. *)
Theorem many_requests_block (tid : u64) (to : Peer) (data : list byte) (reqs : list SendMessage) (w : World) :
  peer_id to = remote_id s0 -> Forall (for_peer (remote_id s0)) reqs -> in_table w (remote_id s0) v ->
  CAPACITY + 1 <= length reqs ->
  exists y, rtc step (begin (SD_StableConnect tid to data :: reqs) w) y /\ stuck y /\
    length (queue y) = CAPACITY /\ offering y <> None /\ phase y = Waiting (SM_StableConnect tid data).
Proof.
  intros Hto Hr Hw Hlen. set (m0 := SM_StableConnect tid data).
  destruct (request_offered (SD_StableConnect tid to data) s0 w Hto) as (m & [= <-] & E0); [by left|].
  rewrite <- (take_drop CAPACITY reqs) in Hr |- *. apply Forall_app in Hr as [Hr1 Hr2].
  destruct (drop CAPACITY reqs) as [|r rs] eqn:Ed.
  { apply (f_equal length) in Ed. rewrite length_drop in Ed. cbn in Ed. lia. }
  apply Forall_cons in Hr2 as [Hr2 _]. destruct (request_offered r s0 w Hr2) as (m & _ & E); [by left|].
  assert (length (take CAPACITY reqs) = CAPACITY) as Ht by (rewrite length_take; lia).
  exists (mkTasks rs (Some m) (omap offer (take CAPACITY reqs)) (Waiting m0) s0 w). split_and!.
  - unfold begin. eapply rtc_l; [by apply step_take|]. eapply rtc_l; [apply step_offer; unfold CAPACITY; cbn; lia|].
    eapply rtc_l; [apply step_receive|].
    etrans; [apply requests_queued; [done|done|done|cbn [length]; lia]|]. cbn [app].
    eapply rtc_l; [by apply step_take|]. apply rtc_once, step_wait. cbn. by rewrite Hfresh.
  - intros y Hs. inversion Hs; subst. rewrite (offers_length _ Hr1), Ht in *. lia.
  - cbn. by rewrite offers_length.
  - done.
  - done.
Qed.

End Locks.

#[local] Existing Instance toy_bitvec.
#[local] Existing Instance toy_crypto.

Definition toy_stable_request : SendMessage := SD_StableConnect (to_uint 64 1) (toy_peer xff) [x41].
Definition toy_data_request : SendMessage := SD_Data (to_uint 64 2) (toy_id xff) [x42].

Lemma toy_other : remote_id (toy_session xff false) <> my_id (toy_global x00).
Proof. intros E. vm_compute in E. discriminate E. Qed.

Definition toy_taken : Tasks :=
  mkTasks [toy_data_request] (Some (SM_StableConnect (to_uint 64 1) [x41])) [] Idle (toy_session xff false) toy_world.

Lemma toy_takes :
  nsteps (step (toy_global x00) toy_env true) 1
    (begin (toy_session xff false) [toy_stable_request; toy_data_request] toy_world) toy_taken.
Proof.
  apply nsteps_once, step_take; [reflexivity|].
  apply (connect_request_run _ _ _ _ _ _ _ (mkEndpointSender 255)); [exact toy_other| |reflexivity].
  exact (in_table_get _ _ _ toy_in_table).
Qed.

Lemma few_requests_served_witness :
  (exists z, step (toy_global x00) toy_env true toy_taken z) \/ finished toy_taken.
Proof.
  destruct (few_requests_served (toy_global x00) toy_env true (toy_session xff false) (toy_value xff)
    (mkEndpointSender 256) eq_refl eq_refl eq_refl toy_other eq_refl eq_refl [toy_stable_request; toy_data_request]
    toy_world 1 toy_taken) as [_ [Hz|[Hf _]]];
    [repeat constructor|exact toy_in_table|vm_compute; lia|exact toy_takes|left; exact Hz|right; exact Hf].
Defined.

Lemma many_requests_block_witness :
  exists y, rtc (step (toy_global x00) toy_env true)
    (begin (toy_session xff false) (toy_stable_request :: replicate 129 toy_data_request) toy_world) y /\
    stuck (toy_global x00) toy_env true y.
Proof.
  destruct (many_requests_block (toy_global x00) toy_env true (toy_session xff false) (toy_value xff)
    eq_refl toy_other eq_refl eq_refl (to_uint 64 1) (toy_peer xff) [x41]
    (replicate 129 toy_data_request) toy_world) as (y & Hr & Hs & _);
    [reflexivity|apply Forall_replicate; reflexivity|exact toy_in_table|vm_compute; lia|].
  exists y. split; [exact Hr|exact Hs].
Defined.
