(* ===== verification/ConnectProps.v ===== *)
(** * Properties of connections

    How two nodes get a connection: the dial of one, the listener of the other, the
    handshake in both directions and the two sessions; and what a failed dial or
    handshake leaves behind. *)

From S2P Require Import Prelude Net Types Keys Wire Transport Kad KadMetric KadFacts KadTreeFacts KadTable Buffer PeerList Global Session Server Connect SessionFacts SessionProps ServerProps.
From stdpp Require Import list_relations list.

(** ** One connection *)

Section Connection.
Context `{BitVecLib, CryptoLib}.
Context (env : Env).

Lemma forward_run (out_sender : EndpointSender) (l : list EndpointMessage) (w : World) :
  forward env out_sender l w =
  (Done (), logged (if endpoint_gone env out_sender then [] else map (Ev_endpoint out_sender) l) w).
Proof.
  revert w. unfold forward. induction l as [|m l IH]; intros w; cbn [for_each map].
  - destruct (endpoint_gone env out_sender); by rewrite logged_nil.
  - rewrite (run_done _ _ _ _ _ (ignore_send_endpoint_run _ _ _ _ _)), IH, logged_logged.
    by destruct (endpoint_gone env out_sender).
Qed.

(** The connection brings the message [m] first, from the address [addr], with
    its length prefix in one piece. *)
Definition carries (reads : nat) (c : TcpConn) (addr : SocketAddr) (m : EndpointMessage) : Prop :=
  let cs := pieces (tc_stream c) in
  tc_peer_addr c = Some addr /\ whole cs /\ 4 <= length (default [] (head cs)) /\
  (exists rest, concat cs = tcp_frame m ++ rest) /\ length (tcp_frame m) <= reads.

Lemma carries_handshake (reads : nat) (c : TcpConn) (addr : SocketAddr) (m : EndpointMessage) :
  framed m -> carries reads c addr m ->
  exists st, tcp_handshake reads (tc_stream c) =
    (match m with EM_Handshake r => Some (remote_canonical r) | _ => None end, st).
Proof.
  intros Hf (_ & Hw & Hp & (rest & E) & Hr). destruct (tc_stream c) as [cs b]. eexists.
  by apply tcp_handshake_frame with rest.
Qed.

(** What the task of a connection does after the handshake. *)
Lemma tcp_process_log (gone : bool) (reads : nat) (c : TcpConn) (addr : SocketAddr) (r : RemotePublic) (st : Stream)
    (out_sender : EndpointSender) (self_messages : list EndpointMessage) (out_type : OutType)
    (has_session : option SessionKey) (w : World) (e : Event) :
  tc_peer_addr c = Some addr -> tcp_handshake reads (tc_stream c) = (Some r, st) ->
  announce env gone addr r out_sender out_type has_session w = (Done (), add_event e w) ->
  exists l, w_log (tcp_process_stream env gone reads c out_sender self_messages out_type has_session w).2 =
    w_log w ++ e :: Ev_socket (tc_id c) (tcp_writer (tc_writes c) self_messages) :: l.
Proof.
  intros Ha E He. unfold tcp_process_stream. rewrite Ha, E, (run_done _ _ _ _ _ He). unfold emit. rewrite run_modify.
  destruct (tcp_reader reads st) as [l ended]. rewrite (run_done _ _ _ _ _ (forward_run _ _ _)).
  eexists. destruct ended; cbn; rewrite <- !app_assoc; reflexivity.
Qed.

(** A connection that brings a handshake is announced to the server first. *)
Lemma tcp_process_announces (reads : nat) (c : TcpConn) (addr : SocketAddr) (rp : RemotePublic)
    (out_sender self_sender : EndpointSender) (out_receiver : EndpointReceiver)
    (self_messages : list EndpointMessage) (has_session : option SessionKey) (w : World) :
  framed (EM_Handshake rp) -> carries reads c addr (EM_Handshake rp) ->
  exists l,
    w_log (tcp_process_stream env false reads c out_sender self_messages
             (OT_DHT self_sender out_receiver) has_session w).2 =
    w_log w ++
      Ev_incoming (mkTransportRecv addr (remote_canonical rp) has_session out_sender out_receiver self_sender) ::
      Ev_socket (tc_id c) (tcp_writer (tc_writes c) self_messages) :: l.
Proof.
  intros Hf Hc. destruct (carries_handshake reads c addr _ Hf Hc) as [st E]. destruct Hc as (Ha & _).
  by apply (tcp_process_log false reads c addr (remote_canonical rp) st).
Qed.

(** A task only adds to the log. *)
Definition extends (w w' : World) : Prop := exists l, w_log w' = w_log w ++ l.

Lemma extends_refl (w : World) : extends w w.
Proof. exists []. by rewrite app_nil_r. Qed.

Lemma keeps_extends_emit (w : World) (e : Event) : keeps (extends w) (emit e).
Proof. intros w' [l E]. exists (l ++ [e]). cbn. by rewrite E, app_assoc. Qed.

Lemma tcp_process_extends (gone : bool) (reads : nat) (c : TcpConn) (out_sender : EndpointSender)
    (self_messages : list EndpointMessage) (out_type : OutType) (has_session : option SessionKey) (w : World) :
  extends w (tcp_process_stream env gone reads c out_sender self_messages out_type has_session w).2.
Proof.
  pose proof (keeps_extends_emit w) as He.
  assert (keeps (extends w) (tcp_process_stream env gone reads c out_sender self_messages out_type has_session))
    as Hk; [|by apply Hk, extends_refl].
  unfold tcp_process_stream, announce, send_incoming, forward, send_endpoint. task.
Qed.

End Connection.

(** ** The bytes of a handshake *)

Lemma length_handshake (rp : RemotePublic) :
  kp_key (rp_key rp) = Ed25519 -> length (kp_pk (rp_key rp)) = 32 -> length (rp_dh rp) = 108 ->
  length (RemotePublic_to_bytes rp) = 195.
Proof.
  intros Hk Hp Hd. unfold RemotePublic_to_bytes, Keypair_to_bytes. cbn zeta.
  rewrite !length_app, length_Peer_to_bytes, length_to_be_bytes. cbn [length]. rewrite Hp, Hd. done.
Qed.

Lemma handshake_framed (rp : RemotePublic) :
  kp_key (rp_key rp) = Ed25519 -> length (kp_pk (rp_key rp)) = 32 -> length (rp_dh rp) = 108 ->
  framed (EM_Handshake rp) /\ length (tcp_frame (EM_Handshake rp)) = 204.
Proof.
  intros Hk Hp Hd. pose proof (length_handshake rp Hk Hp Hd) as Hl.
  assert (length (EndpointMessage_to_bytes (EM_Handshake rp)) = 200) as Hm.
  { cbn [EndpointMessage_to_bytes]. rewrite !length_app, length_to_be_bytes, Hl. done. }
  rewrite length_tcp_frame. unfold framed, message_sendable, remote_sendable. rewrite Hm, Hl, Hk, Hp. done.
Qed.

(** A handshake as a node makes it. *)
Definition handshake_sized (rp : RemotePublic) : Prop :=
  kp_key (rp_key rp) = Ed25519 /\ length (kp_pk (rp_key rp)) = 32 /\ length (rp_dh rp) = 108.

(** ** What the server needs of a transport

    A connection of type [C] with its two tasks, when its dial succeeds. *)

Class Transporting `{BitVecLib, CryptoLib} (C : Type) : Type := {
  (** what a message looks like to the socket *)
  tp_written : C -> EndpointMessage -> Event;
  (** the socket of the connection takes the whole message when it is dialled with it *)
  tp_takes : C -> EndpointMessage -> Prop;
  (** the connection brings the message first, from the address *)
  tp_carries : C -> SocketAddr -> EndpointMessage -> Prop;
  tp_connect : Env -> C -> list EndpointMessage -> TransportSendMessage -> M World ();
  tp_process : Env -> C -> EndpointSender -> list EndpointMessage -> OutType -> option SessionKey -> M World ()
}.

Class TransportLaws `{Transporting C} : Prop := {
  (** a handshake that arrives is announced to the server before all else *)
  tp_announces env c addr rp out_sender self_sender out_receiver self_messages has_session w :
    handshake_sized rp -> tp_carries c addr (EM_Handshake rp) ->
    exists l, w_log (tp_process env c out_sender self_messages (OT_DHT self_sender out_receiver) has_session w).2 =
      w_log w ++
      Ev_incoming (mkTransportRecv addr (remote_canonical rp) has_session out_sender out_receiver self_sender) :: l;
  (** a dial writes the handshake, and goes on as a connection of its own *)
  tp_dials env c self_messages addr rp k w :
    tp_takes c (EM_Handshake rp) -> exists w', w_channels w' = w_channels w /\ w_log w' = w_log w ++ [tp_written c (EM_Handshake rp)] /\
      (tp_connect env c self_messages (TS_Connect addr rp k) w).2 =
      (tp_process env c (mkEndpointSender (w_channels w + 1)) self_messages
         (OT_DHT (mkEndpointSender (w_channels w)) (mkEndpointReceiver (w_channels w + 1))) (Some k)
         (channel_made (channel_made w'))).2;
  (** a connection only adds to the log *)
  tp_extends env c out_sender self_messages out_type has_session w :
    extends w (tp_process env c out_sender self_messages out_type has_session w).2
}.

Section Instances.
Context `{BitVecLib, CryptoLib}.

(** TCP, with enough reads for a handshake. *)
#[local] Instance tcp_transporting (reads : nat) : Transporting TcpConn := {
  tp_written c m := Ev_socket (tc_id c) (tcp_frame m);
  tp_takes c m := takes_whole (tc_dial_write c) m;
  tp_carries := carries reads;
  tp_connect env c := tcp_connect env false reads (Some c);
  tp_process env := tcp_process_stream env false reads
}.

Lemma tcp_transport_laws (reads : nat) : @TransportLaws _ _ TcpConn (tcp_transporting reads).
Proof.
  split.
  - intros env c addr rp os ss or msgs hs w (Hk & Hp & Hd) Hc.
    destruct (handshake_framed rp Hk Hp Hd) as [Hf _].
    destruct (tcp_process_announces env reads c addr rp os ss or msgs hs w Hf Hc) as [l E]. eexists. exact E.
  - intros env c msgs addr rp k w Ht.
    exists (add_event (Ev_socket (tc_id c) (tcp_frame (EM_Handshake rp))) w). split; [done|]. split; [done|].
    cbn [tp_connect tp_process tcp_transporting]. unfold tcp_connect, emit, new_endpoint_channel.
    rewrite (tcp_write_handshake_whole _ _ Ht), run_modify.
    rewrite run_assoc, (run_done _ _ _ _ _ (new_channel_run _)), run_ret.
    rewrite run_assoc, (run_done _ _ _ _ _ (new_channel_run _)), run_ret.
    unfold ignore. by destruct (tcp_process_stream _ _ _ _ _ _ _ _ _) as [[]].
  - intros. apply tcp_process_extends.
Qed.

(** QUIC, with a reader of streams that gives the whole of a short stream. *)
Context (read_to_end : nat -> list byte -> option (list byte)).

#[local] Instance quic_transporting : Transporting QuicConn := {
  tp_written c m := Ev_socket (qc_id c) (EndpointMessage_to_bytes m);
  tp_takes _ _ := True;
  tp_carries c addr m := qc_remote_addr c = addr /\ head (qc_streams c) = Some (EndpointMessage_to_bytes m);
  tp_connect env c := quic_connect env false read_to_end (QD_connected c true true true);
  tp_process env := quic_process_stream env false read_to_end
}.

Lemma quic_process_extends (env : Env) (gone : bool) (c : QuicConn) (out_sender : EndpointSender)
    (self_messages : list EndpointMessage) (out_type : OutType) (has_session : option SessionKey) (w : World) :
  extends w (quic_process_stream env gone read_to_end c out_sender self_messages out_type has_session w).2.
Proof.
  pose proof (keeps_extends_emit w) as He.
  assert (keeps (extends w) (quic_process_stream env gone read_to_end c out_sender self_messages out_type has_session))
    as Hk; [|by apply Hk, extends_refl].
  unfold quic_process_stream, announce, send_incoming, forward, send_endpoint. task.
Qed.

(** What the task of a connection does after the handshake. *)
Lemma quic_process_log (env : Env) (gone : bool) (c : QuicConn) (r : RemotePublic) (st : list (list byte))
    (out_sender : EndpointSender) (self_messages : list EndpointMessage) (out_type : OutType)
    (has_session : option SessionKey) (w : World) (e : Event) :
  quic_handshake read_to_end (qc_streams c) = (Some r, st) ->
  announce env gone (qc_remote_addr c) r out_sender out_type has_session w = (Done (), add_event e w) ->
  exists l, w_log (quic_process_stream env gone read_to_end c out_sender self_messages out_type has_session w).2 =
    w_log w ++ e :: l.
Proof.
  intros E He. unfold quic_process_stream. rewrite E, (run_done _ _ _ _ _ He).
  match goal with |- context [w_log (?m ?w0).2] => assert (extends w0 (m w0).2) as [l El] end.
  { pose proof (keeps_extends_emit (add_event e w)) as Hx.
    match goal with |- extends ?w0 (?m _).2 => assert (keeps (extends w0) m) as Hk'; [|by apply Hk', extends_refl] end.
    unfold forward, send_endpoint. task; apply Hx. }
  exists l. rewrite El. cbn [w_log add_event]. by rewrite <- app_assoc.
Qed.

Lemma quic_transport_laws : reads_whole read_to_end -> @TransportLaws _ _ QuicConn quic_transporting.
Proof.
  intros Hread. split.
  - intros env c addr rp os ss or msgs hs w (Hk & Hp & Hd) [<- Hs].
    destruct (handshake_framed rp Hk Hp Hd) as [[Hm _] Hl]. rewrite length_tcp_frame in Hl.
    cbn [tp_process quic_transporting].
    destruct (qc_streams c) as [|bytes streams] eqn:Hs'; [done|]. apply (inj Some) in Hs as ->.
    assert (length (EndpointMessage_to_bytes (EM_Handshake rp)) <= SIZE_LIMIT) as Hlim by (unfold SIZE_LIMIT; lia).
    eapply quic_process_log; [|done]. unfold quic_handshake. rewrite Hs'.
    rewrite Hread by exact Hlim. rewrite EndpointMessage_roundtrip by done. reflexivity.
  - intros env c msgs addr rp k w _.
    exists (add_event (Ev_socket (qc_id c) (EndpointMessage_to_bytes (EM_Handshake rp))) w).
    split; [done|]. split; [done|].
    cbn [tp_connect tp_process quic_transporting]. unfold quic_connect, dht_connect_to, connect_to, emit, new_endpoint_channel.
    cbn [negb]. rewrite run_assoc, run_modify, run_ret.
    rewrite run_assoc, (run_done _ _ _ _ _ (new_channel_run _)), run_ret.
    by rewrite run_assoc, (run_done _ _ _ _ _ (new_channel_run _)), run_ret.
  - intros. apply quic_process_extends.
Qed.

End Instances.

(** ** Two nodes *)

Section Established.
Context `{BitVecLib, CryptoLaws}.

(** The node lets the peer with the key of [rp], whose connection comes from
    [addr], in: it is not blocked, is not the node itself, has no relayed
    connection, and the table has room for it. *)
Definition admits (g : Global) (env : Env) (w : World) (addr : SocketAddr) (rp : RemotePublic)
    (stream_sender : EndpointSender) (draws : nat) : Prop :=
  let key_id := Keypair_peer_id (rp_key rp) in
  is_block_addr (w_peer_list w) addr = false /\ key_id <> peer_id_of g /\
  is_block_peer (w_peer_list w) key_id = false /\ is_relay (w_peer_list w) key_id = None /\
  peer_list_wf (w_peer_list w) /\
  (DoubleKadTree_add (pl_dhts (w_peer_list w)) (random_key env draws)
     (mkKadValue (mkSessionSender (w_channels w)) stream_sender (nat_peer addr (rp_peer rp)))).2 = true.

(** The server answers a node that it admits. *)
Lemma admitted_answers (g : Global) (env : Env) (rd : bool) (addr : SocketAddr) (rp : RemotePublic)
    (os ss : EndpointSender) (or : EndpointReceiver) (w : World) (k : SessionKey) :
  complete_session_key (g_key g) (random_session env (w_draws w)) (rp_key rp) (rp_dh rp) = Ok (Some k) ->
  endpoint_gone env ss = false -> admits g env w addr rp os (S (w_draws w)) ->
  exists w' s r l,
    handle_incoming g env rd (mkTransportRecv addr rp None os or ss) w = (Done (), w') /\
    w_log w' = w_log w ++ Ev_endpoint ss (EM_Handshake (remote_public g k)) :: l ++ [Ev_session_spawn s r] /\
    session_key s = k /\ remote_id s = peer_id (rp_peer rp) /\ s_endpoint s = Direct ss.
Proof.
  intros Hc Hgone (A1 & A2 & A3 & A4 & A5 & A6). set (m := mkTransportRecv addr rp None os or ss).
  pose proof (incoming_key_answered g env m w k eq_refl Hc) as Ek. cbn [tr_endpoint_sender m] in Ek. rewrite Hgone in Ek.
  destruct (incoming_accepted g env rd m w _ k A1 A2 A3 A4 Ek eq_refl A5 A6)
    as (w' & s & r & l & Hrun & _ & Hlog & Hk & Hp & He & _).
  exists w', s, r, l. split; [exact Hrun|]. cbn [w_log logged drawn] in Hlog. rewrite <- app_assoc in Hlog.
  split; [exact Hlog|]. split; [exact Hk|]. split; [|exact He]. unfold remote_id. by rewrite Hp.
Qed.

(** The server of the dialling side completes the key it dialled with. *)
Lemma admitted_dialled (g : Global) (env : Env) (rd : bool) (addr : SocketAddr) (rp : RemotePublic)
    (os ss : EndpointSender) (or : EndpointReceiver) (w : World) (k k' : SessionKey) :
  SessionKey_complete k (kp_pk (rp_key rp)) (rp_dh rp) = Ok (k', true) -> admits g env w addr rp os (w_draws w) ->
  exists w' s r l,
    handle_incoming g env rd (mkTransportRecv addr rp (Some k) os or ss) w = (Done (), w') /\
    w_log w' = w_log w ++ l ++ [Ev_session_spawn s r] /\
    session_key s = k' /\ remote_id s = peer_id (rp_peer rp) /\ s_endpoint s = Direct ss.
Proof.
  intros Hc (A1 & A2 & A3 & A4 & A5 & A6). set (m := mkTransportRecv addr rp (Some k) os or ss).
  pose proof (incoming_key_dialled g env m w k k' eq_refl Hc) as Ek.
  destruct (incoming_accepted g env rd m w _ k' A1 A2 A3 A4 Ek eq_refl A5 A6)
    as (w' & s & r & l & Hrun & _ & Hlog & Hk & Hp & He & _).
  exists w', s, r, l. split; [exact Hrun|]. split; [exact Hlog|]. split; [exact Hk|]. split; [|exact He].
  unfold remote_id. by rewrite Hp.
Qed.

Lemma own_handshake (g : Global) (k : SessionKey) :
  keypair_signs (g_key g) -> length (out_bytes k) = 108 -> handshake_sized (remote_public g k).
Proof. by intros (Hk & _ & Hp & _) Hd. Qed.

(** The steps in which two nodes get a connection over a transport. *)
Definition connection_steps `{!Transporting C} (g1 g2 : Global) (env1 env2 : Env) (rd1 rd2 : bool) (p : Peer)
    (ts : TransSender) (w1 w2 w3 : World) : Prop :=
  exists k1 k2 k3,
    let rp1 := remote_public g1 k1 in
    let rp2 := remote_public g2 k2 in
    let request := TS_Connect (peer_socket p) rp1 k1 in
    connect_peer g1 env1 p w1 = (Done (), logged [Ev_trans ts request] (drawn w1)) /\
    (forall c msgs w, tp_takes c (EM_Handshake rp1) -> exists l,
       w_log (tp_connect env1 c msgs request w).2 =
       w_log w ++ tp_written c (EM_Handshake rp1) :: l) /\
    (forall c addr os ss or msgs w, tp_carries c addr (EM_Handshake rp1) ->
       exists l, w_log (tp_process env2 c os msgs (OT_DHT ss or) None w).2 =
         w_log w ++ Ev_incoming (mkTransportRecv addr (remote_canonical rp1) None os or ss) :: l) /\
    (forall addr os ss or, endpoint_gone env2 ss = false ->
       admits g2 env2 w2 addr (remote_canonical rp1) os (S (w_draws w2)) ->
       exists w s r l,
         handle_incoming g2 env2 rd2 (mkTransportRecv addr (remote_canonical rp1) None os or ss) w2 = (Done (), w) /\
         w_log w = w_log w2 ++ Ev_endpoint ss (EM_Handshake rp2) :: l ++ [Ev_session_spawn s r] /\
         session_key s = k2 /\ remote_id s = peer_id (g_peer g1) /\ s_endpoint s = Direct ss) /\
    (forall c addr msgs w, tp_takes c (EM_Handshake rp1) -> tp_carries c addr (EM_Handshake rp2) -> exists l,
       w_log (tp_connect env1 c msgs request w).2 =
       w_log w ++ tp_written c (EM_Handshake rp1) ::
         Ev_incoming (mkTransportRecv addr (remote_canonical rp2) (Some k1) (mkEndpointSender (w_channels w + 1))
           (mkEndpointReceiver (w_channels w + 1)) (mkEndpointSender (w_channels w))) :: l) /\
    (forall addr os ss or, admits g1 env1 w3 addr (remote_canonical rp2) os (w_draws w3) ->
       exists w s r l,
         handle_incoming g1 env1 rd1 (mkTransportRecv addr (remote_canonical rp2) (Some k1) os or ss) w3 = (Done (), w) /\
         w_log w = w_log w3 ++ l ++ [Ev_session_spawn s r] /\
         session_key s = k3 /\ remote_id s = peer_id (g_peer g2) /\ s_endpoint s = Direct ss) /\
    keys_agree k3 k2.

Context (g1 g2 : Global) (env1 env2 : Env).
Context (Hkey1 : keypair_genuine (g_key g1)) (Hkey2 : keypair_genuine (g_key g2)).

(** Any transport with the laws of the interface takes these steps. *)
Lemma connection_steps_hold `{!Transporting C, !TransportLaws} (rd1 rd2 : bool) (p : Peer) (ts : TransSender)
    (w1 w2 w3 : World) :
  w_transports w1 !! peer_transport p = Some ts -> trans_gone env1 ts = false ->
  connection_steps g1 g2 env1 env2 rd1 rd2 p ts w1 w2 w3.
Proof.
  intros Ht Htg.
  pose proof (genuine_signs _ Hkey1) as Hsign1. pose proof (genuine_signs _ Hkey2) as Hsign2.
  destruct (handshake_completes (g_key g1) (g_key g2) (random_session env1 (w_draws w1))
    (random_session env2 (w_draws w2)) Hkey1 Hkey2)
    as (k1 & k2 & k3 & E1 & E2 & E3 & _ & _ & Ec & En1 & En2 & L1 & L2).
  pose proof (own_handshake g1 k1 Hsign1 L1) as Hf1. pose proof (own_handshake g2 k2 Hsign2 L2) as Hf2.
  exists k1, k2, k3. cbv zeta. split_and!.
  - destruct (generate_remote_run g1 env1 Hsign1 w1) as (k & Ek & Er). assert (k = k1) as -> by congruence.
    unfold connect_peer. rewrite (run_done _ _ _ _ _ Er). unfold ignore.
    by rewrite (trans_send_run g1 env1 _ _ (drawn w1) ts).
  - intros c msgs w Htk.
    destruct (tp_dials env1 c msgs (peer_socket p) (remote_public g1 k1) k1 w Htk) as (w' & _ & Hl & ->).
    edestruct tp_extends as [l ->]. exists l. cbn [w_log channel_made]. by rewrite Hl, <- app_assoc.
  - intros c addr os ss or msgs w Hc. by apply tp_announces.
  - intros addr os ss or Hgone Ha. by apply admitted_answers.
  - intros c addr msgs w Htk Hc.
    destruct (tp_dials env1 c msgs (peer_socket p) (remote_public g1 k1) k1 w Htk) as (w' & _ & Hl & ->).
    edestruct tp_announces as [l ->]; [exact Hf2|exact Hc|]. exists l. cbn [w_log channel_made].
    by rewrite Hl, <- app_assoc.
  - intros addr os ss or Ha. by apply admitted_dialled.
  - split; [done|congruence].
Qed.

(** C5: a connection is established, over TCP and over QUIC, between two nodes whose key
    pairs were generated by the program.  A node that is asked to connect to a peer, whose
    transport is started, gives the transport a request; the dial, when the socket takes
    it whole, writes its handshake; the listener of the peer, when that handshake arrives
    (over TCP with its length in one piece), announces the connection; the server there,
    when it admits the node, answers with its handshake and starts a session; the dialling
    side, when the answer arrives, announces the connection with the session key of the
    request, and its server, when it admits the peer, starts a session.  Each session names
    the other node as its remote, and the keys of the two sessions agree. *)
Theorem connection_established (rd1 rd2 : bool) (p : Peer) (ts : TransSender) (w1 w2 w3 : World) :
  w_transports w1 !! peer_transport p = Some ts -> trans_gone env1 ts = false ->
  (forall reads,
     connection_steps (Transporting0 := tcp_transporting reads) g1 g2 env1 env2 rd1 rd2 p ts w1 w2 w3) /\
  (forall read_to_end, reads_whole read_to_end ->
     connection_steps (Transporting0 := quic_transporting read_to_end) g1 g2 env1 env2 rd1 rd2 p ts w1 w2 w3).
Proof.
  intros Ht Htg. split.
  - intros reads. pose proof (tcp_transport_laws reads). by apply connection_steps_hold.
  - intros read_to_end Hread. pose proof (quic_transport_laws read_to_end Hread). by apply connection_steps_hold.
Qed.

End Established.

#[local] Existing Instance toy_bitvec.
#[local] Existing Instance toy_crypto.
#[local] Existing Instance toy_crypto_laws.

(** Two nodes that connect over TCP. *)
Lemma connection_established_witness :
  exists k1 k2 w2 s2 r2 l2 w3 s3 r3 l3,
    handle_incoming (toy_global x02) toy_env true
      (mkTransportRecv (toy_sock x01) (remote_canonical (remote_public (toy_global x01) k1)) None
         (mkEndpointSender 20) (mkEndpointReceiver 20) (mkEndpointSender 21)) toy_world = (Done (), w2) /\
    w_log w2 = Ev_endpoint (mkEndpointSender 21) (EM_Handshake (remote_public (toy_global x02) k2)) ::
               l2 ++ [Ev_session_spawn s2 r2] /\
    handle_incoming (toy_global x01) toy_env true
      (mkTransportRecv (toy_sock x02) (remote_canonical (remote_public (toy_global x02) k2)) (Some k1)
         (mkEndpointSender 30) (mkEndpointReceiver 30) (mkEndpointSender 31)) toy_world = (Done (), w3) /\
    w_log w3 = l3 ++ [Ev_session_spawn s3 r3] /\
    keys_agree (session_key s3) (session_key s2).
Proof.
  destruct (proj1 (connection_established (toy_global x01) (toy_global x02) toy_env toy_env
    (toy_keypair_genuine x01) (toy_keypair_genuine x02)
    true true (toy_peer x02) (mkTransSender 0) toy_world toy_world toy_world eq_refl eq_refl) 204)
    as (k1 & k2 & k3 & _ & _ & _ & H4 & _ & H6 & H7).
  destruct (H4 (toy_sock x01) (mkEndpointSender 20) (mkEndpointSender 21) (mkEndpointReceiver 20))
    as (w2 & s2 & r2 & l2 & E2 & L2 & K2 & _).
  - reflexivity.
  - split; [vm_compute; reflexivity|]. split; [intros E; vm_compute in E; discriminate E|].
    split; [vm_compute; reflexivity|]. split; [vm_compute; reflexivity|]. split; [exact toy_list_wf|].
    vm_compute. reflexivity.
  - destruct (H6 (toy_sock x02) (mkEndpointSender 30) (mkEndpointSender 31) (mkEndpointReceiver 30))
      as (w3 & s3 & r3 & l3 & E3 & L3 & K3 & _).
    + split; [vm_compute; reflexivity|]. split; [intros E; vm_compute in E; discriminate E|].
      split; [vm_compute; reflexivity|]. split; [vm_compute; reflexivity|]. split; [exact toy_list_wf|].
      vm_compute. reflexivity.
    + exists k1, k2, w2, s2, r2, l2, w3, s3, r3, l3. rewrite K2, K3.
      exact (conj E2 (conj L2 (conj E3 (conj L3 H7)))).
Defined.

(** ** What a dial that fails leaves behind *)

Section Failures.
Context `{BitVecLib, CryptoLib}.
Context (env : Env) (gone : bool).

(** C27: a stable connection that is not answered.  The session that asked for it is
    told [Close] when the dial fails; when a handshake arrives and the session is there, it
    is the first thing the session is told; but when the connection is made and what arrives first
    is not a handshake, or nothing does, the task ends and the session is told
    nothing, over TCP and over QUIC. *)
Theorem stable_dial_outcomes (read_to_end : nat -> list byte -> option (list byte)) (reads : nat)
    (es : EndpointSender) (er : EndpointReceiver) (addr : SocketAddr) (rp : RemotePublic)
    (msgs : list EndpointMessage) (w : World) :
  let request := TS_StableConnect es er addr rp in
  let closed := logged (if endpoint_gone env es then [] else [Ev_endpoint es EM_Close]) in
  tcp_connect env gone reads None msgs request w = (Done (), closed w) /\
  (forall c st, tcp_handshake reads (tc_stream c) = (None, st) ->
     tcp_connect env gone reads (Some c) msgs request w =
       (Done (), logged [Ev_socket (tc_id c) (tcp_write_handshake (tc_dial_write c) rp)] w)) /\
  (forall c a r st, tc_peer_addr c = Some a -> tcp_handshake reads (tc_stream c) = (Some r, st) ->
     endpoint_gone env es = false -> exists l,
     w_log (tcp_connect env gone reads (Some c) msgs request w).2 =
       w_log w ++ Ev_socket (tc_id c) (tcp_write_handshake (tc_dial_write c) rp) ::
         Ev_endpoint es (EM_Handshake r) :: l) /\
  (forall dial w' e, connect_to dial rp w = (Fail e, w') ->
     quic_connect env gone read_to_end dial msgs request w = (Done (), closed w')) /\
  (forall c st, quic_handshake read_to_end (qc_streams c) = (None, st) ->
     quic_connect env gone read_to_end (QD_connected c true true true) msgs request w =
       (Done (), logged [Ev_socket (qc_id c) (EndpointMessage_to_bytes (EM_Handshake rp))] w)) /\
  (forall c r st, quic_handshake read_to_end (qc_streams c) = (Some r, st) -> endpoint_gone env es = false ->
     exists l, w_log (quic_connect env gone read_to_end (QD_connected c true true true) msgs request w).2 =
       w_log w ++ Ev_socket (qc_id c) (EndpointMessage_to_bytes (EM_Handshake rp)) ::
         Ev_endpoint es (EM_Handshake r) :: l).
Proof.
  intros request closed. split_and!.
  - unfold tcp_connect. apply ignore_send_endpoint_run.
  - intros c st E. unfold tcp_connect, tcp_process_stream, emit, request. rewrite run_modify. unfold ignore. rewrite E.
    by destruct (tc_peer_addr c).
  - intros c a r st Ha E Hg. unfold tcp_connect, request, emit. rewrite run_modify.
    match goal with |- context [ignore ?m ?w0] => assert ((ignore m w0).2 = (m w0).2) as ->
      by (unfold ignore; by destruct (m w0) as [[]]) end.
    edestruct (tcp_process_log env gone reads c a r st es msgs OT_Stable None) as [l ->]; [done|done| |].
    + unfold announce, send_endpoint. by rewrite Hg.
    + eexists. cbn [w_log add_event]. rewrite <- app_assoc. reflexivity.
  - intros dial w' e E. unfold quic_connect, stable_connect_to, or_else, request. rewrite E. apply ignore_send_endpoint_run.
  - intros c st E. unfold quic_connect, stable_connect_to, or_else, request, connect_to, emit. cbn [negb].
    rewrite run_modify. unfold mret, M_ret, quic_process_stream. by rewrite E.
  - intros c r st E Hg. unfold quic_connect, stable_connect_to, or_else, request, connect_to, emit. cbn [negb].
    rewrite run_modify. unfold mret, M_ret.
    edestruct (quic_process_log read_to_end env gone c r st es msgs OT_Stable None) as [l ->]; [done| |].
    + unfold announce, send_endpoint. by rewrite Hg.
    + eexists. cbn [w_log add_event]. rewrite <- app_assoc. reflexivity.
Qed.

End Failures.

(** A connection whose socket takes all it is given. *)
Definition toy_conn (pieces : list (list byte)) : TcpConn :=
  mkTcpConn 3 (Some (toy_sock x02)) (mkStream pieces false) (toy_writes 0) toy_writes.

(** A TCP connection that ends before its handshake, and one that brings a [Data]
    message first: the session that waits is told nothing. *)
Lemma stable_dial_outcomes_witness :
  let request := TS_StableConnect (mkEndpointSender 5) (mkEndpointReceiver 6) (toy_sock x02) (toy_remote x02) in
  let dialled := logged [Ev_socket 3 (tcp_frame (EM_Handshake (toy_remote x02)))] toy_world in
  tcp_connect toy_env false 20 (Some (toy_conn [])) [] request toy_world = (Done (), dialled) /\
  tcp_connect toy_env false 20 (Some (toy_conn [tcp_frame (EM_Data [x41])])) [] request toy_world = (Done (), dialled).
Proof.
  intros request dialled.
  destruct (stable_dial_outcomes toy_env false toy_read_to_end 20 (mkEndpointSender 5) (mkEndpointReceiver 6)
    (toy_sock x02) (toy_remote x02) [] toy_world) as (_ & Hs & _).
  assert (tcp_write_handshake (toy_writes 0) (toy_remote x02) = tcp_frame (EM_Handshake (toy_remote x02))) as Ew
    by (vm_compute; reflexivity).
  assert (tcp_handshake 20 (mkStream [] false) = (None, mkStream [] false)) as E1 by reflexivity.
  assert (tcp_handshake 20 (mkStream [tcp_frame (EM_Data [x41])] false) = (None, mkStream [] false)) as E2
    by (vm_compute; reflexivity).
  unfold dialled. rewrite <- Ew.
  exact (conj (Hs (toy_conn []) _ E1) (Hs (toy_conn [tcp_frame (EM_Data [x41])]) _ E2)).
Defined.
