(* ===== verification/NodeProps.v ===== *)
(** * Runs of a node

    The node as a transition system: from what [start] leaves, any sequence of
    server events, turns of sessions, ends of sessions, stable connections and tasks
    of the transports.
    What the shared state satisfies in every state such a run reaches. *)

From S2P Require Import Prelude Net Types Keys Wire Kad KadMetric KadFacts KadTreeFacts KadTable KadMap Buffer PeerList Global Session Server Connect SessionFacts TaskInvariant SessionProps ServerProps.
From stdpp Require Import list_relations list relations.

(** ** The transition system *)

Section Runs.
Context `{BitVecLib, CryptoLib}.

Inductive node_step (g : Global) (env : Env) (recv_data : bool) (w : World) : World -> Prop :=
| node_server (e : ServerEvent) : node_step g env recv_data w (server_step g env recv_data e w).2
| node_session (s : Session) (f : FutureResult) :
    node_step g env recv_data w (forever_step g env f (s, w)).2.2
| node_session_end (s : Session) : node_step g env recv_data w (session_close g env true (s, w)).2.2
| node_direct (tid : u64) (delivery : list byte) (to : Peer) (answer : option EndpointMessage)
    (msg : option SessionMessage) (l : list FutureResult) :
    node_step g env recv_data w (direct_stable g env tid delivery to recv_data answer msg l w).2
| node_relay (tid : u64) (delivery : list byte) (to : Peer) (relay : SessionSender)
    (msg : option SessionMessage) (l : list FutureResult) :
    node_step g env recv_data w (relay_stable g env tid delivery to relay recv_data msg l w).2
| node_transport (t : TransportTask) : node_step g env recv_data w (transport_task env t w).2.

Definition node_reachable (config : Config) (st : Startup) (env : Env) (g : Global) (w : World) : Prop :=
  exists w0, server_start config st env = Done (g, w0) /\
             rtc (node_step g env (negb (cfg_only_stable_data config))) w0 w.

(** The random generator has not drawn a number twice in its first [n] draws. *)
Definition distinct_draws (env : Env) (n : nat) : Prop :=
  forall i j, i < n -> j < n -> random_key env i = random_key env j -> i = j.

(** ** Lemmas: invariants of runs *)

Lemma node_step_keeps (g : Global) (env : Env) (rd : bool) (I : World -> Prop) `{!WorldInvariant env I}
    (w w' : World) :
  node_step g env rd w w' -> I w -> I w'.
Proof.
  intros [e|s f|s|tid d to answer msg l|tid d to relay msg l|t] Hw.
  - by apply inv_server_step.
  - by apply (inv_forever_step g env I f (s, w)).
  - by apply (inv_session_close g env I true (s, w)).
  - by apply inv_direct_stable.
  - by apply inv_relay_stable.
  - by apply inv_transport_task.
Qed.

Lemma PeerList_load_ok (me : PeerId) (path : string) (file : option string) (allows : list Peer)
    (bp : list PeerId) (bi : list IpAddr) (pl : PeerList) :
  PeerList_load me path file allows bp bi = Ok pl ->
  pl_dhts pl = DoubleKadTree_new me unspecified_socket /\ pl_block_peers pl = bp /\ pl_block_ips pl = bi.
Proof.
  unfold PeerList_load. destruct file as [text|]; [|by intros [= <-]].
  destruct (load_lines _ _); cbn [mbind res_bind]; by intros [= <-].
Qed.

Lemma load_key_log (st : Startup) (path : string) (key : Keypair) (log : list Event) :
  load_key st path = Ok (key, log) -> Forall event_ok log.
Proof.
  unfold load_key. destruct (Keypair_from_db_bytes _); [by intros [= _ <-]| |done].
  destruct (st_write_key st); [|done]. intros [= _ <-]. by repeat constructor.
Qed.

(** What [start] leaves satisfies every invariant that its first world does. *)
Lemma server_start_keeps (config : Config) (st : Startup) (env : Env) (I : Global -> World -> Prop)
    (g : Global) (w : World) :
  (forall g, WorldInvariant env (I g)) ->
  (forall g pl t log,
     pl_dhts pl = DoubleKadTree_new (peer_id_of g) unspecified_socket ->
     pl_block_peers pl = cfg_block_peer_list config -> pl_block_ips pl = cfg_blocklist config ->
     startable t = true -> Forall event_ok log -> I g (mkWorld pl Buffer_init {[ t := mkTransSender 0 ]} 1 0 log)) ->
  server_start config st env = Done (g, w) -> I g w.
Proof.
  intros HI Hinit. unfold server_start. destruct (_ && _); [done|].
  destruct (load_key st _) as [[key log]|e|] eqn:Ek; [|done|done]. apply load_key_log in Ek.
  destruct (PeerList_load _ _ _ _ _ _) as [pl|e|] eqn:El; [|done|done].
  apply PeerList_load_ok in El as (Ed & Ep & Ei).
  assert (forall g0 w0, I g0 w0 ->
    match for_each (bootstrap pl) (connect_peer g0 env) w0 with
    | (Done _, w1) => Done (g0, w1)
    | (Fail e, _) => Fail e
    | (Crash, _) => Crash
    | (Hang, _) => Hang
    end = Done (g, w) -> I g w) as Hrun.
  { intros g0 w0 Hw0. pose proof (keeps_for_each _ (bootstrap pl) _ (inv_connect_peer g0 env (I g0)) w0 Hw0) as Hk.
    destruct (for_each (bootstrap pl) (connect_peer g0 env) w0) as [[a|e| |] w1]; try done.
    by intros [= <- <-]. }
  destruct (peer_transport (cfg_peer config)), (st_bound st) as [addr|]; try done; apply Hrun, Hinit; done.
Qed.

Lemma node_reachable_keeps (config : Config) (st : Startup) (env : Env) (I : Global -> World -> Prop)
    (g : Global) (w : World) :
  (forall g, WorldInvariant env (I g)) ->
  (forall g pl t log,
     pl_dhts pl = DoubleKadTree_new (peer_id_of g) unspecified_socket ->
     pl_block_peers pl = cfg_block_peer_list config -> pl_block_ips pl = cfg_blocklist config ->
     startable t = true -> Forall event_ok log -> I g (mkWorld pl Buffer_init {[ t := mkTransSender 0 ]} 1 0 log)) ->
  node_reachable config st env g w -> I g w.
Proof.
  intros HI Hinit (w0 & Hs & Hr). apply (server_start_keeps _ _ _ I) in Hs; [|done|done].
  induction Hr as [w|w1 w2 w3 Hstep _ IH]; [done|]. apply IH. by eapply node_step_keeps.
Qed.

(** ** Lemmas: the two invariants *)

(** The settings of the node: the block lists are those of the configuration and
    every started transport is one that can be started. *)
Definition settings_inv (config : Config) (w : World) : Prop :=
  pl_block_peers (w_peer_list w) = cfg_block_peer_list config /\
  pl_block_ips (w_peer_list w) = cfg_blocklist config /\
  (forall t, is_Some (w_transports w !! t) -> startable t = true).

#[global] Instance settings_inv_kept (config : Config) (env : Env) :
  WorldInvariant env (settings_inv config).
Proof.
  split; unfold settings_inv; try done.
  - intros t s w Ht (Hp & Hi & Hs). split_and!; [done|done|]. cbn. intros t' Ht'.
    destruct (decide (t' = t)) as [->|Hne]; [done|]. apply Hs. by rewrite lookup_insert_ne in Ht'.
  - intros pl w (_ & Ep & Ei) (Hp & Hi & Hs). cbn. rewrite Ep, Ei. done.
Qed.

(** The log: nothing in it is a [Stream]. *)
Definition log_inv (w : World) : Prop := Forall event_ok (w_log w).

#[global] Instance log_inv_kept (env : Env) : WorldInvariant env log_inv.
Proof.
  split; unfold log_inv; cbn; try done. intros e w He Hw. apply Forall_app. split; [done|]. by repeat constructor.
Qed.

Lemma node_reachable_log (config : Config) (st : Startup) (env : Env) (g : Global) (w : World) (m : ReceiveMessage) :
  node_reachable config st env g w -> Ev_out m ∈ w_log w -> event_ok (Ev_out m).
Proof.
  intros Hr Hin. apply (node_reachable_keeps _ _ _ (fun _ => log_inv)) in Hr.
  - unfold log_inv in Hr. rewrite Forall_forall in Hr. by apply Hr.
  - intros _. apply _.
  - intros _ pl t log _ _ _ _ Hl. done.
Qed.

(** The table of the node: consistent, around the node's own id, and keyed by
    numbers that were drawn. *)
Definition table_ok (me : PeerId) (env : Env) (n : nat) (d : DoubleKadTree) : Prop :=
  table_wf d /\ root_key (dk_peers d) = me /\
  (forall k, is_Some (dk_values d !! k) -> exists i, i < n /\ random_key env i = k).

Definition table_inv (env : Env) (g : Global) (w : World) : Prop :=
  distinct_draws env (w_draws w) -> table_ok (peer_id_of g) env (w_draws w) (pl_dhts (w_peer_list w)).

Lemma distinct_draws_le (env : Env) (n m : nat) : n <= m -> distinct_draws env m -> distinct_draws env n.
Proof. intros Hle Hd i j Hi Hj. apply Hd; lia. Qed.

Lemma table_ok_S (me : PeerId) (env : Env) (n : nat) (d : DoubleKadTree) :
  table_ok me env n d -> table_ok me env (S n) d.
Proof.
  intros (Hwf & Hr & Hk). split_and!; [done|done|]. intros k (i & Hi & Ei)%Hk. exists i. split; [lia|done].
Qed.

Lemma table_remove_root (d : DoubleKadTree) (key : PeerId) :
  root_key (dk_peers (DoubleKadTree_remove d key).1) = root_key (dk_peers d).
Proof.
  unfold DoubleKadTree_remove. assert (root_key (KadTree_remove (dk_peers d) key).1 = root_key (dk_peers d)) as E.
  { unfold KadTree_remove. repeat (case_match; simplify_eq/=; try done). }
  destruct (KadTree_remove (dk_peers d) key) as [peers [k|]]; [|done].
  destruct (dk_values d !! k); [|done]. by destruct (KadTree_remove (dk_ips d) _).
Qed.

Lemma table_ok_remove (me : PeerId) (env : Env) (n : nat) (d : DoubleKadTree) (key : PeerId) :
  table_ok me env n d -> table_ok me env n (DoubleKadTree_remove d key).1.
Proof.
  intros (Hwf & Hr & Hk). pose proof (table_remove_spec d key Hwf) as Hs.
  pose proof (table_remove_root d key) as Er. destruct (DoubleKadTree_remove d key) as [d' [kv|]];
    destruct Hs as (Hwf' & Hv); cbn [fst] in *; (split_and!; [done|congruence|]).
  - destruct Hv as (c & _ & _ & _ & Ev & _). rewrite Ev. intros k [v Hv]. apply Hk.
    apply lookup_delete_Some in Hv as [_ ?]. by exists v.
  - destruct Hv as (_ & Ev & _). by rewrite Ev.
Qed.

Lemma table_ok_add (me : PeerId) (env : Env) (n : nat) (d : DoubleKadTree) (v : KadValue) :
  distinct_draws env (S n) -> table_ok me env n d ->
  table_ok me env (S n) (DoubleKadTree_add d (random_key env n) v).1.
Proof.
  intros Hd (Hwf & Hr & Hk).
  assert (dk_values d !! random_key env n = None) as Hf.
  { apply eq_None_not_Some. intros (i & Hi & Ei)%Hk. apply Hd in Ei; lia. }
  pose proof (table_add_spec d (random_key env n) v Hwf Hf) as Hs.
  pose proof (table_add_root d (random_key env n) v) as Er.
  pose proof (table_add_values d (random_key env n) v) as Ev.
  destruct (DoubleKadTree_add d (random_key env n) v) as [d' ok]. destruct Hs as (Hwf' & _ & _ & Eq).
  cbn [fst snd] in *. split_and!; [done|congruence|]. intros k Hsome. destruct ok.
  - rewrite (Ev eq_refl) in Hsome. destruct (decide (k = random_key env n)) as [->|Hne]; [exists n; split; [lia|done]|].
    rewrite lookup_insert_ne, foldl_delete_lookup in Hsome by done. destruct (decide _); [by destruct Hsome|].
    destruct (Hk k Hsome) as (i & Hi & Ei). exists i. split; [lia|done].
  - rewrite (Eq eq_refl) in Hsome. destruct (Hk k Hsome) as (i & Hi & Ei). exists i. split; [lia|done].
Qed.

#[global] Instance table_inv_kept (env : Env) (g : Global) : WorldInvariant env (table_inv env g).
Proof.
  split; unfold table_inv; cbn; try done.
  - intros w Hw Hd. apply table_ok_S, Hw. by eapply distinct_draws_le; [|exact Hd]; lia.
  - intros pl w (Ed & _) Hw Hd. rewrite Ed. by apply Hw.
  - intros p w Hw Hd. by apply table_ok_remove, Hw.
  - intros v w Hw Hd. apply table_ok_add; [done|]. apply Hw. by eapply distinct_draws_le; [|exact Hd]; lia.
Qed.

(** ** Properties *)

(** C11: the table in every state of every run.  Whatever the events, the messages
    and the tasks since the start, as long as the random generator has not repeated
    a number, the table is consistent and is kept around the node's own id: each
    peer once, at most 1024 of them, as many values as peers, and a search is
    answered with the peer's own entry exactly when the peer is contained. *)
Theorem node_table_invariant (config : Config) (st : Startup) (env : Env) (g : Global) (w : World)
    (p : PeerId) :
  node_reachable config st env g w -> distinct_draws env (w_draws w) ->
  let d := pl_dhts (w_peer_list w) in
  table_wf d /\ root_key (dk_peers d) = peer_id_of g /\
  NoDup (dht_keys (w_peer_list w)) /\ length (dht_keys (w_peer_list w)) <= 1024 /\
  size (dk_values d) = length (dht_keys (w_peer_list w)) /\
  (DoubleKadTree_contains d p = true <->
   exists v, DoubleKadTree_search d p = Some (v, true) /\ peer_id (kv_peer v) = p).
Proof.
  intros Hr Hd. apply (node_reachable_keeps _ _ _ (table_inv env)) in Hr; [|apply _|].
  - destruct (Hr Hd) as (Hwf & Hroot & _). cbn zeta. unfold dht_keys.
    split_and!; [done|done| | |by apply table_size|].
    + unfold DoubleKadTree_keys. rewrite KadTree_keys_cells. by apply table_keys_nodup.
    + by apply tree_capacity, Hwf.
    + rewrite table_contains_search by done. pose proof (table_search_spec _ p Hwf) as Hs. split.
      * intros [v E]. exists v. rewrite E in Hs. by destruct Hs.
      * intros (v & E & _). by exists v.
  - intros g0 pl t log Ed _ _ _ _ _. cbn. rewrite Ed. split_and!; [apply table_new_wf|done|].
    intros k [v Hv]. cbn [DoubleKadTree_new dk_values] in Hv. by rewrite lookup_empty in Hv.
Qed.

(** C12: what the configuration blocks stays blocked.  In every state of every run
    a connection from a blocked address, of a blocked peer or of the node's own key
    is refused: its transport is told to close, and nothing else of the shared state
    changes. *)
Theorem node_blocks_for_ever (config : Config) (st : Startup) (env : Env) (g : Global) (w : World)
    (m : TransportRecvMessage) :
  node_reachable config st env g w -> endpoint_gone env (tr_endpoint_sender m) = false ->
  socket_ip (tr_addr m) ∈ cfg_blocklist config \/
  Keypair_peer_id (rp_key (tr_remote m)) ∈ cfg_block_peer_list config \/
  Keypair_peer_id (rp_key (tr_remote m)) = peer_id_of g ->
  handle_incoming g env (negb (cfg_only_stable_data config)) m w =
    (Done (), logged [Ev_endpoint (tr_endpoint_sender m) EM_Close] w).
Proof.
  intros Hr Hg Hb. apply (node_reachable_keeps _ _ _ (fun _ => settings_inv config)) in Hr as (Ep & Ei & _).
  - apply incoming_blocked_run; [done|]. unfold incoming_blocked, is_block_addr, is_block_peer.
    rewrite Ep, Ei, !bool_decide_eq_true. tauto.
  - intros ?. apply settings_inv_kept.
  - intros _ pl t log _ Hp Hi Ht _. split_and!; [done|done|]. cbn. intros t' [s Hs].
    by apply lookup_singleton_Some in Hs as [<- _].
Qed.


End Runs.

(** ** Witnesses *)

#[local] Existing Instance toy_bitvec.
#[local] Existing Instance toy_crypto.
#[local] Existing Instance toy_crypto_laws.

(** A configuration that blocks the address [x0d], and the node after it has
    accepted a connection. *)
Definition toy_blocking_config : Config :=
  Config_new "/data/" (toy_peer x00) [toy_peer x0e] [socket_ip (toy_sock x0d)] [] [] false false 0.

Definition toy_started : Global * World :=
  match server_start toy_blocking_config (toy_startup None) toy_env with
  | Done gw => gw
  | _ => (toy_global x00, toy_world)
  end.

Definition toy_running : World := (server_step toy_started.1 toy_env true (SE_Trans (toy_incoming x0a)) toy_started.2).2.

Lemma toy_running_reachable : node_reachable toy_blocking_config (toy_startup None) toy_env toy_started.1 toy_running.
Proof.
  exists toy_started.2. split; [vm_compute; reflexivity|].
  apply rtc_once. exact (node_server toy_started.1 toy_env true toy_started.2 (SE_Trans (toy_incoming x0a))).
Qed.

Lemma node_table_invariant_witness :
  dht_keys (w_peer_list toy_running) = [toy_id x0a] /\
  exists v, DoubleKadTree_search (pl_dhts (w_peer_list toy_running)) (toy_id x0a) = Some (v, true) /\
            peer_id (kv_peer v) = toy_id x0a.
Proof.
  split; [vm_compute; reflexivity|].
  assert (distinct_draws toy_env (w_draws toy_running)) as Hd.
  { assert (w_draws toy_running = 3) as -> by (vm_compute; reflexivity).
    intros i j Hi Hj E. destruct i as [|[|[|i]]], j as [|[|[|j]]]; try lia; try reflexivity;
      vm_compute in E; discriminate E. }
  destruct (node_table_invariant _ _ _ _ _ (toy_id x0a) toy_running_reachable Hd) as (_ & _ & _ & _ & _ & Hc).
  apply Hc. vm_compute. reflexivity.
Defined.

Lemma node_blocks_for_ever_witness :
  handle_incoming toy_started.1 toy_env true
    (mkTransportRecv (toy_sock x0d) (toy_remote x0a) None (mkEndpointSender 30) (mkEndpointReceiver 30)
       (mkEndpointSender 31)) toy_running =
  (Done (), logged [Ev_endpoint (mkEndpointSender 31) EM_Close] toy_running).
Proof.
  apply (node_blocks_for_ever toy_blocking_config (toy_startup None)); [exact toy_running_reachable|reflexivity|].
  left. simpl. left.
Defined.

