(* ===== verification/Gossip.v ===== *)
(** * What a node tells others

    The peers a node names to a peer that connects ([help_dht]) and the sessions a
    gossip reaches ([PeerList_all]), against one reference: the peers a node
    knows; and what follows when one of them has a transport that cannot be started. *)

From S2P Require Import Prelude Net Types Keys Wire Kad KadMetric KadFacts KadTreeFacts KadTable Buffer PeerList Global Session Server Connect SessionFacts TaskInvariant SessionProps ServerProps ConnectProps NodeProps.
From stdpp Require Import list_relations list.

(** ** Maps filled by a loop *)

Lemma foldl_ext {A B : Type} (f f' : B -> A -> B) (l l' : list A) (b b' : B) :
  (forall b a, f b a = f' b a) -> l = l' -> b = b' -> foldl f b l = foldl f' b' l'.
Proof. intros Hf -> ->. revert b'. induction l' as [|a l IH]; intros b'; [done|]. cbn [foldl]. by rewrite Hf. Qed.

Section Filling.
Context {A V : Type} (f : A -> option (PeerId * V)).

Definition fill (m : gmap PeerId V) (l : list A) : gmap PeerId V :=
  foldl (fun m x => match f x with Some (k, v) => <[k := v]> m | None => m end) m l.

Lemma fill_other (l : list A) (m : gmap PeerId V) (k : PeerId) :
  (forall x v, x ∈ l -> f x <> Some (k, v)) -> fill m l !! k = m !! k.
Proof.
  unfold fill. revert m. induction l as [|x l IH]; intros m Hl; [done|]. cbn [foldl].
  rewrite IH by (intros y v Hy; apply Hl; by right).
  destruct (f x) as [[k' v]|] eqn:E; [|done]. rewrite lookup_insert_ne; [done|].
  intros ->. by apply (Hl x v); [left|].
Qed.

(** Elements for the same key bring the same value. *)
Lemma fill_keeps (l : list A) (m : gmap PeerId V) (k : PeerId) (v : V) :
  m !! k = Some v -> (forall y v', y ∈ l -> f y = Some (k, v') -> v' = v) -> fill m l !! k = Some v.
Proof.
  unfold fill. revert m. induction l as [|y l IH]; intros m Hm Hu; [done|]. cbn [foldl].
  apply IH; [|intros z v' Hz; apply Hu; by right]. destruct (f y) as [[k' v']|] eqn:E; [|done].
  destruct (decide (k' = k)) as [->|Hk]; [|by rewrite lookup_insert_ne].
  rewrite lookup_insert_eq. f_equal. apply (Hu y); [by left|done].
Qed.

Lemma fill_one (l : list A) (m : gmap PeerId V) (k : PeerId) (v : V) (x : A) :
  x ∈ l -> f x = Some (k, v) -> (forall y v', y ∈ l -> f y = Some (k, v') -> v' = v) -> fill m l !! k = Some v.
Proof.
  intros (l1 & l2 & ->)%list_elem_of_split E Hu. unfold fill. rewrite foldl_app. cbn [foldl]. rewrite E.
  apply fill_keeps; [by rewrite lookup_insert_eq|]. intros y v' Hy. apply Hu. apply elem_of_app. right. by right.
Qed.

End Filling.

(** ** The peers a node knows *)

(** A stable connection, or an entry of the table. *)
Definition known `{BitVecLib} (pl : PeerList) (id : PeerId) : option KadValue :=
  match pl_stables pl !! id with
  | Some (v, _) => Some v
  | None => match DoubleKadTree_search (pl_dhts pl) id with Some (v, true) => Some v | _ => None end
  end.

Section Known.
Context `{BitVecLib}.

Lemma table_key_found (d : DoubleKadTree) (id : PeerId) :
  table_wf d -> id ∈ DoubleKadTree_keys d ->
  exists v, DoubleKadTree_search d id = Some (v, true) /\ peer_id (kv_peer v) = id.
Proof.
  intros Hwf Hin. pose proof (table_search_spec d id Hwf) as Hs.
  destruct (DoubleKadTree_search d id) as [[v [|]]|]; [by exists v; destruct Hs|by destruct Hs|done].
Qed.

Lemma table_found_key (d : DoubleKadTree) (id : PeerId) (v : KadValue) :
  table_wf d -> DoubleKadTree_search d id = Some (v, true) ->
  id ∈ DoubleKadTree_keys d /\ peer_id (kv_peer v) = id.
Proof. intros Hwf E. pose proof (table_search_spec d id Hwf) as Hs. rewrite E in Hs. tauto. Qed.

(** A map that is filled from the table and then from the stable connections. *)
Lemma fill_known {V : Type} (pl : PeerList) (keep : PeerId -> bool) (value : KadValue -> V)
    (from_table : PeerId -> option (PeerId * V)) (id : PeerId) :
  peer_list_wf pl ->
  (forall key v, key ∈ DoubleKadTree_keys (pl_dhts pl) -> DoubleKadTree_search (pl_dhts pl) key = Some (v, true) ->
     from_table key = if keep key then Some (key, value v) else None) ->
  fill (fun '(p, (v, _)) => if keep p then Some (p, value v) else None)
    (fill from_table ∅ (DoubleKadTree_keys (pl_dhts pl))) (map_to_list (pl_stables pl)) !! id =
  if keep id then value <$> known pl id else None.
Proof.
  intros Hwf Ht. unfold known. destruct (keep id) eqn:Hk.
  2: { rewrite !fill_other; [done| |].
    - intros key v Hin E. destruct (table_key_found _ _ Hwf Hin) as (v' & Es & _). rewrite (Ht key v' Hin Es) in E.
      destruct (keep key) eqn:E'; [|done]. injection E as -> _. congruence.
    - intros [p [v d]] v' _ E. destruct (keep p) eqn:E'; [|done]. injection E as -> _. congruence. }
  destruct (pl_stables pl !! id) as [[v d]|] eqn:Es.
  - apply (fill_one _ _ _ _ _ (id, (v, d))); [by apply elem_of_map_to_list|by rewrite Hk|].
    intros [p [v' d']] v'' Hin%elem_of_map_to_list E. destruct (keep p); [|done]. injection E as -> <-.
    rewrite Es in Hin. by injection Hin as <- _.
  - rewrite fill_other.
    2: { intros [p [v' d']] v'' Hin%elem_of_map_to_list E. destruct (keep p); [|done]. injection E as -> _. congruence. }
    destruct (decide (id ∈ DoubleKadTree_keys (pl_dhts pl))) as [Hin|Hin].
    + destruct (table_key_found _ _ Hwf Hin) as (v & E & _). rewrite E.
      apply (fill_one _ _ _ _ _ id); [done|by rewrite (Ht id v Hin E), Hk|].
      intros key v' Hin' E'. destruct (table_key_found _ _ Hwf Hin') as (v2 & E2 & _). rewrite (Ht key v2 Hin' E2) in E'.
      destruct (keep key); [|done]. injection E' as -> <-. congruence.
    + rewrite fill_other.
      * destruct (DoubleKadTree_search (pl_dhts pl) id) as [[v [|]]|] eqn:E; [|done..].
        by apply (table_found_key _ _ _ Hwf) in E as [? _].
      * intros key v' Hin' E'. destruct (table_key_found _ _ Hwf Hin') as (v2 & E2 & _). rewrite (Ht key v2 Hin' E2) in E'.
        destruct (keep key); [|done]. injection E' as -> _. done.
Qed.

(** The sessions of [all]. *)
Lemma PeerList_all_lookup (pl : PeerList) (id : PeerId) :
  peer_list_wf pl -> PeerList_all pl !! id = kv_session <$> known pl id.
Proof.
  intros Hwf.
  rewrite <- (fill_known pl (fun _ => true) kv_session
    (fun key => match dht_get pl key with Some (sender, _, _) => Some (key, sender) | None => None end) id Hwf).
  - unfold PeerList_all, fill. f_equal. apply foldl_ext; [by intros m [p [v d]]|done|].
    apply foldl_ext; [|done|done]. intros m key. by destruct (dht_get pl key) as [[[]]|].
  - intros key v _ E. unfold dht_get. by rewrite E.
Qed.

(** The map [help_dht] collects. *)
Lemma help_dht_map (pl : PeerList) (asker : PeerId) :
  peer_list_wf pl ->
  exists m : gmap PeerId Peer, help_dht pl asker = map snd (map_to_list m) /\
    forall id, m !! id = if negb (bool_decide (id = asker)) then kv_peer <$> known pl id else None.
Proof.
  intros Hwf.
  set (from_table := fun key => if bool_decide (key = asker) then None
    else match DoubleKadTree_search (pl_dhts pl) key with
         | Some (v, true) => Some (peer_id (kv_peer v), kv_peer v) | _ => None end).
  exists (fill (fun '(p, (v, _)) => if negb (bool_decide (p = asker)) then Some (p, kv_peer v) else None)
    (fill from_table ∅ (DoubleKadTree_keys (pl_dhts pl))) (map_to_list (pl_stables pl))).
  split.
  - unfold help_dht, fill. f_equal. f_equal. apply foldl_ext; [|done|].
    + intros m [p [v d]]. by destruct (bool_decide (p = asker)).
    + apply foldl_ext; [|done|done]. intros m key. unfold from_table. destruct (bool_decide (key = asker)); [done|].
      by destruct (DoubleKadTree_search (pl_dhts pl) key) as [[v [|]]|].
  - intros id. apply (fill_known pl (fun id => negb (bool_decide (id = asker))) kv_peer from_table id Hwf).
    intros key v _ E. unfold from_table. destruct (bool_decide (key = asker)); [done|]. rewrite E. cbn [negb].
    by rewrite (proj2 (table_found_key _ _ _ Hwf E)).
Qed.

Lemma elem_of_map_values {V : Type} (m : gmap PeerId V) (v : V) :
  v ∈ map snd (map_to_list m) <-> exists id, m !! id = Some v.
Proof.
  rewrite list_elem_of_fmap. split.
  - intros ([id v'] & -> & Hin%elem_of_map_to_list). by exists id.
  - intros [id E]. exists (id, v). split; [done|]. by apply elem_of_map_to_list.
Qed.

Lemma help_dht_elem (pl : PeerList) (asker : PeerId) (p : Peer) :
  peer_list_wf pl ->
  p ∈ help_dht pl asker <-> exists id v, id <> asker /\ known pl id = Some v /\ kv_peer v = p.
Proof.
  intros Hwf. destruct (help_dht_map pl asker Hwf) as (m & -> & Hm). rewrite elem_of_map_values. split.
  - intros [id E]. rewrite Hm in E. destruct (bool_decide_reflect (id = asker)) as [_|Hne]; [done|]. cbn [negb] in E.
    destruct (known pl id) as [v|] eqn:Ek; [|done]. exists id, v. split; [done|]. split; [done|]. by injection E.
  - intros (id & v & Hne & Ek & <-). exists id. rewrite Hm, bool_decide_false, Ek by done. done.
Qed.

(** C26: the help a node gives.  The peers it names to a peer that connects are
    exactly the peers it knows, from its stable connections and from its table, with
    the stable connection's record when both know one, without the asking peer. *)
Theorem help_dht_spec (pl : PeerList) (asker : PeerId) (p : Peer) :
  peer_list_wf pl ->
  p ∈ help_dht pl asker <-> exists id v, id <> asker /\ known pl id = Some v /\ kv_peer v = p.
Proof. apply help_dht_elem. Qed.

End Known.

(** A gossip reaches every peer the node knows, once: each stable connection's
    session and the session of each peer of the table that has no stable connection
    gets the data, without a number for feedback, and nothing else happens. *)
Theorem gossip_reaches_known `{BitVecLib, CryptoLib} (g : Global) (env : Env) (recv_data : bool) (data : list byte)
    (w : World) :
  (forall s, session_gone env s = false) -> peer_list_wf (w_peer_list w) ->
  exists sessions : gmap PeerId SessionSender,
    (forall id, sessions !! id = kv_session <$> known (w_peer_list w) id) /\
    handle_request g env recv_data (SD_Broadcast Gossip data) w =
      (Done (), logged (map (fun s => Ev_session s (SM_Data (to_uint 64 0) data)) (map snd (map_to_list sessions))) w).
Proof.
  intros Hs Hwf. exists (PeerList_all (w_peer_list w)). split; [intros id; by apply PeerList_all_lookup|].
  cbn [handle_request]. rewrite run_gets. by apply send_all_run.
Qed.

(** ** A transport that cannot be started *)

Section BadTransport.
Context `{BitVecLib, CryptoLib}.
Context (g : Global) (env : Env) (Hsign : keypair_signs (g_key g)).

(** Only transports that can be started are. *)
Definition unstarted (w : World) : Prop := forall t, startable t = false -> w_transports w !! t = None.

Definition same_list (pl : PeerList) (w : World) : Prop := w_peer_list w = pl /\ unstarted w.

Lemma keeps_same_list_connect (pl : PeerList) (p : Peer) :
  startable (peer_transport p) = true -> keeps (same_list pl) (connect_peer g env p).
Proof.
  intros Ht. assert (forall f : World -> World, (forall w, w_peer_list (f w) = w_peer_list w) ->
    (forall w, w_transports (f w) = w_transports w) -> keeps (same_list pl) (modify f)) as Hm.
  { intros f Hp Hf. apply keeps_modify. intros w [E Hu]. split; [by rewrite Hp|]. intros t. rewrite Hf. apply Hu. }
  unfold connect_peer, generate_remote, draw, trans_send, transports_start, new_channel, send_trans, emit.
  task; try by apply Hm.
  all: apply keeps_modify; intros w [E Hu]; (split; [done|]); intros t Hst; cbn [w_transports set_transports];
    (rewrite lookup_insert_ne; [by apply Hu|]); intros <-; congruence.
Qed.

Lemma trans_send_never_hangs (t : TransportType) (m : TransportSendMessage) (w : World) :
  (trans_send g env t m w).1 <> Hang.
Proof.
  assert (forall s w0, (send_trans env s m "Transport missing" w0).1 <> Hang) as Hs.
  { intros s w0. unfold send_trans. by destruct (trans_gone env s). }
  unfold trans_send. rewrite run_gets. destruct (w_transports w !! t) as [s|]; [apply Hs|].
  unfold transports_start. rewrite !run_assoc, (run_done _ _ _ _ _ (new_channel_run w)).
  match goal with |- context [peer_transport ?p] => destruct (peer_transport p) end; try done.
  1: unfold of_res; match goal with |- context [quic_starts env ?p] => destruct (quic_starts env p) end; try done.
  all: unfold emit; rewrite ?run_assoc, ?run_ret, ?run_assoc, run_modify, ?run_ret; unfold mbind, M_bind;
    match goal with |- context [send_trans env ?s ?m ?e ?w0] =>
      pose proof (Hs s w0); destruct (send_trans env s m e w0) as [[]] end; done.
Qed.

(** Connecting to a peer goes on, with the same peer list, or panics. *)
Lemma connect_peer_outcome (p : Peer) (w : World) :
  startable (peer_transport p) = true -> unstarted w ->
  (connect_peer g env p w).1 = Crash \/
  exists w', connect_peer g env p w = (Done (), w') /\ same_list (w_peer_list w) w'.
Proof.
  intros Ht Hu.
  pose proof (keeps_same_list_connect (w_peer_list w) p Ht w (conj eq_refl Hu)) as Hk.
  assert ((connect_peer g env p w).1 = Crash \/ (connect_peer g env p w).1 = Done ()) as Hf.
  { unfold connect_peer. destruct (generate_remote_run g env Hsign w) as (k & _ & Ek).
    rewrite (run_done _ _ _ _ _ Ek). unfold ignore.
    match goal with |- context [trans_send g env ?t ?m ?w0] =>
      pose proof (trans_send_never_hangs t m w0); destruct (trans_send g env t m w0) as [[[]|e| |] w'] end;
      [by right|by right|by left|done]. }
  destruct (connect_peer g env p w) as [o w']. destruct Hf as [E|E]; cbn [fst snd] in *; subst o; [by left|right].
  by exists w'.
Qed.

(** Connecting to a list of peers, one of which has such a transport. *)
Lemma connect_all_crash (l : list Peer) (wanted : PeerList -> Peer -> bool) (w : World) :
  unstarted w ->
  (exists p, p ∈ l /\ wanted (w_peer_list w) p = true /\ startable (peer_transport p) = false) ->
  (for_each l (fun p => pl ← gets w_peer_list; when (wanted pl p) (connect_peer g env p)) w).1 = Crash.
Proof.
  revert w. induction l as [|q l IH]; intros w Hu (p & Hin & Hw & Hp); [by apply elem_of_nil in Hin|].
  cbn [for_each]. rewrite run_assoc, run_gets. destruct (wanted (w_peer_list w) q) eqn:Eq; cbn [when].
  - destruct (startable (peer_transport q)) eqn:Es.
    + destruct (connect_peer_outcome q w Es Hu) as [E|(w' & E & Epl & Hu')].
      { unfold mbind, M_bind. destruct (connect_peer g env q w) as [o w']. cbn [fst] in E. by subst o. }
      rewrite (run_done _ _ _ _ _ E).
      apply IH; [done|]. apply elem_of_cons in Hin as [->|Hin]; [congruence|]. exists p. by rewrite Epl.
    + pose proof (connect_peer_crash g env w q Hsign Es (Hu _ Es)) as Hc. unfold mbind, M_bind.
      destruct (connect_peer g env q w) as [o w']. cbn [fst] in Hc. by subst o.
  - rewrite run_ret. apply IH; [done|]. apply elem_of_cons in Hin as [->|Hin]; [congruence|]. by exists p.
Qed.

(** The session's loop over the peers it is told of, on the shared state. *)
Lemma handle_dht_run (peers : list Peer) (s : Session) (w : World) :
  (handle_endpoint g env (EM_DHT peers) (s, w)).1 =
  (for_each peers (fun p =>
     pl ← gets w_peer_list;
     when (negb (bool_decide (peer_id p = my_id g)) && negb (PeerList_contains pl (peer_id p)))
       (connect_peer g env p)) w).1.
Proof.
  unfold handle_endpoint. rewrite run_self. revert w. induction peers as [|p peers IH]; intros w; [done|].
  cbn [for_each]. rewrite !run_assoc, run_shared, run_gets.
  destruct (negb (bool_decide (peer_id p = my_id g)) && negb (PeerList_contains (w_peer_list w) (peer_id p))); cbn [when].
  - unfold mbind, M_bind, world. destruct (connect_peer g env p w) as [[[]|e| |] w']; [apply IH|done..].
  - rewrite !run_ret. apply IH.
Qed.

(** A reboot after a peer with such a transport was admitted with a public address
    ends the server's loop with a panic. *)
Theorem reboot_panics (recv_data : bool) (w : World) (p : Peer) :
  unstarted w -> p ∈ bootstrap (w_peer_list w) -> startable (peer_transport p) = false ->
  (handle_request g env recv_data SD_NetworkReboot w).1 = Crash.
Proof.
  intros Hu Hin Hp. cbn [handle_request]. rewrite run_gets.
  pose proof (connect_all_crash (bootstrap (w_peer_list w)) (fun _ _ => true) w Hu) as Hc. cbn [when] in Hc.
  rewrite (for_each_ext _ _ (connect_peer g env)) in Hc; [by apply Hc; exists p|].
  by apply Forall_true.
Qed.

End BadTransport.

(** The key of an incoming connection can be completed. *)
Definition handshake_valid `{BitVecLib, CryptoLib} (g : Global) (env : Env) (m : TransportRecvMessage) (w : World)
    : Prop :=
  let '(mkRemotePublic key _ dh) := tr_remote m in
  match tr_is_self m with
  | Some k => exists k', SessionKey_complete k (kp_pk key) dh = Ok (k', true)
  | None => exists k, complete_session_key (g_key g) (random_session env (w_draws w)) key dh = Ok (Some k)
  end.

(** The draws of the random generator before the entry of the connection is made. *)
Definition draws_before (m : TransportRecvMessage) (n : nat) : nat :=
  match tr_is_self m with Some _ => n | None => S n end.

Lemma incoming_key_valid `{BitVecLib, CryptoLib} (g : Global) (env : Env) (m : TransportRecvMessage) (w : World) :
  handshake_valid g env m w ->
  exists k w1, incoming_key g env m w = (Done (Some k), w1) /\ w_peer_list w1 = w_peer_list w /\
    w_channels w1 = w_channels w /\ w_draws w1 = draws_before m (w_draws w).
Proof.
  unfold handshake_valid, draws_before. destruct (tr_remote m) as [key p dh] eqn:Er.
  destruct (tr_is_self m) as [k|] eqn:Es.
  - intros [k' E]. exists k', w. split; [|done]. apply (incoming_key_dialled g env m w k k' Es). by rewrite Er.
  - intros [k E]. do 2 eexists. split; [apply (incoming_key_answered g env m w k Es); by rewrite Er|done].
Qed.

(** C28: one peer with a transport that cannot be started takes down the sessions
    of others.  When a node knows such a peer (the record a remote sends of itself
    is stored as it is), it names it to every peer whose connection it accepts into its
    table, whether it answered or dialled it; the bytes of that message, of fewer than
    2^32 peers, decode without error; and the session of the peer that gets them, in a
    node that does not know the bad one, panics when it reads them. *)
Theorem bad_transport_spreads `{BitVecLib, CryptoLib} (g gC : Global) (env envC : Env) (recv_data : bool)
    (m : TransportRecvMessage) (w wC : World) (bad : PeerId) (v : KadValue) (sC : Session) :
  let asker := Keypair_peer_id (rp_key (tr_remote m)) in
  let w' := (handle_incoming g env recv_data m w).2 in
  handshake_valid g env m w -> endpoint_gone env (tr_endpoint_sender m) = false ->
  admits g env w (tr_addr m) (tr_remote m) (tr_stream_sender m) (draws_before m (w_draws w)) ->
  dk_values (pl_dhts (w_peer_list w)) !! random_key env (draws_before m (w_draws w)) = None ->
  known (w_peer_list w') bad = Some v -> bad <> asker ->
  startable (peer_transport (kv_peer v)) = false ->
  (Z.of_nat (length (help_dht (w_peer_list w') asker)) < 2 ^ 32)%Z ->
  keypair_signs (g_key gC) -> unstarted wC -> peer_id (kv_peer v) <> my_id gC ->
  PeerList_contains (w_peer_list wC) (peer_id (kv_peer v)) = false ->
  exists sent received,
    Ev_endpoint (tr_endpoint_sender m) sent ∈ w_log w' /\
    EndpointMessage_from_bytes (EndpointMessage_to_bytes sent) = Ok received /\
    (handle_endpoint gC envC received (sC, wC)).1 = Crash.
Proof.
  intros asker w' Hv Hgone (A1 & A2 & A3 & A4 & A5 & A6) Hfresh Hk Hbad Hst Hlen HsC Hu Hme Hcon.
  destruct (incoming_key_valid g env m w Hv) as (k & w1 & Ek & Epl & Ech & Edr). rewrite <- Edr in *.
  rewrite <- Ech in A6.
  destruct (incoming_accepted g env recv_data m w w1 k A1 A2 A3 A4 Ek Epl A5 A6)
    as (w2 & s & r & l & Hrun & _ & Hlog & _ & _ & _ & _ & Hpl & l0 & Hl).
  subst w'. rewrite Hrun in *. cbn [snd] in *. rewrite Hgone in Hl. fold asker in Hl.
  exists (EM_DHT (help_dht (w_peer_list w2) asker)), (EM_DHT (map peer_canonical (help_dht (w_peer_list w2) asker))).
  split; [rewrite Hlog, Hl, !elem_of_app; right; left; right; by left|].
  split; [by rewrite EndpointMessage_roundtrip|]. rewrite handle_dht_run.
  apply (connect_all_crash gC envC HsC _ (fun pl p => negb (bool_decide (peer_id p = my_id gC)) &&
    negb (PeerList_contains pl (peer_id p))) wC Hu).
  exists (peer_canonical (kv_peer v)). split.
  - apply list_elem_of_fmap_2. apply help_dht_elem; [rewrite Hpl; by apply add_dht_wf|]. by exists bad, v.
  - cbn [peer_canonical peer_id peer_transport]. rewrite bool_decide_false, Hcon by done. done.
Qed.

#[local] Existing Instance toy_bitvec.
#[local] Existing Instance toy_crypto.
#[local] Existing Instance toy_crypto_laws.

Lemma help_dht_spec_witness :
  toy_peer xff ∈ help_dht toy_list (toy_id x05).
Proof.
  apply (help_dht_spec toy_list (toy_id x05) (toy_peer xff) toy_list_wf).
  exists (toy_id xff), (toy_value xff). split; [intros E; vm_compute in E; discriminate E|].
  split; [vm_compute; reflexivity|reflexivity].
Defined.

Lemma gossip_reaches_known_witness :
  exists sessions : gmap PeerId SessionSender,
    (forall id, sessions !! id = kv_session <$> known toy_list id) /\
    handle_request (toy_global x01) toy_env true (SD_Broadcast Gossip [x41]) toy_world =
      (Done (), logged (map (fun s => Ev_session s (SM_Data (to_uint 64 0) [x41])) (map snd (map_to_list sessions))) toy_world).
Proof.
  apply (gossip_reaches_known (toy_global x01) toy_env true [x41] toy_world).
  - reflexivity.
  - exact toy_list_wf.
Defined.

(** A node that knows one peer, which says that it listens on RTP. *)
Definition toy_bad_value : KadValue := mkKadValue (mkSessionSender 40) (mkEndpointSender 41) toy_rtp_peer.
Definition toy_bad_table : DoubleKadTree :=
  (DoubleKadTree_add (DoubleKadTree_new (toy_id x00) (toy_sock x00)) (to_uint 32 7) toy_bad_value).1.
Definition toy_bad_world : World :=
  mkWorld (mkPeerList "peer_list" [] [] [] toy_bad_table ∅) Buffer_init {[ QUIC := mkTransSender 0 ]} 1000 0 [].

Lemma toy_bad_reachable : table_reachable (toy_id x00) (toy_sock x00) toy_bad_table.
Proof. apply table_reach_add; [constructor|vm_compute; reflexivity]. Qed.

Lemma bad_transport_spreads_witness :
  exists sent received,
    Ev_endpoint (mkEndpointSender 21) sent ∈
      w_log (handle_incoming (toy_global x01) toy_env true (toy_incoming x0b) toy_bad_world).2 /\
    EndpointMessage_from_bytes (EndpointMessage_to_bytes sent) = Ok received /\
    (handle_endpoint (toy_global x02) toy_env received (toy_session x02 true, toy_world)).1 = Crash.
Proof.
  apply (bad_transport_spreads (toy_global x01) (toy_global x02) toy_env toy_env true (toy_incoming x0b)
    toy_bad_world toy_world (toy_id x0a) toy_bad_value).
  - eexists. vm_compute. reflexivity.
  - reflexivity.
  - split; [vm_compute; reflexivity|]. split; [intros E; vm_compute in E; discriminate E|].
    split; [vm_compute; reflexivity|]. split; [vm_compute; reflexivity|].
    split; [exact (table_reachable_wf _ _ _ toy_bad_reachable)|vm_compute; reflexivity].
  - vm_compute. reflexivity.
  - vm_compute. reflexivity.
  - intros E. vm_compute in E. discriminate E.
  - reflexivity.
  - vm_compute. reflexivity.
  - apply toy_keypair_signs.
  - intros [] Ht; try discriminate Ht; vm_compute; reflexivity.
  - intros E. vm_compute in E. discriminate E.
  - vm_compute. reflexivity.
Defined.
