(* ===== verification/Timers.v ===== *)
(** * The timers of the loops (src/session.rs, src/server.rs)

    The loops of a session and of the server wait in a [select!] for the next
    message and for timers, and every turn starts the timers afresh.  Here the
    results of the [select!] have times, in milliseconds: which results a loop can
    get, given when messages arrive, and what follows for the heartbeat, the
    robust check and the clear timer.  A handler takes no time. *)

From S2P Require Import Prelude Net Types Keys Wire Kad KadMetric KadFacts KadTreeFacts KadTable Buffer PeerList Global Session Server SessionFacts SessionProps.
From stdpp Require Import list_relations list.

Local Open Scope Z_scope.

Section Timed.
Context {R : Type}.

(** [select!]: one of the branches that are ready first. *)
Definition select (branches : list (Z * R)) (b : Z * R) : Prop :=
  b ∈ branches /\ Forall (fun b' => b.1 <= b'.1) branches.

Context (timers : list (Z * R)).

(** The branches of a turn that starts at [now]: the next message, which may be
    waiting already, and the timers.  [arrivals] are the messages of the loop's
    channels in the order they are taken. *)
Definition branches (now : Z) (arrivals : list (Z * R)) : list (Z * R) :=
  match arrivals with [] => [] | (a, m) :: _ => [(Z.max now a, m)] end ++
  map (fun '(d, r) => (now + d, r)) timers.

(** The results the loop gets from [now] on, with their times. *)
Inductive timed_run : Z -> list (Z * R) -> list (Z * R) -> Prop :=
| tr_stop now arrivals : timed_run now arrivals []
| tr_message now a m arrivals trace :
    select (branches now ((a, m) :: arrivals)) (Z.max now a, m) ->
    timed_run (Z.max now a) arrivals trace ->
    timed_run now ((a, m) :: arrivals) ((Z.max now a, m) :: trace)
| tr_timer now arrivals d r trace :
    (d, r) ∈ timers -> select (branches now arrivals) (now + d, r) ->
    timed_run (now + d) arrivals trace ->
    timed_run now arrivals ((now + d, r) :: trace).

(** A timer is selected only when no timer is shorter and no message comes
    before it. *)
Lemma select_timer (now d : Z) (r : R) (arrivals : list (Z * R)) :
  select (branches now arrivals) (now + d, r) ->
  (forall d' r', (d', r') ∈ timers -> d <= d') /\
  match arrivals with [] => True | (a, _) :: _ => now + d <= Z.max now a end.
Proof.
  intros [_ Hall]. unfold branches in Hall. apply Forall_app in Hall as [Hm Ht]. split.
  - intros d' r' Hin. rewrite Forall_forall in Ht.
    specialize (Ht (now + d', r')). cbn [fst] in Ht.
    assert (now + d <= now + d'); [|lia]. apply Ht. apply list_elem_of_fmap. by exists (d', r').
  - destruct arrivals as [|[a m] arrivals]; [done|]. by apply Forall_cons in Hm as [Hm _].
Qed.

(** The results of a loop are messages, or timers that no other timer is shorter
    than. *)
Lemma timed_run_results (now : Z) (arrivals trace : list (Z * R)) :
  timed_run now arrivals trace ->
  Forall (fun b => b.2 ∈ map snd arrivals \/
    exists d, (d, b.2) ∈ timers /\ forall d' r', (d', r') ∈ timers -> d <= d') trace.
Proof.
  induction 1 as [now arrivals|now a m arrivals trace Hs _ IH|now arrivals d r trace Hin Hs _ IH]; [constructor| |].
  - constructor; [left; by left|]. eapply Forall_impl; [exact IH|]. cbn. intros b [?|?]; [left; by right|by right].
  - constructor; [|done]. right. exists d. split; [done|]. by eapply select_timer.
Qed.

(** Messages that come closer together than [gap]. *)
Fixpoint dense (gap now : Z) (arrivals : list (Z * R)) : Prop :=
  match arrivals with
  | [] => True
  | (a, _) :: arrivals => a < now + gap /\ dense gap (Z.max now a) arrivals
  end.

(** While messages come closer together than the shortest timer, no timer ends. *)
Lemma dense_run (gap now : Z) (arrivals trace : list (Z * R)) :
  0 < gap -> (forall d r, (d, r) ∈ timers -> gap <= d) -> dense gap now arrivals ->
  timed_run now arrivals trace -> (length trace <= length arrivals)%nat ->
  map snd trace = map snd (take (length trace) arrivals).
Proof.
  intros Hg Ht Hd Hr. revert Hd.
  induction Hr as [now arrivals|now a m arrivals trace Hs _ IH|now arrivals d r trace Hin Hs _ IH]; intros Hd Hl; [done| |].
  - destruct Hd as [_ Hd]. cbn [length map take snd] in *. f_equal. apply IH; [done|lia].
  - exfalso. apply select_timer in Hs as [_ Hs]. destruct arrivals as [|[a m] arrivals]; [cbn in Hl; lia|].
    destruct Hd as [Ha _]. specialize (Ht d r Hin). lia.
Qed.

(** A loop can always go on. *)
Lemma timed_run_exists (n : nat) (now : Z) (arrivals : list (Z * R)) :
  timers <> [] -> exists trace, length trace = n /\ timed_run now arrivals trace.
Proof.
  intros Hne. revert now arrivals. induction n as [|n IH]; intros now arrivals; [exists []; by repeat constructor|].
  assert (exists b, select (branches now arrivals) b) as [[t r] Hb].
  { assert (branches now arrivals <> []) as Hb.
    { unfold branches. destruct timers as [|[d r] l]; [done|]. by destruct arrivals as [|[]]. }
    clear IH. induction (branches now arrivals) as [|b l IHl]; [done|].
    destruct (decide (l = [])) as [->|Hl].
    - exists b. split; [by left|]. by repeat constructor.
    - destruct (IHl Hl) as (b' & Hin & Hall). destruct (Z.le_ge_cases b.1 b'.1) as [Hle|Hge].
      + exists b. split; [by left|]. constructor; [done|]. eapply Forall_impl; [exact Hall|]. cbn. lia.
      + exists b'. split; [by right|]. by constructor. }
  pose proof Hb as [Hin _]. unfold branches in Hin. apply elem_of_app in Hin as [Hin|Hin].
  - destruct arrivals as [|[a m] arrivals]; [by apply elem_of_nil in Hin|].
    apply list_elem_of_singleton in Hin as [= -> ->].
    destruct (IH (Z.max now a) arrivals) as (trace & Hlen & Hrun).
    exists ((Z.max now a, m) :: trace). split; [cbn; lia|]. by constructor.
  - apply list_elem_of_fmap in Hin as ([d r'] & [= -> ->] & Hin).
    destruct (IH (now + d) arrivals) as (trace & Hlen & Hrun).
    exists ((now + d, r') :: trace). split; [cbn; lia|]. by constructor.
Qed.

End Timed.

(** ** The two loops *)

(** [forever]: the heartbeat every two seconds, the robust check every sixty. *)
Definition session_timers : list (Z * FutureResult) := [(2000, FR_HeartBeat); (60000, FR_Robust)].

(** The first loop of [start]: the check and the clear timer. *)
Definition server_timers : list (Z * ServerEvent) := [(10000, SE_Check); (10000, SE_Clear)].

(** The robust check never runs.  Every turn of a session starts both timers
    again, so the sixty seconds of the robust check never pass before the two of the
    heartbeat: whatever arrives and when, the loop gets messages and heartbeats only. *)
Theorem session_robust_never_fires (now : Z) (arrivals trace : list (Z * FutureResult)) :
  FR_Robust ∉ map snd arrivals -> timed_run session_timers now arrivals trace ->
  FR_Robust ∉ map snd trace.
Proof.
  intros Ha Hr ([t r] & E & Hin)%list_elem_of_fmap. cbn [snd] in E. subst r.
  apply timed_run_results in Hr. rewrite Forall_forall in Hr.
  destruct (Hr _ Hin) as [?|(d & Hd & Hmin)]; [done|]. cbn [snd] in Hd.
  assert (d = 60000) as -> by (apply elem_of_cons in Hd as [[=]|[[= ->]|[]%elem_of_nil]%elem_of_cons]; done).
  specialize (Hmin 2000 FR_HeartBeat). unfold session_timers in Hmin. specialize (Hmin ltac:(by left)). lia.
Qed.

Lemma session_robust_never_fires_witness :
  timed_run session_timers 0 [(1000, FR_Endpoint EM_HoleConnect)]
    [(1000, FR_Endpoint EM_HoleConnect); (3000, FR_HeartBeat); (5000, FR_HeartBeat)] /\
  FR_Robust ∉ map snd [(1000, FR_Endpoint EM_HoleConnect); (3000, FR_HeartBeat); (5000, FR_HeartBeat)].
Proof.
  assert (timed_run session_timers 0 [(1000, FR_Endpoint EM_HoleConnect)]
    [(1000, FR_Endpoint EM_HoleConnect); (3000, FR_HeartBeat); (5000, FR_HeartBeat)]) as Hr.
  { apply (tr_message session_timers 0 1000).
    { split; [left|]. repeat constructor; cbn; lia. }
    apply (tr_timer session_timers 1000 [] 2000); [left| |].
    { split; [left|]. repeat constructor; cbn; lia. }
    apply (tr_timer session_timers 3000 [] 2000); [left| |constructor].
    split; [left|]. repeat constructor; cbn; lia. }
  split; [exact Hr|]. apply (session_robust_never_fires 0 [(1000, FR_Endpoint EM_HoleConnect)]); [|exact Hr].
  cbn. intros H%list_elem_of_singleton. discriminate H.
Defined.

(** C33: a busy loop starves its timers.  The loop of the server that takes connections
    gets, while connections arrive less than ten seconds apart, those connections and
    neither the check nor the clear timer.  A session gets, while messages arrive less than
    two seconds apart, from its node or from its transport, those messages and no
    heartbeat, the one result on which it sends a ping and counts it. *)
Theorem busy_loops_starve_timers (now : Z) :
  (forall (arrivals : list (Z * TransportRecvMessage)) (trace : list (Z * ServerEvent)),
     let events := map (fun '(t, m) => (t, SE_Trans m)) arrivals in
     dense 10000 now events -> timed_run server_timers now events trace ->
     (length trace <= length arrivals)%nat ->
     map snd trace = map (fun '(_, m) => SE_Trans m) (take (length trace) arrivals) /\
     (SE_Check ∉ map snd trace) /\ (SE_Clear ∉ map snd trace)) /\
  (forall (arrivals : list (Z * (SessionMessage + EndpointMessage)%type)) (trace : list (Z * FutureResult)),
     let result m := match m with inl m => FR_Out m | inr m => FR_Endpoint m end in
     let events := map (fun '(t, m) => (t, result m)) arrivals in
     dense 2000 now events -> timed_run session_timers now events trace ->
     (length trace <= length arrivals)%nat ->
     map snd trace = map (fun '(_, m) => result m) (take (length trace) arrivals) /\
     (FR_HeartBeat ∉ map snd trace)).
Proof.
  split.
  - intros arrivals trace events Hd Hr Hl.
    assert (map snd trace = map (fun '(_, m) => SE_Trans m) (take (length trace) arrivals)) as E.
    { rewrite (dense_run server_timers 10000 now events trace); try done; try lia.
      - unfold events. rewrite firstn_map, map_map. apply map_ext. by intros [].
      - intros d r [[= -> ->]|[[= -> ->]|[]%elem_of_nil]%elem_of_cons]%elem_of_cons; lia.
      - unfold events. by rewrite length_map. }
    rewrite E. split; [done|]. split; intros ([t m] & ? & _)%list_elem_of_fmap; done.
  - intros arrivals trace result events Hd Hr Hl.
    assert (map snd trace = map (fun '(_, m) => result m) (take (length trace) arrivals)) as E.
    { rewrite (dense_run session_timers 2000 now events trace); try done; try lia.
      - unfold events. rewrite firstn_map, map_map. apply map_ext. by intros [].
      - intros d r [[= -> ->]|[[= -> ->]|[]%elem_of_nil]%elem_of_cons]%elem_of_cons; lia.
      - unfold events. by rewrite length_map. }
    rewrite E. split; [done|]. intros ([t [m|m]] & ? & _)%list_elem_of_fmap; done.
Qed.

(** Two connections nine seconds apart, and the timer of ten seconds does not fire. *)
Definition toy_connection : TransportRecvMessage :=
  mkTransportRecv (toy_sock x01) (mkRemotePublic (toy_keypair x01) (toy_peer x01) []) None
    (mkEndpointSender 1) (mkEndpointReceiver 1) (mkEndpointSender 2).

Lemma busy_loops_starve_timers_witness :
  let m := toy_connection in
  exists trace, length trace = 2%nat /\
    timed_run server_timers 0 [(9000, SE_Trans m); (18000, SE_Trans m)] trace /\
    map snd trace = [SE_Trans m; SE_Trans m].
Proof.
  intros m. set (arrivals := [(9000, m); (18000, m)]).
  destruct (timed_run_exists server_timers 2 0 [(9000, SE_Trans m); (18000, SE_Trans m)]) as (trace & Hl & Hr);
    [discriminate|].
  exists trace. split; [exact Hl|]. split; [exact Hr|].
  destruct (proj1 (busy_loops_starve_timers 0) arrivals trace) as [E _];
    [split; [reflexivity|]; split; [reflexivity|exact I]|exact Hr|rewrite Hl; apply Nat.le_refl|].
  rewrite E, Hl. reflexivity.
Defined.

(** ** A silent remote *)

Section Silent.
Context `{BitVecLib, CryptoLib}.
Context (g : Global) (env : Env).

Lemma map_seq_const {A : Type} (x : A) (k n : nat) : map (fun _ => x) (seq k n) = replicate n x.
Proof. revert k. induction n as [|n IH]; intros k; cbn [seq map replicate]; [done|]. by rewrite IH. Qed.

(** Without messages a session gets a heartbeat every two seconds. *)
Lemma silent_run (now : Z) (trace : list (Z * FutureResult)) :
  timed_run session_timers now [] trace ->
  trace = map (fun i => (now + 2000 * Z.of_nat (S i), FR_HeartBeat)) (seq 0 (length trace)).
Proof.
  remember [] as arrivals eqn:E. intros Hr. revert E.
  induction Hr as [now arrivals|now a m arrivals trace Hs _ IH|now arrivals d r trace Hin Hs _ IH]; intros E; [done|done|].
  subst arrivals. apply select_timer in Hs as [Hs _]. specialize (Hs 2000 FR_HeartBeat ltac:(by left)).
  assert (d = 2000 /\ r = FR_HeartBeat) as [-> ->].
  { apply elem_of_cons in Hin as [[= -> ->]|[[= -> ->]|[]%elem_of_nil]%elem_of_cons]; [done|lia]. }
  rewrite (IH eq_refl) at 1. cbn [length seq map]. f_equal.
  rewrite <- seq_shift, map_map. apply map_ext. intros i. f_equal. lia.
Qed.

(** C21: a silent remote is given up after ten seconds.  A direct session that has
    just heard from its remote and gets no message any more gets a heartbeat every two
    seconds; at each of the first four it sends a ping, and nothing else, and counts it;
    the fifth, ten seconds after it started to wait, ends its loop with a timeout.  The
    timers always bring the loop to that beat: there are runs of every length. *)
Theorem session_silent_ends (s : Session) (w : World) (e : EndpointSender) (now : Z) :
  s_endpoint s = Direct e -> endpoint_gone env e = false -> uval (heartbeat s) = 0 ->
  (forall n, exists trace, length trace = n /\ timed_run session_timers now [] trace) /\
  (forall trace, timed_run session_timers now [] trace ->
     let beats := (length trace `min` 4)%nat in
     trace = map (fun i => (now + 2000 * (Z.of_nat i + 1), FR_HeartBeat)) (seq 0 (length trace)) /\
     forever g env (map snd trace) (s, w) =
       (if (length trace <? 5)%nat then Done () else Fail "timeout",
        (set_heartbeat (to_uint 32 (Z.of_nat beats)) s, logged (replicate beats (ping s e)) w)) /\
     (forall t r, trace !! 4%nat = Some (t, r) -> t = now + 10000)).
Proof.
  intros He Hg Hh. split; [intros n; by apply timed_run_exists|]. intros trace Hr.
  pose proof (silent_run now trace Hr) as E. set (n := length trace) in *. split_and!.
  - rewrite E at 1. apply map_ext. intros i. f_equal. lia.
  - assert (map snd trace = replicate n FR_HeartBeat) as ->.
    { rewrite E, map_map. cbn [snd]. apply (map_seq_const FR_HeartBeat). }
    destruct (Nat.ltb_spec n 5) as [Hn|Hn].
    + rewrite (heartbeats_run g env n s w e He Hg) by lia. rewrite Hh. by replace (n `min` 4)%nat with n by lia.
    + replace (n `min` 4)%nat with 4%nat by lia.
      replace n with (4 + S (n - 5))%nat by lia. rewrite replicate_add. cbn [replicate].
      pose proof (heartbeats_run g env 4 s w e He Hg) as Hrun. rewrite Hh in Hrun. specialize (Hrun ltac:(lia)).
      unfold forever in *. rewrite (for_each_app_done _ _ _ _ _ Hrun). cbn [for_each forever_step].
      erewrite run_failed; [done|]. apply handle_heartbeat_timeout. by vm_compute.
  - intros t r Ht. rewrite E in Ht. apply list_lookup_fmap_Some in Ht as (i & [= -> _] & Hi).
    apply lookup_seq in Hi as [-> _]. lia.
Qed.

End Silent.

#[local] Existing Instance toy_bitvec.
#[local] Existing Instance toy_crypto.

Lemma session_silent_ends_witness :
  exists trace, length trace = 6%nat /\ timed_run session_timers 0 [] trace /\
    forever (toy_global x01) toy_env (map snd trace) (toy_session x02 true, toy_world) =
      (Fail "timeout", (set_heartbeat (to_uint 32 4) (toy_session x02 true),
         logged (replicate 4 (ping (toy_session x02 true) (mkEndpointSender 3))) toy_world)).
Proof.
  destruct (session_silent_ends (toy_global x01) toy_env (toy_session x02 true) toy_world (mkEndpointSender 3)
    0 eq_refl eq_refl eq_refl) as [Hex Hrun].
  destruct (Hex 6%nat) as (trace & Hl & Hr). exists trace. split; [exact Hl|]. split; [exact Hr|].
  destruct (Hrun trace Hr) as (_ & E & _). rewrite E, Hl. reflexivity.
Defined.
