(* ===== verification/Apps.v ===== *)
(** * The library's entry point and the example programs (src/lib.rs, examples/)

    [prelude::start], and the four example programs as what they configure, what
    they ask of the node when they start, and what they answer to each message the
    node hands them.  What they print is left out and their arguments are given
    parsed.  A send to the node fails when the node has dropped its end of the
    channel, which can happen at any time: [chan] says for each send of a handler
    whether the channel is still open.  Some sends drop that error with [let _ =], the
    others panic on it with [expect] or [unwrap].  A program that panics gives
    [Panic]. *)

From S2P Require Import Prelude Net Types Keys Wire Kad KadMetric KadFacts KadTreeFacts KadTable Buffer PeerList Global Session Server Connect SessionFacts TaskInvariant SessionProps ServerProps NodeProps.
From stdpp Require Import list_relations list.

(** ** [prelude::start] *)

Section Library.
Context `{BitVecLib, CryptoLib}.

(** The id the application gets, with the node it talks to. *)
Definition prelude_start (config : Config) (st : Startup) (env : Env) : outcome (PeerId * (Global * World)) :=
  match server_start config st env with
  | Done (g, w) => Done (peer_id_of g, (g, w))
  | Fail e => Fail e
  | Crash => Crash
  | Hang => Hang
  end.

End Library.

(** ** The channel to the node *)

(** Whether the n-th send of a handler finds the channel open. *)
Definition Channel : Set := nat -> bool.

(** [let _ = send.send(m).await] *)
Definition send_dropped (chan : Channel) (n : nat) (m : SendMessage) : list SendMessage :=
  if chan n then [m] else [].

(** [send.send(m).await.unwrap()], and with [expect] *)
Definition send_unwrap (chan : Channel) (n : nat) (m : SendMessage) : res (list SendMessage) :=
  if chan n then Ok [m] else Panic.

(** ** examples/independent_p2p_relay.rs *)

Definition independent_config (self_addr : SocketAddr) : Config :=
  let config := Config_default (Peer_of_socket self_addr) in
  mkConfig "./" (cfg_peer config) (cfg_allowlist config) (cfg_blocklist config) (cfg_allow_peer_list config)
    (cfg_block_peer_list config) false true (cfg_delivery_length config).

Definition independent_begin (chan : Channel) (remote_addr : option SocketAddr) : res (list SendMessage) :=
  match remote_addr with Some a => send_unwrap chan 0 (SD_Connect (Peer_of_socket a)) | None => Ok [] end.

Definition independent_handle (chan : Channel) (m : ReceiveMessage) : res (list SendMessage) :=
  match m with
  | RM_StableConnect from _ | RM_ResultConnect from _ =>
      Ok (send_dropped chan 0 (SD_StableResult (to_uint 64 0) from false false []))
  | _ => Ok []
  end.

(** ** examples/permissioned.rs *)

Definition permissioned_config (self_addr : SocketAddr) : Config :=
  let config := Config_default (Peer_of_socket self_addr) in
  mkConfig (cfg_db_dir config) (cfg_peer config) (cfg_allowlist config) (cfg_blocklist config)
    (cfg_allow_peer_list config) (cfg_block_peer_list config) true (cfg_only_stable_data config)
    (cfg_delivery_length config).

Definition permissioned_begin (chan : Channel) (remote_addr : option SocketAddr) : res (list SendMessage) :=
  match remote_addr with Some a => send_unwrap chan 0 (SD_Connect (Peer_of_socket a)) | None => Ok [] end.

Definition permissioned_handle (chan : Channel) (m : ReceiveMessage) : res (list SendMessage) :=
  match m with
  | RM_StableConnect peer _ => send_unwrap chan 0 (SD_StableResult (to_uint 64 0) peer true false [x01])
  | RM_Stream _ _ _ => Panic
  | _ => Ok []
  end.

(** ** examples/permissionless.rs *)

Definition permissionless_config (self_addr : SocketAddr) (addr_str : string) : Config :=
  let config := Config_default (Peer_of_socket self_addr) in
  mkConfig addr_str (cfg_peer config) (cfg_allowlist config) (cfg_blocklist config) (cfg_allow_peer_list config)
    (cfg_block_peer_list config) false false (cfg_delivery_length config).

(** [mod_reduce]; [fuel] counts the rounds of its loop, [None] a loop still going. *)
Fixpoint mod_reduce (fuel : nat) (i : Z) : option byte :=
  match fuel with
  | O => None
  | S fuel => if (255 <? i)%Z then mod_reduce fuel (i - 255) else Some (byte_of_Z i)
  end.

Definition permissionless_bytes : option (list byte) :=
  mapM (fun i => mod_reduce (S (Z.to_nat (Z.of_nat i / 255))) (Z.of_nat i)) (seq 0 10).

(** [None]: the loop of [mod_reduce] is still going. *)
Definition permissionless_begin (chan : Channel) (remote_addr : option SocketAddr) : option (list SendMessage) :=
  match remote_addr with
  | Some a =>
      let connect := send_dropped chan 0 (SD_Connect (Peer_of_socket a)) in
      bytes ← permissionless_bytes;
      Some (connect ++ send_dropped chan 1 (SD_Broadcast Gossip bytes))
  | None => Some []
  end.

(** The fuel is enough for every number, and the loop gives the representative of it
    in 1 .. 255 modulo 255, except that zero stays zero. *)
Lemma mod_reduce_spec (i : Z) :
  (0 <= i)%Z ->
  mod_reduce (S (Z.to_nat (i / 255))) i = Some (byte_of_Z (if (i =? 0)%Z then 0 else (i - 1) mod 255 + 1)%Z).
Proof.
  intros Hi. remember (S (Z.to_nat (i / 255))) as fuel eqn:Hf.
  assert (Z.to_nat (i / 255) < fuel) as Hle by lia. clear Hf. revert i Hi Hle.
  induction fuel as [|fuel IH]; intros i Hi Hle; [lia|]. cbn [mod_reduce].
  destruct (Z.ltb_spec 255 i) as [Hlt|Hge].
  - rewrite IH by (Z.div_mod_to_equations; lia).
    destruct (Z.eqb_spec i 0), (Z.eqb_spec (i - 255) 0); try lia. do 3 f_equal.
    replace (i - 255 - 1)%Z with (i - 1 + -1 * 255)%Z by lia. by rewrite Z.mod_add.
  - destruct (Z.eqb_spec i 0) as [->|]; [done|]. rewrite Z.mod_small by lia. do 2 f_equal. lia.
Qed.

Definition nines : list byte := [x09; x09; x09; x09].

Definition permissionless_handle (chan : Channel) (me : PeerId) (m : ReceiveMessage) : res (list SendMessage) :=
  match m with
  | RM_Data _ bytes =>
      if negb (bool_decide (bytes = nines)) then Ok (send_dropped chan 0 (SD_Data (to_uint 64 9999) me nines))
      else Ok []
  | RM_Stream _ _ _ => Panic
  | RM_StableConnect from _ =>
      Ok (send_dropped chan 0 (SD_StableResult (to_uint 64 2) from true false [x03; x03; x03; x03]))
  | _ => Ok []
  end.

(** ** examples/relay.rs *)

Definition relay_config (self_addr : SocketAddr) (addr_str : string) : Config :=
  let config := Config_default (Peer_of_socket self_addr) in
  mkConfig addr_str (cfg_peer config) (cfg_allowlist config) (cfg_blocklist config) (cfg_allow_peer_list config)
    (cfg_block_peer_list config) false true (cfg_delivery_length config).

Definition relay_begin (chan : Channel) (remote_addr : option SocketAddr) (target : option PeerId)
    : list SendMessage :=
  match remote_addr with
  | None => []
  | Some a =>
      send_dropped chan 0 (SD_Connect (Peer_of_socket a)) ++
      match target with
      | Some id => send_dropped chan 1
          (SD_StableConnect (to_uint 64 1) (Peer_of_id id) (map (fun i => byte_of_Z (Z.of_nat i)) (seq 0 10)))
      | None => []
      end
  end.

(** The state is [first_data]. *)
Definition relay_handle (chan : Channel) (me : PeerId) (has_target : bool) (first_data : bool) (m : ReceiveMessage)
    : res (bool * list SendMessage) :=
  match m with
  | RM_Data peer_id bytes =>
      if first_data then
        echo ← send_unwrap chan 0 (SD_Data (to_uint 64 2) peer_id bytes);
        connect ← (if has_target
           then send_unwrap chan 1 (SD_Connect (Peer_of_socket
             (SockV4 (default ipv4_unspecified (arr_of_list 4 [x7f; x00; x00; x01])) (to_uint 16 7365))))
           else Ok []);
        Ok (false, echo ++ connect)
      else Ok (first_data, [])
  | RM_Stream _ _ _ => Panic
  | RM_StableConnect from _ =>
      Ok (first_data, send_dropped chan 0 (SD_StableResult (to_uint 64 3) from true false [x03; x03; x03; x03]))
  | RM_StableResult _ _ _ =>
      sent ← send_unwrap chan 0 (SD_Data (to_uint 64 4) me [x01; x02; x03; x04; x05]);
      Ok (first_data, sent)
  | _ => Ok (first_data, [])
  end.

(** ** When the programs panic *)

(** The messages on which a program sends to the node with [unwrap] or [expect]. *)
Definition permissioned_insists (m : ReceiveMessage) : bool :=
  match m with RM_StableConnect _ _ => true | _ => false end.

Definition relay_insists (first_data : bool) (m : ReceiveMessage) : bool :=
  match m with RM_Data _ _ => first_data | RM_StableResult _ _ _ => true | _ => false end.

Section Panics.
Context `{BitVecLib, CryptoLib}.

(** C32: when the example programs panic on what the node hands them.  All but one
    panic on a [Stream], and in every state of every run of a node nothing that it
    handed to the application is one.  So the independent relay and the permissionless
    program never panic on a message of their node, whether or not the node still
    takes their answers.  The other two never panic while the channel to the node is
    open; with the channel closed they panic exactly on the messages they insist on
    answering, the permissioned program on a stable connection, the relay program on
    its first data and on the result of a stable connection. *)
Theorem examples_never_panic (config : Config) (st : Startup) (env : Env) (g : Global) (w : World)
    (m : ReceiveMessage) (has_target first_data : bool) :
  node_reachable config st env g w -> Ev_out m ∈ w_log w ->
  (forall chan, no_panic (independent_handle chan m) /\ no_panic (permissionless_handle chan (peer_id_of g) m)) /\
  (forall chan, chan 0 = true -> chan 1 = true ->
     no_panic (permissioned_handle chan m) /\
     no_panic (relay_handle chan (peer_id_of g) has_target first_data m)) /\
  (forall chan, chan 0 = false ->
     (permissioned_handle chan m = Panic <-> permissioned_insists m = true) /\
     (relay_handle chan (peer_id_of g) has_target first_data m = Panic <-> relay_insists first_data m = true)).
Proof.
  intros Hr Hin. apply (node_reachable_log _ _ _ _ _ m Hr) in Hin. split_and!; intros chan.
  - destruct m; cbn [event_ok] in Hin; try done; cbn; split; by repeat case_match.
  - intros Hc0 Hc1. unfold permissioned_handle, relay_handle, send_unwrap. rewrite Hc0, Hc1.
    destruct m; cbn [event_ok] in Hin; try done; cbn; split; by repeat case_match.
  - intros Hc0. unfold permissioned_handle, relay_handle, send_unwrap. rewrite Hc0.
    destruct m; cbn [event_ok] in Hin; try done; cbn; split; by repeat case_match.
Qed.

End Panics.

#[local] Existing Instance toy_bitvec.
#[local] Existing Instance toy_crypto.

(** A node without peers that has told its application so. *)
Definition toy_lonely : World := (server_step toy_started.1 toy_env true SE_Check toy_started.2).2.

Lemma examples_never_panic_witness :
  Ev_out RM_NetworkLost ∈ w_log toy_lonely /\ no_panic (permissioned_handle (fun _ => true) RM_NetworkLost).
Proof.
  assert (Ev_out RM_NetworkLost ∈ w_log toy_lonely) as Hin.
  { assert (last (w_log toy_lonely) = Some (Ev_out RM_NetworkLost)) as E by (vm_compute; reflexivity).
    apply last_Some in E as [l ->]. apply elem_of_app. right. apply list_elem_of_singleton. reflexivity. }
  split; [exact Hin|].
  apply (examples_never_panic toy_blocking_config (toy_startup None) toy_env toy_started.1 toy_lonely
    RM_NetworkLost true true); [|exact Hin|reflexivity|reflexivity].
  exists toy_started.2. split; [vm_compute; reflexivity|].
  apply rtc_once. exact (node_server toy_started.1 toy_env true toy_started.2 SE_Check).
Defined.

(** ** A program and its node *)

Section Conversation.
Context `{BitVecLib, CryptoLib}.
Context (g : Global) (env : Env) (recv_data : bool) (chan : Channel).

Definition outs (l : list Event) : list ReceiveMessage :=
  omap (fun e => match e with Ev_out m => Some m | _ => None end) l.

(** One message of the node, the requests it makes the program send, and what the
    node hands back while it handles them. *)
Definition app_turn (handle : ReceiveMessage -> res (list SendMessage)) (m : ReceiveMessage)
    : M World (list ReceiveMessage) := fun w =>
  match handle m with
  | Ok requests =>
      let '(o, w') := for_each requests (handle_request g env recv_data) w in
      match o with
      | Done _ => (Done (outs (drop (length (w_log w)) (w_log w'))), w')
      | Fail e => (Fail e, w')
      | Crash => (Crash, w')
      | Hang => (Hang, w')
      end
  | Err e => (Fail e, w)
  | Panic => (Crash, w)
  end.

(** The program takes its messages in order; [None]: it is still talking after
    [turns] turns. *)
Fixpoint converse (turns : nat) (handle : ReceiveMessage -> res (list SendMessage)) (inbox : list ReceiveMessage)
    : M World (option nat) :=
  match inbox with
  | [] => mret (Some turns)
  | m :: inbox =>
      match turns with
      | O => mret None
      | S turns => l ← app_turn handle m; converse turns handle (inbox ++ l)
      end
  end.

(** The turns a message can lead to. *)
Definition weight (m : ReceiveMessage) : nat :=
  match m with
  | RM_Data _ bytes => if bool_decide (bytes = nines) then 1 else 3
  | RM_StableConnect _ _ => 2
  | _ => 1
  end.

Definition weights (l : list ReceiveMessage) : nat := sum_list_with weight l.

Definition no_stream (m : ReceiveMessage) : Prop := event_ok (Ev_out m).

(** Requests that end well and whose answers are light. *)
Definition answers (n : nat) (m : M World ()) : Prop := forall w,
  exists l w', m w = (Done (), w') /\ w_log w' = w_log w ++ l /\ weights (outs l) <= n /\ Forall no_stream (outs l).

Lemma answers_ret (n : nat) : answers n (mret ()).
Proof. intros w. exists [], w. rewrite app_nil_r. repeat split; [cbn; lia|constructor]. Qed.

Lemma answers_emit (n : nat) (e : Event) : event_ok e -> weights (outs [e]) <= n -> answers n (emit e).
Proof.
  intros He Hn w. exists [e]. eexists. split; [done|]. split; [done|]. split; [done|].
  destruct e; try constructor; [exact He|constructor].
Qed.

Lemma answers_ignore (n : nat) (b : bool) (e : Event) (x : string) :
  event_ok e -> weights (outs [e]) <= n -> answers n (ignore (if b then fail x else emit e)).
Proof. intros He Hn. destruct b; [apply answers_ret|by apply answers_emit]. Qed.

Lemma answers_gets {A} (n : nat) (f : World -> A) (k : A -> M World ()) :
  (forall a, answers n (k a)) -> answers n (gets f ≫= k).
Proof. intros Hk w. apply Hk. Qed.

Lemma answers_on_buffer {A} (n : nat) (f : Buffer -> Buffer * A) (k : A -> M World ()) :
  (forall a, answers n (k a)) -> answers n (on_buffer f ≫= k).
Proof. intros Hk w. rewrite (run_done _ _ _ _ _ (on_buffer_run _ _)). apply (Hk _ (set_buffer _ w)). Qed.

Ltac answers_step :=
  match goal with
  | |- answers _ (gets _ ≫= _) => apply answers_gets; intros ?
  | |- answers _ (on_buffer _ ≫= _) => apply answers_on_buffer; intros ?
  | |- answers _ (ignore (if _ then _ else _)) => apply answers_ignore
  | |- answers _ (mret _) => apply answers_ret
  | |- answers _ (emit _) => apply answers_emit
  | |- answers _ (if ?b then _ else _) => destruct b
  | |- answers _ (match ?x with _ => _ end) => destruct x
  | |- answers _ (let _ := _ in _) => cbv zeta
  | |- event_ok _ => exact Logic.I
  | |- weights _ <= _ => cbn; lia
  end.

(** The request of [permissionless] to itself, and its answer to a stable
    connection. *)
Lemma self_data_answers (bytes : list byte) :
  answers (1 + weight (RM_Data (peer_id_of g) bytes))
    (handle_request g env recv_data (SD_Data (to_uint 64 9999) (peer_id_of g) bytes)).
Proof.
  cbn [handle_request]. unfold handle_data. rewrite bool_decide_true by done. intros w.
  change (nonzero (to_uint 64 9999)) with true. cbn [when]. unfold out_send, ignore, fail, emit, modify.
  destruct (out_gone env).
  - exists [], w. rewrite app_nil_r. repeat split; [cbn; lia|constructor].
  - eexists _, _. split; [reflexivity|]. split; [cbn; by rewrite <- app_assoc|]. split; [cbn; lia|by repeat constructor].
Qed.

Lemma stable_result_answers (tid : u64) (to : Peer) (is_ok is_force : bool) (data : list byte) :
  answers 1 (handle_request g env recv_data (SD_StableResult tid to is_ok is_force data)).
Proof.
  cbn [handle_request]. unfold handle_stable_result, request_failure, spawn_stable, send_session, out_send, when.
  repeat answers_step.
Qed.

Lemma answers_dropped (n i : nat) (m : SendMessage) :
  answers n (handle_request g env recv_data m) ->
  answers n (for_each (send_dropped chan i m) (handle_request g env recv_data)).
Proof.
  intros Hm w. unfold send_dropped. destruct (chan i); [|apply answers_ret]. destruct (Hm w) as (l & w' & E & Hl & Hn). exists l, w'. cbn [for_each].
  by rewrite (run_done _ _ _ _ _ E).
Qed.

(** A turn makes what is left lighter. *)
Lemma permissionless_turn (m : ReceiveMessage) (w : World) :
  no_stream m ->
  exists l w', app_turn (permissionless_handle chan (peer_id_of g)) m w = (Done l, w') /\
    weights l < weight m /\ Forall no_stream l.
Proof.
  intros Hm. assert (exists requests n, permissionless_handle chan (peer_id_of g) m = Ok requests /\
    answers n (for_each requests (handle_request g env recv_data)) /\ n < weight m) as (rs & n & Eh & Ha & Hn).
  { destruct m as [p d|p ok d|p d|p|p d|sym t d|t tid ok d|]; cbn [permissionless_handle weight]; try done.
    all: try (eexists [], 0; split; [done|]; split; [apply answers_ret|lia]).
    - eexists _, 1. split; [done|]. split; [apply answers_dropped, stable_result_answers|lia].
    - destruct (bool_decide_reflect (d = nines)) as [E|E]; cbn [negb].
      + eexists [], 0. split; [done|]. split; [apply answers_ret|lia].
      + eexists _, 2. split; [done|]. split; [apply answers_dropped, (self_data_answers nines)|lia]. }
  destruct (Ha w) as (l & w' & E & Hl & Hw & Hs). exists (outs l), w'. unfold app_turn. rewrite Eh, E, Hl.
  rewrite drop_app_length. split; [done|]. split; [lia|done].
Qed.

(** The echo of [permissionless] comes to an end.  The program answers data with
    a message to itself, which the node hands back to it: whatever has been handed
    to the program, the conversation it has with its node about it ends, after at
    most three turns for every message. *)
Theorem permissionless_conversation_ends (inbox : list ReceiveMessage) (w : World) :
  Forall no_stream inbox ->
  exists unused w', converse (3 * length inbox) (permissionless_handle chan (peer_id_of g)) inbox w =
    (Done (Some unused), w').
Proof.
  intros Hs.
  assert (forall turns inbox w, Forall no_stream inbox -> weights inbox <= turns ->
    exists unused w', converse turns (permissionless_handle chan (peer_id_of g)) inbox w = (Done (Some unused), w')) as Hend.
  { clear. intros turns. induction turns as [|turns IH]; intros [|m inbox] w Hs Hw;
      try (by eexists _, _).
    - cbn in Hw. assert (0 < weight m) by (destruct m; cbn; repeat case_match; lia). lia.
    - apply Forall_cons in Hs as [Hm Hs]. destruct (permissionless_turn m w Hm) as (l & w1 & E & Hl & Hsl).
      cbn [converse]. rewrite (run_done _ _ _ _ _ E). apply IH; [by apply Forall_app|].
      unfold weights in *. rewrite sum_list_with_app. cbn [sum_list_with] in Hw. lia. }
  apply Hend; [done|]. induction inbox as [|m inbox IH]; [done|]. apply Forall_cons in Hs as [_ Hs].
  specialize (IH Hs). unfold weights in *. cbn [sum_list_with length].
  assert (weight m <= 3) by (destruct m; cbn; repeat case_match; lia). lia.
Qed.

End Conversation.

Lemma permissionless_conversation_ends_witness :
  exists unused w', converse (toy_global x01) toy_env true 6 (permissionless_handle (fun _ => true) (toy_id x01))
    [RM_Data (toy_id x02) [x41]; RM_NetworkLost] toy_world = (Done (Some unused), w').
Proof.
  apply (permissionless_conversation_ends (toy_global x01) toy_env true (fun _ => true) [RM_Data (toy_id x02) [x41]; RM_NetworkLost] toy_world).
  repeat constructor.
Defined.
