(* ===== verification/QuicConfig.v ===== *)
(** * Configuration and start of QUIC (src/transports/quic.rs)

    What [start] does before its tasks run: the configuration with its idle
    timeout, the self-signed certificate and the verifier that skips verification.
    The crates quinn, rustls and rcgen are the class [QuicLib], with what the code
    relies on in [QuicLaws].  A [Duration] is a number of nanoseconds. *)

From S2P Require Import Prelude Net Types Keys Wire Transport Kad Buffer PeerList Global Session Server Connect Timers.
From stdpp Require Import list_relations list.

Definition Duration : Set := Z.
Definition from_secs (secs : u64) : Duration := (uval secs * 1000000000)%Z.
Definition from_millis (millis : u64) : Duration := (uval millis * 1000000)%Z.

Class QuicLib : Type := {
  IdleTimeout : Type;
  TransportConfig : Type;
  SelfSigned : Type;
  ServerCrypto : Type;
  (** [quinn::IdleTimeout::try_from] *)
  IdleTimeout_try_from : Duration -> option IdleTimeout;
  (** [quinn::TransportConfig::default] and [TransportConfig::max_idle_timeout], which sets the idle timeout *)
  TransportConfig_default : TransportConfig;
  set_max_idle_timeout : option IdleTimeout -> TransportConfig -> TransportConfig;
  (** [rcgen::generate_simple_self_signed] and the two serializations *)
  generate_simple_self_signed : list string -> option SelfSigned;
  serialize_der : SelfSigned -> option (list byte);
  serialize_private_key_der : SelfSigned -> list byte;
  (** [rustls::ServerConfig::builder()...with_single_cert] *)
  with_single_cert : list (list byte) -> list byte -> option ServerCrypto
}.

(** Timeouts of less than [2^62] milliseconds are accepted. *)
Class QuicLaws `{QuicLib} : Prop := {
  idle_timeout_accepts (d : Duration) : (0 <= d < 2 ^ 62 * 1000000)%Z -> is_Some (IdleTimeout_try_from d)
}.

Section QuicConfig.
Context `{QuicLib}.

Definition DOMAIN : string := "chamomile.quic".

Definition DEFAULT_IDLE_TIMEOUT : Duration := from_secs (to_uint 64 5).

Record QuicConfig : Set := mkQuicConfig { idle_timeout : option Duration }.

Definition QuicConfig_default : QuicConfig := mkQuicConfig None.

Definition parse_millis (millis : string) : option Duration :=
  z ← from_str_radix 10 (2 ^ 64 - 1) millis;
  u ← uint_of_Z 64 z;
  Some (from_millis u).

(** What a verifier of server certificates is given: the certificate, the chain,
    the name and the other data of the connection. *)
Definition CertVerifier : Set := list byte -> list (list byte) -> string -> bool.

(** [SkipCertificateVerification::verify_server_cert] *)
Definition SkipCertificateVerification : CertVerifier := fun _ _ _ => true.

Record ClientConfig : Type := mkClientConfig {
  cc_roots : list (list byte);
  cc_verifier : CertVerifier;
  cc_transport : TransportConfig
}.

Record ServerConfig : Type := mkServerConfig {
  sc_crypto : ServerCrypto;
  sc_transport : TransportConfig
}.

Record InternalConfig : Type := mkInternalConfig {
  client : ClientConfig;
  server : ServerConfig
}.

Definition new_client_config (transport : TransportConfig) : ClientConfig :=
  mkClientConfig [] SkipCertificateVerification transport.

Definition generate_cert : res (list byte * list byte) :=
  cert ← ok_or "rcgen generate failure." (generate_simple_self_signed [DOMAIN]);
  cert_der ← ok_or "cert serialize failure." (serialize_der cert);
  let key_der := serialize_private_key_der cert in
  Ok (cert_der, key_der).

Definition new_server_config (transport : TransportConfig) : res ServerConfig :=
  '(cert, key) ← generate_cert;
  server_crypto ← ok_or "server config failure." (with_single_cert [cert] key);
  Ok (mkServerConfig server_crypto transport).

Definition try_from_config (config : QuicConfig) : res InternalConfig :=
  idle_timeout ← ok_or "rcgen generate failure."
    (IdleTimeout_try_from (default DEFAULT_IDLE_TIMEOUT (idle_timeout config)));
  let transport := set_max_idle_timeout (Some idle_timeout) TransportConfig_default in
  let client := new_client_config transport in
  server ← new_server_config transport;
  Ok (mkInternalConfig client server).

(** [quic::start]: [endpoint] is what [quinn::Endpoint::server] gives, an endpoint
    with what its [local_addr] gives. *)
Definition quic_start (endpoint : ServerConfig -> SocketAddr -> option (option SocketAddr))
    (bind_addr : SocketAddr) : res (SocketAddr * list StartedTask * InternalConfig) :=
  config ← match try_from_config QuicConfig_default with Ok config => Ok config | _ => Panic end;
  match endpoint (server config) bind_addr with
  | None => Err "endpoint"
  | Some None => Err "local_addr"
  | Some (Some addr) => Ok (addr, [Task_listen; Task_self_recv], config)
  end.

(** ** Lemmas *)

(** The certificate can be made and used. *)
Definition certificate_works : Prop :=
  exists cert der crypto, generate_simple_self_signed [DOMAIN] = Some cert /\ serialize_der cert = Some der /\
    with_single_cert [der] (serialize_private_key_der cert) = Some crypto.

Lemma new_server_config_ok (t : TransportConfig) :
  match new_server_config t with
  | Ok sc => certificate_works /\ sc_transport sc = t
  | Err _ => ~ certificate_works
  | Panic => False
  end.
Proof.
  unfold new_server_config, generate_cert, certificate_works.
  destruct (generate_simple_self_signed [DOMAIN]) as [cert|] eqn:E1; cbn [ok_or mbind res_bind]; [|by intros (?&?&?&?&_)].
  destruct (serialize_der cert) as [der|] eqn:E2; cbn [ok_or mbind res_bind];
    [|intros (?&?&?&[= <-]&E&_); congruence].
  destruct (with_single_cert [der] (serialize_private_key_der cert)) as [crypto|] eqn:E3; cbn [ok_or mbind res_bind].
  - split; [|done]. by exists cert, der, crypto.
  - intros (?&?&?&[= <-]&E&E'). rewrite E2 in E. injection E as <-. congruence.
Qed.

End QuicConfig.

Section QuicStart.
Context `{QuicLaws}.

Lemma default_idle_timeout_accepted : is_Some (IdleTimeout_try_from DEFAULT_IDLE_TIMEOUT).
Proof.
  apply idle_timeout_accepts. change DEFAULT_IDLE_TIMEOUT with 5000000000%Z. split; [done|].
  by vm_compute.
Qed.

(** C31: the start of QUIC.  It panics exactly when the self-signed certificate
    cannot be made or used.  Otherwise it fails exactly when the socket cannot be
    opened or its address not be read, with that error, and else gives the address of
    the socket and starts the two tasks, the one that listens and the one that
    answers the node.  Both the dialling and the listening side have quinn's default
    transport configuration with the idle timeout set to five seconds, which is longer
    than the two seconds between two heartbeats of a session. *)
Theorem quic_start_outcomes (endpoint : ServerConfig -> SocketAddr -> option (option SocketAddr))
    (bind_addr : SocketAddr) :
  (quic_start endpoint bind_addr = Panic <-> ~ certificate_works) /\
  (certificate_works -> exists config t,
     quic_start endpoint bind_addr =
       match endpoint (server config) bind_addr with
       | Some (Some addr) => Ok (addr, [Task_listen; Task_self_recv], config)
       | Some None => Err "local_addr"
       | None => Err "endpoint"
       end /\
     IdleTimeout_try_from DEFAULT_IDLE_TIMEOUT = Some t /\
     cc_transport (client config) = set_max_idle_timeout (Some t) TransportConfig_default /\
     sc_transport (server config) = set_max_idle_timeout (Some t) TransportConfig_default) /\
  Forall (fun '(ms, r) => r = FR_HeartBeat -> (ms * 1000000 < DEFAULT_IDLE_TIMEOUT)%Z) session_timers.
Proof.
  unfold quic_start, try_from_config, QuicConfig_default. cbn [idle_timeout default from_option id].
  destruct default_idle_timeout_accepted as [t Et]. rewrite Et. cbn [ok_or mbind res_bind].
  set (tr := set_max_idle_timeout (Some t) TransportConfig_default).
  pose proof (new_server_config_ok tr) as Hsc.
  destruct (new_server_config tr) as [sc|e|]; cbn [mbind res_bind]; [| |done].
  - destruct Hsc as [Hc Hsc]. split_and!; [|intros _|by repeat constructor].
    + cbn [server]. by destruct (endpoint sc bind_addr) as [[addr|]|].
    + exists (mkInternalConfig (new_client_config tr) sc), t. split_and!; [|done|done|done].
      cbn [server]. by destruct (endpoint sc bind_addr) as [[addr|]|].
  - split_and!; [by split|done|by repeat constructor].
Qed.

(** The idle timeout of the configuration: every number of 64 bits, printed in
    decimal, is read as that many milliseconds. *)
Lemma parse_millis_show (millis : u64) :
  parse_millis (show_dec (uval millis)) = Some (from_millis millis).
Proof.
  unfold parse_millis. rewrite from_str_radix_digits by (apply show_dec_nonempty || apply show_dec_digits).
  pose proof (uval_range millis) as Hr. change (Z.of_N 64) with 64%Z in Hr.
  rewrite parse_digits_show_dec by lia. cbn [mbind option_bind]. by rewrite uint_of_Z_uval.
Qed.

End QuicStart.

(** A library whose certificates work, and one that cannot make any. *)
Definition toy_quic (works : bool) : QuicLib := {|
  IdleTimeout := Z;
  TransportConfig := option Z;
  SelfSigned := list string;
  ServerCrypto := list (list byte);
  IdleTimeout_try_from d := if (d <? 2 ^ 62 * 1000000)%Z then Some d else None;
  TransportConfig_default := None;
  set_max_idle_timeout t _ := t;
  generate_simple_self_signed names := if works then Some names else None;
  serialize_der _ := Some [x30];
  serialize_private_key_der _ := [x31];
  with_single_cert certs _ := Some certs
|}.

Lemma toy_quic_laws (works : bool) : @QuicLaws (toy_quic works).
Proof.
  split. intros d [_ Hd]. cbn. rewrite (proj2 (Z.ltb_lt _ _) Hd). by eexists.
Qed.

Lemma quic_start_outcomes_witness :
  @quic_start (toy_quic false) (fun _ _ => None) unspecified_socket = Panic /\
  (exists config, @quic_start (toy_quic true) (fun _ a => Some (Some a)) unspecified_socket =
     Ok (unspecified_socket, [Task_listen; Task_self_recv], config) /\
     sc_transport (server config) = Some 5000000000%Z) /\
  @quic_start (toy_quic true) (fun _ _ => Some None) unspecified_socket = Err "local_addr".
Proof.
  assert (@certificate_works (toy_quic true)) as Hw by (eexists _, _, _; split; [|split]; reflexivity).
  split; [|split].
  - apply (@quic_start_outcomes (toy_quic false) (toy_quic_laws false)). intros (c & d & k & E & _). discriminate E.
  - destruct (proj1 (proj2 (@quic_start_outcomes (toy_quic true) (toy_quic_laws true) (fun _ a => Some (Some a))
      unspecified_socket)) Hw) as (config & t & E & Ht & _ & Hs).
    exists config. split; [exact E|]. injection Ht as <-. exact Hs.
  - destruct (proj1 (proj2 (@quic_start_outcomes (toy_quic true) (toy_quic_laws true) (fun _ _ => Some None)
      unspecified_socket)) Hw) as (config & t & E & _). exact E.
Defined.
