(* ===== verification/Udp.v ===== *)
(** * UDP messages (src/transports/udp.rs)

    How the UDP transport cuts a message into datagrams and puts the datagrams
    that arrive together again.  The file is not part of the build
    (src/transports.rs does not declare it) and names message types that
    src/transports.rs no longer has: the type of the messages the sending task
    receives is a parameter, with the address its [match] takes from a message.

    A [BTreeMap] is a list of bindings in the order of the keys; the socket is a
    parameter that says which calls of [send_to] fail. *)

From S2P Require Import Prelude Net Types Keys Wire Kad Buffer PeerList Global SessionFacts.
From stdpp Require Import list_relations list sorting.

Definition UDP_UINT : nat := 540.

(** ** Buffers *)

Abbreviation BTreeMap := (list (u32 * list byte)).

(** [BTreeMap::insert] *)
Fixpoint btree_insert (k : u32) (v : list byte) (m : BTreeMap) : BTreeMap :=
  match m with
  | [] => [(k, v)]
  | (k', v') :: m' =>
      if (uval k <? uval k')%Z then (k, v) :: m
      else if (uval k =? uval k')%Z then (k, v) :: m'
      else (k', v') :: btree_insert k v m'
  end.

(** Saved messages: the total size and the numbered parts, by message id. *)
Abbreviation Buffers := (gmap u32 (u32 * BTreeMap)).

Record UdpEndpoint : Type := mkUdpEndpoint { streams : gmap SocketAddr N }.

(** [UdpEndpoint::start]: whether the socket can be bound is an argument. *)
Definition UdpEndpoint_start (bound : bool) : res UdpEndpoint :=
  if bound then Ok (mkUdpEndpoint ∅) else Err "bind".

(** ** Sending *)

(** The loop that cuts a message; [fuel] counts its rounds. *)
Fixpoint split_loop (fuel : nat) (i : u32) (bytes : list byte) (new_buffer : BTreeMap) : option BTreeMap :=
  match fuel with
  | O => None
  | S fuel =>
      if length bytes <? UDP_UINT then Some (btree_insert i bytes new_buffer)
      else
        let next_bytes := drop UDP_UINT bytes in
        split_loop fuel (to_uint 32 (uval i + 1)) next_bytes
          (btree_insert i (take UDP_UINT bytes) new_buffer)
  end.

Definition split_message (bytes : list byte) : option BTreeMap :=
  split_loop (S (length bytes)) (to_uint 32 1) bytes [].

Definition head_datagram (buffer_key total_size : u32) : list byte :=
  to_be_bytes buffer_key ++ replicate 4 x00 ++ to_be_bytes total_size.

(** The array has room for [UDP_UINT] bytes; a longer slice panics. *)
Definition part_datagram (buffer_key : u32) (part : u32 * list byte) : res (list byte) :=
  let '(k, v) := part in
  if length v <=? UDP_UINT then Ok (to_be_bytes buffer_key ++ to_be_bytes k ++ v) else Panic.

Definition tail_datagram (buffer_key : u32) : list byte :=
  to_be_bytes buffer_key ++ replicate 4 xff.

Record UdpSender : Type := mkUdpSender {
  send_buffers : Buffers;
  sent : list (SocketAddr * list byte)
}.

Section Sender.

(** The messages of the task, the address a message names ([None]: the arm that
    ends the task), the numbers drawn, and the calls of [send_to] that succeed. *)
Context {Message : Type} (peer_of : Message -> option SocketAddr).
Context (next_u32 : nat -> u32) (send_ok : nat -> bool).

Definition send_to (peer : SocketAddr) (bytes : list byte) : M UdpSender () :=
  n ← gets (fun s => length (sent s));
  if send_ok n then modify (fun s => mkUdpSender (send_buffers s) (sent s ++ [(peer, bytes)]))
  else fail "send_to".

Definition send_message (peer : SocketAddr) (buffer_key : u32) (bytes : list byte) : M UdpSender () :=
  let total_size := to_uint 32 (Z.of_nat (length bytes)) in
  match split_message bytes with
  | None => hang
  | Some new_buffer =>
      modify (fun s => mkUdpSender (<[buffer_key := (total_size, new_buffer)]> (send_buffers s)) (sent s)) ;;
      send_tasks ← gets (fun s => send_buffers s !! buffer_key);
      send_tasks ← of_res (unwrap send_tasks);
      send_to peer (head_datagram buffer_key (fst send_tasks)) ;;
      for_each (snd send_tasks) (fun part =>
        bytes ← of_res (part_datagram buffer_key part);
        send_to peer bytes) ;;
      send_to peer (tail_datagram buffer_key)
  end.

(** The task: every message is sent as the one byte [1]. *)
Fixpoint run_self_recv (draws : nat) (recv : list Message) : M UdpSender () :=
  match recv with
  | [] => mret ()
  | m :: recv =>
      match peer_of m with
      | None => mret ()
      | Some peer => send_message peer (next_u32 draws) [x01] ;; run_self_recv (S draws) recv
      end
  end.

End Sender.

(** ** Receiving *)

Record UdpListener : Type := mkUdpListener {
  recv_buffers : Buffers;
  recv_buf : list byte;
  delivered : list (N * list byte)
}.

Definition set_recv_buffers (b : Buffers) (s : UdpListener) : UdpListener :=
  mkUdpListener b (recv_buf s) (delivered s).

(** [socket.recv_from(&mut buf)]: the datagram overwrites the front of the
    buffer, what does not fit is lost. *)
Definition recv_from (datagram : list byte) : M UdpListener nat :=
  buf ← gets recv_buf;
  modify (fun s => mkUdpListener (recv_buffers s)
    (take (length buf) datagram ++ drop (length datagram) buf) (delivered s)) ;;
  mret (Nat.min (length datagram) (length buf)).

Definition bytes_to_u32 (buf : list byte) : res u32 := read_be 32 buf.

Section Listener.
Context (endpoint : UdpEndpoint).

(** The three kinds of datagrams of one message id. *)
Definition start_id (id : u32) : M UdpListener () :=
  buf ← gets recv_buf;
  if length buf <? 12 then mret ()
  else
    size ← of_res (slice 8 12 buf);
    total_size ← of_res (bytes_to_u32 size);
    modify (fun s => set_recv_buffers
      (match recv_buffers s !! id with
       | Some (_, body) => <[id := (total_size, body)]> (recv_buffers s)
       | None => <[id := (total_size, [])]> (recv_buffers s)
       end) s).

Definition end_id (id : u32) (peer : SocketAddr) : M UdpListener () :=
  buffers ← gets recv_buffers;
  match buffers !! id with
  | Some (_, body) =>
      modify (set_recv_buffers (delete id buffers)) ;;
      let data := concat (map snd body) in
      match streams endpoint !! peer with
      | Some sender =>
          modify (fun s => mkUdpListener (recv_buffers s) (recv_buf s) (delivered s ++ [(sender, data)]))
      | None => mret ()
      end
  | None => mret ()
  end.

Definition save_part (id : u32) (n : nat) : M UdpListener () :=
  buf ← gets recv_buf;
  no ← of_res (slice 4 8 buf ≫= bytes_to_u32);
  part ← of_res (slice 8 n buf);
  modify (fun s => set_recv_buffers
    (match recv_buffers s !! id with
     | Some (size, body) => <[id := (size, btree_insert no part body)]> (recv_buffers s)
     | None => <[id := (to_uint 32 0, btree_insert no part [])]> (recv_buffers s)
     end) s).

(** The body of the loop. *)
Definition handle_datagram (peer : SocketAddr) (datagram : list byte) : M UdpListener () :=
  n ← recv_from datagram;
  buf ← gets recv_buf;
  if length buf <? 8 then mret ()
  else
    id ← of_res (slice 0 4 buf ≫= bytes_to_u32);
    kind ← of_res (slice 4 8 buf);
    if bool_decide (kind = replicate 4 x00) then start_id id
    else if bool_decide (kind = replicate 4 xff) then end_id id peer
    else save_part id n.

(** The loop, over the datagrams that arrive until the socket fails. *)
Definition run_listen (datagrams : list (SocketAddr * list byte)) : M UdpListener () :=
  for_each datagrams (fun '(peer, datagram) => handle_datagram peer datagram).

End Listener.

Definition UdpListener_init : UdpListener := mkUdpListener ∅ (replicate (8 + UDP_UINT) x00) [].

(** ** Ordered maps *)

Definition key_lt (p q : u32 * list byte) : Prop := (uval p.1 < uval q.1)%Z.

Abbreviation ordered := (StronglySorted key_lt).

#[global] Instance key_lt_antisymm : AntiSymm (=) key_lt.
Proof. intros p q H1 H2. unfold key_lt in *. lia. Qed.

Lemma ordered_NoDup (m : BTreeMap) : ordered m -> NoDup m.
Proof.
  induction 1 as [|p m Hm IH Hp]; constructor; [|done]. intros Hin.
  rewrite Forall_forall in Hp. specialize (Hp p Hin). unfold key_lt in Hp. lia.
Qed.

(** An ordered map is determined by its bindings. *)
Lemma ordered_ext (m1 m2 : BTreeMap) :
  ordered m1 -> ordered m2 -> (forall p, p ∈ m1 <-> p ∈ m2) -> m1 = m2.
Proof.
  intros H1 H2 Heq. apply (StronglySorted_unique key_lt); [done|done|].
  apply NoDup_Permutation; [by apply ordered_NoDup|by apply ordered_NoDup|done].
Qed.

Lemma elem_of_btree_insert (k : u32) (v : list byte) (m : BTreeMap) (p : u32 * list byte) :
  ordered m -> p ∈ btree_insert k v m <-> p = (k, v) \/ p.1 <> k /\ p ∈ m.
Proof.
  induction 1 as [|[k' v'] m Hm IH Hp]; cbn [btree_insert].
  { rewrite list_elem_of_singleton, elem_of_nil. tauto. }
  assert (forall q, q ∈ m -> uval q.1 <> uval k -> q.1 <> k) as Hk by (intros q _ Hne E; by rewrite E in Hne).
  rewrite Forall_forall in Hp. unfold key_lt in Hp. cbn [fst] in Hp.
  destruct (Z.ltb_spec (uval k) (uval k')) as [Hlt|Hge];
    [|destruct (Z.eqb_spec (uval k) (uval k')) as [E%uint_eq|Hne]].
  - rewrite !elem_of_cons. split; [|tauto]. intros [->|[->|Hin]]; [by left| |].
    + right. split; [|by left]. intros E%(f_equal uval). simpl in E. lia.
    + right. split; [|by right]. apply Hk; [done|]. specialize (Hp p Hin). lia.
  - subst k'. rewrite !elem_of_cons. split; [|intros [?|[? [->|?]]]; [by left|done|by right]].
    intros [->|Hin]; [by left|]. right. split; [|by right]. apply Hk; [done|]. specialize (Hp p Hin). lia.
  - rewrite !elem_of_cons, IH. split; [|tauto]. intros [->|[->|[? ?]]]; [|by left|tauto].
    right. split; [|by left]. intros E%(f_equal uval). simpl in E. lia.
Qed.

Lemma btree_insert_ordered (k : u32) (v : list byte) (m : BTreeMap) :
  ordered m -> ordered (btree_insert k v m).
Proof.
  induction 1 as [|[k' v'] m Hm IH Hp]; cbn [btree_insert]; [by repeat constructor|].
  destruct (Z.ltb_spec (uval k) (uval k')) as [Hlt|Hge];
    [|destruct (Z.eqb_spec (uval k) (uval k')) as [E%uint_eq|Hne]].
  - constructor; [by constructor|]. constructor; [done|]. eapply Forall_impl; [exact Hp|].
    unfold key_lt. simpl. lia.
  - subst k'. by constructor.
  - constructor; [done|]. rewrite Forall_forall in Hp |- *. intros q [->|[_ Hq]]%elem_of_btree_insert; [|by apply Hp|done].
    unfold key_lt. simpl. lia.
Qed.

(** Appending at the end. *)
Lemma btree_insert_last (k : u32) (v : list byte) (m : BTreeMap) :
  Forall (fun p => uval p.1 < uval k)%Z m -> btree_insert k v m = m ++ [(k, v)].
Proof.
  induction 1 as [|[k' v'] m Hp _ IH]; [done|]. cbn [btree_insert app fst] in *.
  rewrite (proj2 (Z.ltb_ge _ _)), (proj2 (Z.eqb_neq _ _)) by lia. by rewrite IH.
Qed.

(** ** Cutting a message *)

(** Part [i] of a message, counted from zero, and the parts of a message. *)
Definition part (bytes : list byte) (i : nat) : u32 * list byte :=
  (to_uint 32 (Z.of_nat (S i)), take UDP_UINT (drop (UDP_UINT * i) bytes)).

Definition part_count (bytes : list byte) : nat := length bytes / UDP_UINT + 1.

Definition parts (bytes : list byte) : BTreeMap := map (part bytes) (seq 0 (part_count bytes)).

Lemma part_number (bytes : list byte) (i : nat) :
  (Z.of_nat (S i) < 2 ^ 32)%Z -> uval (part bytes i).1 = Z.of_nat (S i).
Proof. intros Hi. apply to_uint_small. change (Z.of_N 32) with 32%Z. lia. Qed.

Lemma split_loop_parts (fuel i : nat) (bytes : list byte) :
  (Z.of_nat (part_count bytes) < 2 ^ 32)%Z ->
  i <= length bytes / UDP_UINT -> length bytes < UDP_UINT * i + fuel ->
  split_loop fuel (to_uint 32 (Z.of_nat (S i))) (drop (UDP_UINT * i) bytes) (map (part bytes) (seq 0 i)) =
  Some (parts bytes).
Proof.
  intros Hc. unfold part_count in Hc. revert i. induction fuel as [|fuel IH]; intros i Hi Hf.
  { pose proof (Nat.Div0.mul_div_le (length bytes) UDP_UINT). unfold UDP_UINT in *. nia. }
  cbn [split_loop].
  assert (forall v, btree_insert (to_uint 32 (Z.of_nat (S i))) v (map (part bytes) (seq 0 i)) =
    map (part bytes) (seq 0 i) ++ [(to_uint 32 (Z.of_nat (S i)), v)]) as Hins.
  { intros v. apply btree_insert_last, Forall_forall. intros p Hp%list_elem_of_fmap.
    destruct Hp as (j & -> & Hj%elem_of_seq). rewrite part_number by lia.
    rewrite to_uint_small by (change (Z.of_N 32) with 32%Z; lia). lia. }
  pose proof (Nat.div_mod (length bytes) UDP_UINT ltac:(done)) as Hdm.
  pose proof (Nat.mod_upper_bound (length bytes) UDP_UINT ltac:(done)) as Hub.
  rewrite length_drop, Hins. destruct (Nat.ltb_spec (length bytes - UDP_UINT * i) UDP_UINT) as [Hlt|Hge].
  - assert (i = length bytes / UDP_UINT) as -> by (unfold UDP_UINT in *; nia).
    unfold parts, part_count. rewrite seq_app, map_app. cbn [seq map Nat.add]. f_equal. f_equal.
    unfold part. by rewrite (take_ge (drop _ _)) by (rewrite length_drop; lia).
  - rewrite Hins, drop_drop, to_uint_small by (change (Z.of_N 32) with 32%Z; lia).
    replace (UDP_UINT * i + UDP_UINT) with (UDP_UINT * S i) by lia.
    replace (Z.of_nat (S i) + 1)%Z with (Z.of_nat (S (S i))) by lia.
    assert (map (part bytes) (seq 0 i) ++ [(to_uint 32 (Z.of_nat (S i)), take UDP_UINT (drop (UDP_UINT * i) bytes))] =
      map (part bytes) (seq 0 (S i))) as -> by (by rewrite seq_S, map_app).
    apply IH; unfold UDP_UINT in *; nia.
Qed.

Lemma concat_parts_upto (bytes : list byte) (n : nat) :
  concat (map snd (map (part bytes) (seq 0 n))) = take (UDP_UINT * n) bytes.
Proof.
  induction n as [|n IH]; [by rewrite Nat.mul_0_r, take_0|].
  rewrite seq_S, !map_app, concat_app, IH. cbn [map concat Nat.add snd part].
  rewrite app_nil_r. replace (UDP_UINT * S n) with (UDP_UINT * n + UDP_UINT) by lia.
  apply take_take_drop.
Qed.

Lemma concat_parts (bytes : list byte) : concat (map snd (parts bytes)) = bytes.
Proof.
  unfold parts. rewrite concat_parts_upto. apply take_ge. unfold part_count.
  pose proof (Nat.div_mod (length bytes) UDP_UINT ltac:(done)).
  pose proof (Nat.mod_upper_bound (length bytes) UDP_UINT ltac:(done)). lia.
Qed.

Lemma split_message_parts (bytes : list byte) :
  (Z.of_nat (part_count bytes) < 2 ^ 32)%Z -> split_message bytes = Some (parts bytes).
Proof.
  intros Hc. unfold split_message. rewrite <- (split_loop_parts (S (length bytes)) 0 bytes Hc) by lia.
  by rewrite Nat.mul_0_r, drop_0.
Qed.

(** Cutting a message.  The loop of the sending task ends on every message,
    and its buffer is the direct description of it: part [i + 1] is the bytes
    from [540 * i] on, 540 of them except for the last part, which is shorter and
    may be empty; the parts put together are the message.  The part counter must
    not wrap. *)
Theorem udp_split_reference (bytes : list byte) :
  (Z.of_nat (length bytes / UDP_UINT + 1) < 2 ^ 32)%Z ->
  split_message bytes = Some (parts bytes) /\ concat (map snd (parts bytes)) = bytes.
Proof.
  intros Hc. split; [by apply split_message_parts|apply concat_parts].
Qed.

Lemma udp_split_reference_witness :
  split_message (replicate 1080 x41) =
    Some [(to_uint 32 1, replicate 540 x41); (to_uint 32 2, replicate 540 x41); (to_uint 32 3, [])].
Proof.
  transitivity (Some (parts (replicate 1080 x41))).
  - apply udp_split_reference. vm_compute. reflexivity.
  - vm_compute. reflexivity.
Defined.

(** ** One datagram *)

(** A datagram of at least eight bytes: an id, a number and a payload. *)
Definition numbered (id no : u32) (payload : list byte) : list byte :=
  to_be_bytes id ++ to_be_bytes no ++ payload.

Definition part_bytes (id : u32) (p : u32 * list byte) : list byte := numbered id p.1 p.2.

Lemma numbered_form (d : list byte) :
  8 <= length d -> exists id no payload, d = numbered id no payload.
Proof.
  intros Hd. destruct (read_be_ok 32 (take 4 d)) as (id & _ & Hid); [done|by rewrite length_take_le by lia|].
  destruct (read_be_ok 32 (take 4 (drop 4 d))) as (no & _ & Hno);
    [done|by rewrite length_take_le by (rewrite length_drop; lia)|].
  exists id, no, (drop 8 d). unfold numbered. rewrite Hid, Hno.
  change (drop 8 d) with (drop (4 + 4) d). by rewrite <- drop_drop, !take_drop.
Qed.

Lemma to_be_bytes_inj (a b : u32) : to_be_bytes a = to_be_bytes b -> a = b.
Proof.
  intros E. pose proof (read_be_to_be a eq_refl) as Ha. rewrite E, read_be_to_be in Ha by done. congruence.
Qed.

Lemma numbered_inj (i1 i2 n1 n2 : u32) (p1 p2 : list byte) :
  numbered i1 n1 p1 = numbered i2 n2 p2 -> i1 = i2 /\ n1 = n2 /\ p1 = p2.
Proof.
  unfold numbered. intros [E1 E2]%app_inj_1; [|by rewrite !length_to_be_bytes].
  apply app_inj_1 in E2 as [E2 E3]; [|by rewrite !length_to_be_bytes].
  by apply to_be_bytes_inj in E1, E2.
Qed.

Lemma length_numbered (id no : u32) (payload : list byte) :
  length (numbered id no payload) = 8 + length payload.
Proof. unfold numbered. by rewrite !length_app, !length_to_be_bytes. Qed.

Lemma head_numbered (key size : u32) :
  head_datagram key size = numbered key (to_uint 32 0) (to_be_bytes size).
Proof. done. Qed.

Lemma tail_numbered (key : u32) : tail_datagram key = numbered key (to_uint 32 (2 ^ 32 - 1)) [].
Proof. unfold tail_datagram, numbered. by rewrite app_nil_r. Qed.

(** A number that is neither the head's nor the tail's. *)
Definition part_no (no : u32) : Prop := no <> to_uint 32 0 /\ no <> to_uint 32 (2 ^ 32 - 1).

Section OneDatagram.
Context (endpoint : UdpEndpoint).

Definition refilled (d : list byte) (s : UdpListener) : UdpListener :=
  mkUdpListener (recv_buffers s) (d ++ drop (length d) (recv_buf s)) (delivered s).

Lemma length_refilled (d : list byte) (s : UdpListener) :
  length d <= length (recv_buf s) -> length (recv_buf (refilled d s)) = length (recv_buf s).
Proof. intros Hd. cbn. rewrite length_app, length_drop. lia. Qed.

(** Which of the three cases a datagram is. *)
Lemma handle_numbered (peer : SocketAddr) (id no : u32) (payload : list byte) (s : UdpListener) :
  let d := numbered id no payload in
  length d <= length (recv_buf s) ->
  handle_datagram endpoint peer d s =
  (if bool_decide (no = to_uint 32 0) then start_id id
   else if bool_decide (no = to_uint 32 (2 ^ 32 - 1)) then end_id endpoint id peer
   else save_part id (length d)) (refilled d s).
Proof.
  intros d Hd. unfold handle_datagram, recv_from.
  rewrite run_assoc, run_gets, run_assoc, run_modify, run_ret, run_gets. cbn [recv_buf].
  rewrite (take_ge d) by done. rewrite (Nat.min_l (length d)) by done.
  fold (refilled d s). assert (length d = 8 + length payload) as Hl by apply length_numbered.
  rewrite length_app, length_drop, (proj2 (Nat.ltb_ge _ _)) by lia.
  set (rest := drop (length d) (recv_buf s)).
  assert (d ++ rest = to_be_bytes id ++ to_be_bytes no ++ payload ++ rest) as ->
    by (unfold d, numbered; by rewrite <- !app_assoc).
  rewrite slice_prefix by (by rewrite length_to_be_bytes). cbn [mbind res_bind].
  unfold bytes_to_u32 at 1. rewrite read_be_to_be by done. cbn [of_res]. rewrite run_ret.
  rewrite slice_app by (by rewrite ?length_to_be_bytes). cbn [of_res]. rewrite run_ret.
  change (replicate 4 x00) with (to_be_bytes (to_uint 32 0)).
  change (replicate 4 xff) with (to_be_bytes (to_uint 32 (2 ^ 32 - 1))).
  assert (forall a b : u32, bool_decide (to_be_bytes a = to_be_bytes b) = bool_decide (a = b)) as Hb.
  { intros a b. apply bool_decide_ext. split; [apply to_be_bytes_inj|by intros ->]. }
  by rewrite !Hb.
Qed.

Definition part_saved (id no : u32) (payload : list byte) (s : UdpListener) : UdpListener :=
  set_recv_buffers
    (match recv_buffers s !! id with
     | Some (size, body) => <[id := (size, btree_insert no payload body)]> (recv_buffers s)
     | None => <[id := (to_uint 32 0, btree_insert no payload [])]> (recv_buffers s)
     end) s.

Lemma handle_part (peer : SocketAddr) (id no : u32) (payload : list byte) (s : UdpListener) :
  let d := numbered id no payload in
  part_no no -> length d <= length (recv_buf s) ->
  handle_datagram endpoint peer d s = (Done (), part_saved id no payload (refilled d s)).
Proof.
  intros d [H0 H1] Hd. subst d. rewrite handle_numbered by done. rewrite !bool_decide_false by done.
  unfold save_part. rewrite run_gets. cbn [recv_buf refilled].
  rewrite length_numbered. set (rest := drop _ _). unfold numbered. rewrite <- !app_assoc.
  rewrite (slice_app 4 8) by (by rewrite ?length_to_be_bytes). cbn [mbind res_bind].
  unfold bytes_to_u32. rewrite read_be_to_be by done. cbn [of_res]. rewrite run_ret.
  rewrite app_assoc, slice_app; [|by rewrite length_app, !length_to_be_bytes|done].
  cbn [of_res]. rewrite run_ret. done.
Qed.

(** A head makes an entry, or sets the size of the entry there is. *)
Lemma handle_head (peer : SocketAddr) (id : u32) (payload : list byte) (s : UdpListener) :
  let d := numbered id (to_uint 32 0) payload in
  length d <= length (recv_buf s) -> 12 <= length (recv_buf s) ->
  exists size, handle_datagram endpoint peer d s =
    (Done (), set_recv_buffers
       (<[id := (size, match recv_buffers s !! id with Some (_, body) => body | None => [] end)]>
          (recv_buffers s)) (refilled d s)).
Proof.
  intros d Hd H12. subst d. rewrite handle_numbered by done. rewrite bool_decide_true by done.
  unfold start_id. rewrite run_gets, length_refilled by done. rewrite (proj2 (Nat.ltb_ge _ _)) by lia.
  rewrite slice_ok by (rewrite ?length_refilled by done; lia). cbn [of_res]. rewrite run_ret.
  destruct (read_be_ok 32 (take (12 - 8) (drop 8 (recv_buf (refilled (numbered id (to_uint 32 0) payload) s)))))
    as (size & E & _); [done| |].
  { rewrite length_take_le; [done|]. rewrite length_drop, length_refilled by done. lia. }
  unfold bytes_to_u32. rewrite E. cbn [of_res]. rewrite run_ret. exists size. unfold modify.
  change (recv_buffers (refilled _ s)) with (recv_buffers s). by destruct (recv_buffers s !! id) as [[]|].
Qed.

(** A tail takes the entry away and sends its parts on, in the order of their
    numbers. *)
Lemma handle_tail (peer : SocketAddr) (id : u32) (payload : list byte) (s : UdpListener) :
  let d := numbered id (to_uint 32 (2 ^ 32 - 1)) payload in
  length d <= length (recv_buf s) ->
  handle_datagram endpoint peer d s =
    (Done (), mkUdpListener (delete id (recv_buffers s)) (recv_buf (refilled d s))
       (delivered s ++ match recv_buffers s !! id, streams endpoint !! peer with
                       | Some (_, body), Some sender => [(sender, concat (map snd body))]
                       | _, _ => []
                       end)).
Proof.
  intros d Hd. subst d. rewrite handle_numbered by done. rewrite bool_decide_false, bool_decide_true by done.
  unfold end_id. rewrite run_gets. cbn [recv_buffers refilled].
  destruct (recv_buffers s !! id) as [[size body]|] eqn:E.
  - rewrite run_modify. destruct (streams endpoint !! peer); cbn; by rewrite ?app_nil_r.
  - by rewrite app_nil_r, delete_id by done.
Qed.

End OneDatagram.

(** ** Putting a message together *)

Lemma parts_ordered (bytes : list byte) :
  (Z.of_nat (part_count bytes) < 2 ^ 32)%Z -> ordered (parts bytes).
Proof.
  unfold parts. generalize (part_count bytes) as n. intros n Hn.
  assert (forall a m, a + m <= n -> ordered (map (part bytes) (seq a m))) as H; [|by apply (H 0 n)].
  intros a m. revert a. induction m as [|m IH]; intros a Ha; cbn [seq map]; constructor; [apply IH; lia|].
  apply Forall_forall. intros p (i & -> & Hi%elem_of_seq)%list_elem_of_fmap.
  unfold key_lt. rewrite !part_number by lia. lia.
Qed.

Lemma parts_part_no (bytes : list byte) (p : u32 * list byte) :
  (Z.of_nat (part_count bytes) < 2 ^ 32 - 1)%Z -> p ∈ parts bytes -> part_no p.1.
Proof.
  intros Hn (i & -> & Hi%elem_of_seq)%list_elem_of_fmap.
  pose proof (part_number bytes i ltac:(lia)) as Hu.
  assert (uval (to_uint 32 0) = 0)%Z as E0 by done.
  assert (uval (to_uint 32 (2 ^ 32 - 1)) = 2 ^ 32 - 1)%Z as E1 by done.
  split; intros E; rewrite E, ?E0, ?E1 in Hu; lia.
Qed.

Lemma parts_same_number (bytes : list byte) (p q : u32 * list byte) :
  (Z.of_nat (part_count bytes) < 2 ^ 32)%Z -> p ∈ parts bytes -> q ∈ parts bytes -> p.1 = q.1 -> p = q.
Proof.
  intros Hn (i & -> & Hi%elem_of_seq)%list_elem_of_fmap (j & -> & Hj%elem_of_seq)%list_elem_of_fmap E.
  apply (f_equal uval) in E. rewrite !part_number in E by lia. by replace j with i by lia.
Qed.

Lemma parts_length (bytes : list byte) (p : u32 * list byte) : p ∈ parts bytes -> length p.2 <= UDP_UINT.
Proof. intros (i & -> & _)%list_elem_of_fmap. unfold part, snd. rewrite length_take. lia. Qed.

Section Reassembly.
Context (endpoint : UdpEndpoint) (key size : u32) (bytes : list byte).
Context (Hcount : (Z.of_nat (part_count bytes) < 2 ^ 32 - 1)%Z).

(** What may arrive while the message is on its way: datagrams of any other
    message, and the head and the parts of this one. *)
Definition expected (d : list byte) : Prop :=
  8 <= length d <= 8 + UDP_UINT /\
  (take 4 d = to_be_bytes key ->
   d = head_datagram key size \/ exists p, p ∈ parts bytes /\ d = part_bytes key p).

(** The parts that arrived. *)
Definition arrived (ds : list (list byte)) : BTreeMap :=
  filter (fun p => part_bytes key p ∈ ds) (parts bytes).

Definition body_of (entry : option (u32 * BTreeMap)) : BTreeMap :=
  match entry with Some (_, body) => body | None => [] end.

Definition collecting (ds : list (list byte)) (s : UdpListener) : Prop :=
  length (recv_buf s) = 8 + UDP_UINT /\ body_of (recv_buffers s !! key) = arrived ds /\
  (head_datagram key size ∈ ds -> is_Some (recv_buffers s !! key)).

Lemma part_bytes_inj (p q : u32 * list byte) : part_bytes key p = part_bytes key q -> p = q.
Proof.
  unfold part_bytes. intros (_ & E1 & E2)%numbered_inj. destruct p, q. cbn [fst snd] in E1, E2. by subst.
Qed.

Lemma arrived_ordered (ds : list (list byte)) : ordered (arrived ds).
Proof.
  assert (ordered (parts bytes)) as Ho by (apply parts_ordered; lia). unfold arrived.
  induction Ho as [|p l Ho IH Hp]; [constructor|]. rewrite filter_cons. case_decide; [|done].
  constructor; [done|]. rewrite Forall_forall in Hp |- *. intros q [_ Hq]%list_elem_of_filter. by apply Hp.
Qed.

Lemma arrived_other (ds : list (list byte)) (d : list byte) :
  (forall p, p ∈ parts bytes -> d <> part_bytes key p) -> arrived (ds ++ [d]) = arrived ds.
Proof.
  intros Hd. apply ordered_ext; [apply arrived_ordered..|]. intros p. unfold arrived.
  rewrite !list_elem_of_filter, elem_of_app, list_elem_of_singleton.
  split; [|tauto]. intros [[?|E] Hp]; [done|]. by destruct (Hd p Hp).
Qed.

Lemma arrived_part (ds : list (list byte)) (q : u32 * list byte) :
  q ∈ parts bytes -> arrived (ds ++ [part_bytes key q]) = btree_insert q.1 q.2 (arrived ds).
Proof.
  intros Hq. apply ordered_ext; [apply arrived_ordered|apply btree_insert_ordered, arrived_ordered|].
  intros r. rewrite elem_of_btree_insert by apply arrived_ordered. unfold arrived.
  rewrite !list_elem_of_filter, elem_of_app, list_elem_of_singleton, <- surjective_pairing.
  split.
  - intros [[Hr|E] Hin].
    + destruct (decide (r.1 = q.1)) as [E|E]; [|tauto]. left. apply (parts_same_number bytes); [lia|done..].
    + left. by apply part_bytes_inj.
  - intros [->|(Hne & Hr & Hin)]; tauto.
Qed.

(** Every datagram that may arrive is absorbed. *)
Lemma collecting_step (ds : list (list byte)) (s : UdpListener) (peer : SocketAddr) (d : list byte) :
  collecting ds s -> expected d ->
  exists s', handle_datagram endpoint peer d s = (Done (), s') /\ collecting (ds ++ [d]) s'.
Proof.
  intros (Hbuf & Hbody & Hhead) [Hlen Hd]. destruct (numbered_form d) as (id & no & payload & ->); [lia|].
  assert (length (numbered id no payload) <= length (recv_buf s)) as Hfit by lia.
  pose proof (length_refilled (numbered id no payload) s Hfit) as Hbuf'. rewrite Hbuf in Hbuf'.
  destruct (decide (id = key)) as [->|Hid].
  - destruct Hd as [E|(q & Hq & E)]; [unfold numbered; by rewrite take_app_length'|..].
    + rewrite head_numbered in E. apply numbered_inj in E as (_ & -> & ->).
      destruct (handle_head endpoint peer key (to_be_bytes size) s) as [size' E]; [done|rewrite Hbuf; unfold UDP_UINT; lia|].
      eexists. split; [exact E|]. split_and!; [done| |intros _; cbn [recv_buffers set_recv_buffers]; by rewrite lookup_insert_eq].
      cbn [recv_buffers set_recv_buffers]. rewrite lookup_insert_eq. cbn [body_of].
      rewrite arrived_other; [done|]. intros p Hp. unfold part_bytes. intros (_ & E0 & _)%numbered_inj.
      by apply (parts_part_no bytes p Hcount) in Hp as [[] _].
    + unfold part_bytes in E. apply numbered_inj in E as (_ & -> & ->).
      rewrite handle_part by (done || by apply (parts_part_no bytes)).
      eexists. split; [done|]. unfold part_saved. change (recv_buffers (refilled _ s)) with (recv_buffers s).
      split_and!; [done| |intros _; destruct (recv_buffers s !! key) as [[]|];
        cbn [recv_buffers set_recv_buffers]; by rewrite lookup_insert_eq].
      change (numbered key q.1 q.2) with (part_bytes key q). rewrite arrived_part, <- Hbody by done.
      destruct (recv_buffers s !! key) as [[]|]; cbn [recv_buffers set_recv_buffers]; by rewrite lookup_insert_eq.
  - assert (forall b, b !! key = recv_buffers s !! key ->
      forall l, collecting (ds ++ [numbered id no payload])
        (mkUdpListener b (recv_buf (refilled (numbered id no payload) s)) l)) as Hkeep.
    { intros b Hb l. split; [done|]. cbn [recv_buffers]. rewrite Hb. split.
      - rewrite arrived_other; [done|]. intros p _. unfold part_bytes. by intros (E & _ & _)%numbered_inj.
      - rewrite elem_of_app, list_elem_of_singleton, head_numbered. intros [?|E]; [auto|].
        by apply numbered_inj in E as [? _]. }
    destruct (decide (no = to_uint 32 0)) as [->|H0]; [|destruct (decide (no = to_uint 32 (2 ^ 32 - 1))) as [->|H1]].
    + destruct (handle_head endpoint peer id payload s) as [size' E]; [done|rewrite Hbuf; unfold UDP_UINT; lia|].
      eexists. split; [exact E|]. apply Hkeep. by rewrite lookup_insert_ne.
    + rewrite handle_tail by done. eexists. split; [done|]. apply Hkeep. by rewrite lookup_delete_ne.
    + rewrite handle_part by done. eexists. split; [done|]. unfold part_saved.
      apply Hkeep. cbn [recv_buffers refilled]. destruct (recv_buffers s !! id) as [[]|]; by rewrite lookup_insert_ne.
Qed.

Lemma collecting_run (ds : list (SocketAddr * list byte)) (seen : list (list byte)) (s : UdpListener) :
  collecting seen s -> Forall expected (map snd ds) ->
  exists s', run_listen endpoint ds s = (Done (), s') /\ collecting (seen ++ map snd ds) s'.
Proof.
  revert seen s. induction ds as [|[peer d] ds IH]; intros seen s Hs Hds.
  { exists s. by rewrite app_nil_r. }
  apply Forall_cons in Hds as [Hd Hds].
  destruct (collecting_step seen s peer d Hs Hd) as (s1 & E & Hs1).
  destruct (IH _ s1 Hs1 Hds) as (s2 & E2 & Hs2). exists s2.
  unfold run_listen in *. cbn [for_each]. rewrite (run_done _ _ _ _ _ E), E2. split; [done|].
  by rewrite <- app_assoc in Hs2.
Qed.

(** Then the tail: what arrived is taken out, for the stream of the peer if it has one. *)
Lemma collected (ds : list (SocketAddr * list byte)) (peer : SocketAddr) (s : UdpListener) :
  length (recv_buf s) = 8 + UDP_UINT -> recv_buffers s !! key = None -> Forall expected (map snd ds) ->
  head_datagram key size ∈ map snd ds \/ arrived (map snd ds) <> [] ->
  exists s1 size' s', run_listen endpoint ds s = (Done (), s1) /\
    recv_buffers s1 !! key = Some (size', arrived (map snd ds)) /\
    run_listen endpoint (ds ++ [(peer, tail_datagram key)]) s = (Done (), s') /\
    recv_buffers s' !! key = None /\
    delivered s' = delivered s1 ++
      match streams endpoint !! peer with
      | Some sender => [(sender, concat (map snd (arrived (map snd ds))))]
      | None => []
      end.
Proof.
  intros Hbuf Hnone Hds Hsome.
  destruct (collecting_run ds [] s) as (s1 & E & Hbuf1 & Hbody & Hhead); [|done|].
  { split; [done|]. rewrite Hnone. split; [|by intros ?%elem_of_nil]. symmetry.
    apply elem_of_nil_inv. by intros p [?%elem_of_nil _]%list_elem_of_filter. }
  assert (is_Some (recv_buffers s1 !! key)) as [[size' body] Es].
  { destruct Hsome as [?|Hne]; [by apply Hhead|]. cbn [app] in Hbody. rewrite <- Hbody in Hne.
    by destruct (recv_buffers s1 !! key) as [[]|]. }
  rewrite Es in Hbody. cbn [body_of app] in Hbody.
  eexists s1, size', _. split; [done|]. split; [by rewrite Es, Hbody|]. split.
  { unfold run_listen in *. rewrite (for_each_snoc _ _ _ _ _ E), tail_numbered.
    by rewrite handle_tail by (rewrite length_numbered, Hbuf1; unfold UDP_UINT; simpl; lia). }
  cbn [delivered recv_buffers]. rewrite lookup_delete_eq, Es, Hbody. by destruct (streams endpoint !! peer).
Qed.

Lemma filter_Forall {A : Type} (P : A -> Prop) `{!forall x, Decision (P x)} (l : list A) :
  Forall P l -> filter P l = l.
Proof. induction 1 as [|x l Hx _ IH]; [done|]. by rewrite filter_cons_True, IH. Qed.

(** The parts but one. *)
Definition but_one (i : nat) : BTreeMap :=
  map (part bytes) (seq 0 i) ++ map (part bytes) (seq (S i) (part_count bytes - S i)).

Lemma parts_split_at (i : nat) : i < part_count bytes ->
  parts bytes = map (part bytes) (seq 0 i) ++ part bytes i :: map (part bytes) (seq (S i) (part_count bytes - S i)).
Proof.
  intros Hi. unfold parts. replace (part_count bytes) with (i + S (part_count bytes - S i)) at 1 by lia.
  by rewrite seq_app, map_app.
Qed.

Lemma arrived_but_one (i : nat) (ds : list (list byte)) :
  i < part_count bytes -> (forall j, j < part_count bytes -> part_bytes key (part bytes j) ∈ ds <-> j <> i) ->
  arrived ds = but_one i.
Proof.
  intros Hi Hall. unfold arrived. rewrite (parts_split_at i Hi), filter_app, filter_cons_False;
    [|intros Hin; by apply (Hall i Hi) in Hin].
  assert (forall a m, a + m <= part_count bytes -> (i < a \/ a + m <= i) ->
    filter (fun p => part_bytes key p ∈ ds) (map (part bytes) (seq a m)) = map (part bytes) (seq a m)) as Hk.
  { intros a m Ha Hai. apply filter_Forall, Forall_forall. intros p (j & -> & Hj%elem_of_seq)%list_elem_of_fmap.
    apply Hall; lia. }
  by rewrite !Hk by lia.
Qed.

Lemma concat_but_one (i : nat) : i < part_count bytes ->
  concat (map snd (but_one i)) = take (UDP_UINT * i) bytes ++ drop (UDP_UINT * S i) bytes.
Proof.
  intros Hi. unfold but_one. rewrite map_app, concat_app, concat_parts_upto. f_equal.
  apply (app_inv_head (take (UDP_UINT * S i) bytes)). rewrite take_drop.
  rewrite <- concat_parts_upto, <- concat_app, <- map_app, <- map_app.
  rewrite <- (seq_app (S i) _ 0). replace (S i + (part_count bytes - S i)) with (part_count bytes) by lia.
  apply concat_parts.
Qed.

End Reassembly.

(** The table of streams is empty when the endpoint starts and no code adds to it,
    so whatever arrives, no stream gets a message. *)
Lemma udp_endpoint_delivers_nothing (endpoint : UdpEndpoint) (ds : list (SocketAddr * list byte)) (s : UdpListener) :
  UdpEndpoint_start true = Ok endpoint ->
  delivered (run_listen endpoint ds s).2 = delivered s.
Proof.
  intros [= <-]. assert (keeps (fun s' => delivered s' = delivered s) (run_listen (mkUdpEndpoint ∅) ds)) as Hk;
    [|by apply Hk].
  unfold run_listen, handle_datagram, recv_from, start_id, end_id, save_part. task.
  all: try by apply keeps_modify.
Qed.

(** C29: putting a message together.  Whatever the order in which the head and
    the parts of a message arrive, repeated or mixed with the datagrams of other
    messages from anyone, once all its parts are there the buffer of the listener holds
    exactly the message.  When its tail comes after them the entry is taken out of the
    buffer and the message goes to the stream of the sender of the tail, if the
    endpoint has one for it.  The endpoint that [start] makes has none for anyone and
    no code adds one, so there the message that was put together is dropped and
    nothing is delivered at all. *)
Theorem udp_reassembly (endpoint : UdpEndpoint) (key size : u32) (bytes : list byte)
    (ds : list (SocketAddr * list byte)) (peer : SocketAddr) (s : UdpListener) :
  (Z.of_nat (part_count bytes) < 2 ^ 32 - 1)%Z ->
  length (recv_buf s) = 8 + UDP_UINT -> recv_buffers s !! key = None ->
  Forall (expected key size bytes) (map snd ds) ->
  (forall p, p ∈ parts bytes -> part_bytes key p ∈ map snd ds) ->
  exists s1 size' body s',
    run_listen endpoint ds s = (Done (), s1) /\
    recv_buffers s1 !! key = Some (size', body) /\ concat (map snd body) = bytes /\
    run_listen endpoint (ds ++ [(peer, tail_datagram key)]) s = (Done (), s') /\
    recv_buffers s' !! key = None /\
    delivered s' = delivered s1 ++
      match streams endpoint !! peer with Some sender => [(sender, bytes)] | None => [] end /\
    (UdpEndpoint_start true = Ok endpoint -> delivered s' = delivered s).
Proof.
  intros Hc Hbuf Hnone Hds Hall.
  assert (arrived key bytes (map snd ds) = parts bytes) as Ea.
  { apply ordered_ext; [by apply arrived_ordered|apply parts_ordered; lia|].
    intros p. unfold arrived. rewrite list_elem_of_filter. split; [by intros [_ ?]|auto]. }
  destruct (collected endpoint key size bytes Hc ds peer s) as (s1 & size' & s' & E1 & Hb & E & Hk & Hd); try done.
  { right. rewrite Ea. unfold parts, part_count. by rewrite Nat.add_comm. }
  rewrite Ea in Hb, Hd. rewrite concat_parts in Hd.
  exists s1, size', (parts bytes), s'. split_and!; try done; [apply concat_parts|].
  intros Hstart. apply (udp_endpoint_delivers_nothing endpoint (ds ++ [(peer, tail_datagram key)]) s) in Hstart.
  by rewrite E in Hstart.
Qed.

(** A message of 541 bytes whose two parts arrive in the wrong order, before the
    head, with a datagram of another message between them. *)
Definition toy_udp_peer : SocketAddr := SockV4 (arr_fill 4 x7f) (to_uint 16 9).
Definition toy_udp_endpoint : UdpEndpoint := mkUdpEndpoint {[ toy_udp_peer := 5%N ]}.
Definition toy_udp_bytes : list byte := replicate 540 x41 ++ [x42].
Definition toy_udp_key : u32 := to_uint 32 7.
Definition toy_udp_datagrams (lost : bool) : list (SocketAddr * list byte) :=
  (if lost then [] else [(toy_udp_peer, part_bytes toy_udp_key (to_uint 32 2, [x42]))]) ++
  [(toy_udp_peer, numbered (to_uint 32 8) (to_uint 32 1) [x43]);
   (toy_udp_peer, part_bytes toy_udp_key (to_uint 32 1, replicate 540 x41));
   (toy_udp_peer, head_datagram toy_udp_key (to_uint 32 541))].

Lemma toy_udp_expected (lost : bool) :
  Forall (expected toy_udp_key (to_uint 32 541) toy_udp_bytes) (map snd (toy_udp_datagrams lost)).
Proof.
  assert (parts toy_udp_bytes = [(to_uint 32 1, replicate 540 x41); (to_uint 32 2, [x42])]) as Hp
    by (vm_compute; reflexivity).
  assert (forall d : list byte, (8 <=? length d) && (length d <=? 548) = true -> 8 <= length d <= 8 + UDP_UINT) as Hl.
  { intros d. rewrite !andb_true_iff, !Nat.leb_le. change (8 + UDP_UINT) with 548. lia. }
  unfold toy_udp_datagrams. rewrite map_app. apply Forall_app. split.
  - destruct lost; [constructor|]. apply Forall_singleton. split; [apply Hl; by vm_compute|].
    intros _. right. eexists. split; [|done]. rewrite Hp. repeat (apply elem_of_cons; (by left) || right).
  - repeat (apply Forall_cons; split); [..|constructor]; (split; [apply Hl; by vm_compute|]).
    + intros E. vm_compute in E. discriminate E.
    + intros _. right. eexists. split; [|done]. rewrite Hp. repeat (apply elem_of_cons; (by left) || right).
    + intros _. by left.
Qed.

Lemma udp_reassembly_witness :
  exists s1 size' body s',
    run_listen (mkUdpEndpoint ∅) (toy_udp_datagrams false) UdpListener_init = (Done (), s1) /\
    recv_buffers s1 !! toy_udp_key = Some (size', body) /\ concat (map snd body) = toy_udp_bytes /\
    run_listen (mkUdpEndpoint ∅) (toy_udp_datagrams false ++ [(toy_udp_peer, tail_datagram toy_udp_key)])
      UdpListener_init = (Done (), s') /\
    recv_buffers s' !! toy_udp_key = None /\ delivered s' = [].
Proof.
  destruct (udp_reassembly (mkUdpEndpoint ∅) toy_udp_key (to_uint 32 541) toy_udp_bytes
    (toy_udp_datagrams false) toy_udp_peer UdpListener_init) as (s1 & size' & body & s' & H1 & H2 & H3 & H4 & H5 & _ & H7).
  - vm_compute. reflexivity.
  - vm_compute. reflexivity.
  - vm_compute. reflexivity.
  - apply toy_udp_expected.
  - assert (parts toy_udp_bytes = [(to_uint 32 1, replicate 540 x41); (to_uint 32 2, [x42])]) as ->
      by (vm_compute; reflexivity).
    intros p [->|[->|[]%elem_of_nil]%elem_of_cons]%elem_of_cons; 
      unfold toy_udp_datagrams; cbn [map app snd]; repeat (apply elem_of_cons; (by left) || right).
  - exists s1, size', body, s'. exact (conj H1 (conj H2 (conj H3 (conj H4 (conj H5 (H7 eq_refl)))))).
Defined.

(** A lost part is not noticed.  When every part but one arrives, the listener
    still takes a message out at the tail, for the stream of the peer: the one
    that was sent, with the bytes of the lost part missing; the size in the head is
    never compared. *)
Theorem udp_lost_part_undetected (endpoint : UdpEndpoint) (key size : u32) (bytes : list byte) (i : nat)
    (ds : list (SocketAddr * list byte)) (peer : SocketAddr) (s : UdpListener) :
  (Z.of_nat (part_count bytes) < 2 ^ 32 - 1)%Z ->
  length (recv_buf s) = 8 + UDP_UINT -> recv_buffers s !! key = None ->
  Forall (expected key size bytes) (map snd ds) -> head_datagram key size ∈ map snd ds ->
  i < part_count bytes ->
  (forall j, j < part_count bytes -> part_bytes key (part bytes j) ∈ map snd ds <-> j <> i) ->
  exists s1 s', run_listen endpoint ds s = (Done (), s1) /\
    run_listen endpoint (ds ++ [(peer, tail_datagram key)]) s = (Done (), s') /\
    delivered s' = delivered s1 ++
      match streams endpoint !! peer with
      | Some sender => [(sender, take (UDP_UINT * i) bytes ++ drop (UDP_UINT * S i) bytes)]
      | None => []
      end.
Proof.
  intros Hc Hbuf Hnone Hds Hhead Hi Hall.
  destruct (collected endpoint key size bytes Hc ds peer s) as (s1 & size' & s' & E1 & _ & E & _ & Hd); try done; [by left|].
  exists s1, s'. split_and!; [done|done|]. by rewrite Hd, (arrived_but_one key bytes i), concat_but_one.
Qed.

Lemma udp_lost_part_undetected_witness :
  exists s1 s', run_listen toy_udp_endpoint (toy_udp_datagrams true) UdpListener_init = (Done (), s1) /\
    run_listen toy_udp_endpoint (toy_udp_datagrams true ++ [(toy_udp_peer, tail_datagram toy_udp_key)])
      UdpListener_init = (Done (), s') /\
    delivered s' = delivered s1 ++ [(5%N, replicate 540 x41)].
Proof.
  apply (udp_lost_part_undetected toy_udp_endpoint toy_udp_key (to_uint 32 541) toy_udp_bytes 1
    (toy_udp_datagrams true) toy_udp_peer UdpListener_init).
  - vm_compute. reflexivity.
  - vm_compute. reflexivity.
  - vm_compute. reflexivity.
  - apply toy_udp_expected.
  - unfold toy_udp_datagrams. cbn [map app snd]. repeat (apply elem_of_cons; (by left) || right).
  - vm_compute. repeat constructor.
  - assert (part_count toy_udp_bytes = 2) as -> by (vm_compute; reflexivity).
    intros [|[|j]] Hj; [| |lia].
    + split; [done|]. intros _. apply list_elem_of_In. right. left. vm_compute. reflexivity.
    + split; [|done]. intros Hin%list_elem_of_In. vm_compute in Hin. by destruct Hin as [E|[E|[E|[]]]].
Defined.

(** ** Datagrams that are too short *)

Lemma read_u32_ok (a : nat) (l : list byte) :
  a + 4 <= length l -> exists u, (slice a (a + 4) l ≫= bytes_to_u32) = Ok u /\ to_be_bytes u = take 4 (drop a l).
Proof.
  intros Hl. rewrite slice_ok by lia. replace (a + 4 - a) with 4 by lia. cbn [mbind res_bind].
  apply read_be_ok; [done|]. by rewrite length_take_le by (rewrite length_drop; lia).
Qed.

Lemma start_id_done (id : u32) (s : UdpListener) :
  12 <= length (recv_buf s) -> (start_id id s).1 = Done ().
Proof.
  intros Hl. unfold start_id. rewrite run_gets, (proj2 (Nat.ltb_ge _ _)) by lia.
  destruct (read_u32_ok 8 (recv_buf s)) as (u & E & _); [lia|]. cbn [Nat.add] in E.
  rewrite slice_ok in E |- * by lia. cbn [of_res mbind res_bind] in *. rewrite run_ret, E. done.
Qed.

Lemma end_id_done (endpoint : UdpEndpoint) (id : u32) (peer : SocketAddr) (s : UdpListener) :
  (end_id endpoint id peer s).1 = Done ().
Proof.
  unfold end_id. rewrite run_gets. destruct (recv_buffers s !! id) as [[]|]; [|done].
  rewrite run_modify. by destruct (streams endpoint !! peer).
Qed.

Lemma save_part_crash (id : u32) (n : nat) (s : UdpListener) :
  8 <= length (recv_buf s) -> n <= length (recv_buf s) -> (save_part id n s).1 = Crash <-> n < 8.
Proof.
  intros Hl Hn. unfold save_part. rewrite run_gets.
  destruct (read_u32_ok 4 (recv_buf s)) as (u & E & _); [lia|]. cbn [Nat.add] in E. rewrite E.
  cbn [of_res]. rewrite run_ret. unfold slice.
  rewrite (proj2 (Nat.leb_le n _)) by done. destruct (Nat.leb_spec 8 n) as [H8|H8]; cbn [andb of_res].
  - rewrite run_ret. split; [done|lia].
  - done.
Qed.

(** A datagram shorter than eight bytes ends the listener.  The check for it
    looks at the length of the buffer, not of the datagram, so what is left in the
    buffer from earlier datagrams decides: the task panics exactly when the datagram
    has less than eight bytes and the buffer then names neither a head nor a tail. *)
Theorem udp_short_datagram_panics (endpoint : UdpEndpoint) (peer : SocketAddr) (d : list byte) (s : UdpListener) :
  length (recv_buf s) = 8 + UDP_UINT ->
  let kind := take 4 (drop 4 (take (8 + UDP_UINT) d ++ drop (length d) (recv_buf s))) in
  (handle_datagram endpoint peer d s).1 = Crash <->
  length d < 8 /\ kind <> replicate 4 x00 /\ kind <> replicate 4 xff.
Proof.
  change (8 + UDP_UINT) with 548. intros Hbuf kind. unfold handle_datagram, recv_from.
  rewrite run_assoc, run_gets, run_assoc, run_modify, run_ret, run_gets. cbn [recv_buf]. rewrite Hbuf.
  set (buf := take 548 d ++ drop (length d) (recv_buf s)) in *.
  assert (length buf = 548) as Hlen.
  { subst buf. rewrite length_app, length_take, length_drop, Hbuf. lia. }
  rewrite Hlen. change (548 <? 8) with false. cbv iota.
  destruct (read_u32_ok 0 buf) as (id & E & _); [lia|]. cbn [Nat.add] in E. rewrite E.
  rewrite slice_ok by lia. cbn [of_res]. rewrite !run_ret. change (take (8 - 4) (drop 4 buf)) with kind.
  destruct (bool_decide_reflect (kind = replicate 4 x00)) as [E0|E0];
    [|destruct (bool_decide_reflect (kind = replicate 4 xff)) as [E1|E1]].
  - rewrite start_id_done by (cbn [recv_buf]; lia). split; [done|tauto].
  - rewrite end_id_done. split; [done|tauto].
  - rewrite save_part_crash by (cbn [recv_buf]; lia). split; [|lia]. intros Hd. split; [lia|done].
Qed.

(** After any part has arrived, an empty datagram is enough. *)
Lemma udp_short_datagram_panics_witness :
  (handle_datagram toy_udp_endpoint toy_udp_peer []
    (handle_datagram toy_udp_endpoint toy_udp_peer (part_bytes toy_udp_key (to_uint 32 1, [x41]))
       UdpListener_init).2).1 = Crash.
Proof.
  apply udp_short_datagram_panics.
  - vm_compute. reflexivity.
  - split; [|split]; vm_compute; [repeat constructor|discriminate|discriminate].
Defined.

(** ** What is sent *)

Section Sent.
Context (send_ok : nat -> bool) (peer : SocketAddr).

(** All datagrams of a message. *)
Definition datagrams (key : u32) (bytes : list byte) : list (list byte) :=
  head_datagram key (to_uint 32 (Z.of_nat (length bytes))) ::
  map (part_bytes key) (parts bytes) ++ [tail_datagram key].

(** Sending stops at the first failure. *)
Lemma send_datagrams_run (l : list (list byte)) (s : UdpSender) :
  exists n, n <= length l /\
    for_each l (send_to send_ok peer) s =
      (if n =? length l then Done () else Fail "send_to",
       mkUdpSender (send_buffers s) (sent s ++ map (pair peer) (take n l))).
Proof.
  revert s. induction l as [|d l IH]; intros s.
  { exists 0. split; [done|]. cbn. rewrite app_nil_r. by destruct s. }
  assert (send_to send_ok peer d s = if send_ok (length (sent s))
    then (Done (), mkUdpSender (send_buffers s) (sent s ++ [(peer, d)])) else (Fail "send_to", s)) as Ed.
  { unfold send_to. rewrite run_gets. by destruct (send_ok _). }
  cbn [for_each]. destruct (send_ok (length (sent s))).
  - rewrite (run_done _ _ _ _ _ Ed). destruct (IH (mkUdpSender (send_buffers s) (sent s ++ [(peer, d)]))) as (n & Hn & ->).
    exists (S n). split; [cbn; lia|]. cbn [length Nat.eqb take map send_buffers sent]. by rewrite <- app_assoc.
  - exists 0. split; [lia|]. rewrite (run_failed _ _ _ _ _ Ed). cbn. rewrite app_nil_r. by destruct s.
Qed.

Lemma send_message_run (key : u32) (bytes : list byte) (s : UdpSender) :
  (Z.of_nat (part_count bytes) < 2 ^ 32)%Z ->
  send_message send_ok peer key bytes s =
  for_each (datagrams key bytes) (send_to send_ok peer)
    (mkUdpSender (<[key := (to_uint 32 (Z.of_nat (length bytes)), parts bytes)]> (send_buffers s)) (sent s)).
Proof.
  intros Hc. unfold send_message. rewrite (split_message_parts bytes Hc).
  rewrite run_modify, run_gets. cbn [send_buffers]. rewrite lookup_insert_eq. cbn [unwrap of_res]. rewrite run_ret.
  cbn [fst snd]. unfold datagrams. cbn [for_each]. apply run_ext; [done|]. intros _ s1.
  rewrite for_each_app. apply run_ext; [rewrite for_each_map|intros _ s2; by rewrite for_each_one].
  apply for_each_ext, Forall_forall. intros [k v] Hp s2. apply parts_length in Hp. cbn [snd] in Hp.
  unfold part_datagram. rewrite (proj2 (Nat.leb_le _ _)) by done. cbn [of_res]. by rewrite run_ret.
Qed.

Lemma datagrams_fit (key : u32) (bytes : list byte) :
  Forall (fun d => 8 <= length d <= 8 + UDP_UINT) (datagrams key bytes).
Proof.
  assert (12 <= 8 + UDP_UINT) as H12 by (unfold UDP_UINT; lia).
  unfold datagrams. constructor; [|apply Forall_app; split; [|constructor; [|constructor]]].
  - rewrite head_numbered, length_numbered, length_to_be_bytes. change (width_bytes 32) with 4. lia.
  - apply Forall_forall. intros d (p & -> & Hp%parts_length)%list_elem_of_fmap.
    unfold part_bytes. rewrite length_numbered. lia.
  - rewrite tail_numbered, length_numbered. cbn [length]. lia.
Qed.

(** C30: what is sent.  Sending a message neither panics nor hangs, whichever calls
    of [send_to] fail: it sends a prefix of the head, the numbered parts in order and
    the tail, all of them when it ends well, and every datagram has at most 548
    bytes, so that with the UDP and IP headers it fits a packet of 576. *)
Theorem udp_send_bounds (key : u32) (bytes : list byte) (s : UdpSender) :
  (Z.of_nat (part_count bytes) < 2 ^ 32)%Z ->
  exists n s', n <= part_count bytes + 2 /\
    send_message send_ok peer key bytes s =
      (if n =? part_count bytes + 2 then Done () else Fail "send_to", s') /\
    sent s' = sent s ++ map (pair peer) (take n (datagrams key bytes)) /\
    Forall (fun d => length d + 28 <= 576) (datagrams key bytes).
Proof.
  intros Hc. rewrite send_message_run by done.
  destruct (send_datagrams_run (datagrams key bytes) (mkUdpSender (<[key := (to_uint 32 (Z.of_nat (length bytes)), parts bytes)]>
    (send_buffers s)) (sent s))) as (n & Hn & ->).
  assert (length (datagrams key bytes) = part_count bytes + 2) as El.
  { unfold datagrams, parts. cbn [length]. rewrite length_app, !length_map, length_seq. cbn [length]. lia. }
  rewrite El in *. exists n. eexists. split_and!; [done|done|done|].
  eapply Forall_impl; [apply datagrams_fit|]. unfold UDP_UINT. cbn beta. lia.
Qed.

End Sent.

Lemma udp_send_bounds_witness :
  exists n s', n <= 4 /\
    send_message (fun n => n <? 2) toy_udp_peer toy_udp_key toy_udp_bytes (mkUdpSender ∅ []) =
      (if n =? 4 then Done () else Fail "send_to", s') /\
    sent s' = map (pair toy_udp_peer) (take n (datagrams toy_udp_key toy_udp_bytes)).
Proof.
  destruct (udp_send_bounds (fun n => n <? 2) toy_udp_peer toy_udp_key toy_udp_bytes (mkUdpSender ∅ []))
    as (n & s' & H1 & H2 & H3 & _).
  - vm_compute. reflexivity.
  - exists n, s'. exact (conj H1 (conj H2 H3)).
Defined.
